(* ===== verification/_CoqProject ===== *)
-Q . S2P
Prelude.v
Go.v
Redis.v
Keys.v
Shard.v
Identity.v
Scripts.v
Slot.v
Ladder.v
Runs.v
Machine.v
Frame.v
Guarantees.v
Sweeping.v
Turns.v
Replies.v
Float.v
Rounding.v
Config.v
Load.v
Conn.v
Again.v
QueueStore.v
Admission.v
Shares.v
Metrics.v
Refine.v
Clients.v
Cycles.v
Rounds.v
Window.v
Signals.v
Scorer.v
Actuator.v
Botscore.v
Transport.v
Delivery.v
Crypto.v
Embed.v
Challenge.v
Token.v
Http.v
Encode.v
Server.v
Routes.v
Api.v
Gate.v
Orders.v
Shop.v
Process.v
Assembly.v
Surface.v
Stream.v
Sales.v
