(* ===== verification/Prelude.v ===== *)
(** * ShardGate: a verification development (root file)

    ShardGate is a waiting room for a ticket sale.  Buyers enter through a gate that asks for
    a proof of work, wait in one of many shards of a queue kept in Redis, are let into the
    shop as seats are granted, and are watched by a scorer that confines or blocks what looks
    automated.  This library models the program, definition by definition, and proves what
    makes it correct.  This file opens it and holds what every other file shares: Go errors
    and results, decimal text, sums, string lemmas, the tactics and the hint databases.

    ** The parts of the program and the files that model them

    Foundations.  [Go] has the fixed-width integers, durations and instants, the order of
    [range] over a map (class [Ranging]) and the string functions of the standard library the
    program uses; [Float] is binary64 on [SpecFloat], and [Rounding] proves when its arithmetic
    on integers is exact; [Crypto] computes SHA-256, HMAC, hex and base64url; [Redis] is the
    data model of Redis as a class of commands with its laws ([RedisLaws]), with a concrete
    store that satisfies them; [Conn] is a connection: a world with the store, the script
    cache, the faults of the wire, the clock and the source of randomness, a state-and-error
    monad over it, and the script runner of [internal/redisx];
    [Embed] is where its scripts come from: [scripts/lua/lua.go], SHA-1, the package variables
    that read the scripts, and the options of the Redis client.

    The queue.  [Keys] is [internal/keys]; [Shard] is [internal/shard] (identifiers, keyed
    assignment, capacity growth, and the compare-and-swap loop of [Grow] under interleaving);
    [Scripts] transcribes the eleven scripts of [scripts/lua], command for command; [Slot],
    [Ladder] and [Runs] are their theory: the part of the store a shard owns, the abstract
    ladder a token climbs, and runs of scripts and expiries; [Frame] shows that the slots do
    not meet; [QueueStore] is [internal/queue] and [Admission] is [internal/admission] (the
    store, the circuit breaker, the controller).  [Guarantees], [Sweeping] (eviction in the
    long run), [Turns] (admission in the long run), [Replies] (the types of the replies, with
    the string constants of both packages), [Shares] (the division of the seats), [Refine],
    [Clients], [Cycles] and [Rounds] (the controller and the sweeper among the shards of an
    event) and [Identity] hold their properties.

    Detection.  [Window], [Signals], [Scorer] and [Actuator] are [internal/botscore] (with
    the events of [internal/telemetry] and the adaptive difficulty); [Botscore] holds their
    properties.  [Transport] is the producer and consumer of [internal/telemetry] and the
    audit writer of [internal/store/pg], both over one machine ([Transport.Buffered]).
    [Metrics] is [internal/obs]: log levels, the table of collectors, and what every service
    records in it.

    The surface.  [Config] and [Load] are [internal/config]; [Challenge] is
    [internal/challenge]; [Token] is [internal/token]; [Http] and [Server] are
    [internal/httpx]; [Routes] is the multiplexer and what the processes register in it;
    [Api], [Gate] and [Shop] are [internal/api], with the text of their answers in [Encode]
    and the event stream in [Stream]; [Orders] is [internal/store/pg/orders.go] over the
    constraints of the schema; [Surface] holds their properties, and [Sales] those of the
    whole: any interleaving of queue operations, cycles of controllers and order requests.
    [Assembly] is [internal/app] and the five [cmd/*/main.go]: which components a process
    builds of which configuration, its background loops, and, in the monad of [Process], what
    it opens and closes on every path.

    ** How the parts interact

    A handler ([Gate], [Api], [Shop]) calls the stores ([QueueStore], [Admission],
    [Challenge]), which check their arguments, build keys with [Keys], run one script through
    [Conn.Redisx.Run] and decode its reply; so a property of a script is a property of the
    method that runs it, whatever the wire does ([Refine], [Clients]).  The scorer's decisions
    reach the same scripts through [Actuator].  Tokens ([Token]) carry the identity from the
    gate to the queue, from the queue to the shop.  Configuration reaches every component
    through [Assembly].

    ** The properties

    - Of the whole ([Sales]): every order belongs to a seat of its own, and the seats are at
      most what refills granted and the rate of the cycles allowed.
    - Of the scripts, over every run from an empty slot ([Guarantees], [Replies]): a token
      stands in at most one place, in agreement with its record; every run is a run of the
      abstract ladder; who gets a seat, and when, and how many seats there are; the order of
      the queue; that a block is final; that a place is kept, and given back; eviction,
      revival, tickets and re-challenges; that replies have the types they are read at.  Two
      lemmas bound them: what one admission and one refill do to the budget
      ([Guarantees.never_oversold]), and one flaw, a second ticket after a hold
      ([Guarantees.held_after_admission_gets_second_ticket]).
    - In the long run ([Rounds], [Cycles]): a queue nobody in which is heard from is emptied
      by the ticks of the sweepers, and a token that waits gets its seat from the cycles of
      the controllers, whatever else happens in the event.
    - Of the stores and the controller ([Clients], [Cycles]): retries over a lossy wire take
      one seat; joining is one join; the breaker; the lottery gate and the rate of a cycle;
      the seats are shared in proportion, exactly.
    - Of the configuration ([Load], [Assembly]): the environment is accounted for, a
      configuration that loads constructs its process, whose loops never panic, and a process
      closes what it opened.
    - Of identity ([Identity]): keys are unambiguous and share a cluster slot, and shard
      identifiers round-trip; capacity is ensured however calls interleave.
    - Of detection ([Botscore]): no single signal blocks; what a window remembers; who gets a
      verdict; what a pass does; when a restore comes; a decision is one step of the ladder.
    - Of the transports ([Transport]): nothing waits, order and uniqueness of what arrives,
      and the account of audit records.
    - Of puzzles and tokens ([Challenge], [Token]): round trips, single use, the hash test as
      a comparison, and the full answer of verification.
    - Of the surface ([Surface], [Server], [Routes], [Stream]): no write without proof, one
      order per ticket, what a client sees through the middlewares, which handler a request
      reaches, and that an event stream is read as it was sent.
    - Of the metrics ([Metrics]): neither their registration nor any recording panics.

    ** Bounds and fuel

    Integers are [Z]; every arithmetic result that can leave 64 bits goes through [wrap64],
    and the theorems state the range they need.  Fuel appears in few places, each with a
    bound that suffices: [Load.Dur.pairs] runs at most one round per character
    ([Load.Dur.pairs_fuel]); [Crypto.blocks] one round per block of the padded message;
    [Controller.hand_out] hands out exactly the seats left over, its fuel; the solver takes
    the source's own limit; the growth race ends by a measure
    ([Identity.capacity_is_ensured_concurrently]); ticks of the sweeper are any list
    ([Rounds.silent_queue_is_drained] says how many are enough).  Loops over tickers are folds
    over any list of ticks.

    ** Parameters

    Code outside the repository is a parameter with named laws: Redis ([Redis.Redis],
    [RedisLaws]) and the run of a script by name ([Conn.Lua], [LuaLaws]), the JWT library
    ([Token.Jwt], [JwtLaws]), PostgreSQL ([Orders.OrdersDB], [OrdersLaws]), the Prometheus
    client ([Metrics.Obs.Prometheus], [PrometheusLaws]), Kafka's outcomes and the JSON text of
    an event ([Transport.Codec], [CodecLaws]).  Each class has a concrete instance the
    witnesses use.  Of the standard library the decoding of JSON into a struct ([Http.Json]),
    the JSON text of a reason ([Transport.Audit.ReasonText]), the syntax of addresses
    ([Http.Netip]) and the syntaxes of floats and RFC 3339 instants ([Load.Texts]) are
    parameters without laws.

    ** Not modelled

    The lines the program logs feed back into no result.  The Redis, PostgreSQL and Kafka
    clients themselves, the listener of [net/http] and signals.  The hooks that replace a
    clock in tests ([WithClock]) and accessors that return a field.  Requests with the method
    CONNECT.  Tickers are taken with a positive period ([Assembly.unchecked_periods] shows
    when they are not). *)

From Stdlib Require Export Ascii ZArith Lia.
From Stdlib Require Import DecimalString DecimalZ DecimalFacts.
From stdpp Require Export base tactics countable relations gmap strings list sorting fin_maps numbers.

(** ** Go errors

    A Go [error] is either a sentinel made by [errors.New] or a value wrapped by
    [fmt.Errorf] with one [%w] verb ([ErrWrap]) or two ([ErrBoth]).  Sentinels are compared
    by identity; the sentinels of the program have pairwise distinct messages, so the
    message stands for the identity. *)
Inductive error :=
  | ErrNew (msg : string)
  | ErrWrap (ctx : string) (inner : error)
  | ErrBoth (e1 e2 : error).

(** [errors.Is]: the tree of wrapped errors contains the sentinel. *)
Fixpoint errors_Is (e : error) (target : string) : bool :=
  match e with
  | ErrNew m => bool_decide (m = target)
  | ErrWrap _ e' => errors_Is e' target
  | ErrBoth e1 e2 => errors_Is e1 target || errors_Is e2 target
  end.

#[export] Instance error_eq_dec : EqDecision error.
Proof. solve_decision. Defined.

(** The [(value, error)] pair a fallible Go function returns. *)
Inductive result (A : Type) :=
  | Ok (a : A)
  | Err (e : error).
Arguments Ok {A} a.
Arguments Err {A} e.

#[export] Instance result_ret : MRet result := fun A a => Ok a.
#[export] Instance result_bind : MBind result := fun A B f r =>
  match r with Ok a => f a | Err e => Err e end.
#[export] Instance result_fmap : FMap result := fun A B f r =>
  match r with Ok a => Ok (f a) | Err e => Err e end.

Definition is_ok {A} (r : result A) : bool := match r with Ok _ => true | Err _ => false end.

#[export] Instance result_eq_dec {A} `{EqDecision A} : EqDecision (result A).
Proof. solve_decision. Defined.

(** ** Decimal integers as text: [strconv.Itoa], and the decimal part of Lua's [tonumber] *)

Definition itoa (z : Z) : string := NilZero.string_of_int (Z.to_int z).

Definition parse_dec (s : string) : option Z := Z.of_int <$> NilZero.int_of_string s.

(** Lua's [tonumber] on a reply that is a string or [false]. *)
Definition tonumber (v : option string) : option Z := v ≫= parse_dec.

(** ** Strings *)

Definition emp : string := EmptyString.

Fixpoint forall_chars (p : ascii -> bool) (s : string) : bool :=
  match s with
  | EmptyString => true
  | String c s' => p c && forall_chars p s'
  end.

(** [s[i]], with a dummy outside the range (every use is guarded by a length test). *)
Definition head_char (s : string) : option ascii :=
  match s with EmptyString => None | String c _ => Some c end.

Definition tail_str (s : string) : string :=
  match s with EmptyString => EmptyString | String _ s' => s' end.

Definition byte_of (c : ascii) : Z := Z.of_nat (nat_of_ascii c).

Definition byte_between (lo hi c : ascii) : bool :=
  (byte_of lo <=? byte_of c)%Z && (byte_of c <=? byte_of hi)%Z.

(** [strings.Contains]. *)
Fixpoint str_contains (s sub : string) : bool :=
  String.prefix sub s ||
  match s with
  | EmptyString => false
  | String _ s' => str_contains s' sub
  end.

(** ** Sums *)

Definition sumZ (l : list Z) : Z := foldr Z.add 0%Z l.

(** ** Generic lemmas *)

Lemma parse_itoa z : parse_dec (itoa z) = Some z.
Proof.
  unfold parse_dec, itoa. rewrite NilZero.isi.
  - simpl. by rewrite DecimalZ.of_to.
  - destruct z as [|p|p]; simpl; try discriminate.
    intros [= Hn]. pose proof (DecimalPos.Unsigned.to_uint_nonnil p). congruence.
  - destruct z as [|p|p]; simpl; try discriminate.
    intros [= Hn]. pose proof (DecimalPos.Unsigned.to_uint_nonnil p). congruence.
Qed.

Lemma tonumber_itoa z : tonumber (Some (itoa z)) = Some z.
Proof. apply parse_itoa. Qed.

Lemma itoa_inj z1 z2 : itoa z1 = itoa z2 -> z1 = z2.
Proof. intros H. apply (f_equal parse_dec) in H. rewrite !parse_itoa in H. congruence. Qed.

Lemma sumZ_app l1 l2 : sumZ (l1 ++ l2) = (sumZ l1 + sumZ l2)%Z.
Proof. induction l1 as [|x l1 IH]; simpl; [done|]. unfold sumZ in *. rewrite IH. lia. Qed.

Lemma sumZ_nonneg l : Forall (fun x => 0 <= x)%Z l -> (0 <= sumZ l)%Z.
Proof. induction 1; simpl; [done|]. unfold sumZ in *. lia. Qed.

Lemma sumZ_sublist l l' : l `sublist_of` l' -> Forall (fun x => 0 <= x)%Z l' -> (sumZ l <= sumZ l')%Z.
Proof.
  induction 1 as [|x l l' _ IH|x l l' _ IH]; [done|..]; intros [Hx Hl]%list.Forall_cons; specialize (IH Hl); unfold sumZ in *; simpl; lia.
Qed.

Lemma sumZ_insert (l : list Z) i x y :
  l !! i = Some x -> sumZ (<[i := y]> l) = (sumZ l - x + y)%Z.
Proof.
  revert i. induction l as [|z l IH]; intros [|i] Hi; simplify_eq/=; unfold sumZ in *.
  - lia.
  - rewrite (IH i Hi). lia.
Qed.

Lemma sumZ_map_le {A} (f g : A -> Z) l d :
  (forall x, x ∈ l -> (f x <= g x + d)%Z) -> (sumZ (f <$> l) <= sumZ (g <$> l) + Z.of_nat (length l) * d)%Z.
Proof.
  induction l as [|x l IH]; intros H; [done|]. rewrite !fmap_cons. cbn [sumZ foldr length].
  rewrite Nat2Z.inj_succ. fold (sumZ (f <$> l)) (sumZ (g <$> l)).
  pose proof (H x ltac:(left)). specialize (IH ltac:(intros y Hy; apply H; by right)). lia.
Qed.

(** Sums of which the terms under one key change. *)
Lemma sumZ_one_changes {A} (key : A -> string) (f g : A -> Z) l k d e :
  NoDup (key <$> l) -> k ∈ key <$> l \/ (d <= e)%Z ->
  (forall b, b ∈ l -> key b <> k -> f b = g b) -> (forall b, b ∈ l -> key b = k -> (f b + d <= g b + e)%Z) ->
  (sumZ (f <$> l) + d <= sumZ (g <$> l) + e)%Z.
Proof.
  induction l as [|x l IH]; intros Hnd Hk Ho Ha.
  { destruct Hk as [Hk|Hk]; [by apply elem_of_nil in Hk|]. cbn. lia. }
  rewrite !fmap_cons in *. apply list.NoDup_cons in Hnd as [Hx Hnd].
  change (sumZ (f x :: (f <$> l))) with (f x + sumZ (f <$> l))%Z. change (sumZ (g x :: (g <$> l))) with (g x + sumZ (g <$> l))%Z.
  destruct (decide (key x = k)) as [Hxk|Hxk].
  - assert (sumZ (f <$> l) = sumZ (g <$> l)) as ->.
    { f_equal. apply list_fmap_ext. intros i b Hi. apply list_elem_of_lookup_2 in Hi. apply Ho; [by right|].
      intros Hb. apply Hx. rewrite Hxk, <- Hb. by apply list_elem_of_fmap_2. }
    specialize (Ha x (list_elem_of_here _ _) Hxk). lia.
  - rewrite (Ho x (list_elem_of_here _ _) Hxk).
    enough (sumZ (f <$> l) + d <= sumZ (g <$> l) + e)%Z by lia.
    apply IH; [done| |intros; apply Ho; [by right|done]|intros; apply Ha; [by right|done]].
    destruct Hk as [[->|?]%elem_of_cons|?]; auto. done.
Qed.

Lemma sumZ_replicate n x : sumZ (replicate n x) = (Z.of_nat n * x)%Z.
Proof. induction n as [|n IH]; simpl; [done|]. unfold sumZ in *. rewrite IH. lia. Qed.

Lemma sumZ_Permutation l1 l2 : l1 ≡ₚ l2 -> sumZ l1 = sumZ l2.
Proof. induction 1; unfold sumZ in *; simpl; lia. Qed.

(** Each element of a list in its order, up to [n] times. *)
Inductive repeats {A} (n : nat) : list A -> list A -> Prop :=
  | repeats_nil : repeats n [] []
  | repeats_cons k x l d : k <= n -> repeats n l d -> repeats n (replicate k x ++ l) (x :: d).

Lemma repeats_elem {A} n (l d : list A) x : repeats n l d -> x ∈ l -> x ∈ d.
Proof.
  induction 1 as [|k y l d _ _ IH]; [done|]. rewrite elem_of_app, elem_of_replicate. intros [[-> _]|Hx]; [left|right; auto].
Qed.

Lemma repeats_mono {A} n m (l d : list A) : n <= m -> repeats n l d -> repeats m l d.
Proof. intros Hle. induction 1; constructor; [lia|done]. Qed.

Lemma repeats_none {A} n (d : list A) : repeats n [] d.
Proof. induction d as [|x d IH]; [constructor|]. apply (repeats_cons n 0 x [] d); [lia|done]. Qed.

Lemma repeats_sum {A} (f : A -> Z) n (l d : list A) : Forall (fun x => 0 <= f x)%Z d -> repeats n l d ->
  (sumZ (f <$> l) <= Z.of_nat n * sumZ (f <$> d))%Z.
Proof.
  intros Hd. induction 1 as [|k x l d Hk _ IH]; [cbn; lia|]. apply list.Forall_cons in Hd as [Hx Hd]. specialize (IH Hd).
  rewrite fmap_app, fmap_replicate, sumZ_app, sumZ_replicate, fmap_cons. change (sumZ (f x :: (f <$> d))) with (f x + sumZ (f <$> d))%Z. nia.
Qed.

Lemma forall_chars_app p s1 s2 :
  forall_chars p (s1 +:+ s2) = forall_chars p s1 && forall_chars p s2.
Proof. induction s1 as [|c s1 IH]; simpl; [done|]. by rewrite IH, andb_assoc. Qed.

Lemma forall_chars_impl (p q : ascii -> bool) s :
  (forall c, p c = true -> q c = true) -> forall_chars p s = true -> forall_chars q s = true.
Proof.
  intros Hpq. induction s as [|c s IH]; simpl; [done|]. intros [Hc Hs]%andb_true_iff. rewrite Hpq, IH; done.
Qed.

Lemma str_length_app s1 s2 :
  String.length (s1 +:+ s2) = String.length s1 + String.length s2.
Proof. induction s1 as [|c s1 IH]; simpl; [done|]. by rewrite IH. Qed.

Lemma str_app_cons c s t : String c s +:+ t = String c (s +:+ t).
Proof. reflexivity. Qed.

Lemma str_nil_app t : EmptyString +:+ t = t.
Proof. reflexivity. Qed.

Lemma str_app_assoc s1 s2 s3 : s1 +:+ (s2 +:+ s3) = (s1 +:+ s2) +:+ s3.
Proof. induction s1 as [|c s1 IH]; [done|]. by rewrite !str_app_cons, IH. Qed.

Lemma str_app_nil_r s : s +:+ EmptyString = s.
Proof. induction s as [|c s IH]; [done|]. by rewrite str_app_cons, IH. Qed.

(** Two strings cut at the first occurrence of a separator agree piecewise. *)
Lemma str_cut_inj (p : ascii -> bool) a1 a2 b1 b2 c1 c2 :
  forall_chars p a1 = true -> forall_chars p a2 = true -> p c1 = false -> p c2 = false ->
  a1 +:+ String c1 b1 = a2 +:+ String c2 b2 -> a1 = a2 /\ c1 = c2 /\ b1 = b2.
Proof.
  revert a2. induction a1 as [|x a1 IH]; intros [|y a2] H1 H2 Hc1 Hc2; simpl in *.
  - intros [= -> ->]. done.
  - intros [= -> ->]. apply andb_true_iff in H2 as [H2 _]. congruence.
  - intros [= -> <-]. apply andb_true_iff in H1 as [H1 _]. congruence.
  - intros [= -> Heq]. apply andb_true_iff in H1 as [_ H1], H2 as [_ H2].
    destruct (IH a2 H1 H2 Hc1 Hc2 Heq) as (-> & -> & ->). done.
Qed.

Lemma str_app_inj_l s a b : s +:+ a = s +:+ b -> a = b.
Proof. induction s as [|c s IH]; simpl; [done|]. intros [= H]. auto. Qed.

(** ** Automation *)

Create HintDb sg.
Create Rewrite HintDb sg_rw.
Create Rewrite HintDb str_rw.

(** Case analysis on the innermost scrutinee of the goal. *)
Ltac case_match_goal :=
  match goal with
  | |- context [match ?x with _ => _ end] =>
      lazymatch x with
      | context [match _ with _ => _ end] => fail
      | _ => destruct x eqn:?
      end
  end.

(** Boolean tests to propositions. *)
Ltac bool_to_prop :=
  repeat match goal with
  | H : _ && _ = true |- _ => apply andb_true_iff in H; destruct H
  | H : _ || _ = false |- _ => apply orb_false_iff in H; destruct H
  | H : negb _ = true |- _ => apply negb_true_iff in H
  | H : negb _ = false |- _ => apply negb_false_iff in H
  | H : bool_decide _ = true |- _ => apply bool_decide_eq_true in H
  | H : bool_decide _ = false |- _ => apply bool_decide_eq_false in H
  | H : (_ <? _)%Z = true |- _ => apply Z.ltb_lt in H
  | H : (_ <? _)%Z = false |- _ => apply Z.ltb_ge in H
  | H : (_ <=? _)%Z = true |- _ => apply Z.leb_le in H
  | H : (_ <=? _)%Z = false |- _ => apply Z.leb_gt in H
  | H : (_ =? _)%Z = true |- _ => apply Z.eqb_eq in H
  | H : (_ =? _)%Z = false |- _ => apply Z.eqb_neq in H
  end.

#[export] Hint Rewrite tonumber_itoa parse_itoa : sg_rw.
#[export] Hint Rewrite str_app_cons str_nil_app str_app_nil_r : str_rw.
#[export] Hint Rewrite <- str_app_assoc : str_rw.
#[export] Hint Resolve sumZ_nonneg : sg.
