(* ===== verification/Go.v ===== *)
(** * Go's fixed-width integers, durations and instants

    [int] and [int64] are 64-bit two's complement: values are [Z] and every arithmetic
    result that could leave the range goes through [wrap64].  A [time.Duration] is an
    [int64] count of nanoseconds; a [time.Time] is the count of nanoseconds since the Unix
    epoch, the zero value being January 1 of year 1. *)

From S2P Require Import Prelude.
Local Open Scope Z_scope.

(** ** 64-bit integers *)

Definition two63 : Z := 9223372036854775808.
Definition two64 : Z := 18446744073709551616.

Definition wrap64 (z : Z) : Z := (z + two63) mod two64 - two63.

Definition in64 (z : Z) : bool := (- two63 <=? z) && (z <? two63).

Definition int64_add (a b : Z) : Z := wrap64 (a + b).
Definition int64_sub (a b : Z) : Z := wrap64 (a - b).
Definition int64_mul (a b : Z) : Z := wrap64 (a * b).
(** Division truncates toward zero; every use has a non-zero divisor. *)
Definition int64_quo (a b : Z) : Z := wrap64 (Z.quot a b).

(** ** Durations (nanoseconds) *)

Definition Millisecond : Z := 1000000.
Definition Second : Z := 1000 * Millisecond.
Definition Minute : Z := 60 * Second.
Definition Hour : Z := 60 * Minute.

(** [Duration.Milliseconds]. *)
Definition Milliseconds (d : Z) : Z := Z.quot d 1000000.

Definition minDuration : Z := - two63.
Definition maxDuration : Z := two63 - 1.

(** ** Instants *)

Definition time := Z.

(** [time.Time{}]. *)
Definition zero_time : time := - 62135596800 * Second.

Definition IsZero (t : time) : bool := t =? zero_time.

(** [t.Add(d)]. *)
Definition time_add (t : time) (d : Z) : time := t + d.

(** [t.Sub(u)] saturates at the ends of the [Duration] range. *)
Definition time_sub (t u : time) : Z := Z.max minDuration (Z.min maxDuration (t - u)).

(** [t.Before(u)]. *)
Definition Before (t u : time) : bool := t <? u.

(** [t.UnixMilli()] and [time.UnixMilli(ms)]. *)
Definition UnixMilli (t : time) : Z := t / 1000000.
Definition time_UnixMilli (ms : Z) : time := ms * 1000000.

(** ** Maps

    [range] visits every entry of a map once, in an order the language leaves open. *)
Class Ranging := {
  map_range : forall {K} `{Countable K} {A}, gmap K A -> list (K * A);
  map_range_perm : forall {K} `{Countable K} {A} (m : gmap K A), map_range m ≡ₚ map_to_list m
}.

(** One order, for concrete runs. *)
Definition some_order : Ranging :=
  {| map_range K _ _ A m := map_to_list m; map_range_perm K _ _ A m := Permutation_refl _ |}.

Lemma map_range_elem `{Ranging} {K} `{Countable K} {A} (m : gmap K A) k x :
  (k, x) ∈ map_range m <-> m !! k = Some x.
Proof. rewrite map_range_perm. apply elem_of_map_to_list. Qed.

Lemma map_range_nodup `{Ranging} {K} `{Countable K} {A} (m : gmap K A) : NoDup (map_range m).*1.
Proof. rewrite map_range_perm. apply NoDup_fst_map_to_list. Qed.

(** ** Strings *)

Definition is_space (c : ascii) : bool :=
  bool_decide (c = " "%char) || byte_between (ascii_of_nat 9) (ascii_of_nat 13) c.

Fixpoint trim_left (s : string) : string :=
  match s with
  | String c s' => if is_space c then trim_left s' else s
  | EmptyString => EmptyString
  end.

Fixpoint trim_right (s : string) : string :=
  match s with
  | String c s' =>
      match trim_right s' with
      | EmptyString => if is_space c then EmptyString else String c EmptyString
      | t => String c t
      end
  | EmptyString => EmptyString
  end.

(** [strings.TrimSpace], on ASCII. *)
Definition TrimSpace (s : string) : string := trim_right (trim_left s).

(** The part of [strings.Cut] before the separator. *)
Fixpoint cut_before (sep : ascii) (s : string) : string :=
  match s with
  | EmptyString => EmptyString
  | String c s' => if decide (c = sep) then EmptyString else String c (cut_before sep s')
  end.

(** [strings.Split] at one character. *)
Fixpoint Split (sep : ascii) (s : string) : list string :=
  match s with
  | EmptyString => [emp]
  | String c s' =>
      if decide (c = sep) then emp :: Split sep s'
      else match Split sep s' with
           | [] => [String c emp]
           | p :: ps => String c p :: ps
           end
  end.

(** [strconv.Atoi]: an optional sign and decimal digits, within [int]. *)
Definition Atoi (s : string) : option Z :=
  z ← match s with
      | String "+" s' => if bool_decide (head_char s' = Some "-"%char) then None else parse_dec s'
      | _ => parse_dec s
      end;
  if in64 z then Some z else None.

(** [strconv.ParseBool]. *)
Definition ParseBool (s : string) : option bool :=
  if decide (s ∈ ["1"; "t"; "T"; "TRUE"; "true"; "True"]) then Some true
  else if decide (s ∈ ["0"; "f"; "F"; "FALSE"; "false"; "False"]) then Some false
  else None.

(** ** Lemmas *)

Lemma in64_spec z : in64 z = true <-> - two63 <= z < two63.
Proof. unfold in64. rewrite andb_true_iff, Z.leb_le, Z.ltb_lt. done. Qed.

Lemma wrap64_id z : in64 z = true -> wrap64 z = z.
Proof.
  rewrite in64_spec. unfold wrap64. intros [Hl Hu]. rewrite Z.mod_small; unfold two63, two64 in *; lia.
Qed.

Lemma wrap64_range z : in64 (wrap64 z) = true.
Proof.
  apply in64_spec. unfold wrap64.
  assert (H := Z.mod_pos_bound (z + two63) two64 ltac:(unfold two64; lia)).
  unfold two63, two64 in *. lia.
Qed.

Lemma UnixMilli_roundtrip ms : UnixMilli (time_UnixMilli ms) = ms.
Proof. unfold UnixMilli, time_UnixMilli. by rewrite Z.div_mul. Qed.

Lemma Milliseconds_nonneg d : 0 <= d -> 0 <= Milliseconds d.
Proof. intros. apply Z.quot_pos; lia. Qed.

Lemma time_sub_id t u : in64 (t - u) = true -> time_sub t u = t - u.
Proof.
  rewrite in64_spec. unfold time_sub, minDuration, maxDuration. lia.
Qed.

#[export] Hint Resolve wrap64_range Milliseconds_nonneg : sg.
#[export] Hint Rewrite UnixMilli_roundtrip : sg_rw.
