(* ===== verification/Redis.v ===== *)
(** * The Redis service as a parameter

    Redis is not part of the repository: every component reaches it through
    [redis.UniversalClient] and through [redis.call] in [scripts/lua].  This file states the
    interface those callers rely on: the class [Redis] of commands, the class [RedisLaws] of
    their documented behaviour, and one concrete instance ([MemStore], an in-memory key
    space) that shows the laws can hold and on which concrete runs evaluate.

    A key is described by a [cell], its content at each type.  The program never uses one
    key at two types (see [Keys]), so the cells of the real service have at most one
    non-empty component. *)

From S2P Require Import Prelude.
Local Open Scope Z_scope.

(** ** Cells *)

Record cell := Cell {
  c_hash : gmap string string;
  c_zset : gmap string Z;
  c_str : option string;
  c_set : gset string;
  c_ttl : option Z   (** remaining time to live in milliseconds *)
}.

Definition cell0 : cell := Cell ∅ ∅ None ∅ None.

Definition cell_live (c : cell) : bool :=
  negb (bool_decide (c_hash c = ∅) && bool_decide (c_zset c = ∅)
        && bool_decide (c_str c = None) && bool_decide (c_set c = ∅)).

(** A key whose last member is removed disappears together with its expiry. *)
Definition cell_norm (c : cell) : cell := if cell_live c then c else cell0.

Definition with_hash (h : gmap string string) (c : cell) : cell :=
  Cell h (c_zset c) (c_str c) (c_set c) (c_ttl c).
Definition with_zset (z : gmap string Z) (c : cell) : cell :=
  Cell (c_hash c) z (c_str c) (c_set c) (c_ttl c).
Definition with_str (v : option string) (c : cell) : cell :=
  Cell (c_hash c) (c_zset c) v (c_set c) (c_ttl c).
Definition with_set (x : gset string) (c : cell) : cell :=
  Cell (c_hash c) (c_zset c) (c_str c) x (c_ttl c).
Definition with_ttl (t : option Z) (c : cell) : cell :=
  Cell (c_hash c) (c_zset c) (c_str c) (c_set c) t.

Definition hset_all (fvs : list (string * string)) (h : gmap string string) : gmap string string :=
  foldl (fun h fv => <[fv.1 := fv.2]> h) h fvs.

(** INCR, DECR and HINCRBY raise on a value that is not an integer. *)
Definition int_or_absent (v : option string) : Prop := v = None \/ is_Some (tonumber v).

(** ** The order of a sorted set: by score, ties by member bytes *)

Definition zbefore (x y : Z * string) : bool :=
  (x.1 <? y.1) || ((x.1 =? y.1) && String.ltb x.2 y.2).

Definition zle (x y : string * Z) : Prop := zbefore (y.2, y.1) (x.2, x.1) = false.

#[export] Instance zle_dec : RelDecision zle.
Proof. intros x y. unfold zle. apply _. Defined.

Definition zsorted (z : gmap string Z) : list string := (merge_sort zle (map_to_list z)).*1.

Definition zrank (z : gmap string Z) (m : string) : option Z :=
  sc ← z !! m;
  Some (Z.of_nat (length (List.filter (fun p => zbefore (p.2, p.1) (sc, m)) (map_to_list z)))).

Definition zcard (z : gmap string Z) : Z := Z.of_nat (size z).

(** ** Commands *)

Class Redis (S : Type) := {
  HGET : string -> string -> S -> option string;
  HSET : string -> list (string * string) -> S -> S;
  HDEL : string -> list string -> S -> S;
  HINCRBY : string -> string -> Z -> S -> S * Z;
  GET : string -> S -> option string;
  SET_PX : string -> string -> Z -> S -> S;
  SET_NX : string -> string -> Z -> S -> S * bool;
  INCRBY : string -> Z -> S -> S * Z;
  DEL : string -> S -> S;
  PEXPIRE : string -> Z -> S -> S;
  ZADD : string -> Z -> string -> S -> S;
  ZREM : string -> string -> S -> S * Z;
  ZRANK : string -> string -> S -> option Z;
  ZSCORE : string -> string -> S -> option string;
  ZCARD : string -> S -> Z;
  ZRANGE : string -> Z -> Z -> S -> list string;
  SADD : string -> string -> S -> S;
  SMEMBERS : string -> S -> list string;
  (** time passing on the server: keys whose time to live runs out disappear *)
  ELAPSE : Z -> S -> S
}.

Definition INCR {S} `{Redis S} (k : string) (s : S) : S * Z := INCRBY k 1 s.
Definition DECR {S} `{Redis S} (k : string) (s : S) : S * Z := INCRBY k (-1) s.

(** ** Documented behaviour *)

Definition upd {S} (cell_of : S -> string -> cell) (s : S) (k : string) (f : cell -> cell)
    (k' : string) : cell :=
  if decide (k = k') then f (cell_of s k') else cell_of s k'.

Class RedisLaws (S : Type) `{Redis S} := {
  cell_of : S -> string -> cell;
  HGET_law k f s : HGET k f s = c_hash (cell_of s k) !! f;
  GET_law k s : GET k s = c_str (cell_of s k);
  ZRANK_law k m s : ZRANK k m s = zrank (c_zset (cell_of s k)) m;
  ZSCORE_law k m s : ZSCORE k m s = itoa <$> c_zset (cell_of s k) !! m;
  ZCARD_law k s : ZCARD k s = zcard (c_zset (cell_of s k));
  ZRANGE_law k lo hi s : 0 <= lo <= hi ->
    ZRANGE k lo hi s =
    take (Z.to_nat (hi - lo + 1)) (drop (Z.to_nat lo) (zsorted (c_zset (cell_of s k))));
  SMEMBERS_law k s m : m ∈ SMEMBERS k s <-> m ∈ c_set (cell_of s k);
  SMEMBERS_nodup k s : NoDup (SMEMBERS k s);
  HSET_law k fvs s k' : fvs <> [] ->
    cell_of (HSET k fvs s) k' = upd cell_of s k (fun c => with_hash (hset_all fvs (c_hash c)) c) k';
  HDEL_law k fs s k' :
    cell_of (HDEL k fs s) k' =
    upd cell_of s k (fun c => cell_norm (with_hash (foldl (fun h f => delete f h) (c_hash c) fs) c)) k';
  HINCRBY_law k f d s : int_or_absent (c_hash (cell_of s k) !! f) ->
    let n := default 0 (tonumber (c_hash (cell_of s k) !! f)) + d in
    (HINCRBY k f d s).2 = n /\
    forall k', cell_of (HINCRBY k f d s).1 k' =
      upd cell_of s k (fun c => with_hash (<[f := itoa n]> (c_hash c)) c) k';
  SET_PX_law k v ms s k' : 0 < ms ->
    cell_of (SET_PX k v ms s) k' =
    upd cell_of s k (fun _ => with_ttl (Some ms) (with_str (Some v) cell0)) k';
  SET_NX_law k v ms s : 0 < ms ->
    (SET_NX k v ms s).2 = negb (cell_live (cell_of s k)) /\
    forall k', cell_of (SET_NX k v ms s).1 k' =
      upd cell_of s k (fun c => if cell_live c then c
                                else with_ttl (Some ms) (with_str (Some v) cell0)) k';
  INCRBY_law k d s : int_or_absent (c_str (cell_of s k)) ->
    let n := default 0 (tonumber (c_str (cell_of s k))) + d in
    (INCRBY k d s).2 = n /\
    forall k', cell_of (INCRBY k d s).1 k' = upd cell_of s k (with_str (Some (itoa n))) k';
  (** even an increment that raises leaves the other keys alone *)
  INCRBY_frame k d s k' : k <> k' -> cell_of (INCRBY k d s).1 k' = cell_of s k';
  DEL_law k s k' : cell_of (DEL k s) k' = upd cell_of s k (fun _ => cell0) k';
  PEXPIRE_law k ms s k' : 0 < ms ->
    cell_of (PEXPIRE k ms s) k' =
    upd cell_of s k (fun c => if cell_live c then with_ttl (Some ms) c else c) k';
  ZADD_law k sc m s k' :
    cell_of (ZADD k sc m s) k' = upd cell_of s k (fun c => with_zset (<[m := sc]> (c_zset c)) c) k';
  ZREM_law k m s :
    (ZREM k m s).2 = (if bool_decide (is_Some (c_zset (cell_of s k) !! m)) then 1 else 0) /\
    forall k', cell_of (ZREM k m s).1 k' =
      upd cell_of s k (fun c => cell_norm (with_zset (delete m (c_zset c)) c)) k';
  SADD_law k m s k' :
    cell_of (SADD k m s) k' = upd cell_of s k (fun c => with_set ({[m]} ∪ c_set c) c) k';
  ELAPSE_law d s k' :
    cell_of (ELAPSE d s) k' =
    match c_ttl (cell_of s k') with
    | Some t => if t <=? d then cell0 else with_ttl (Some (t - d)) (cell_of s k')
    | None => cell_of s k'
    end
}.

(** ** Typed views of a store and how each command changes them *)

Section Views.
Context {S : Type} {R : Redis S} {RL : RedisLaws S}.

Definition hash_of (s : S) (k : string) : gmap string string := c_hash (cell_of s k).
Definition zset_of (s : S) (k : string) : gmap string Z := c_zset (cell_of s k).
Definition str_of (s : S) (k : string) : option string := c_str (cell_of s k).
Definition set_of (s : S) (k : string) : gset string := c_set (cell_of s k).
Definition ttl_of (s : S) (k : string) : option Z := c_ttl (cell_of s k).

Lemma cell_dead c : cell_live c = false ->
  c_hash c = ∅ /\ c_zset c = ∅ /\ c_str c = None /\ c_set c = ∅.
Proof. unfold cell_live. intros H. bool_to_prop. done. Qed.

Lemma cell_norm_views c :
  c_hash (cell_norm c) = c_hash c /\ c_zset (cell_norm c) = c_zset c /\
  c_str (cell_norm c) = c_str c /\ c_set (cell_norm c) = c_set c.
Proof.
  unfold cell_norm. destruct (cell_live c) eqn:Hc; [done|].
  by destruct (cell_dead c Hc) as (-> & -> & -> & ->).
Qed.

Ltac view :=
  intros; unfold hash_of, zset_of, str_of, set_of, upd;
  repeat match goal with
  | |- context [cell_norm ?c] => destruct (cell_norm_views c) as (-> & -> & -> & ->)
  end; repeat (case_decide || case_match); simplify_eq/=; try done;
  repeat match goal with
  | |- context [cell_norm ?c] => destruct (cell_norm_views c) as (Eh & Ez & Es & Et);
      rewrite ?Eh, ?Ez, ?Es, ?Et; clear Eh Ez Es Et
  end; try done.

Lemma HGET_v k f s : HGET k f s = hash_of s k !! f.
Proof. apply HGET_law. Qed.
Lemma GET_v k s : GET k s = str_of s k.
Proof. apply GET_law. Qed.
Lemma ZRANK_v k m s : ZRANK k m s = zrank (zset_of s k) m.
Proof. apply ZRANK_law. Qed.
Lemma ZSCORE_v k m s : ZSCORE k m s = itoa <$> zset_of s k !! m.
Proof. apply ZSCORE_law. Qed.
Lemma ZCARD_v k s : ZCARD k s = zcard (zset_of s k).
Proof. apply ZCARD_law. Qed.

Lemma hash_HSET k fvs s k' : fvs <> [] ->
  hash_of (HSET k fvs s) k' = if decide (k = k') then hset_all fvs (hash_of s k) else hash_of s k'.
Proof. intros. unfold hash_of. rewrite HSET_law by done. view. Qed.
Lemma zset_HSET k fvs s k' : fvs <> [] -> zset_of (HSET k fvs s) k' = zset_of s k'.
Proof. intros. unfold zset_of. rewrite HSET_law by done. view. Qed.
Lemma str_HSET k fvs s k' : fvs <> [] -> str_of (HSET k fvs s) k' = str_of s k'.
Proof. intros. unfold str_of. rewrite HSET_law by done. view. Qed.
Lemma set_HSET k fvs s k' : fvs <> [] -> set_of (HSET k fvs s) k' = set_of s k'.
Proof. intros. unfold set_of. rewrite HSET_law by done. view. Qed.

Lemma hash_HDEL k fs s k' :
  hash_of (HDEL k fs s) k' =
  if decide (k = k') then foldl (fun h f => delete f h) (hash_of s k) fs else hash_of s k'.
Proof. unfold hash_of. rewrite HDEL_law. view. Qed.
Lemma zset_HDEL k fs s k' : zset_of (HDEL k fs s) k' = zset_of s k'.
Proof. unfold zset_of. rewrite HDEL_law. view. Qed.
Lemma str_HDEL k fs s k' : str_of (HDEL k fs s) k' = str_of s k'.
Proof. unfold str_of. rewrite HDEL_law. view. Qed.

Lemma hash_ZADD k sc m s k' : hash_of (ZADD k sc m s) k' = hash_of s k'.
Proof. unfold hash_of. rewrite ZADD_law. view. Qed.
Lemma zset_ZADD k sc m s k' :
  zset_of (ZADD k sc m s) k' = if decide (k = k') then <[m := sc]> (zset_of s k) else zset_of s k'.
Proof. unfold zset_of. rewrite ZADD_law. view. Qed.
Lemma str_ZADD k sc m s k' : str_of (ZADD k sc m s) k' = str_of s k'.
Proof. unfold str_of. rewrite ZADD_law. view. Qed.

Lemma ZREM_n k m s :
  (ZREM k m s).2 = if bool_decide (is_Some (zset_of s k !! m)) then 1 else 0.
Proof. apply ZREM_law. Qed.
Lemma hash_ZREM k m s k' : hash_of (ZREM k m s).1 k' = hash_of s k'.
Proof. unfold hash_of. rewrite (proj2 (ZREM_law k m s)). view. Qed.
Lemma zset_ZREM k m s k' :
  zset_of (ZREM k m s).1 k' = if decide (k = k') then delete m (zset_of s k) else zset_of s k'.
Proof. unfold zset_of. rewrite (proj2 (ZREM_law k m s)). view. Qed.
Lemma str_ZREM k m s k' : str_of (ZREM k m s).1 k' = str_of s k'.
Proof. unfold str_of. rewrite (proj2 (ZREM_law k m s)). view. Qed.

Lemma hash_PEXPIRE k ms s k' : 0 < ms -> hash_of (PEXPIRE k ms s) k' = hash_of s k'.
Proof. intros. unfold hash_of. rewrite PEXPIRE_law by done. view. Qed.
Lemma zset_PEXPIRE k ms s k' : 0 < ms -> zset_of (PEXPIRE k ms s) k' = zset_of s k'.
Proof. intros. unfold zset_of. rewrite PEXPIRE_law by done. view. Qed.
Lemma str_PEXPIRE k ms s k' : 0 < ms -> str_of (PEXPIRE k ms s) k' = str_of s k'.
Proof. intros. unfold str_of. rewrite PEXPIRE_law by done. view. Qed.

Lemma INCRBY_n k d s : int_or_absent (str_of s k) ->
  (INCRBY k d s).2 = default 0 (tonumber (str_of s k)) + d.
Proof. intros. by apply INCRBY_law. Qed.
Lemma hash_INCRBY k d s k' : int_or_absent (str_of s k) -> hash_of (INCRBY k d s).1 k' = hash_of s k'.
Proof. intros H. unfold hash_of. rewrite (proj2 (INCRBY_law k d s H)). view. Qed.
Lemma zset_INCRBY k d s k' : int_or_absent (str_of s k) -> zset_of (INCRBY k d s).1 k' = zset_of s k'.
Proof. intros H. unfold zset_of. rewrite (proj2 (INCRBY_law k d s H)). view. Qed.
Lemma str_INCRBY k d s k' : int_or_absent (str_of s k) ->
  str_of (INCRBY k d s).1 k' =
  if decide (k = k') then Some (itoa (default 0 (tonumber (str_of s k)) + d)) else str_of s k'.
Proof. intros H. unfold str_of. rewrite (proj2 (INCRBY_law k d s H)). view. Qed.

Lemma HINCRBY_n k f d s : int_or_absent (hash_of s k !! f) ->
  (HINCRBY k f d s).2 = default 0 (tonumber (hash_of s k !! f)) + d.
Proof. intros. by apply HINCRBY_law. Qed.
Lemma hash_HINCRBY k f d s k' : int_or_absent (hash_of s k !! f) ->
  hash_of (HINCRBY k f d s).1 k' =
  if decide (k = k') then <[f := itoa (default 0 (tonumber (hash_of s k !! f)) + d)]> (hash_of s k)
  else hash_of s k'.
Proof. intros H. unfold hash_of. rewrite (proj2 (HINCRBY_law k f d s H)). view. Qed.
Lemma zset_HINCRBY k f d s k' : int_or_absent (hash_of s k !! f) ->
  zset_of (HINCRBY k f d s).1 k' = zset_of s k'.
Proof. intros H. unfold zset_of. rewrite (proj2 (HINCRBY_law k f d s H)). view. Qed.
Lemma str_HINCRBY k f d s k' : int_or_absent (hash_of s k !! f) ->
  str_of (HINCRBY k f d s).1 k' = str_of s k'.
Proof. intros H. unfold str_of. rewrite (proj2 (HINCRBY_law k f d s H)). view. Qed.

Lemma hash_SET_PX k v ms s k' : 0 < ms ->
  hash_of (SET_PX k v ms s) k' = if decide (k = k') then ∅ else hash_of s k'.
Proof. intros. unfold hash_of. rewrite SET_PX_law by done. view. Qed.
Lemma zset_SET_PX k v ms s k' : 0 < ms ->
  zset_of (SET_PX k v ms s) k' = if decide (k = k') then ∅ else zset_of s k'.
Proof. intros. unfold zset_of. rewrite SET_PX_law by done. view. Qed.
Lemma str_SET_PX k v ms s k' : 0 < ms ->
  str_of (SET_PX k v ms s) k' = if decide (k = k') then Some v else str_of s k'.
Proof. intros. unfold str_of. rewrite SET_PX_law by done. view. Qed.

Lemma hash_DEL k s k' : hash_of (DEL k s) k' = if decide (k = k') then ∅ else hash_of s k'.
Proof. unfold hash_of. rewrite DEL_law. view. Qed.
Lemma zset_DEL k s k' : zset_of (DEL k s) k' = if decide (k = k') then ∅ else zset_of s k'.
Proof. unfold zset_of. rewrite DEL_law. view. Qed.
Lemma str_DEL k s k' : str_of (DEL k s) k' = if decide (k = k') then None else str_of s k'.
Proof. unfold str_of. rewrite DEL_law. view. Qed.

End Views.

Create Rewrite HintDb redis.

#[export] Hint Rewrite @HGET_v @GET_v @ZRANK_v @ZSCORE_v @ZCARD_v @ZREM_n
  @hash_HDEL @zset_HDEL @str_HDEL @hash_ZADD @zset_ZADD @str_ZADD
  @hash_ZREM @zset_ZREM @str_ZREM @hash_DEL @zset_DEL @str_DEL : redis.
#[export] Hint Rewrite @hash_HSET @zset_HSET @str_HSET
  @hash_PEXPIRE @zset_PEXPIRE @str_PEXPIRE @hash_SET_PX @zset_SET_PX @str_SET_PX
  using (solve [done | assumption | lia]) : redis.
#[export] Hint Rewrite @INCRBY_n @hash_INCRBY @zset_INCRBY @str_INCRBY
  @HINCRBY_n @hash_HINCRBY @zset_HINCRBY @str_HINCRBY
  using (solve [done | assumption]) : redis.

(** ** An in-memory key space that satisfies the laws *)

Module MemStore.

Abbreviation mem := (gmap string cell) (only parsing).

Definition look (s : mem) (k : string) : cell := default cell0 (s !! k).
Definition put (k : string) (c : cell) (s : mem) : mem := <[k := c]> s.
Definition modify (k : string) (f : cell -> cell) (s : mem) : mem := put k (f (look s k)) s.

Definition num_or_0 (v : option string) : Z := default 0 (tonumber v).

Definition elapse_cell (d : Z) (c : cell) : cell :=
  match c_ttl c with
  | Some t => if t <=? d then cell0 else with_ttl (Some (t - d)) c
  | None => c
  end.

#[export] Instance mem_redis : Redis mem := {
  HGET k f s := c_hash (look s k) !! f;
  HSET k fvs s := modify k (fun c => with_hash (hset_all fvs (c_hash c)) c) s;
  HDEL k fs s :=
    modify k (fun c => cell_norm (with_hash (foldl (fun h f => delete f h) (c_hash c) fs) c)) s;
  HINCRBY k f d s :=
    let n := num_or_0 (c_hash (look s k) !! f) + d in
    (modify k (fun c => with_hash (<[f := itoa n]> (c_hash c)) c) s, n);
  GET k s := c_str (look s k);
  SET_PX k v ms s := put k (with_ttl (Some ms) (with_str (Some v) cell0)) s;
  SET_NX k v ms s :=
    if cell_live (look s k) then (s, false)
    else (put k (with_ttl (Some ms) (with_str (Some v) cell0)) s, true);
  INCRBY k d s :=
    let n := num_or_0 (c_str (look s k)) + d in (modify k (with_str (Some (itoa n))) s, n);
  DEL k s := put k cell0 s;
  PEXPIRE k ms s := modify k (fun c => if cell_live c then with_ttl (Some ms) c else c) s;
  ZADD k sc m s := modify k (fun c => with_zset (<[m := sc]> (c_zset c)) c) s;
  ZREM k m s :=
    (modify k (fun c => cell_norm (with_zset (delete m (c_zset c)) c)) s,
     if bool_decide (is_Some (c_zset (look s k) !! m)) then 1 else 0);
  ZRANK k m s := zrank (c_zset (look s k)) m;
  ZSCORE k m s := itoa <$> c_zset (look s k) !! m;
  ZCARD k s := zcard (c_zset (look s k));
  ZRANGE k lo hi s := take (Z.to_nat (hi - lo + 1)) (drop (Z.to_nat lo) (zsorted (c_zset (look s k))));
  SADD k m s := modify k (fun c => with_set ({[m]} ∪ c_set c) c) s;
  SMEMBERS k s := elements (c_set (look s k));
  ELAPSE d s := elapse_cell d <$> s
}.

Lemma look_put k c s k' : look (put k c s) k' = if decide (k = k') then c else look s k'.
Proof.
  unfold look, put. case_decide; subst.
  - by rewrite lookup_insert_eq.
  - by rewrite lookup_insert_ne.
Qed.

Lemma look_modify k f s k' : look (modify k f s) k' = upd look s k f k'.
Proof. unfold modify, upd. rewrite look_put. case_decide; by subst. Qed.

#[export] Instance mem_redis_laws : RedisLaws mem.
Proof.
  refine {| cell_of := look |}; intros; simpl; try done;
    try apply look_modify; try (unfold upd; by rewrite look_put);
    try (split; [done|]; intros; apply look_modify).
  - apply elem_of_elements.
  - apply NoDup_elements.
  - unfold upd. destruct (cell_live (look s k)) eqn:Hc; split; try done; intros k'; simpl.
    + case_decide; subst; by rewrite ?Hc.
    + rewrite look_put. case_decide; subst; by rewrite ?Hc.
  - rewrite look_modify. unfold upd. by rewrite decide_False.
  - unfold look. rewrite lookup_fmap. destruct (s !! k') as [c|]; simpl; [|done].
    unfold elapse_cell. by destruct (c_ttl c).
Defined.

End MemStore.
