(* ===== verification/Keys.v ===== *)
(** * Redis key names ([internal/keys/keys.go])

    Every key the program uses is built here.  A key carries a cluster hash tag
    [{event:slot}]; a greylist shard [g0042] lives in the slot of its origin [s0042], so one
    atomic script may touch both.  The theorems: all keys of one shard share one hash tag,
    and two valid names collide only when they are meant to be the same key. *)

From S2P Require Import Prelude.
Local Open Scope string_scope.

Definition prefixQueue : string := "queue".
Definition prefixHold : string := "hold".
Definition prefixSeq : string := "seq".
Definition prefixUser : string := "user".
Definition prefixAdmitted : string := "admitted".
Definition prefixBudget : string := "budget".
Definition prefixShards : string := "shards".
Definition prefixEntry : string := "entry".
Definition prefixChallenge : string := "challenge".
Definition prefixScore : string := "score".
Definition prefixStats : string := "stats".
Definition prefixSuspicion : string := "suspicion".
Definition prefixIdem : string := "idem".

Definition normalPrefix : ascii := "s"%char.
Definition greylistPrefix : ascii := "g"%char.

(** [len(shard) > 1 && shard[0] == greylistPrefix]. *)
Definition slotOf (shard : string) : string :=
  match shard with
  | String c (String _ _ as rest) =>
      if decide (c = greylistPrefix) then String normalPrefix rest else shard
  | _ => shard
  end.

Definition ShardTag (event shard : string) : string :=
  "{" +:+ event +:+ ":" +:+ slotOf shard +:+ "}".

Definition EventTag (event : string) : string := "{" +:+ event +:+ "}".

Definition shardKey (prefix event shard : string) : string :=
  let tag := ShardTag event shard in
  if decide (slotOf shard <> shard) then prefix +:+ ":" +:+ tag +:+ ":" +:+ shard
  else prefix +:+ ":" +:+ tag.

Definition Queue (event shard : string) : string := shardKey prefixQueue event shard.
Definition Hold (event shard : string) : string := shardKey prefixHold event shard.
Definition Seq (event shard : string) : string := shardKey prefixSeq event shard.
Definition Budget (event shard : string) : string := shardKey prefixBudget event shard.
Definition Score (event shard : string) : string := shardKey prefixScore event shard.
Definition Stats (event shard : string) : string := shardKey prefixStats event shard.

Definition User (event shard tokenID : string) : string :=
  prefixUser +:+ ":" +:+ ShardTag event shard +:+ ":" +:+ tokenID.
Definition UserPrefix (event shard : string) : string :=
  prefixUser +:+ ":" +:+ ShardTag event shard +:+ ":".
Definition Entry (event shard jti : string) : string :=
  prefixEntry +:+ ":" +:+ ShardTag event shard +:+ ":" +:+ jti.
Definition EntryPrefix (event shard : string) : string :=
  prefixEntry +:+ ":" +:+ ShardTag event shard +:+ ":".

Definition AdmittedKey (event : string) : string := prefixAdmitted +:+ ":" +:+ EventTag event.
Definition Shards (event : string) : string := prefixShards +:+ ":" +:+ EventTag event.

Definition ChallengeKey (event nonce : string) : string :=
  prefixChallenge +:+ ":{" +:+ event +:+ ":" +:+ nonce +:+ "}".
Definition Suspicion (event subject : string) : string :=
  prefixSuspicion +:+ ":{" +:+ event +:+ ":" +:+ subject +:+ "}".
Definition Idem (event idemKey : string) : string :=
  prefixIdem +:+ ":{" +:+ event +:+ ":" +:+ idemKey +:+ "}".

(** ** The cluster's hash tag of a key (documented Redis Cluster rule): the text between the
    first opening brace and the first closing brace after it. *)

Fixpoint take_until (c : ascii) (s : string) : option string :=
  match s with
  | EmptyString => None
  | String x s' => if decide (x = c) then Some EmptyString else String x <$> take_until c s'
  end.

Fixpoint hash_tag (k : string) : option string :=
  match k with
  | EmptyString => None
  | String x k' => if decide (x = "{"%char) then take_until "}"%char k' else hash_tag k'
  end.

(** A name that cannot disturb the schema: no brace and no colon. *)
Definition plain_char (c : ascii) : bool :=
  negb (bool_decide (c = ":"%char) || bool_decide (c = "{"%char) || bool_decide (c = "}"%char)).
Definition plain (s : string) : bool := forall_chars plain_char s.

(** ** The resources of one event, as the code names them *)

Inductive resource :=
  | RQueue (shard : string) | RHold (shard : string) | RSeq (shard : string)
  | RBudget (shard : string) | RScore (shard : string) | RStats (shard : string)
  | RUser (shard tokenID : string) | REntry (shard jti : string).

Definition key_name (event : string) (r : resource) : string :=
  match r with
  | RQueue sh => Queue event sh
  | RHold sh => Hold event sh
  | RSeq sh => Seq event sh
  | RBudget sh => Budget event sh
  | RScore sh => Score event sh
  | RStats sh => Stats event sh
  | RUser sh t => User event sh t
  | REntry sh j => Entry event sh j
  end.

Definition resource_shard (r : resource) : string :=
  match r with
  | RQueue sh | RHold sh | RSeq sh | RBudget sh | RScore sh | RStats sh
  | RUser sh _ | REntry sh _ => sh
  end.

(** What the key is meant to identify: user hashes and entry tickets belong to the slot. *)
Definition resource_norm (r : resource) : resource :=
  match r with
  | RUser sh t => RUser (slotOf sh) t
  | REntry sh j => REntry (slotOf sh) j
  | _ => r
  end.

(** ** Proofs *)

Section KeyShape.

(** The common shape of a shard-scoped key. *)
Definition tagged (prefix event slot rest : string) : string :=
  prefix +:+ String ":" (String "{" (event +:+ String ":" (slot +:+ String "}" rest))).

Definition resource_prefix (r : resource) : string :=
  match r with
  | RQueue _ => prefixQueue | RHold _ => prefixHold | RSeq _ => prefixSeq
  | RBudget _ => prefixBudget | RScore _ => prefixScore | RStats _ => prefixStats
  | RUser _ _ => prefixUser | REntry _ _ => prefixEntry
  end.

Definition resource_rest (r : resource) : string :=
  match r with
  | RQueue sh | RHold sh | RSeq sh | RBudget sh | RScore sh | RStats sh =>
      if decide (slotOf sh <> sh) then String ":" sh else EmptyString
  | RUser _ t => String ":" t
  | REntry _ j => String ":" j
  end.

Lemma key_name_tagged event r :
  key_name event r = tagged (resource_prefix r) event (slotOf (resource_shard r)) (resource_rest r).
Proof.
  destruct r; simpl; unfold Queue, Hold, Seq, Budget, Score, Stats, User, Entry, shardKey, ShardTag,
    tagged, prefixQueue, prefixHold, prefixSeq, prefixBudget, prefixScore, prefixStats, prefixUser,
    prefixEntry; try case_decide; autorewrite with str_rw; done.
Qed.

Lemma plain_not (x : ascii) s : plain_char x = false -> plain s = true ->
  forall_chars (fun c => negb (bool_decide (c = x))) s = true.
Proof.
  intros Hx. apply forall_chars_impl. intros c Hc.
  apply negb_true_iff, bool_decide_eq_false. congruence.
Qed.

Lemma resource_prefix_plain r : plain (resource_prefix r) = true.
Proof. destruct r; reflexivity. Qed.

Lemma tagged_inj p1 p2 e1 e2 s1 s2 r1 r2 :
  plain p1 = true -> plain p2 = true -> plain e1 = true -> plain e2 = true ->
  plain s1 = true -> plain s2 = true ->
  tagged p1 e1 s1 r1 = tagged p2 e2 s2 r2 -> p1 = p2 /\ e1 = e2 /\ s1 = s2 /\ r1 = r2.
Proof.
  unfold tagged. intros Hp1 Hp2 He1 He2 Hs1 Hs2 H.
  apply (str_cut_inj (fun c => negb (bool_decide (c = ":"%char)))) in H as (-> & _ & H);
    auto using plain_not.
  injection H as H.
  apply (str_cut_inj (fun c => negb (bool_decide (c = ":"%char)))) in H as (-> & _ & H);
    auto using plain_not.
  apply (str_cut_inj (fun c => negb (bool_decide (c = "}"%char)))) in H as (-> & _ & ->);
    auto using plain_not.
Qed.

Lemma take_until_app c a b :
  forall_chars (fun x => negb (bool_decide (x = c))) a = true ->
  take_until c (a +:+ String c b) = Some a.
Proof.
  induction a as [|x a IH]; rewrite ?str_app_cons; simpl.
  - intros _. by rewrite decide_True.
  - intros H. bool_to_prop. rewrite decide_False by done. by rewrite IH.
Qed.

Lemma hash_tag_skip p rest :
  plain p = true -> hash_tag (p +:+ String ":" (String "{" rest)) = take_until "}"%char rest.
Proof.
  induction p as [|x p IH]; rewrite ?str_app_cons; simpl.
  - intros _. reflexivity.
  - unfold plain; simpl. intros [Hx H]%andb_true_iff.
    rewrite decide_False by (intros ->; discriminate). by apply IH.
Qed.

Lemma plain_app a b : plain (a +:+ b) = plain a && plain b.
Proof. apply forall_chars_app. Qed.

Lemma plain_slotOf sh : plain sh = true -> plain (slotOf sh) = true.
Proof.
  destruct sh as [|c [|c' sh]]; simpl; try done. case_decide; [subst|done].
  unfold plain. cbn [forall_chars]. intros [_ H]%andb_true_iff. by rewrite H.
Qed.

Lemma hash_tag_tagged p e s r :
  plain p = true -> plain e = true -> plain s = true ->
  hash_tag (tagged p e s r) = Some (e +:+ ":" +:+ s).
Proof.
  intros Hp He Hs. unfold tagged. rewrite hash_tag_skip by done.
  replace (e +:+ String ":" (s +:+ String "}" r)) with ((e +:+ ":" +:+ s) +:+ String "}" r).
  - apply take_until_app. rewrite forall_chars_app. apply andb_true_iff.
    split; [by apply plain_not|]. rewrite forall_chars_app. apply andb_true_iff.
    split; [done|by apply plain_not].
  - by autorewrite with str_rw.
Qed.

Lemma slotOf_idem sh : slotOf (slotOf sh) = slotOf sh.
Proof. destruct sh as [|c [|c' sh]]; simpl; try done. case_decide; subst; simpl; [done|]. by rewrite decide_False. Qed.

(** Two keys with one name stand for the same thing, provided that names are plain. *)
Lemma key_name_inj e1 e2 r1 r2 :
  plain e1 = true -> plain e2 = true ->
  plain (resource_shard r1) = true -> plain (resource_shard r2) = true ->
  key_name e1 r1 = key_name e2 r2 -> e1 = e2 /\ resource_norm r1 = resource_norm r2.
Proof.
  intros He1 He2 Hs1 Hs2 H. rewrite !key_name_tagged in H.
  apply tagged_inj in H; auto using resource_prefix_plain, plain_slotOf.
  destruct H as (Hp & -> & Hslot & Hrest). split; [done|].
  destruct r1, r2; try discriminate Hp; simpl in *; try congruence;
    repeat case_decide; try congruence;
    repeat match goal with H : ¬ (_ ≠ _) |- _ => apply dec_stable in H end; congruence.
Qed.

(** The suspicion of a subject is kept outside every shard. *)
Lemma suspicion_apart e1 e2 subject r : Suspicion e1 subject <> key_name e2 r.
Proof.
  rewrite key_name_tagged. unfold Suspicion, tagged. intros H.
  apply (str_cut_inj (fun c => negb (bool_decide (c = ":"%char)))) in H as (H & _ & _);
    [by destruct r|done|by destruct r|done|done].
Qed.

Lemma key_name_hash_tag e r :
  plain e = true -> plain (resource_shard r) = true ->
  hash_tag (key_name e r) = Some (e +:+ ":" +:+ slotOf (resource_shard r)).
Proof.
  intros. rewrite key_name_tagged.
  apply hash_tag_tagged; auto using resource_prefix_plain, plain_slotOf.
Qed.

End KeyShape.
