(* ===== verification/Shard.v ===== *)
(** * Shard identifiers and assignment ([internal/shard/shard.go], [grower.go])

    Module [Ids]: the textual shard identifiers and their round trips.
    Module [Assign]: the keyed-hash assigner, its monotone growth, and the capacity rule.
    Module [GrowRace]: the compare-and-swap loop of [Grow] run by any number of goroutines
    under any interleaving. *)

From Stdlib Require Import DecimalPos DecimalString DecimalZ DecimalFacts.
From S2P Require Import Prelude.
From S2P Require Import Go.
Local Open Scope Z_scope.

Module Ids.

Definition normalPrefix : ascii := "s"%char.
Definition greylistPrefix : ascii := "g"%char.
Definition idWidth : nat := 4.
Definition zeroPad : string := "0000".
Definition maxIDDigits : nat := 9.

Definition ErrNoSalt : string := "shard: event salt is required".
Definition ErrBadCount : string := "shard: shard count out of range".
Definition ErrInvalidID : string := "shard: invalid shard id".
Definition ErrNoCapacity : string := "shard: max shard count reached".

Definition is_digit (c : ascii) : bool := byte_between "0" "9" c.

(** [pad]: at least [idWidth] digits; [zeroPad[:idWidth-len(s)] + s]. *)
Definition pad (n : Z) : string :=
  let s := itoa n in
  if (idWidth <=? String.length s)%nat then s
  else String.substring 0 (idWidth - String.length s) zeroPad +:+ s.

Definition ID (n : Z) : string := String normalPrefix (pad n).
Definition GreylistID (n : Z) : string := String greylistPrefix (pad n).

(** [Validate]: the length test, the prefix test, then the loop over the digits. *)
Definition Validate (id : string) : result unit :=
  if (String.length id <? 2)%nat || (maxIDDigits <? String.length id - 1)%nat
  then Err (ErrNew ErrInvalidID)
  else match id with
  | String c rest =>
      if negb (bool_decide (c = normalPrefix)) && negb (bool_decide (c = greylistPrefix))
      then Err (ErrNew ErrInvalidID)
      else if forall_chars is_digit rest then Ok tt else Err (ErrNew ErrInvalidID)
  | EmptyString => Err (ErrNew ErrInvalidID)
  end.

(** [strconv.Atoi] on a string of digits. *)
Definition Atoi (s : string) : option Z :=
  z ← parse_dec s; if in64 z then Some z else None.

Definition ParseID (id : string) : result (Z * bool) :=
  match Validate id with
  | Err e => Err e
  | Ok _ =>
      match Atoi (tail_str id) with
      | None => Err (ErrNew ErrInvalidID)
      | Some n => Ok (n, bool_decide (head_char id = Some greylistPrefix))
      end
  end.

Definition IsGreylist (id : string) : bool :=
  match id with String c _ => bool_decide (c = greylistPrefix) | EmptyString => false end.

Definition Greylist (id : string) : result string :=
  match Validate id with
  | Err e => Err e
  | Ok _ => Ok (String greylistPrefix (tail_str id))
  end.

Definition Origin (id : string) : result string :=
  match Validate id with
  | Err e => Err e
  | Ok _ => Ok (String normalPrefix (tail_str id))
  end.

(** ** Decimal text of a natural number *)

Lemma digits_string_of_uint d : forall_chars is_digit (NilEmpty.string_of_uint d) = true.
Proof. induction d; simpl; [done|..]; by rewrite IHd. Qed.

Lemma itoa_digits n : 0 <= n -> forall_chars is_digit (itoa n) = true.
Proof.
  intros Hn. unfold itoa. destruct n as [|p|p]; [done| |lia]. simpl.
  pose proof (digits_string_of_uint (Pos.to_uint p)).
  by destruct (Pos.to_uint p).
Qed.

Lemma of_uint_acc_ge d acc :
  Zpos acc * 10 ^ Z.of_nat (String.length (NilEmpty.string_of_uint d)) <= Zpos (Pos.of_uint_acc d acc).
Proof.
  revert acc. induction d; intros acc; simpl String.length; simpl Pos.of_uint_acc;
    [simpl; lia|..]; rewrite Nat2Z.inj_succ, Z.pow_succ_r by lia;
    (etransitivity; [|apply IHd]); nia.
Qed.

Lemma length_to_uint p (k : nat) :
  Zpos p < 10 ^ Z.of_nat k -> (String.length (NilEmpty.string_of_uint (Pos.to_uint p)) <= k)%nat.
Proof.
  intros Hp. pose proof (Unsigned.of_to p) as Hof.
  pose proof (Unsigned.to_uint_nonzero p) as Hnz.
  pose proof (Unsigned.to_uint_nonnil p) as Hnn.
  assert (Hun : Decimal.unorm (Pos.to_uint p) = Pos.to_uint p).
  { rewrite <- Unsigned.to_of, Hof. done. }
  assert (Hle : forall d a, Npos (Pos.of_uint_acc d a) = Npos p ->
    (String.length (NilEmpty.string_of_uint d) < k)%nat).
  { intros d a [= Ha]. pose proof (of_uint_acc_ge d a) as Hge. rewrite Ha in Hge.
    assert (10 ^ Z.of_nat (String.length (NilEmpty.string_of_uint d)) < 10 ^ Z.of_nat k) by nia.
    apply Z.pow_lt_mono_r_iff in H; lia. }
  destruct (Pos.to_uint p) as [|d|d|d|d|d|d|d|d|d|d] eqn:Ed; simpl in *; try congruence.
  { exfalso. unfold Decimal.unorm in Hun. simpl in Hun.
    destruct (Decimal.nzhead d) eqn:Eh; try congruence. exact (nzhead_nonzero d _ Eh). }
  all: apply Nat.le_succ_l; apply Hle with (1 := Hof).
Qed.

Lemma length_itoa n (k : nat) :
  0 <= n < 10 ^ Z.of_nat k -> (1 <= k)%nat -> (String.length (itoa n) <= k)%nat.
Proof.
  intros Hn Hk. unfold itoa. destruct n as [|p|p]; [simpl; lia| |lia]. simpl.
  pose proof (length_to_uint p k ltac:(lia)).
  pose proof (Unsigned.to_uint_nonnil p). destruct (Pos.to_uint p); done.
Qed.

Lemma itoa_uint n : 0 <= n ->
  exists d, itoa n = NilEmpty.string_of_uint d /\ Z.of_uint d = n /\ d <> Decimal.Nil.
Proof.
  intros Hn. unfold itoa. destruct n as [|p|p]; [|simpl|lia].
  - exists (Decimal.D0 Decimal.Nil). done.
  - exists (Pos.to_uint p). pose proof (Unsigned.to_uint_nonnil p) as Hnn.
    split_and!; [by destruct (Pos.to_uint p)| |done].
    unfold Z.of_uint. by rewrite Unsigned.of_to.
Qed.

Lemma parse_uint_string d : d <> Decimal.Nil ->
  parse_dec (NilEmpty.string_of_uint d) = Some (Z.of_uint d).
Proof.
  intros Hd. unfold parse_dec, NilZero.int_of_string, NilZero.uint_of_string.
  pose proof (NilEmpty.usu d) as Hu.
  destruct (NilEmpty.string_of_uint d) as [|c s] eqn:E; [by destruct d|].
  assert (Hc : Ascii.eqb c "-" = false) by (destruct d; simpl in E; try congruence; injection E as <- _; done).
  rewrite Hc, Hu. done.
Qed.

Lemma parse_pad n : 0 <= n -> parse_dec (pad n) = Some n.
Proof.
  intros Hn. unfold pad. destruct (itoa_uint n Hn) as (d & Ed & Hd & Hnn).
  case_match; [apply parse_itoa|].
  rewrite Ed in *. pose proof (parse_uint_string (Decimal.D0 d) ltac:(done)).
  pose proof (parse_uint_string (Decimal.D0 (Decimal.D0 d)) ltac:(done)).
  pose proof (parse_uint_string (Decimal.D0 (Decimal.D0 (Decimal.D0 d))) ltac:(done)).
  pose proof (parse_uint_string (Decimal.D0 (Decimal.D0 (Decimal.D0 (Decimal.D0 d)))) ltac:(done)).
  destruct (String.length (NilEmpty.string_of_uint d)) as [|[|[|[|l]]]]; try discriminate;
    subst n; cbn [idWidth Nat.sub String.substring zeroPad];
    rewrite ?str_app_cons, ?str_nil_app; assumption.
Qed.

Lemma pad_digits n : 0 <= n -> forall_chars is_digit (pad n) = true.
Proof.
  intros Hn. unfold pad. case_match; [by apply itoa_digits|].
  rewrite forall_chars_app, itoa_digits by done. rewrite andb_true_r.
  by destruct (String.length (itoa n)) as [|[|[|[|l]]]].
Qed.

Lemma pad_length n : 0 <= n < 10 ^ 9 -> (4 <= String.length (pad n) <= 9)%nat.
Proof.
  intros Hn. pose proof (length_itoa n 9 Hn ltac:(lia)). unfold pad.
  destruct (idWidth <=? String.length (itoa n))%nat eqn:Hw.
  - apply Nat.leb_le in Hw. unfold idWidth in Hw. lia.
  - apply Nat.leb_gt in Hw. unfold idWidth in *. rewrite str_length_app.
    destruct (String.length (itoa n)) as [|[|[|[|l]]]]; simpl; lia.
Qed.

Lemma Validate_cons c s : (c = normalPrefix \/ c = greylistPrefix) ->
  (1 <= String.length s <= 9)%nat -> forall_chars is_digit s = true -> Validate (String c s) = Ok tt.
Proof.
  intros Hc Hl Hd. unfold Validate, maxIDDigits. cbn [String.length].
  replace (S (String.length s) <? 2)%nat with false by (symmetry; apply Nat.ltb_ge; lia).
  replace (9 <? S (String.length s) - 1)%nat with false by (symmetry; apply Nat.ltb_ge; lia).
  rewrite Hd. by destruct Hc; subst.
Qed.

Lemma Validate_inv id : Validate id = Ok tt ->
  exists c s, id = String c s /\ (c = normalPrefix \/ c = greylistPrefix) /\
    (1 <= String.length s <= 9)%nat /\ forall_chars is_digit s = true.
Proof.
  unfold Validate, maxIDDigits. intros H.
  destruct (_ || _) eqn:Hlen; [done|]. apply orb_false_iff in Hlen as [H1 H2].
  apply Nat.ltb_ge in H1, H2. destruct id as [|c s]; [done|]. exists c, s.
  destruct (negb _ && negb _) eqn:Hc; [done|]. destruct (forall_chars is_digit s); [|done].
  simpl in H1, H2. split_and!; try done; try lia.
  apply andb_false_iff in Hc as [Hc|Hc]; apply negb_false_iff, bool_decide_eq_true in Hc; auto.
Qed.

Lemma ID_valid n : 0 <= n < 10 ^ 9 -> Validate (ID n) = Ok tt.
Proof.
  intros Hn. pose proof (pad_length n Hn). apply Validate_cons; [by left|lia|].
  apply pad_digits. lia.
Qed.

Lemma Validate_unit id : Validate id = Ok tt \/ Validate id = Err (ErrNew ErrInvalidID).
Proof. unfold Validate. repeat case_match; auto. Qed.

End Ids.

Module Assign.
Import Ids.

(** [hmac.New(sha256.New, salt)] over the token: the digest bytes. *)
Class Mac := hmac_sha256 : list Z -> string -> list Z.

Record Assigner := mkAssigner { salt : list Z; max : Z; count : Z }.

Definition set_count (a : Assigner) (n : Z) : Assigner := mkAssigner (salt a) (max a) n.

Definition NewAssigner (salt : list Z) (count max : Z) : result Assigner :=
  if (length salt =? 0)%nat then Err (ErrNew ErrNoSalt)
  else if (max <=? 0) || (count <=? 0) || (max <? count) then Err (ErrNew ErrBadCount)
  else Ok (mkAssigner salt max count).

(** [binary.BigEndian.Uint64(digest[:8])]. *)
Definition be_uint64 (bs : list Z) : Z := foldl (fun acc b => acc * 256 + b) 0 (take 8 bs).

Definition Index `{Mac} (a : Assigner) (tokenID : string) : Z :=
  be_uint64 (hmac_sha256 (salt a) tokenID) mod count a.

Definition Assign `{Mac} (a : Assigner) (tokenID : string) : string := ID (Index a tokenID).

(** [Grow], run by one goroutine: the loop exits in its first round.  The two results are
    Go's [(int, error)]. *)
Definition Grow (a : Assigner) (n : Z) : Assigner * (Z * option error) :=
  if max a <? n then (a, (count a, Some (ErrNew ErrNoCapacity)))
  else if n <=? count a then (a, (count a, None))
  else (set_count a n, (n, None)).

Definition EnsureCapacity (a : Assigner) (joined shardSize : Z) : Assigner * (Z * option error) :=
  if shardSize <=? 0 then (a, (count a, Some (ErrNew ErrBadCount)))
  else
    let need := int64_quo (int64_sub (int64_add joined shardSize) 1) shardSize in
    let need := if need <? 1 then 1 else need in
    if max a <? need then
      let '(a', (n, _)) := Grow a (max a) in (a', (n, Some (ErrNew ErrNoCapacity)))
    else Grow a need.

(** [Grower.once] (grower.go): one round of the growth loop, given the answer of
    [TotalWaiting].  Logging is the only other effect. *)
Definition grower_once (a : Assigner) (waiting : result Z) (shardSize : Z) : Assigner :=
  match waiting with
  | Err _ => a
  | Ok w => (EnsureCapacity a w shardSize).1
  end.

(** [String] and [LogValue]: what of an assigner reaches a log. *)
Definition String_ (a : Assigner) : string :=
  "shard.Assigner{count=" +:+ itoa (count a) +:+ ",max=" +:+ itoa (max a) +:+ "}".

Definition LogValue (a : Assigner) : list (string * Z) := [("shard_count", count a); ("max_shard_count", max a)].

Lemma logs_hide_salt a s : String_ (mkAssigner s (max a) (count a)) = String_ a /\ LogValue (mkAssigner s (max a) (count a)) = LogValue a.
Proof. done. Qed.

Definition wf (a : Assigner) : Prop := salt a <> [] /\ 0 < count a <= max a.

Lemma NewAssigner_wf salt count max a : NewAssigner salt count max = Ok a -> wf a.
Proof.
  unfold NewAssigner. destruct (length salt =? 0)%nat eqn:Hs; [done|].
  destruct (_ || _) eqn:Hc; [done|]. intros [= <-]. bool_to_prop.
  split; simpl; [|lia]. intros ->. done.
Qed.

Lemma Index_range `{Mac} a tok : wf a -> 0 <= Index a tok < count a.
Proof. intros [_ Hc]. apply Z.mod_pos_bound. lia. Qed.

Lemma Grow_wf a n : wf a -> wf (Grow a n).1.
Proof.
  unfold Grow. intros [Hs Hc]. destruct (max a <? n) eqn:Hm; [done|].
  destruct (n <=? count a) eqn:Hn; [done|]. bool_to_prop. split; simpl; [done|lia].
Qed.

Lemma grower_once_wf a waiting shardSize : wf a -> wf (grower_once a waiting shardSize).
Proof.
  intros Hw. destruct waiting as [w|e]; [|done]. unfold grower_once, EnsureCapacity. destruct (shardSize <=? 0); [done|].
  cbv zeta. destruct (max a <? _); [|by apply Grow_wf].
  pose proof (Grow_wf a (max a) Hw) as Hg. by destruct (Grow a (max a)) as [a' [n e]].
Qed.

Lemma Grow_spec a n : wf a -> n <= max a ->
  Grow a n = (set_count a (Z.max (count a) n), (Z.max (count a) n, None)).
Proof.
  intros _ Hn. unfold Grow. rewrite (proj2 (Z.ltb_ge _ _)) by lia.
  destruct (n <=? count a) eqn:Hc; bool_to_prop.
  - rewrite Z.max_l by lia. by destruct a.
  - by rewrite Z.max_r by lia.
Qed.

(** The number of shards of target size [shardSize] that [joined] people need. *)
Definition shards_needed (joined shardSize : Z) : Z := Z.max 1 ((joined + shardSize - 1) / shardSize).

Lemma EnsureCapacity_spec a joined shardSize : wf a ->
  0 <= joined -> 0 < shardSize -> joined + shardSize <= maxDuration ->
  EnsureCapacity a joined shardSize =
  let n := Z.max (count a) (Z.min (max a) (shards_needed joined shardSize)) in
  (set_count a n,
   (n, if max a <? shards_needed joined shardSize then Some (ErrNew ErrNoCapacity) else None)).
Proof.
  intros Hw Hj Hs Hov. unfold EnsureCapacity.
  rewrite (proj2 (Z.leb_gt _ _)) by lia.
  unfold int64_add, int64_sub, int64_quo, maxDuration in *.
  rewrite (wrap64_id (joined + shardSize)) by (apply in64_spec; unfold two63 in *; lia).
  rewrite (wrap64_id (joined + shardSize - 1)) by (apply in64_spec; unfold two63 in *; lia).
  rewrite Z.quot_div_nonneg by lia.
  assert (0 <= (joined + shardSize - 1) / shardSize <= joined + shardSize).
  { split; [apply Z.div_pos; lia|]. apply Z.div_le_upper_bound; nia. }
  rewrite wrap64_id by (apply in64_spec; unfold two63 in *; lia).
  replace (if (joined + shardSize - 1) / shardSize <? 1 then 1 else (joined + shardSize - 1) / shardSize)
    with (shards_needed joined shardSize)
    by (unfold shards_needed; destruct (_ <? 1) eqn:?; bool_to_prop; lia).
  cbv zeta. destruct (max a <? shards_needed joined shardSize) eqn:Hm; bool_to_prop.
  - rewrite Grow_spec by (done || lia). by rewrite Z.min_l by lia.
  - rewrite Grow_spec by (done || lia). by rewrite Z.min_r by lia.
Qed.

Lemma shards_needed_enough joined shardSize : 0 <= joined -> 0 < shardSize ->
  joined <= shards_needed joined shardSize * shardSize.
Proof.
  intros. unfold shards_needed.
  pose proof (Z.div_mod (joined + shardSize - 1) shardSize ltac:(lia)).
  pose proof (Z.mod_pos_bound (joined + shardSize - 1) shardSize ltac:(lia)). nia.
Qed.

End Assign.

Module GrowRace.

(** Program counters of a goroutine inside [Grow(n)], after the ceiling test: about to load,
    about to compare-and-swap the value it loaded, or returned. *)
Inductive gpc :=
  | GLoad (n : Z)
  | GCas (n cur : Z)
  | GRet (n v : Z).

Definition target (p : gpc) : Z :=
  match p with GLoad n => n | GCas n _ => n | GRet n _ => n end.

(** One atomic action of one goroutine on the shared counter. *)
Definition gstep (c : Z) (p : gpc) : option (Z * gpc) :=
  match p with
  | GLoad n => Some (c, if n <=? c then GRet n c else GCas n c)
  | GCas n cur => Some (if c =? cur then (n, GRet n n) else (c, GLoad n))
  | GRet _ _ => None
  end.

(** Any goroutine may act next. *)
Inductive step : Z * list gpc -> Z * list gpc -> Prop :=
  | step_at i c ps p c' p' :
      ps !! i = Some p -> gstep c p = Some (c', p') -> step (c, ps) (c', <[i := p']> ps).

Definition finished (p : gpc) : Prop := exists n v, p = GRet n v.

Definition targets_max (c0 : Z) (ns : list Z) : Z := foldr Z.max c0 ns.

(** What holds of the counter [c] and of every goroutine, between [c0] and the largest target. *)
Definition pc_ok (c : Z) (p : gpc) : Prop :=
  match p with
  | GLoad _ => True
  | GCas n cur => cur <= c /\ cur < n
  | GRet n v => n <= v <= c
  end.

Record inv (c0 : Z) (ns : list Z) (s : Z * list gpc) : Prop := {
  inv_range : c0 <= s.1 <= targets_max c0 ns;
  inv_targets : target <$> s.2 = ns;
  inv_pcs : Forall (pc_ok s.1) s.2
}.

Definition weight (c : Z) (p : gpc) : Z :=
  match p with
  | GLoad _ => 2
  | GCas _ cur => if cur =? c then 1 else 3
  | GRet _ _ => 0
  end.

Definition measure (c0 : Z) (ns : list Z) (s : Z * list gpc) : Z :=
  (targets_max c0 ns - s.1) * (2 * Z.of_nat (length s.2)) + sumZ (weight s.1 <$> s.2).

Lemma targets_max_ge c0 ns n : n ∈ ns -> n <= targets_max c0 ns.
Proof. induction 1; simpl; lia. Qed.

Lemma targets_max_ge0 c0 ns : c0 <= targets_max c0 ns.
Proof. induction ns; simpl; lia. Qed.

Lemma targets_max_le c0 ns x : c0 <= x -> (forall n, n ∈ ns -> n <= x) -> targets_max c0 ns <= x.
Proof.
  intros Hx. induction ns as [|n ns IH]; intros H; simpl; [done|].
  apply Z.max_lub; [apply H; by left|apply IH; intros; apply H; by right].
Qed.

Lemma pc_ok_mono c c' p : c <= c' -> pc_ok c p -> pc_ok c' p.
Proof. destruct p; simpl; lia. Qed.

Lemma gstep_ok c p c' p' : gstep c p = Some (c', p') -> pc_ok c p ->
  c <= c' /\ pc_ok c' p' /\ target p' = target p /\ (c' = c \/ (c < c' /\ c' = target p)).
Proof.
  destruct p as [n|n cur|]; simpl; [| |done].
  - destruct (n <=? c) eqn:Hn; intros [= <- <-] _; bool_to_prop; simpl; lia.
  - destruct (c =? cur) eqn:Hc; intros [= <- <-] [? ?]; bool_to_prop; simpl; lia.
Qed.

Lemma inv_step c0 ns s s' : inv c0 ns s -> step s s' -> inv c0 ns s'.
Proof.
  intros [Hr Ht Hp] Hstep. destruct Hstep as [i c ps p c' p' Hi Hg]. simpl in *.
  pose proof (Forall_lookup_1 _ _ _ _ Hp Hi) as Hpi.
  destruct (gstep_ok _ _ _ _ Hg Hpi) as (Hle & Hok & Htp & Hc').
  assert (target p ∈ ns) by (rewrite <- Ht; apply list_elem_of_fmap_2, (list_elem_of_lookup_2 _ _ _ Hi)).
  pose proof (targets_max_ge c0 ns _ H). split; simpl.
  - lia.
  - rewrite list_fmap_insert, Htp, Ht. apply list_insert_id. rewrite <- Ht, list_lookup_fmap, Hi. done.
  - apply Forall_insert; [|done]. eapply Forall_impl; [|exact Hp]. intros. by eapply pc_ok_mono.
Qed.

Lemma inv_init c0 ns : inv c0 ns (c0, GLoad <$> ns).
Proof.
  split; simpl; [pose proof (targets_max_ge0 c0 ns); lia| |].
  - rewrite <- list_fmap_compose. by apply list_fmap_id.
  - apply Forall_fmap. by apply Forall_true.
Qed.

Lemma inv_rtc c0 ns s s' : inv c0 ns s -> rtc step s s' -> inv c0 ns s'.
Proof. induction 2; eauto using inv_step. Qed.

Lemma weight_le c c' p : weight c' p <= weight c p + 2.
Proof. destruct p; simpl; repeat case_match; lia. Qed.

Lemma weight_nonneg c p : 0 <= weight c p.
Proof. destruct p; simpl; repeat case_match; lia. Qed.

Lemma measure_nonneg c0 ns s : inv c0 ns s -> 0 <= measure c0 ns s.
Proof.
  intros [Hr _ _]. unfold measure.
  assert (0 <= sumZ (weight s.1 <$> s.2)).
  { apply sumZ_nonneg, Forall_fmap, Forall_true. intros. apply weight_nonneg. }
  nia.
Qed.

Lemma measure_step c0 ns s s' : inv c0 ns s -> step s s' -> measure c0 ns s' < measure c0 ns s.
Proof.
  intros Hinv Hstep. pose proof (inv_step _ _ _ _ Hinv Hstep) as Hinv'.
  destruct Hstep as [i c ps p c' p' Hi Hg]. unfold measure; simpl.
  rewrite length_insert, list_fmap_insert.
  rewrite (sumZ_insert _ i (weight c' p)) by (rewrite list_lookup_fmap, Hi; done).
  pose proof (sumZ_map_le (weight c') (weight c) ps 2 ltac:(intros; apply weight_le)) as Hsum.
  pose proof (lookup_lt_Some _ _ _ Hi) as Hlen.
  pose proof (Forall_lookup_1 _ _ _ _ (inv_pcs _ _ _ Hinv) Hi) as Hpi. simpl in *.
  destruct p as [n|n cur|]; simpl in Hg; [| |done].
  - destruct (n <=? c) eqn:Hn; injection Hg as <- <-; simpl; [lia|].
    rewrite Z.eqb_refl. lia.
  - destruct (c =? cur) eqn:Hc; injection Hg as <- <-; bool_to_prop; simpl in *.
    + subst cur. rewrite (proj2 (Z.eqb_neq c n)) by lia. nia.
    + rewrite (proj2 (Z.eqb_neq cur c)) by lia. lia.
Qed.

(** Every schedule is finite, with an explicit bound. *)
Lemma steps_bounded c0 ns k s s' : inv c0 ns s -> nsteps step k s s' -> Z.of_nat k <= measure c0 ns s.
Proof.
  intros Hinv Hn. induction Hn as [s|k s1 s2 s3 H12 _ IH].
  - pose proof (measure_nonneg _ _ _ Hinv). lia.
  - specialize (IH (inv_step _ _ _ _ Hinv H12)). pose proof (measure_step _ _ _ _ Hinv H12). lia.
Qed.

(** A goroutine that has not returned can always act. *)
Lemma progress c ps p : p ∈ ps -> ~ finished p -> exists s', step (c, ps) s'.
Proof.
  intros [i Hi]%list_elem_of_lookup Hf. destruct p as [n|n cur|n v].
  - eexists. by eapply step_at.
  - destruct (c =? cur) eqn:Hc; eexists; eapply step_at; eauto; simpl; by rewrite Hc.
  - destruct Hf. by exists n, v.
Qed.

Lemma all_finished_count c0 ns s : inv c0 ns s -> Forall finished s.2 -> s.1 = targets_max c0 ns.
Proof.
  intros [Hr Ht Hp] Hf. apply Z.le_antisymm; [lia|].
  assert (Hall : forall n, n ∈ ns -> n <= s.1).
  { intros n Hn. rewrite <- Ht in Hn. apply list_elem_of_fmap in Hn as (p & -> & Hin%list_elem_of_In).
    rewrite Forall_forall in Hf, Hp. destruct (Hf p Hin) as (n & v & ->).
    specialize (Hp _ Hin). simpl in *. lia. }
  apply targets_max_le; [lia|done].
Qed.

End GrowRace.
