(* ===== verification/Identity.v ===== *)
(** * What keys and shard identifiers guarantee

    Properties of [Keys] and [Shard]: distinct things have distinct names, the keys one
    script touches share a cluster slot, identifiers survive their textual form, capacity
    grows as promised, also under concurrent growers. *)

From S2P Require Import Prelude.
From S2P Require Import Go.
From S2P Require Import Keys.
From S2P Require Import Shard.
Local Open Scope string_scope.
Local Open Scope Z_scope.

(** Key names are unambiguous.  With plain event and shard names, two keys are equal
    only if they name the same resource of the same event; and every key of a shard hashes
    to the slot of that shard's origin, so a script that touches an origin shard and its
    greylist twin never crosses slots. *)
Lemma keys_unambiguous_and_colocated e1 e2 r1 r2 :
  plain e1 = true -> plain e2 = true ->
  plain (resource_shard r1) = true -> plain (resource_shard r2) = true ->
  (key_name e1 r1 = key_name e2 r2 -> e1 = e2 /\ resource_norm r1 = resource_norm r2) /\
  (e1 = e2 -> slotOf (resource_shard r1) = slotOf (resource_shard r2) ->
     hash_tag (key_name e1 r1) = hash_tag (key_name e2 r2) /\ is_Some (hash_tag (key_name e1 r1))).
Proof.
  intros He1 He2 H1 H2. split; [by apply key_name_inj|].
  intros <- Hs. rewrite !key_name_hash_tag, Hs by done. eauto.
Qed.

(** Shard identifiers survive their text.  For every number of up to nine digits both
    identifiers are valid, parse back to the number and the kind, and the greylist twin and
    the origin are inverse to each other. *)
Lemma shard_ids_roundtrip n : 0 <= n < 10 ^ 9 ->
  Ids.ParseID (Ids.ID n) = Ok (n, false) /\ Ids.ParseID (Ids.GreylistID n) = Ok (n, true) /\
  Ids.Greylist (Ids.ID n) = Ok (Ids.GreylistID n) /\ Ids.Origin (Ids.GreylistID n) = Ok (Ids.ID n) /\
  Ids.Origin (Ids.ID n) = Ok (Ids.ID n).
Proof.
  intros Hn. pose proof (Ids.ID_valid n Hn) as Hv.
  assert (Hg : Ids.Validate (Ids.GreylistID n) = Ok tt).
  { pose proof (Ids.pad_length n Hn). apply Ids.Validate_cons; [by right|lia|]. apply Ids.pad_digits. lia. }
  assert (Ha : Ids.Atoi (Ids.pad n) = Some n).
  { unfold Ids.Atoi. rewrite Ids.parse_pad by lia. cbn.
    assert (in64 n = true) as ->; [|done]. apply in64_spec. unfold two63. lia. }
  unfold Ids.ParseID, Ids.Greylist, Ids.Origin. rewrite Hv, Hg. cbn [Ids.ID Ids.GreylistID tail_str head_char].
  rewrite Ha. done.
Qed.

(** Both identifiers are plain names, and of one slot. *)
Lemma ids_plain n : 0 <= n < 10 ^ 9 ->
  plain (Ids.ID n) = true /\ plain (Ids.GreylistID n) = true /\ slotOf (Ids.GreylistID n) = slotOf (Ids.ID n).
Proof.
  intros Hn. assert (Hd : forall_chars plain_char (Ids.pad n) = true).
  { eapply forall_chars_impl; [|apply Ids.pad_digits; lia]. intros c Hc. unfold plain_char.
    apply negb_true_iff, orb_false_iff. split; [apply orb_false_iff; split|]; apply bool_decide_eq_false_2; intros ->; discriminate Hc. }
  assert (Hl : String.length (Ids.pad n) <> 0%nat) by (pose proof (Ids.pad_length n Hn); lia).
  unfold plain, Ids.ID, Ids.GreylistID. cbn [forall_chars]. rewrite Hd. split_and!; [done|done|]. by destruct (Ids.pad n).
Qed.

(** C20: names keep apart what is apart.  With plain event and shard names, two keys are equal
    only if they name the same resource of the same event; every key of a shard hashes to the
    slot of that shard's origin.  For every number of up to nine digits both shard identifiers
    are valid and plain, parse back to the number and the kind, and the greylist twin and the
    origin are inverse to each other; so a script that touches a shard and its twin never
    crosses slots, and never mistakes one's keys for another's. *)
Theorem names_keep_apart e1 e2 r1 r2 n : plain e1 = true -> plain e2 = true ->
  plain (resource_shard r1) = true -> plain (resource_shard r2) = true -> 0 <= n < 10 ^ 9 ->
  (key_name e1 r1 = key_name e2 r2 -> e1 = e2 /\ resource_norm r1 = resource_norm r2) /\
  (e1 = e2 -> slotOf (resource_shard r1) = slotOf (resource_shard r2) ->
     hash_tag (key_name e1 r1) = hash_tag (key_name e2 r2) /\ is_Some (hash_tag (key_name e1 r1))) /\
  (plain (Ids.ID n) = true /\ plain (Ids.GreylistID n) = true /\ slotOf (Ids.GreylistID n) = slotOf (Ids.ID n)) /\
  (Ids.ParseID (Ids.ID n) = Ok (n, false) /\ Ids.ParseID (Ids.GreylistID n) = Ok (n, true) /\
   Ids.Greylist (Ids.ID n) = Ok (Ids.GreylistID n) /\ Ids.Origin (Ids.GreylistID n) = Ok (Ids.ID n) /\
   Ids.Origin (Ids.ID n) = Ok (Ids.ID n)).
Proof.
  intros He1 He2 H1 H2 Hn. destruct (keys_unambiguous_and_colocated e1 e2 r1 r2 He1 He2 H1 H2) as [? ?].
  split; [done|]. split; [done|]. split; [|by apply shard_ids_roundtrip]. by apply ids_plain.
Qed.

Lemma names_keep_apart_witness :
  hash_tag (key_name "show" (RQueue "g0001")) = hash_tag (key_name "show" (RUser "s0001" "ann")) /\
  Ids.ParseID "s0042" = Ok (42, false).
Proof.
  destruct (names_keep_apart "show" "show" (RQueue "g0001") (RUser "s0001" "ann") 42 eq_refl eq_refl eq_refl eq_refl ltac:(lia))
    as (_ & H1 & _ & H2).
  split; [exact (proj1 (H1 eq_refl eq_refl))|exact (proj1 H2)].
Defined.

(** Assignment and capacity.  A valid assigner maps every token to a valid shard id
    below its count; growing for [joined] people leaves enough shards of the target size
    for them, or reports that the ceiling is reached and grows to it; the count never
    shrinks and never exceeds the ceiling. *)
Theorem capacity_is_ensured `{Assign.Mac} a joined shardSize tok :
  Assign.wf a -> Assign.max a <= 10 ^ 9 -> 0 <= joined -> 0 < shardSize -> joined + shardSize <= maxDuration ->
  Ids.Validate (Assign.Assign a tok) = Ok tt /\
  let r := Assign.EnsureCapacity a joined shardSize in
  Assign.wf r.1 /\ Assign.count a <= Assign.count r.1 <= Assign.max a /\ Assign.max r.1 = Assign.max a /\
  (r.2.2 = None -> joined <= Assign.count r.1 * shardSize) /\
  (r.2.2 <> None -> Assign.count r.1 = Assign.max a /\ r.2.2 = Some (ErrNew Ids.ErrNoCapacity)).
Proof.
  intros Hw Hmax Hj Hs Hov. split.
  { pose proof (Assign.Index_range a tok Hw). destruct Hw as [_ Hc]. apply Ids.ID_valid. lia. }
  intros r. unfold r. rewrite Assign.EnsureCapacity_spec by done. cbn.
  pose proof (Assign.shards_needed_enough joined shardSize Hj Hs) as Hn. destruct Hw as [Hsalt Hc].
  destruct (Assign.max a <? Assign.shards_needed joined shardSize) eqn:E; bool_to_prop.
  - split; [by split; simpl; [|lia]|]. split; [lia|]. split; [done|]. split; [done|]. intros _. split; [lia|done].
  - split; [by split; simpl; [|lia]|]. split; [lia|]. split; [done|]. split; [intros _; nia|done].
Qed.

(** Concurrent growth.  Any number of goroutines run [Grow] on the shared counter under
    any interleaving of their atomic loads and compare-and-swaps: the counter never
    decreases below its start nor passes the largest target, every run ends after a bounded
    number of steps, and when all have returned the counter is the largest of the start and
    the targets. *)
Theorem concurrent_growth_converges c0 ns k s :
  nsteps GrowRace.step k (c0, GrowRace.GLoad <$> ns) s ->
  c0 <= s.1 <= GrowRace.targets_max c0 ns /\
  Z.of_nat k <= GrowRace.measure c0 ns (c0, GrowRace.GLoad <$> ns) /\
  ((forall s', ~ GrowRace.step s s') -> s.1 = GrowRace.targets_max c0 ns).
Proof.
  intros Hn. pose proof (GrowRace.inv_init c0 ns) as Hi.
  assert (Hinv : GrowRace.inv c0 ns s) by (eapply GrowRace.inv_rtc; [exact Hi|by eapply rtc_nsteps_2]).
  split_and!.
  - apply Hinv.
  - apply Hinv.
  - by eapply GrowRace.steps_bounded.
  - intros Hstuck. apply GrowRace.all_finished_count; [done|]. apply list.Forall_forall. intros p Hp.
    destruct s as [c ps]. assert (Hd : GrowRace.finished p \/ ~ GrowRace.finished p).
    { destruct p as [| |n v]; [right; by intros (? & ? & ?)..|left; by exists n, v]. }
    destruct Hd as [|Hnf]; [done|].
    destruct (GrowRace.progress c ps p Hp Hnf) as [s' Hs']. by apply Hstuck in Hs'.
Qed.

(** What a call of [EnsureCapacity] hands to [Grow]. *)
Definition grow_target (a : Assign.Assigner) (shardSize joined : Z) : Z := Z.min (Assign.max a) (Assign.shards_needed joined shardSize).

(** C21: capacity is ensured, by any number of goroutines at once.  Let each call
    [EnsureCapacity] for the number it saw, under any interleaving of the atomic loads and
    compare-and-swaps of [Grow].  At every moment the count has not shrunk, is not above the
    ceiling, and tokens are assigned to valid shards; every call ends, after a bounded number
    of steps in all; and when all have, the shards are enough for every number seen, or at
    the ceiling.  One call alone does just that, and reports the ceiling. *)
Theorem capacity_is_ensured_concurrently `{Assign.Mac} a shardSize js k s :
  Assign.wf a -> Assign.max a <= 10 ^ 9 -> 0 < shardSize -> Forall (fun j => 0 <= j /\ j + shardSize <= maxDuration) js ->
  let ns := grow_target a shardSize <$> js in
  nsteps GrowRace.step k (Assign.count a, GrowRace.GLoad <$> ns) s ->
  (Assign.count a <= s.1 <= Assign.max a /\ Assign.wf (Assign.set_count a s.1) /\
   forall tok, Ids.Validate (Assign.Assign (Assign.set_count a s.1) tok) = Ok tt) /\
  Z.of_nat k <= GrowRace.measure (Assign.count a) ns (Assign.count a, GrowRace.GLoad <$> ns) /\
  ((forall s', ~ GrowRace.step s s') -> Forall (fun j => j <= s.1 * shardSize \/ s.1 = Assign.max a) js) /\
  Forall (fun j => let r := Assign.EnsureCapacity a j shardSize in
     Assign.wf r.1 /\ Assign.count a <= Assign.count r.1 /\ Assign.max r.1 = Assign.max a /\
     (r.2.2 = None -> j <= Assign.count r.1 * shardSize) /\
     (r.2.2 <> None -> Assign.count r.1 = Assign.max a /\ r.2.2 = Some (ErrNew Ids.ErrNoCapacity))) js.
Proof.
  intros Hw Hmax Hsize Hjs ns Hn. destruct (concurrent_growth_converges _ _ _ _ Hn) as (Hrange & Hk & Hend).
  assert (Hle : GrowRace.targets_max (Assign.count a) ns <= Assign.max a).
  { apply GrowRace.targets_max_le; [apply Hw|]. intros n Hin. apply list_elem_of_fmap in Hin as (j & -> & _). unfold grow_target. lia. }
  assert (Hw' : Assign.wf (Assign.set_count a s.1)).
  { destruct Hw as [Hsalt Hc]. split; [done|]. cbn. lia. }
  split_and!; [lia|lia|exact Hw'| |exact Hk| |].
  - intros tok. pose proof (Assign.Index_range _ tok Hw'). apply Ids.ID_valid. destruct Hw' as [_ Hc]. cbn in *. lia.
  - intros Hstuck. specialize (Hend Hstuck). apply list.Forall_forall. intros j Hj.
    rewrite list.Forall_forall in Hjs. destruct (Hjs j Hj) as [Hj0 _]. pose proof (Assign.shards_needed_enough j shardSize Hj0 Hsize).
    assert (Hin : grow_target a shardSize j ∈ ns) by (by apply list_elem_of_fmap_2).
    pose proof (GrowRace.targets_max_ge (Assign.count a) ns _ Hin). unfold grow_target in *. nia.
  - eapply list.Forall_impl; [exact Hjs|]. intros j [Hj0 Hj]. cbn beta.
    destruct (capacity_is_ensured a j shardSize emp Hw Hmax Hj0 Hsize Hj) as (_ & R1 & [R2 _] & R3 & R4 & R5). done.
Qed.

Lemma capacity_is_ensured_concurrently_witness : exists k,
  Z.of_nat k <= GrowRace.measure 2 [3; 2] (2, [GrowRace.GLoad 3; GrowRace.GLoad 2]) /\ k = 1%nat /\
  let r := Assign.EnsureCapacity (Assign.mkAssigner [1] 8 2) 25 10 in r.2.2 = None -> 25 <= Assign.count r.1 * 10.
Proof.
  exists 1%nat.
  assert (Hw : Assign.wf (Assign.mkAssigner [1] 8 2)) by (split; [done|simpl; lia]).
  destruct (@capacity_is_ensured_concurrently (fun _ _ => [0;0;0;0;0;0;0;7]) (Assign.mkAssigner [1] 8 2) 10 [25; 12] 1
    (2, [GrowRace.GCas 3 2; GrowRace.GLoad 2]) Hw ltac:(simpl; lia) ltac:(lia) ltac:(repeat constructor; unfold maxDuration, two63; lia)) as (_ & Hk & _ & Hone).
  - eapply nsteps_l; [|apply nsteps_O].
    exact (GrowRace.step_at 0 2 [GrowRace.GLoad 3; GrowRace.GLoad 2] (GrowRace.GLoad 3) 2 (GrowRace.GCas 3 2) eq_refl eq_refl).
  - split; [exact Hk|]. split; [reflexivity|]. rewrite list.Forall_forall in Hone. destruct (Hone 25 ltac:(left)) as (_ & _ & _ & H1 & _). exact H1.
Defined.
