(* ===== verification/Scripts.v ===== *)
(** * The Lua state transitions ([scripts/lua/*.lua])

    Each script runs atomically inside Redis: a function from a store to a store and a
    reply, written command for command like its source, over any [Redis] service.  The body
    of a script takes its numbers as [Z]; the entry point [*_lua] takes the [KEYS] and [ARGV]
    arrays as the callers send them and applies Lua's [tonumber]. *)

From S2P Require Import Prelude.
From S2P Require Import Redis.
Local Open Scope string_scope.
Local Open Scope Z_scope.

(** One element of a Lua reply array, as go-redis delivers it. *)
Inductive rv :=
  | RInt (z : Z)
  | RStr (str : string).

#[export] Instance rv_eq_dec : EqDecision rv.
Proof. solve_decision. Defined.

Definition reply := list rv.

(** [tonumber(ARGV[i])]: the callers send decimal integers. *)
Definition arg (v : string) : Z := default 0 (parse_dec v).

(** [tonumber(v) or d]. *)
Definition num_or (d : Z) (v : option string) : Z := default d (tonumber v).

Section Scripts.
Context {S : Type} {R : Redis S}.

(** ** enqueue.lua *)

Definition enqueue_snapshot (queueKey tokenID status : string) (rankScore : Z) (segment : string)
    (s : S) : S * reply :=
  (s, [RStr status; RInt (default (-1) (ZRANK queueKey tokenID s)); RInt (ZCARD queueKey s);
       RInt rankScore; RStr segment]).

(** Lines 77 to 102: give a fresh place. *)
Definition enqueue_fresh (queueKey seqKey userKey tokenID shard : string)
    (nowMs lotteryEndMs lotteryRand lotteryBand : Z) (fpHash ipPrefix : string) (userTTLms : Z)
    (s : S) : S * reply :=
  let '(s, rankScore, segment) :=
    if nowMs <? lotteryEndMs then (s, lotteryRand, "lottery")
    else let r := INCR seqKey s in (r.1, lotteryBand + r.2, "fifo") in
  let s := ZADD queueKey rankScore tokenID s in
  let s := HSET userKey
    [("state", "waiting"); ("shard", shard); ("orig_shard", shard); ("orig_rank", itoa rankScore);
     ("segment", segment); ("score", itoa 0); ("fp_hash", fpHash); ("ip_prefix", ipPrefix);
     ("joined_at", itoa nowMs); ("last_seen", itoa nowMs); ("hb_count", itoa 0)] s in
  let s := PEXPIRE userKey userTTLms s in
  enqueue_snapshot queueKey tokenID "created" rankScore segment s.

Definition enqueue (queueKey seqKey userKey tokenID shard : string)
    (nowMs lotteryEndMs lotteryRand lotteryBand : Z) (fpHash ipPrefix : string) (userTTLms : Z)
    (s : S) : S * reply :=
  let fresh := enqueue_fresh queueKey seqKey userKey tokenID shard nowMs lotteryEndMs lotteryRand
                 lotteryBand fpHash ipPrefix userTTLms in
  match HGET userKey "state" s with
  | None => fresh s
  | Some state =>
      let rankScore := num_or (-1) (HGET userKey "orig_rank" s) in
      let segment := default emp (HGET userKey "segment" s) in
      if decide (state = "waiting" \/ state = "evicting") then
        let s := HSET userKey [("last_seen", itoa nowMs)] s in
        let s := PEXPIRE userKey userTTLms s in
        enqueue_snapshot queueKey tokenID "exists" rankScore segment s
      else if decide (state <> "evicted") then
        enqueue_snapshot queueKey tokenID state rankScore segment s
      else fresh (DEL userKey s)
  end.

Definition enqueue_lua (KEYS ARGV : list string) (s : S) : S * reply :=
  match KEYS, ARGV with
  | [q; sq; u], [tok; sh; now; lend; lrand; band; fp; ipp; ttl] =>
      enqueue q sq u tok sh (arg now) (arg lend) (arg lrand) (arg band) fp ipp (arg ttl) s
  | _, _ => (s, [])
  end.

(** ** position.lua *)

Definition rank_or (key tokenID : string) (s : S) : Z := default (-1) (ZRANK key tokenID s).

Definition position (queueKey holdKey userKey tokenID : string) (s : S) : S * reply :=
  match HGET userKey "state" s with
  | None =>
      (s, [RStr "unknown"; RInt (-1); RInt (ZCARD queueKey s); RInt (-1); RInt (ZCARD holdKey s);
           RInt (-1); RStr emp; RInt (-1); RInt (-1); RInt (-1); RInt 0; RInt (-1)])
  | Some state =>
      (s, [RStr state; RInt (rank_or queueKey tokenID s); RInt (ZCARD queueKey s);
           RInt (rank_or holdKey tokenID s); RInt (ZCARD holdKey s);
           RInt (num_or (-1) (HGET userKey "orig_rank" s));
           RStr (default emp (HGET userKey "segment" s));
           RInt (num_or (-1) (HGET userKey "joined_at" s));
           RInt (num_or (-1) (HGET userKey "last_seen" s));
           RInt (num_or 0 (HGET userKey "score" s));
           RInt (num_or 0 (HGET userKey "rc_count" s));
           RInt (num_or (-1) (HGET userKey "observe_from" s))])
  end.

Definition position_lua (KEYS ARGV : list string) (s : S) : S * reply :=
  match KEYS, ARGV with
  | [q; h; u], [tok] => position q h u tok s
  | _, _ => (s, [])
  end.

(** ** heartbeat.lua *)

Definition heartbeat (queueKey userKey tokenID : string) (nowMs userTTLms : Z) (s : S) : S * reply :=
  match HGET userKey "state" s with
  | None => (s, [RStr "unknown"; RInt (-1); RInt 0; RInt (-1); RInt 0])
  | Some state =>
      let delta := match tonumber (HGET userKey "last_seen" s) with
                   | Some prevSeen => nowMs - prevSeen
                   | None => -1
                   end in
      let '(s, state, revived) :=
        if decide (state = "evicting") then
          let s := HDEL userKey ["evict_at"] s in
          let s := HSET userKey [("state", "waiting")] s in
          (s, "waiting", 1)
        else (s, state, 0) in
      let s := HSET userKey [("last_seen", itoa nowMs)] s in
      let r := HINCRBY userKey "hb_count" 1 s in
      let s := PEXPIRE userKey userTTLms r.1 in
      (s, [RStr state; RInt delta; RInt r.2; RInt (rank_or queueKey tokenID s); RInt revived])
  end.

Definition heartbeat_lua (KEYS ARGV : list string) (s : S) : S * reply :=
  match KEYS, ARGV with
  | [q; u], [tok; now; ttl] => heartbeat q u tok (arg now) (arg ttl) s
  | _, _ => (s, [])
  end.

(** ** evict.lua *)

Record sweep_acc := Acc { marked : Z; removed : Z; ghosts : Z }.

(** The body of the [for] loop (lines 48 to 77). *)
Definition evict_one (queueKey prefix : string) (nowMs staleAfter graceMs evictedTTL : Z)
    (acc : S * sweep_acc) (tokenID : string) : S * sweep_acc :=
  let '(s, n) := acc in
  let userKey := prefix +:+ tokenID in
  let lastSeen := tonumber (HGET userKey "last_seen" s) in
  let evictAt := tonumber (HGET userKey "evict_at" s) in
  match HGET userKey "state" s with
  | None => ((ZREM queueKey tokenID s).1, Acc (marked n) (removed n) (ghosts n + 1))
  | Some state =>
      if decide (state = "evicting") then
        match evictAt with
        | Some at_ =>
            if at_ <=? nowMs then
              let s := (ZREM queueKey tokenID s).1 in
              let s := HSET userKey [("state", "evicted"); ("evicted_at", itoa nowMs)] s in
              let s := PEXPIRE userKey evictedTTL s in
              (s, Acc (marked n) (removed n + 1) (ghosts n))
            else (s, n)
        | None => (s, n)
        end
      else if decide (state = "waiting") then
        match lastSeen with
        | Some seen =>
            if staleAfter <? nowMs - seen then
              (HSET userKey [("state", "evicting"); ("evict_at", itoa (nowMs + graceMs))] s,
               Acc (marked n + 1) (removed n) (ghosts n))
            else (s, n)
        | None => (s, n)
        end
      else (s, n)
  end.

Definition evict (queueKey prefix : string)
    (nowMs staleAfter graceMs offset limit evictedTTL : Z) (s : S) : S * reply :=
  let size := ZCARD queueKey s in
  if size =? 0 then (s, [RInt 0; RInt 0; RInt 0; RInt 0; RInt 0; RInt 0])
  else
    let offset := if (offset <? 0) || (size <=? offset) then 0 else offset in
    let members := ZRANGE queueKey offset (offset + limit - 1) s in
    let '(s, n) := foldl (evict_one queueKey prefix nowMs staleAfter graceMs evictedTTL)
                     (s, Acc 0 0 0) members in
    let scanned := Z.of_nat (length members) in
    let nextOffset := (offset + scanned) in
    let nextOffset := if size <=? nextOffset then 0 else nextOffset in
    (s, [RInt scanned; RInt (marked n); RInt (removed n); RInt (ghosts n); RInt nextOffset; RInt size]).

Definition evict_lua (KEYS ARGV : list string) (s : S) : S * reply :=
  match KEYS, ARGV with
  | [q], [prefix; now; stale; grace; off; lim; ettl] =>
      evict q prefix (arg now) (arg stale) (arg grace) (arg off) (arg lim) (arg ettl) s
  | _, _ => (s, [])
  end.

(** ** admit.lua *)

Definition admit_script (queueKey budgetKey userKey tokenID jti : string) (nowMs : Z)
    (entryPrefix : string) (entryTTLms userTTLms minDwellMs minBeats : Z) (s : S) : S * reply :=
  let budget := num_or 0 (GET budgetKey s) in
  match HGET userKey "state" s with
  | None => (s, [RStr "unknown"; RInt (-1); RInt budget; RStr emp; RInt (-1)])
  | Some state =>
      let obsFrom := match tonumber (HGET userKey "observe_from" s) with
                     | Some t => Some t
                     | None => tonumber (HGET userKey "joined_at" s)
                     end in
      let waited := match obsFrom with Some t => (nowMs - t) | None => (-1) end in
      let beats := (num_or 0 (HGET userKey "hb_count" s) - num_or 0 (HGET userKey "hb_base" s)) in
      if decide (state = "admitted") then
        (s, [RStr "admitted"; RInt (-1); RInt budget;
             RStr (default emp (HGET userKey "entry_jti" s)); RInt (-1)])
      else if decide (state <> "waiting") then
        (s, [RStr state; RInt (-1); RInt budget; RStr emp; RInt (-1)])
      else
        match ZRANK queueKey tokenID s with
        | None => (s, [RStr "unknown"; RInt (-1); RInt budget; RStr emp; RInt (-1)])
        | Some rank =>
            if (0 <? minDwellMs) && ((waited <? 0) || (waited <? minDwellMs)) then
              (s, [RStr "observing"; RInt rank; RInt budget; RStr emp; RInt waited])
            else if (0 <? minBeats) && (beats <? minBeats) then
              (s, [RStr "observing"; RInt rank; RInt budget; RStr emp; RInt waited])
            else if budget <=? rank then
              (s, [RStr "not_yet"; RInt rank; RInt budget; RStr emp; RInt (-1)])
            else
              let r := DECR budgetKey s in
              let s := (ZREM queueKey tokenID r.1).1 in
              let s := HSET userKey [("state", "admitted"); ("admitted_at", itoa nowMs);
                                     ("entry_jti", jti)] s in
              let s := PEXPIRE userKey userTTLms s in
              let s := SET_PX (entryPrefix +:+ jti) tokenID entryTTLms s in
              (s, [RStr "admitted"; RInt rank; RInt r.2; RStr jti; RInt waited])
        end
  end.

Definition admit_lua (KEYS ARGV : list string) (s : S) : S * reply :=
  match KEYS, ARGV with
  | [q; b; u], [tok; jti; now; ep; ettl; uttl; dwell; beats] =>
      admit_script q b u tok jti (arg now) ep (arg ettl) (arg uttl) (arg dwell) (arg beats) s
  | _, _ => (s, [])
  end.

(** ** redeem.lua *)

Definition redeem (entryKey userKey tokenID : string) (nowMs : Z) (s : S) : S * reply :=
  match GET entryKey s with
  | None => (s, [RStr "missing"; RStr emp])
  | Some owner =>
      if decide (owner <> tokenID) then (s, [RStr "mismatch"; RStr owner])
      else
        let s := DEL entryKey s in
        let s := HSET userKey [("redeemed_at", itoa nowMs)] s in
        (s, [RStr "burned"; RStr owner])
  end.

Definition redeem_lua (KEYS ARGV : list string) (s : S) : S * reply :=
  match KEYS, ARGV with
  | [e; u], [tok; now] => redeem e u tok (arg now) s
  | _, _ => (s, [])
  end.

(** ** refill_budget.lua *)

Definition refill_budget (budgetKey queueKey : string) (grant cap ttlMs : Z) (s : S) : S * reply :=
  let waiting := ZCARD queueKey s in
  let budget := (num_or 0 (GET budgetKey s) + grant) in
  let budget := if cap <? budget then cap else budget in
  let budget := if waiting <? budget then waiting else budget in
  let budget := if budget <? 0 then 0 else budget in
  (SET_PX budgetKey (itoa budget) ttlMs s, [RInt budget; RInt waiting]).

Definition refill_budget_lua (KEYS ARGV : list string) (s : S) : S * reply :=
  match KEYS, ARGV with
  | [b; q], [grant; cap; ttl] => refill_budget b q (arg grant) (arg cap) (arg ttl) s
  | _, _ => (s, [])
  end.

(** ** apply_action.lua *)

(** The local function [rankOf]. *)
Definition apply_rankOf (queueKey userKey tokenID : string) (s : S) : Z :=
  match tonumber (HGET userKey "orig_rank" s) with
  | Some r => r
  | None => match ZSCORE queueKey tokenID s with
            | Some sc => arg sc
            | None => (-1)
            end
  end.

Definition apply_action (queueKey holdKey scoreKey userKey greyKey tokenID : string) (score : Z)
    (action : string) (nowMs userTTLms : Z) (s : S) : S * reply :=
  match HGET userKey "state" s with
  | None => (s, [RStr "unknown"; RStr "unknown"; RInt (-1)])
  | Some state =>
      let s := HSET scoreKey [(tokenID, itoa score)] s in
      let s := HSET userKey [("score", itoa score); ("scored_at", itoa nowMs)] s in
      let s := PEXPIRE userKey userTTLms s in
      let rankOf := apply_rankOf queueKey userKey tokenID in
      if decide (state = "blocked") then (s, [RStr "noop"; RStr state; RInt (-1)])
      else if decide (action = "observe") then (s, [RStr "observe"; RStr state; RInt (rankOf s)])
      else if decide (action = "hold") then
        if decide (state = "held") then (s, [RStr "noop"; RStr state; RInt (rankOf s)])
        else
          let rank := rankOf s in
          let r1 := ZREM queueKey tokenID s in
          let r2 := ZREM greyKey tokenID r1.1 in
          let s := if (0 <? r1.2 + r2.2) && (0 <=? rank) then ZADD holdKey rank tokenID r2.1
                   else r2.1 in
          let s := HSET userKey [("state", "held"); ("held_at", itoa nowMs)] s in
          (s, [RStr "hold"; RStr "held"; RInt rank])
      else if decide (action = "block") then
        let rank := rankOf s in
        let s := (ZREM queueKey tokenID s).1 in
        let s := (ZREM greyKey tokenID s).1 in
        let s := (ZREM holdKey tokenID s).1 in
        let s := HSET userKey [("state", "blocked"); ("blocked_at", itoa nowMs)] s in
        (s, [RStr "block"; RStr "blocked"; RInt rank])
      else (s, [RStr "unknown_action"; RStr state; RInt (-1)])
  end.

Definition apply_action_lua (KEYS ARGV : list string) (s : S) : S * reply :=
  match KEYS, ARGV with
  | [q; h; sc; u; g], [tok; score; action; now; ttl] =>
      apply_action q h sc u g tok (arg score) action (arg now) (arg ttl) s
  | _, _ => (s, [])
  end.

(** ** move_shard.lua *)

Definition move_shard (fromKey toKey scoreKey userKey tokenID greyShard : string)
    (score nowMs userTTLms : Z) (s : S) : S * reply :=
  match HGET userKey "state" s with
  | None => (s, [RStr "unknown"; RStr "unknown"; RInt (-1)])
  | Some state =>
      let shard := HGET userKey "shard" s in
      let orig_shard := HGET userKey "orig_shard" s in
      let orig_rank := HGET userKey "orig_rank" s in
      let s := HSET scoreKey [(tokenID, itoa score)] s in
      let s := HSET userKey [("score", itoa score); ("scored_at", itoa nowMs)] s in
      let s := PEXPIRE userKey userTTLms s in
      if decide (state <> "waiting" /\ state <> "evicting") then
        (s, [RStr "noop"; RStr state; RInt (-1)])
      else
        match tonumber (ZSCORE fromKey tokenID s) with
        | None => (s, [RStr "noop"; RStr state; RInt (-1)])
        | Some rank =>
            let s := (ZREM fromKey tokenID s).1 in
            let s := ZADD toKey rank tokenID s in
            let s := match orig_shard with
                     | None => HSET userKey [("orig_shard", default emp shard)] s
                     | Some _ => s
                     end in
            let s := match orig_rank with
                     | None => HSET userKey [("orig_rank", itoa rank)] s
                     | Some _ => s
                     end in
            let s := HSET userKey [("state", "greylist"); ("shard", greyShard);
                                   ("greylisted_at", itoa nowMs)] s in
            (s, [RStr "greylist"; RStr "greylist"; RInt rank])
        end
  end.

Definition move_shard_lua (KEYS ARGV : list string) (s : S) : S * reply :=
  match KEYS, ARGV with
  | [f; t; sc; u], [tok; grey; score; now; ttl] =>
      move_shard f t sc u tok grey (arg score) (arg now) (arg ttl) s
  | _, _ => (s, [])
  end.

(** ** restore_shard.lua *)

Definition restore_shard (originKey greyKey holdKey userKey tokenID originShard : string)
    (nowMs userTTLms : Z) (s : S) : S * reply :=
  match HGET userKey "state" s with
  | None => (s, [RStr "unknown"; RStr "unknown"; RInt (-1)])
  | Some state =>
      if decide (state <> "greylist" /\ state <> "held") then
        (s, [RStr "noop"; RStr state; RInt (-1)])
      else
        match tonumber (HGET userKey "orig_rank" s) with
        | None => (s, [RStr "no_rank"; RStr state; RInt (-1)])
        | Some rank =>
            let s := (ZREM greyKey tokenID s).1 in
            let s := (ZREM holdKey tokenID s).1 in
            let s := ZADD originKey rank tokenID s in
            let s := HSET userKey [("state", "waiting"); ("shard", originShard);
                                   ("restored_at", itoa nowMs)] s in
            let s := HDEL userKey ["held_at"; "greylisted_at"] s in
            let s := PEXPIRE userKey userTTLms s in
            (s, [RStr "restore"; RStr "waiting"; RInt rank])
        end
  end.

Definition restore_shard_lua (KEYS ARGV : list string) (s : S) : S * reply :=
  match KEYS, ARGV with
  | [o; g; h; u], [tok; origin; now; ttl] => restore_shard o g h u tok origin (arg now) (arg ttl) s
  | _, _ => (s, [])
  end.

(** ** rechallenge.lua *)

Definition rechallenge (originKey greyKey holdKey scoreKey userKey tokenID originShard : string)
    (maxAttempts passScore holdScore nowMs userTTLms : Z) (s : S) : S * reply :=
  match HGET userKey "state" s with
  | None => (s, [RStr "unknown"; RStr "unknown"; RInt (-1); RInt 0; RInt (-1)])
  | Some state =>
      let attempts := num_or 0 (HGET userKey "rc_count" s) in
      let score := num_or 0 (HGET userKey "score" s) in
      let hb := num_or 0 (HGET userKey "hb_count" s) in
      if decide (state <> "greylist") then
        (s, [RStr "noop"; RStr state; RInt (-1); RInt attempts; RInt score])
      else
        match tonumber (HGET userKey "orig_rank" s) with
        | None => (s, [RStr "no_rank"; RStr state; RInt (-1); RInt attempts; RInt score])
        | Some rank =>
            let attempts := (attempts + 1) in
            let s := HSET userKey [("rc_count", itoa attempts); ("rc_at", itoa nowMs)] s in
            if maxAttempts <? attempts then
              let score := if score <? holdScore then holdScore else score in
              let s := (ZREM greyKey tokenID s).1 in
              let s := ZADD holdKey rank tokenID s in
              let s := HSET scoreKey [(tokenID, itoa score)] s in
              let s := HSET userKey [("state", "held"); ("shard", originShard);
                                     ("score", itoa score); ("scored_at", itoa nowMs);
                                     ("held_at", itoa nowMs)] s in
              let s := HDEL userKey ["greylisted_at"] s in
              let s := PEXPIRE userKey userTTLms s in
              (s, [RStr "exhausted"; RStr "held"; RInt rank; RInt attempts; RInt score])
            else
              let score := if passScore <? score then passScore else score in
              let s := (ZREM greyKey tokenID s).1 in
              let s := ZADD originKey rank tokenID s in
              let s := HSET scoreKey [(tokenID, itoa score)] s in
              let s := HSET userKey [("state", "waiting"); ("shard", originShard);
                                     ("score", itoa score); ("scored_at", itoa nowMs);
                                     ("restored_at", itoa nowMs); ("observe_from", itoa nowMs);
                                     ("hb_base", itoa hb)] s in
              let s := HDEL userKey ["greylisted_at"] s in
              let s := PEXPIRE userKey userTTLms s in
              (s, [RStr "restored"; RStr "waiting"; RInt rank; RInt attempts; RInt score])
        end
  end.

Definition rechallenge_lua (KEYS ARGV : list string) (s : S) : S * reply :=
  match KEYS, ARGV with
  | [o; g; h; sc; u], [tok; origin; maxa; pass; hold; now; ttl] =>
      rechallenge o g h sc u tok origin (arg maxa) (arg pass) (arg hold) (arg now) (arg ttl) s
  | _, _ => (s, [])
  end.

End Scripts.
