(* ===== verification/Slot.v ===== *)
(** * One slot of the queue: keys, views and the refinement to an abstract ladder

    All the keys a script touches for one origin shard and its greylist twin live in one
    cluster slot.  [Slot] is the interface a naming scheme must offer (distinct names for
    distinct purposes); [Keys] implements it ([keys_slot] below).  A token is seen through its
    [tview]: state, original rank, and membership in the three sorted sets.  Every script is
    shown to act on the view of its own token by a rule of the abstract ladder [vstep] and to
    leave every other token's view alone. *)

From S2P Require Import Prelude.
From S2P Require Import Redis.
From S2P Require Import Keys.
From S2P Require Import Scripts.
Local Open Scope string_scope.
Local Open Scope Z_scope.

(** ** What a key of the slot is for *)

Inductive skind :=
  | KQueue | KGrey | KHold | KScore | KSeq | KBudget
  | KUser (tokenID : string) | KEntry (jti : string).

#[export] Instance skind_eq_dec : EqDecision skind.
Proof. solve_decision. Defined.

Class Slot := {
  skey : skind -> string;
  user_prefix : string;
  entry_prefix : string;
  skey_inj : Inj (=) (=) skey;
  user_prefix_ok t : user_prefix +:+ t = skey (KUser t);
  entry_prefix_ok j : entry_prefix +:+ j = skey (KEntry j)
}.

#[export] Existing Instance skey_inj.

Lemma decide_skey {A} `{Slot} (a b : skind) (x y : A) :
  (if decide (skey a = skey b) then x else y) = (if decide (a = b) then x else y).
Proof.
  destruct (decide (skey a = skey b)) as [E|E], (decide (a = b)) as [->|E']; try done.
  by apply (inj skey) in E.
Qed.

(** ** The names built by [Keys] form a slot *)

(** The greylist twin of an origin shard [s...]. *)
Definition grey_of (sh : string) : string := String Keys.greylistPrefix (tail_str sh).

Definition origin_shard (sh : string) : Prop :=
  exists rest, sh = String Keys.normalPrefix rest /\ rest <> EmptyString /\ plain rest = true.

Definition slot_resource (sh : string) (k : skind) : resource :=
  match k with
  | KQueue => RQueue sh | KGrey => RQueue (grey_of sh) | KHold => RHold sh | KScore => RScore sh
  | KSeq => RSeq sh | KBudget => RBudget sh | KUser t => RUser sh t | KEntry j => REntry sh j
  end.

Lemma origin_plain sh : origin_shard sh -> plain sh = true /\ plain (grey_of sh) = true /\ slotOf sh = sh.
Proof.
  intros (rest & -> & Hne & Hp). unfold grey_of, plain in *. cbn. rewrite Hp.
  split_and!; try done. by destruct rest.
Qed.

Lemma slot_resource_inj ev sh : plain ev = true -> origin_shard sh ->
  Inj (=) (=) (fun k => key_name ev (slot_resource sh k)).
Proof.
  intros He Ho k1 k2 Hk. destruct (origin_plain sh Ho) as (Hp & Hg & Hs).
  apply key_name_inj in Hk as [_ Hk]; try done; [|by destruct k1|by destruct k2].
  destruct Ho as (rest & -> & _). unfold grey_of in *.
  destruct k1, k2; simpl in Hk; try discriminate Hk; try done; congruence.
Qed.

Definition keys_slot (ev sh : string) (He : plain ev = true) (Ho : origin_shard sh) : Slot.
Proof.
  refine {| skey k := key_name ev (slot_resource sh k);
            user_prefix := UserPrefix ev sh; entry_prefix := EntryPrefix ev sh |}.
  - by apply slot_resource_inj.
  - intros t. cbn [slot_resource key_name]. unfold UserPrefix, User. by autorewrite with str_rw.
  - intros j. cbn [slot_resource key_name]. unfold EntryPrefix, Entry. by autorewrite with str_rw.
Defined.

(** ** The view of one token *)

Record tview := TView {
  v_state : option string;
  v_rank : option Z;
  v_q : option Z;
  v_g : option Z;
  v_h : option Z
}.

(** ** The abstract ladder: how the view of a token may change *)

Inductive vrule : tview -> tview -> Prop :=
  | v_join st rk q g h r :
      (st = None \/ st = Some "evicted") -> (st = None -> g = None /\ h = None) -> 0 <= r ->
      vrule (TView st rk q g h) (TView (Some "waiting") (Some r) (Some r) g h)
  | v_revive rk q g h : vrule (TView (Some "evicting") rk q g h) (TView (Some "waiting") rk q g h)
  | v_stale rk q g h : vrule (TView (Some "waiting") rk q g h) (TView (Some "evicting") rk q g h)
  | v_drop rk q g h : vrule (TView (Some "evicting") rk q g h) (TView (Some "evicted") rk None g h)
  | v_ghost rk q g h : vrule (TView None rk q g h) (TView None rk None g h)
  | v_enter rk r g h :
      vrule (TView (Some "waiting") rk (Some r) g h) (TView (Some "admitted") rk None g h)
  | v_grey st rk r g h :
      (st = "waiting" \/ st = "evicting") ->
      vrule (TView (Some st) rk (Some r) g h) (TView (Some "greylist") rk None (Some r) h)
  | v_restore st r q g h :
      (st = "greylist" \/ st = "held") ->
      vrule (TView (Some st) (Some r) q g h) (TView (Some "waiting") (Some r) (Some r) None None)
  | v_pass r q g h :
      vrule (TView (Some "greylist") (Some r) q g h) (TView (Some "waiting") (Some r) (Some r) None h)
  | v_exhaust r q g h :
      vrule (TView (Some "greylist") (Some r) q g h) (TView (Some "held") (Some r) q None (Some r))
  | v_hold st r q g h :
      st <> "blocked" -> st <> "held" ->
      vrule (TView (Some st) (Some r) q g h)
            (TView (Some "held") (Some r) None None
               (if bool_decide (is_Some q \/ is_Some g) && (0 <=? r) then Some r else h))
  | v_block st rk q g h :
      st <> "blocked" -> vrule (TView (Some st) rk q g h) (TView (Some "blocked") rk None None None).

(** The record of a token expires; its places in the sorted sets stay behind. *)
Definition expired (v : tview) : tview := TView None None (v_q v) (v_g v) (v_h v).

(** One step of the ladder: a script, or the expiry of the record. *)
Definition lstep (v v' : tview) : Prop := vrule v v' \/ v' = expired v.

(** ** Well-formed views: where a token stands agrees with its state *)

Inductive view_ok : tview -> Prop :=
  | ok_queued st r : (st = "waiting" \/ st = "evicting") -> 0 <= r ->
      view_ok (TView (Some st) (Some r) (Some r) None None)
  | ok_grey r : 0 <= r -> view_ok (TView (Some "greylist") (Some r) None (Some r) None)
  | ok_held r h : 0 <= r -> (h = None \/ h = Some r) ->
      view_ok (TView (Some "held") (Some r) None None h)
  | ok_done st r : (st = "admitted" \/ st = "evicted" \/ st = "blocked") -> 0 <= r ->
      view_ok (TView (Some st) (Some r) None None None)
  | ok_gone_q q : view_ok (TView None None q None None)
  | ok_gone_g g : view_ok (TView None None None g None)
  | ok_gone_h h : view_ok (TView None None None None h).

#[export] Hint Constructors view_ok vrule : sg.

Lemma view_ok_rule v v' : vrule v v' -> view_ok v -> view_ok v'.
Proof.
  intros Hr Hv. inversion Hv; subst; inversion Hr; subst;
    repeat match goal with H : _ \/ _ |- _ => destruct H end; simplify_eq/=;
    try (simpl; try case_match); eauto 7 with sg.
  all: try (repeat match goal with H : ?a = ?a -> _ |- _ => specialize (H eq_refl) end;
            destruct_and?; simplify_eq/=; eauto 7 with sg).
Qed.

Lemma view_ok_expired v : view_ok v -> view_ok (expired v).
Proof. unfold expired. destruct 1; simpl; eauto with sg. Qed.

Lemma view_ok_lstep v v' : lstep v v' -> view_ok v -> view_ok v'.
Proof. intros [Hr| ->]; [by apply view_ok_rule|by apply view_ok_expired]. Qed.

(** Reading off a well-formed view. *)
Lemma view_ok_sets v : view_ok v ->
  (is_Some (v_q v) -> v_g v = None /\ v_h v = None) /\ (is_Some (v_g v) -> v_h v = None).
Proof. destruct 1; simpl; split; intros [? ?]; simplify_eq; done. Qed.

Lemma view_ok_queued v r : view_ok v -> v_state v <> None -> v_q v = Some r ->
  v_rank v = Some r /\ (v_state v = Some "waiting" \/ v_state v = Some "evicting").
Proof. destruct 1; simpl; intros; simplify_eq; naive_solver. Qed.

Lemma view_ok_rank v st : view_ok v -> v_state v = Some st -> exists r, v_rank v = Some r /\ 0 <= r.
Proof. destruct 1; simpl; intros; simplify_eq; eauto. Qed.

Lemma view_ok_waiting v st : view_ok v -> v_state v = Some st -> (st = "waiting" \/ st = "evicting") ->
  exists r, v = TView (Some st) (Some r) (Some r) None None /\ 0 <= r.
Proof.
  destruct 1; simpl; intros; simplify_eq;
    repeat match goal with H : _ \/ _ |- _ => destruct H end; simplify_eq; eauto.
Qed.

Lemma view_ok_greylist v : view_ok v -> v_state v = Some "greylist" ->
  exists r, v = TView (Some "greylist") (Some r) None (Some r) None /\ 0 <= r.
Proof.
  destruct 1; simpl; intros; simplify_eq;
    repeat match goal with H : _ \/ _ |- _ => destruct H end; simplify_eq; eauto.
Qed.

(** ** The state of one slot, seen through the laws *)

Section Views.
Context {S : Type} {R : Redis S} {RL : RedisLaws S} {SL : Slot}.

Definition uhash (s : S) (t : string) : gmap string string := hash_of s (skey (KUser t)).

Definition view (s : S) (t : string) : tview :=
  TView (uhash s t !! "state") (tonumber (uhash s t !! "orig_rank"))
        (zset_of s (skey KQueue) !! t) (zset_of s (skey KGrey) !! t)
        (zset_of s (skey KHold) !! t).

Lemma view_eq s t : view s t =
  TView (hash_of s (skey (KUser t)) !! "state") (tonumber (hash_of s (skey (KUser t)) !! "orig_rank"))
        (zset_of s (skey KQueue) !! t) (zset_of s (skey KGrey) !! t) (zset_of s (skey KHold) !! t).
Proof. reflexivity. Qed.

Lemma view_intro s t a b c d e :
  hash_of s (skey (KUser t)) !! "state" = a -> tonumber (hash_of s (skey (KUser t)) !! "orig_rank") = b ->
  zset_of s (skey KQueue) !! t = c -> zset_of s (skey KGrey) !! t = d ->
  zset_of s (skey KHold) !! t = e -> view s t = TView a b c d e.
Proof. by intros <- <- <- <- <-. Qed.

(** The counters the scripts increment hold decimal integers. *)
Definition nat_or_absent (v : option string) : Prop := v = None \/ exists n, v = Some (itoa n) /\ 0 <= n.

Lemma nat_int_or_absent v : nat_or_absent v -> int_or_absent v.
Proof. intros [->|(n & -> & _)]; [by left|]. right. rewrite tonumber_itoa. eauto. Qed.

Lemma nat_or_absent_num v : nat_or_absent v -> 0 <= default 0 (tonumber v).
Proof. intros [->|(n & -> & Hn)]; [done|]. by rewrite tonumber_itoa. Qed.

(** The budget left in the current cycle. *)
Definition budget_of (s : S) : Z := num_or 0 (str_of s (skey KBudget)).

Record wf (s : S) : Prop := {
  wf_view t : view_ok (view s t);
  wf_seq : nat_or_absent (str_of s (skey KSeq));
  wf_budget : nat_or_absent (str_of s (skey KBudget));
  wf_beats t : int_or_absent (uhash s t !! "hb_count")
}.

End Views.

(** ** Computing what a command leaves at a key

    One rewriting step per pattern: cheaper than [autorewrite] on the nested stores of a
    whole script. *)

Ltac pos := first [assumption | lia].

Ltac redis_step :=
  match goal with
  | |- context [hash_of ?s' ?k'] =>
      lazymatch s' with
      | HSET ?k ?f ?s => rewrite (hash_HSET k f s k') by discriminate
      | PEXPIRE ?k ?ms ?s => rewrite (hash_PEXPIRE k ms s k') by pos
      | ZADD ?k ?sc ?m ?s => rewrite (hash_ZADD k sc m s k')
      | HDEL ?k ?fs ?s => rewrite (hash_HDEL k fs s k')
      | DEL ?k ?s => rewrite (hash_DEL k s k')
      | SET_PX ?k ?v ?ms ?s => rewrite (hash_SET_PX k v ms s k') by pos
      | (ZREM ?k ?m ?s).1 => rewrite (hash_ZREM k m s k')
      | (INCRBY ?k ?d ?s).1 => rewrite (hash_INCRBY k d s k') by assumption
      | (HINCRBY ?k ?f ?d ?s).1 => rewrite (hash_HINCRBY k f d s k') by assumption
      end
  | |- context [zset_of ?s' ?k'] =>
      lazymatch s' with
      | HSET ?k ?f ?s => rewrite (zset_HSET k f s k') by discriminate
      | PEXPIRE ?k ?ms ?s => rewrite (zset_PEXPIRE k ms s k') by pos
      | ZADD ?k ?sc ?m ?s => rewrite (zset_ZADD k sc m s k')
      | HDEL ?k ?fs ?s => rewrite (zset_HDEL k fs s k')
      | DEL ?k ?s => rewrite (zset_DEL k s k')
      | SET_PX ?k ?v ?ms ?s => rewrite (zset_SET_PX k v ms s k') by pos
      | (ZREM ?k ?m ?s).1 => rewrite (zset_ZREM k m s k')
      | (INCRBY ?k ?d ?s).1 => rewrite (zset_INCRBY k d s k') by assumption
      | (HINCRBY ?k ?f ?d ?s).1 => rewrite (zset_HINCRBY k f d s k') by assumption
      end
  | |- context [str_of ?s' ?k'] =>
      lazymatch s' with
      | HSET ?k ?f ?s => rewrite (str_HSET k f s k') by discriminate
      | PEXPIRE ?k ?ms ?s => rewrite (str_PEXPIRE k ms s k') by pos
      | ZADD ?k ?sc ?m ?s => rewrite (str_ZADD k sc m s k')
      | HDEL ?k ?fs ?s => rewrite (str_HDEL k fs s k')
      | DEL ?k ?s => rewrite (str_DEL k s k')
      | SET_PX ?k ?v ?ms ?s => rewrite (str_SET_PX k v ms s k') by pos
      | (ZREM ?k ?m ?s).1 => rewrite (str_ZREM k m s k')
      | (INCRBY ?k ?d ?s).1 => rewrite (str_INCRBY k d s k') by assumption
      | (HINCRBY ?k ?f ?d ?s).1 => rewrite (str_HINCRBY k f d s k') by assumption
      end
  | |- context [decide (skey ?a = skey ?b)] =>
      first [ rewrite (decide_True (P := skey a = skey b)) by reflexivity
            | rewrite (decide_False (P := skey a = skey b))
                by (let E := fresh in intros E; apply (inj skey) in E; congruence) ]
  end.

(** Replies and reads of a script as views. *)
Ltac redis_read :=
  match goal with
  | |- context [(INCRBY ?k ?d ?s).2] => rewrite (INCRBY_n k d s) by assumption
  | |- context [(HINCRBY ?k ?f ?d ?s).2] => rewrite (HINCRBY_n k f d s) by assumption
  | |- context [(ZREM ?k ?m ?s).2] => rewrite (ZREM_n k m s)
  | |- context [HGET ?k ?f ?s] => rewrite (HGET_v k f s)
  | |- context [GET ?k ?s] => rewrite (GET_v k s)
  | |- context [ZRANK ?k ?m ?s] => rewrite (ZRANK_v k m s)
  | |- context [ZSCORE ?k ?m ?s] => rewrite (ZSCORE_v k m s)
  | |- context [ZCARD ?k ?s] => rewrite (ZCARD_v k s)
  | |- context [user_prefix +:+ ?t] => rewrite (user_prefix_ok t)
  | |- context [entry_prefix +:+ ?t] => rewrite (entry_prefix_ok t)
  end.

Ltac fields :=
  cbn [hset_all foldl fst snd];
  repeat first [ rewrite lookup_insert_eq | rewrite lookup_insert_ne by congruence
               | rewrite lookup_delete_eq | rewrite lookup_delete_ne by congruence
               | rewrite lookup_empty ];
  rewrite ?tonumber_itoa.

Ltac observe0 := repeat redis_read; repeat redis_step; fields.

(** An increment needs its counter to be an integer: that is one of the hypotheses. *)
Ltac counters :=
  repeat match goal with
  | |- context [INCRBY ?k ?d ?s] =>
      lazymatch goal with
      | H : int_or_absent (str_of s k) |- _ => fail
      | _ => assert (int_or_absent (str_of s k)) by (observe0; eauto)
      end
  | |- context [HINCRBY ?k ?f ?d ?s] =>
      lazymatch goal with
      | H : int_or_absent (hash_of s k !! f) |- _ => fail
      | _ => assert (int_or_absent (hash_of s k !! f)) by (observe0; eauto)
      end
  end.

Ltac observe := counters; observe0.
