(* ===== verification/Ladder.v ===== *)
(** * The scripts act on one token by the rules of the ladder

    For every script of [Scripts] run on the keys of one slot: the view of the token it
    names moves by a rule of [Slot.vrule] or stays, the view of every other token stays,
    and the counters (sequence, budget, heartbeat count) stay decimal integers.  The last
    section packs the scripts as operations, with expiry, and proves the invariant [wf] of
    every run. *)

From S2P Require Import Prelude.
From S2P Require Import Redis.
From S2P Require Import Scripts.
From S2P Require Import Slot.
Local Open Scope string_scope.
Local Open Scope Z_scope.

(** ** Operations of a slot *)

Inductive op :=
  | OEnqueue (t shard : string) (now lotteryEnd rand band : Z) (fp ip : string) (ttl : Z)
  | OPosition (t : string)
  | OHeartbeat (t : string) (now ttl : Z)
  | OEvict (now staleAfter grace offset limit evictedTTL : Z)
  | OAdmit (t jti : string) (now entryTTL userTTL dwell beats : Z)
  | ORedeem (t jti : string) (now : Z)
  | ORefill (grant cap ttl : Z)
  | OAction (t : string) (score : Z) (action : string) (now ttl : Z)
  | OMove (t grey : string) (score now ttl : Z)
  | ORestore (t origin : string) (now ttl : Z)
  | ORechallenge (t origin : string) (maxAttempts passScore holdScore now ttl : Z)
  | OExpireUser (t : string)
  | OExpireBudget
  | OExpireEntry (jti : string).

#[export] Instance op_eq_dec : EqDecision op.
Proof. solve_decision. Defined.

Definition vstep (v v' : tview) : Prop := v' = v \/ vrule v v'.

(** ** Unfolding one script into its branches *)

Ltac branches :=
  repeat first
    [ progress cbn [fst snd]
    | progress case_decide
    | case_match_goal ].

Ltac prep := unfold enqueue_fresh; unfold enqueue_snapshot, INCR, DECR, rank_or, apply_rankOf in *.

Ltac frame :=
  counters;
  lazymatch goal with |- view ?s' ?t = _ =>
    erewrite (view_intro s' t); [|observe0; reflexivity..] end; reflexivity.

Ltac scripts := unfold enqueue, position, heartbeat, evict, admit_script, redeem, refill_budget,
  apply_action, move_shard, restore_shard, rechallenge.

Lemma zrank_Some z m k : zrank z m = Some k -> exists r, z !! m = Some r /\ 0 <= k.
Proof. unfold zrank. destruct (z !! m) as [r|]; simpl; [|done]. intros [= <-]. exists r. split; [done|lia]. Qed.

Ltac facts :=
  repeat match goal with
  | H : HGET _ _ _ = _ |- _ => rewrite HGET_v in H
  | H : ZRANK _ _ _ = _ |- _ => rewrite ZRANK_v in H; apply zrank_Some in H as (? & H & _)
  | H : tonumber (HGET _ _ _) = _ |- _ => rewrite HGET_v in H
  end.

Ltac own := facts; counters;
  lazymatch goal with |- vstep _ (view ?s' ?t) =>
    erewrite (view_intro s' t); [|observe0; reflexivity..] end;
  first [left; reflexivity | right; rewrite (view_eq _ _)];
  repeat match goal with H : _ !! _ = _ |- _ => rewrite H end.

Ltac counter_hyps Hwf :=
  let Hn := fresh "Hn" in let Hb := fresh "Hb" in let Hhb := fresh "Hhb" in
  pose proof (wf_seq _ Hwf) as Hn; pose proof (wf_budget _ Hwf) as Hb;
  pose proof (nat_int_or_absent _ Hn); pose proof (nat_int_or_absent _ Hb);
  pose proof (wf_beats _ Hwf) as Hhb; unfold uhash in Hhb.

Ltac counter_branches := scripts; prep; branches; observe; try assumption.

Section Ops.
Context {S : Type} {R : Redis S} {RL : RedisLaws S} {SL : Slot}.

Definition run_op (o : op) (s : S) : S * reply :=
  let q := skey KQueue in let g := skey KGrey in let h := skey KHold in
  let sc := skey KScore in let b := skey KBudget in
  match o with
  | OEnqueue t sh now le rnd band fp ip ttl =>
      enqueue q (skey KSeq) (skey (KUser t)) t sh now le rnd band fp ip ttl s
  | OPosition t => position q h (skey (KUser t)) t s
  | OHeartbeat t now ttl => heartbeat q (skey (KUser t)) t now ttl s
  | OEvict now stale grace off lim ettl => evict q user_prefix now stale grace off lim ettl s
  | OAdmit t jti now ettl uttl dwell beats =>
      admit_script q b (skey (KUser t)) t jti now entry_prefix ettl uttl dwell beats s
  | ORedeem t jti now => redeem (skey (KEntry jti)) (skey (KUser t)) t now s
  | ORefill grant cap ttl => refill_budget b q grant cap ttl s
  | OAction t score action now ttl => apply_action q h sc (skey (KUser t)) g t score action now ttl s
  | OMove t grey score now ttl => move_shard q g sc (skey (KUser t)) t grey score now ttl s
  | ORestore t origin now ttl => restore_shard q g h (skey (KUser t)) t origin now ttl s
  | ORechallenge t origin maxa pass hold now ttl =>
      rechallenge q g h sc (skey (KUser t)) t origin maxa pass hold now ttl s
  | OExpireUser t => (DEL (skey (KUser t)) s, [])
  | OExpireBudget => (DEL b s, [])
  | OExpireEntry j => (DEL (skey (KEntry j)) s, [])
  end.

(** What the callers guarantee about the arguments: expiries are positive, lottery places
    are not negative, a pass takes at least one token, and an id that has no record was
    never moved to the greylist or the hold (the gate makes a fresh random id, and a record
    lives at least as long as the token that names it). *)
Definition op_ok (o : op) (s : S) : Prop :=
  match o with
  | OEnqueue t _ _ _ rnd band _ _ ttl =>
      0 < ttl /\ 0 <= rnd /\ 0 <= band /\
      (v_state (view s t) = None -> v_g (view s t) = None /\ v_h (view s t) = None)
  | OHeartbeat _ _ ttl => 0 < ttl
  | OEvict _ _ _ _ lim ettl => 0 < ettl /\ 0 < lim
  | OAdmit _ _ _ ettl uttl _ _ => 0 < ettl /\ 0 < uttl
  | ORefill _ _ ttl => 0 < ttl
  | OAction _ _ _ _ ttl | OMove _ _ _ _ ttl | ORestore _ _ _ ttl | ORechallenge _ _ _ _ _ _ ttl =>
      0 < ttl
  | _ => True
  end.

(** The token an operation is about. *)
Definition op_token (o : op) : option string :=
  match o with
  | OEnqueue t _ _ _ _ _ _ _ _ | OPosition t | OHeartbeat t _ _ | OAdmit t _ _ _ _ _ _
  | ORedeem t _ _ | OAction t _ _ _ _ | OMove t _ _ _ _ | ORestore t _ _ _
  | ORechallenge t _ _ _ _ _ _ | OExpireUser t => Some t
  | _ => None
  end.

(** ** Tokens other than the operation's *)

(** Every script leaves the view of a token it does not name unchanged. *)
Lemma view_other o t t' s :
  wf s -> op_ok o s -> op_token o = Some t -> t <> t' -> view (run_op o s).1 t' = view s t'.
Proof.
  intros Hwf Hok Ht Hne.
  pose proof (nat_int_or_absent _ (wf_seq s Hwf)) as Hseq.
  pose proof (nat_int_or_absent _ (wf_budget s Hwf)) as Hbud.
  pose proof (wf_beats s Hwf t) as Hhb. unfold uhash in Hhb.
  destruct o; simplify_eq/=; scripts; prep.
  all: branches; frame.
Qed.

(** ** The token of the operation *)

Lemma own_enqueue t sh now le rnd band fp ip ttl s :
  let o := OEnqueue t sh now le rnd band fp ip ttl in
  wf s -> op_ok o s -> vstep (view s t) (view (run_op o s).1 t).
Proof.
  intros o Hwf (Httl & Hrnd & Hband & Hfresh).
  pose proof (nat_int_or_absent _ (wf_seq s Hwf)) as Hseq.
  pose proof (wf_seq s Hwf) as Hn.
  subst o. cbn [run_op]. scripts; prep. branches; own.
  all: facts; simplify_eq; apply v_join; auto; try congruence; try done.
  all: pose proof (nat_or_absent_num _ Hn); lia.
Qed.

Lemma own_heartbeat t now ttl s :
  wf s -> 0 < ttl -> vstep (view s t) (view (run_op (OHeartbeat t now ttl) s).1 t).
Proof.
  intros Hwf Httl. pose proof (wf_beats s Hwf t) as Hhb. unfold uhash in Hhb.
  cbn [run_op]. scripts; prep. branches; own.
  all: facts; simplify_eq; apply v_revive.
Qed.

Lemma own_admit t jti now ettl uttl dwell beats s :
  let o := OAdmit t jti now ettl uttl dwell beats in
  wf s -> op_ok o s -> vstep (view s t) (view (run_op o s).1 t).
Proof.
  intros o Hwf (Hettl & Huttl). pose proof (nat_int_or_absent _ (wf_budget s Hwf)) as Hbud.
  subst o. cbn [run_op]. scripts; prep. branches; own.
  all: facts; simplify_eq; apply v_enter.
Qed.

Lemma view_eqs s t a b c d e : view s t = TView a b c d e ->
  hash_of s (skey (KUser t)) !! "state" = a /\ tonumber (hash_of s (skey (KUser t)) !! "orig_rank") = b /\
  zset_of s (skey KQueue) !! t = c /\ zset_of s (skey KGrey) !! t = d /\ zset_of s (skey KHold) !! t = e.
Proof. unfold view, uhash. by intros [= -> -> -> -> ->]. Qed.

(** The place of a token that waits, from [wf]. *)
Lemma place_waiting s t st : wf s -> hash_of s (skey (KUser t)) !! "state" = Some st ->
  (st = "waiting" \/ st = "evicting") -> exists r,
  tonumber (hash_of s (skey (KUser t)) !! "orig_rank") = Some r /\ zset_of s (skey KQueue) !! t = Some r /\
  zset_of s (skey KGrey) !! t = None /\ zset_of s (skey KHold) !! t = None /\ 0 <= r.
Proof.
  intros Hwf Hst Hor. destruct (view_ok_waiting _ st (wf_view s Hwf t) Hst Hor) as (r & Hv & Hr).
  apply view_eqs in Hv. destruct_and!. eauto 6.
Qed.

Lemma place_known s t st : wf s -> hash_of s (skey (KUser t)) !! "state" = Some st ->
  exists r, tonumber (hash_of s (skey (KUser t)) !! "orig_rank") = Some r /\ 0 <= r.
Proof. intros Hwf Hst. exact (view_ok_rank _ _ (wf_view s Hwf t) Hst). Qed.

(** The number of removals [n1 + n2] counts the sets the token stood in. *)
Lemma removals_pos (a b : option Z) :
  (0 <? (if bool_decide (is_Some a) then 1 else 0) + (if bool_decide (is_Some b) then 1 else 0)) =
  bool_decide (is_Some a \/ is_Some b).
Proof. repeat case_bool_decide; tauto || done. Qed.

Lemma own_action t score action now ttl s :
  wf s -> 0 < ttl -> vstep (view s t) (view (run_op (OAction t score action now ttl) s).1 t).
Proof.
  intros Hwf Httl. cbn [run_op]. scripts; prep.
  destruct (HGET (skey (KUser t)) "state" s) as [st|] eqn:Hst; [|by left].
  rewrite HGET_v in Hst. destruct (place_known s t st Hwf Hst) as (r & Hr & _).
  assert (Hrank : forall s', hash_of s' (skey (KUser t)) !! "orig_rank" =
    hash_of s (skey (KUser t)) !! "orig_rank" -> tonumber (HGET (skey (KUser t)) "orig_rank" s') = Some r)
    by (intros s' E; by rewrite HGET_v, E).
  rewrite !Hrank by (observe; done). branches; own.
  3: rewrite Hr; by apply v_block.
  all: rewrite Hr; match goal with H : (0 <? _) && _ = ?b |- _ => revert H end;
    observe0; rewrite removals_pos; intros Heqb;
    (eassert (vrule _ _) as V by (apply (v_hold st r); eassumption));
    erewrite Heqb in V; exact V.
Qed.

Lemma own_move t grey score now ttl s :
  wf s -> 0 < ttl -> vstep (view s t) (view (run_op (OMove t grey score now ttl) s).1 t).
Proof.
  intros Hwf Httl. cbn [run_op]. scripts; prep. branches; own.
  all: match goal with H : _ !! "state" = Some ?st, Hn : ~ (_ /\ _) |- _ =>
    assert (Hor : st = "waiting" \/ st = "evicting")
      by (destruct (decide (st = "waiting")), (decide (st = "evicting")); naive_solver);
    destruct (place_waiting s t st Hwf H Hor) as (r & Hr & Hq & Hg & Hh & _) end.
  all: match goal with H : tonumber (ZSCORE _ _ _) = Some _ |- _ => revert H end; observe0;
    rewrite Hq, Hg, Hh; simpl; rewrite parse_itoa; intros [= <-].
  all: match goal with H : _ !! "orig_rank" = _ |- _ => rewrite H in Hr; simplify_eq/= end.
  all: by apply v_grey.
Qed.

Lemma own_restore t origin now ttl s :
  wf s -> 0 < ttl -> vstep (view s t) (view (run_op (ORestore t origin now ttl) s).1 t).
Proof.
  intros Hwf Httl. cbn [run_op]. scripts; prep. branches; own.
  match goal with H : tonumber _ = Some _ |- _ => rewrite H end. apply v_restore.
  match goal with |- ?st = _ \/ _ => destruct (decide (st = "greylist")), (decide (st = "held")); naive_solver end.
Qed.

Lemma own_rechallenge t origin maxa pass hold now ttl s :
  wf s -> 0 < ttl ->
  vstep (view s t) (view (run_op (ORechallenge t origin maxa pass hold now ttl) s).1 t).
Proof.
  intros Hwf Httl. cbn [run_op]. scripts; prep. branches; own.
  all: simplify_eq; match goal with H : tonumber _ = Some _ |- _ => rewrite H end.
  1,2: apply v_exhaust. all: apply v_pass.
Qed.

(** ** Counters *)

Definition is_evict (o : op) : bool := match o with OEvict _ _ _ _ _ _ => true | _ => false end.

Lemma nat_or_absent_itoa n : 0 <= n -> nat_or_absent (Some (itoa n)).
Proof. intros Hn. right. eauto. Qed.

Lemma int_or_absent_itoa n : int_or_absent (Some (itoa n)).
Proof. right. rewrite tonumber_itoa. eauto. Qed.

Lemma seq_kept o s : wf s -> op_ok o s -> is_evict o = false ->
  nat_or_absent (str_of (run_op o s).1 (skey KSeq)).
Proof.
  intros Hwf Hok Hev. destruct o; simplify_eq/=; counter_hyps Hwf; counter_branches.
  all: pose proof (nat_or_absent_num _ Hn); apply nat_or_absent_itoa; lia.
Qed.

Lemma budget_kept o s : wf s -> op_ok o s -> is_evict o = false ->
  nat_or_absent (str_of (run_op o s).1 (skey KBudget)).
Proof.
  intros Hwf Hok Hev. destruct o; simplify_eq/=; counter_hyps Hwf; counter_branches.
  12: exact (or_introl eq_refl).
  4-11: repeat match goal with H : (_ <? _) = _ |- _ => revert H end; observe0; intros;
    apply nat_or_absent_itoa; bool_to_prop; unfold zcard; lia.
  all: match goal with H : (_ <=? _) = false, Hr : ZRANK _ _ _ = Some _ |- _ =>
    rewrite ZRANK_v in Hr; apply zrank_Some in Hr as (? & _ & ?); revert H end;
    observe0; intros; bool_to_prop; unfold num_or in *; apply nat_or_absent_itoa; lia.
Qed.

Lemma beats_kept o s t' : wf s -> op_ok o s -> is_evict o = false ->
  int_or_absent (hash_of (run_op o s).1 (skey (KUser t')) !! "hb_count").
Proof.
  intros Hwf Hok Hev. destruct o; simplify_eq/=; counter_hyps Hwf;
    try (destruct (decide (t = t')) as [->|Hne]); counter_branches; eauto using int_or_absent_itoa.
  by left.
Qed.

(** ** The eviction pass *)

Definition same_counters (s s' : S) : Prop :=
  str_of s' (skey KSeq) = str_of s (skey KSeq) /\ str_of s' (skey KBudget) = str_of s (skey KBudget) /\
  forall t, uhash s' t !! "hb_count" = uhash s t !! "hb_count".

#[export] Instance same_counters_preorder : PreOrder same_counters.
Proof.
  split; [intros s; split_and!; done|].
  intros s1 s2 s3 (A & B & C) (A' & B' & C'). split_and!; [congruence..|]. intros t. by rewrite C'.
Qed.

Lemma vstep_ok v v' : vstep v v' -> view_ok v -> view_ok v'.
Proof. intros [->|Hr]; [done|]. by apply view_ok_rule. Qed.

Lemma wf_step s s' : wf s -> same_counters s s' -> (forall t, vstep (view s t) (view s' t)) -> wf s'.
Proof.
  intros [Hv Hs Hb Hh] (E1 & E2 & E3) Hstep. split; rewrite ?E1, ?E2; try done.
  - intros t. eapply vstep_ok; [apply Hstep|apply Hv].
  - intros t. by rewrite E3.
Qed.

Section Pass.
Context (now stale grace ettl : Z) (Hettl : 0 < ettl).

Abbreviation one := (evict_one (skey KQueue) user_prefix now stale grace ettl).

Ltac one_branches := unfold evict_one; rewrite ?user_prefix_ok; branches.

Lemma one_other s n t t' : t <> t' -> view (one (s, n) t).1 t' = view s t'.
Proof. intros Hne. one_branches; frame. Qed.

Lemma one_own s n t : vstep (view s t) (view (one (s, n) t).1 t).
Proof.
  one_branches; own; simplify_eq; [apply v_drop|apply v_stale|apply v_ghost].
Qed.

Lemma one_counters s n t : same_counters s (one (s, n) t).1.
Proof.
  one_branches; split_and!; intros; observe; try done.
  all: unfold uhash; destruct (decide (t = t0)) as [->|]; observe; done.
Qed.

Lemma one_other_hash s n t t' : t <> t' -> uhash (one (s, n) t).1 t' = uhash s t'.
Proof. intros Hne. unfold uhash. one_branches; observe; done. Qed.

(** A pass over distinct tokens: each is visited once, in a store that has not changed for
    it since the pass began. *)
Lemma pass_ladder l s n : NoDup l ->
  let s' := (foldl one (s, n) l).1 in
  same_counters s s' /\ (forall t, t ∉ l -> view s' t = view s t /\ uhash s' t = uhash s t) /\
  (forall t, t ∈ l -> exists s0 n0, view s0 t = view s t /\ uhash s0 t = uhash s t /\
     view s' t = view (one (s0, n0) t).1 t /\ uhash s' t = uhash (one (s0, n0) t).1 t).
Proof.
  revert s n. induction l as [|x l IH]; intros s n Hnd; cbn [foldl].
  { split_and!; [done|done|]. intros t Ht. by apply elem_of_nil in Ht. }
  apply list.NoDup_cons in Hnd as [Hx Hnd].
  destruct (one (s, n) x) as [s1 n1] eqn:E1.
  assert (Hs1 : s1 = (one (s, n) x).1) by (by rewrite E1).
  destruct (IH s1 n1 Hnd) as (Hc & Ho & Hi). split_and!.
  - transitivity s1; [|done]. rewrite Hs1. apply one_counters.
  - intros t [Hne Hnl]%not_elem_of_cons. destruct (Ho t Hnl) as [-> ->]. rewrite Hs1.
    split; [by apply one_other|by apply one_other_hash].
  - intros t [->|Hin]%elem_of_cons.
    + exists s, n. destruct (Ho _ Hx) as [-> ->]. by rewrite Hs1.
    + destruct (Hi t Hin) as (s0 & n0 & Hv & Hh & Hv' & Hh'). assert (x <> t) by (by intros ->).
      exists s0, n0. rewrite Hv, Hh, Hv', Hh', Hs1. split_and!; [by apply one_other|by apply one_other_hash|done..].
Qed.

End Pass.

Lemma zsorted_NoDup z : NoDup (zsorted z).
Proof.
  unfold zsorted. apply (NoDup_Permutation_proper _ _ (fmap_Permutation _ _ _ (merge_sort_Permutation zle _))).
  apply NoDup_fst_map_to_list.
Qed.

Lemma take_drop_NoDup {A} (l : list A) n m : NoDup l -> NoDup (take n (drop m l)).
Proof. intros H. eapply sublist_NoDup; [exact H|]. etrans; [apply sublist_take|apply sublist_drop]. Qed.

(** ** Every operation *)

(** What an eviction pass does to one token: nothing, or one visit. *)
Lemma evict_visits now stale grace off lim ettl s :
  0 < lim -> 0 < ettl ->
  let s' := (run_op (OEvict now stale grace off lim ettl) s).1 in
  same_counters s s' /\ forall t, (view s' t = view s t /\ uhash s' t = uhash s t) \/
    exists s0 n0, let s1 := (evict_one (skey KQueue) user_prefix now stale grace ettl (s0, n0) t).1 in
      view s0 t = view s t /\ uhash s0 t = uhash s t /\ view s' t = view s1 t /\ uhash s' t = uhash s1 t.
Proof.
  intros Hlim Hettl. cbn [run_op]. unfold evict.
  destruct (ZCARD (skey KQueue) s =? 0); [by split; [|left]|].
  cbv zeta. match goal with |- context [ZRANGE _ ?x _ s] => set (lo := x) end.
  assert (0 <= lo) by (subst lo; case_match; bool_to_prop; lia).
  rewrite ZRANGE_law by lia. set (l := take _ _).
  assert (Hnd : NoDup l) by apply take_drop_NoDup, zsorted_NoDup.
  destruct (pass_ladder now stale grace ettl Hettl l s (Acc 0 0 0) Hnd) as (Hc & Ho & Hi).
  destruct (foldl _ _ l) as [s1 n1]. simpl in *. split; [done|]. intros t.
  destruct (decide (t ∈ l)) as [Hin|Hout]; [right; by apply Hi|left; by apply Ho].
Qed.

Lemma op_ladder_evict now stale grace off lim ettl s :
  0 < ettl -> 0 < lim ->
  let s' := (run_op (OEvict now stale grace off lim ettl) s).1 in
  same_counters s s' /\ forall t, vstep (view s t) (view s' t).
Proof.
  intros Hettl Hlim s'. destruct (evict_visits now stale grace off lim ettl s Hlim Hettl) as [Hc Hv].
  split; [done|]. intros t. destruct (Hv t) as [[E _]|(s0 & n0 & <- & _ & E & _)]; [by left|].
  unfold s'. rewrite E. by apply one_own.
Qed.

Lemma op_expire t s : view (run_op (OExpireUser t) s).1 t = expired (view s t).
Proof. cbn [run_op fst]. apply view_intro; observe0; reflexivity. Qed.

(** Every operation moves the view of every token by one rule of the ladder, or not at all;
    only the expiry of a record makes it disappear. *)
Lemma op_ladder o s t : wf s -> op_ok o s -> o <> OExpireUser t ->
  vstep (view s t) (view (run_op o s).1 t).
Proof.
  intros Hwf Hok Hex. destruct (op_token o) as [t0|] eqn:Ht.
  - destruct (decide (t0 = t)) as [->|Hne]; [|left; by eapply view_other].
    destruct o; simplify_eq/=.
    + by apply own_enqueue.
    + left. cbn [run_op]. unfold position. branches; reflexivity.
    + by apply own_heartbeat.
    + by apply own_admit.
    + left. scripts; prep; branches; frame.
    + by apply own_action.
    + by apply own_move.
    + by apply own_restore.
    + by apply own_rechallenge.
  - destruct o; simplify_eq/=.
    + destruct Hok. by apply op_ladder_evict.
    + left. unfold refill_budget. frame.
    + left. frame.
    + left. frame.
Qed.

Lemma op_lstep o s t : wf s -> op_ok o s -> view (run_op o s).1 t = view s t \/ lstep (view s t) (view (run_op o s).1 t).
Proof.
  intros Hwf Hok. destruct (decide (o = OExpireUser t)) as [->|Hne].
  - right. right. apply op_expire.
  - destruct (op_ladder o s t Hwf Hok Hne) as [E|E]; [by left|by right; left].
Qed.

Lemma wf_run_op o s : wf s -> op_ok o s -> wf (run_op o s).1.
Proof.
  intros Hwf Hok. destruct (is_evict o) eqn:He.
  - destruct o; try discriminate He. destruct Hok as [Ht Hl]. eapply wf_step; [done|..].
    + by apply op_ladder_evict.
    + by apply op_ladder_evict.
  - split.
    + intros t. destruct (op_lstep o s t Hwf Hok) as [->|Hs]; [apply Hwf|].
      eapply view_ok_lstep; [exact Hs|apply Hwf].
    + by apply seq_kept.
    + by apply budget_kept.
    + intros t. by apply beats_kept.
Qed.

(** ** The rank a token was first given *)

Lemma one_rank now stale grace ettl s n t : 0 < ettl ->
  v_rank (view (evict_one (skey KQueue) user_prefix now stale grace ettl (s, n) t).1 t) = v_rank (view s t).
Proof.
  intros Hettl. unfold evict_one. rewrite ?user_prefix_ok. branches; cbn [view v_rank]; unfold uhash; observe; done.
Qed.

Definition joins (o : op) (t : string) : bool :=
  match o with OEnqueue t' _ _ _ _ _ _ _ _ => bool_decide (t = t') | _ => false end.

(** Only joining (again) and the expiry of the record change the rank of a token. *)
Lemma rank_kept o s t : wf s -> op_ok o s -> joins o t = false -> o <> OExpireUser t ->
  v_state (view s t) <> None -> v_rank (view (run_op o s).1 t) = v_rank (view s t).
Proof.
  intros Hwf Hok Hj Hex Hst. destruct (op_token o) as [t0|] eqn:Ht.
  - destruct (decide (t0 = t)) as [->|Hne]; [|by erewrite view_other].
    destruct (v_state (view s t)) as [st|] eqn:E; [|done].
    destruct (place_known s t st Hwf E) as (r & Hr & _). counter_hyps Hwf.
    destruct o; simplify_eq/=; try (by rewrite bool_decide_eq_true_2 in Hj); unfold uhash; scripts; prep; branches; observe; try done.
    all: by repeat match goal with H : HGET _ _ _ = _ |- _ => rewrite HGET_v in H; rewrite H in Hr end.
  - destruct o; try discriminate Ht;
      try (cbn [run_op view v_rank fst]; unfold uhash, refill_budget; cbn [fst]; observe; done).
    destruct Hok as [He Hl].
    destruct (evict_visits now staleAfter grace offset limit evictedTTL s Hl He) as [_ Hv].
    destruct (Hv t) as [[E _]|(s0 & n0 & <- & _ & E & _)]; rewrite E; [done|].
    by apply one_rank.
Qed.

(** ** Entry tickets *)

Definition issues (o : op) (j : string) : bool :=
  match o with OAdmit _ j' _ _ _ _ _ => bool_decide (j = j') | _ => false end.

Lemma evict_entry now stale grace ettl j l s n : 0 < ettl ->
  str_of (foldl (evict_one (skey KQueue) user_prefix now stale grace ettl) (s, n) l).1 (skey (KEntry j)) =
  str_of s (skey (KEntry j)).
Proof.
  intros Hettl. revert s n. induction l as [|x l IH]; intros s n; [done|]. cbn [foldl].
  destruct (evict_one _ _ _ _ _ _ (s, n) x) as [s1 n1] eqn:E. rewrite IH. apply (f_equal fst) in E. cbn in E.
  rewrite <- E. unfold evict_one. rewrite ?user_prefix_ok. branches; observe; done.
Qed.

(** Only the admission script makes an entry ticket. *)
Lemma entry_kept o s j : wf s -> op_ok o s -> issues o j = false ->
  str_of (run_op o s).1 (skey (KEntry j)) = str_of s (skey (KEntry j)) \/
  str_of (run_op o s).1 (skey (KEntry j)) = None.
Proof.
  intros Hwf Hok Hj. counter_hyps Hwf. destruct o; simplify_eq/=;
    try match goal with H : bool_decide _ = false |- _ => apply bool_decide_eq_false in H end;
    try (destruct (decide (j = jti)) as [->|]);
    try (scripts; prep; branches; observe; by (left + right)).
  left. destruct Hok as [He Hl]. unfold evict. case_match; [done|]. cbv zeta.
  pose proof (evict_entry now staleAfter grace evictedTTL j) as E.
  match goal with |- context [foldl ?f (s, ?a) ?l] => specialize (E l s a He); destruct (foldl f (s, a) l) end.
  exact E.
Qed.

End Ops.
