(* ===== verification/Runs.v ===== *)
(** * Runs of a slot: invariants and guarantees over any sequence of operations

    [run] applies a list of operations of [Ladder.op]; [run_ok] states the callers'
    obligations at each store on the way.  Nothing is assumed about which operations come,
    in which order, or about the clock values they carry. *)

From S2P Require Import Prelude.
From S2P Require Import Redis.
From S2P Require Import Scripts.
From S2P Require Import Slot.
From S2P Require Import Ladder.
Local Open Scope string_scope.
Local Open Scope Z_scope.

Section Runs.
Context {S : Type} {R : Redis S} {RL : RedisLaws S} {SL : Slot}.

Fixpoint run (ops : list op) (s : S) : S :=
  match ops with
  | [] => s
  | o :: rest => run rest (run_op o s).1
  end.

Fixpoint run_ok (ops : list op) (s : S) : Prop :=
  match ops with
  | [] => True
  | o :: rest => op_ok o s /\ run_ok rest (run_op o s).1
  end.

Definition empty_slot (s : S) : Prop := forall k, cell_of s (skey k) = cell0.

Lemma empty_slot_wf s : empty_slot s -> wf s.
Proof.
  intros He. split; [intros t| | |intros t];
    unfold view, uhash, nat_or_absent, int_or_absent, hash_of, zset_of, str_of; rewrite ?He; simpl; auto.
  apply (ok_gone_q None).
Qed.

Lemma run_wf ops s : wf s -> run_ok ops s -> wf (run ops s).
Proof.
  revert s. induction ops as [|o ops IH]; intros s Hwf; [done|]. intros [Ho Hr]. cbn [run].
  apply IH; [|done]. by apply wf_run_op.
Qed.

Lemma run_app ops1 ops2 s : run (ops1 ++ ops2) s = run ops2 (run ops1 s).
Proof. revert s. induction ops1 as [|o ops1 IH]; intros s; [done|]. apply IH. Qed.

Lemma run_ok_app ops1 ops2 s : run_ok (ops1 ++ ops2) s <-> run_ok ops1 s /\ run_ok ops2 (run ops1 s).
Proof.
  revert s. induction ops1 as [|o ops1 IH]; intros s; simpl; [tauto|]. rewrite IH. tauto.
Qed.

(** Induction over a run for a relation between the views of one token. *)
Lemma run_vstep ops s t : wf s -> run_ok ops s -> OExpireUser t ∉ ops ->
  rtc vrule (view s t) (view (run ops s) t).
Proof.
  revert s. induction ops as [|o ops IH]; intros s Hwf; [constructor|].
  intros [Ho Hr] [Hne Hnl]%not_elem_of_cons. cbn [run]. specialize (IH _ (wf_run_op o s Hwf Ho) Hr Hnl).
  destruct (op_ladder o s t Hwf Ho (not_eq_sym Hne)) as [E|Hs]; [by rewrite <- E|]. by eapply rtc_l.
Qed.

(** ** Places and counters *)

Definition seq_of (s : S) : Z := default 0 (tonumber (str_of s (skey KSeq))).

Lemma seq_step o s : wf s -> op_ok o s -> seq_of s <= seq_of (run_op o s).1.
Proof.
  intros Hwf Hok. destruct (is_evict o) eqn:He.
  - destruct o; try discriminate He. destruct Hok as [Ht Hl].
    destruct (op_ladder_evict now staleAfter grace offset limit evictedTTL s Ht Hl) as [(E & _) _].
    unfold seq_of. rewrite E. done.
  - unfold seq_of. destruct o; simplify_eq/=; counter_hyps Hwf; counter_branches; try reflexivity.
    all: simpl; lia.
Qed.

Lemma seq_run ops s : wf s -> run_ok ops s -> seq_of s <= seq_of (run ops s).
Proof.
  revert s. induction ops as [|o ops IH]; intros s Hwf; [done|]. intros [Ho Hr]. cbn [run].
  etrans; [by apply seq_step|]. apply IH; [by apply wf_run_op|done].
Qed.

(** ** Admission *)

(** The observation clock of [admit.lua]: [observe_from], else [joined_at]. *)
Definition observed_ms (s : S) (t : string) : option Z :=
  match tonumber (uhash s t !! "observe_from") with
  | Some x => Some x
  | None => tonumber (uhash s t !! "joined_at")
  end.

Definition beats_since (s : S) (t : string) : Z :=
  num_or 0 (uhash s t !! "hb_count") - num_or 0 (uhash s t !! "hb_base").

(** Both observation gates are open for the token. *)
Definition observed_enough (s : S) (t : string) (now dwell beats : Z) : Prop :=
  (dwell <= 0 \/ exists from, observed_ms s t = Some from /\ dwell <= now - from) /\
  (beats <= 0 \/ beats <= beats_since s t).

(** A seat may be given: the token waits, both gates are open, and fewer tokens stand
    before it than seats are left. *)
Definition may_enter (s : S) (t : string) (now dwell beats : Z) : Prop :=
  v_state (view s t) = Some "waiting" /\ observed_enough s t now dwell beats /\
  exists k, zrank (zset_of s (skey KQueue)) t = Some k /\ k < budget_of s.

(** The reply says that this call gave a seat (a repeated call answers with rank [-1]). *)
Definition seat_given (r : reply) : bool :=
  match r with
  | RStr st :: RInt rank :: _ => bool_decide (st = "admitted") && (0 <=? rank)
  | _ => false
  end.

(** The store an admission leaves. *)
Definition seated (t jti : string) (now ettl uttl : Z) (s : S) : S :=
  SET_PX (entry_prefix +:+ jti) t ettl
    (PEXPIRE (skey (KUser t)) uttl
      (HSET (skey (KUser t)) [("state", "admitted"); ("admitted_at", itoa now); ("entry_jti", jti)]
        (ZREM (skey KQueue) t (DECR (skey KBudget) s).1).1)).

Definition waited_ms (s : S) (t : string) (now : Z) : Z :=
  match observed_ms s t with Some x => now - x | None => -1 end.

Lemma gates_spec s t now dwell beats :
  observed_enough s t now dwell beats <->
  (0 <? dwell) && ((waited_ms s t now <? 0) || (waited_ms s t now <? dwell)) = false /\
  (0 <? beats) && (beats_since s t <? beats) = false.
Proof.
  unfold observed_enough, waited_ms. rewrite !andb_false_iff, orb_false_iff, !Z.ltb_ge.
  destruct (observed_ms s t) as [x|]; split.
  - intros ([?|(y & [= <-] & ?)] & ?); lia.
  - intros ([?|[? ?]] & ?); (split; [|lia]); [by left|]. right. by exists x.
  - intros ([?|(y & ? & ?)] & ?); [lia|done].
  - intros ([?|[? ?]] & ?); (split; [|lia]); [by left|]. lia.
Qed.

(** The script either gives a seat, when it may, or leaves the store as it was. *)
Lemma admit_cases t jti now ettl uttl dwell beats s : int_or_absent (str_of s (skey KBudget)) ->
  let o := OAdmit t jti now ettl uttl dwell beats in
  (may_enter s t now dwell beats /\ exists k w, zrank (zset_of s (skey KQueue)) t = Some k /\
   run_op o s = (seated t jti now ettl uttl s,
                 [RStr "admitted"; RInt k; RInt (budget_of s - 1); RStr jti; RInt w])) \/
  (~ may_enter s t now dwell beats /\ exists r, run_op o s = (s, r) /\ seat_given r = false).
Proof.
  intros Hb o. subst o. cbn [run_op]. unfold admit_script. rewrite !HGET_v, !GET_v, !ZRANK_v.
  unfold may_enter. rewrite gates_spec. cbn [view v_state].
  fold (uhash s t). fold (observed_ms s t). fold (waited_ms s t now). fold (beats_since s t).
  fold (budget_of s).
  destruct (uhash s t !! "state") as [st|]; [|right; naive_solver].
  case_decide as Ha; [right; naive_solver|].
  case_decide as Hw.
  { right. split; [intros ([= ->] & _); done|]. eexists. split; [done|].
    cbn. by rewrite bool_decide_eq_false_2. }
  destruct (zrank _ t) as [k|] eqn:Hk; [|right; naive_solver].
  apply zrank_Some in Hk as Hk'. destruct Hk' as (_ & _ & Hk0).
  destruct (_ && (_ || _)); [right; split; [naive_solver|eauto]|].
  destruct (_ && _); [right; split; [naive_solver|eauto]|].
  destruct (budget_of s <=? k) eqn:Hkb; bool_to_prop.
  - right. split; [|eauto]. intros (_ & _ & k' & [= <-] & ?). lia.
  - left. subst st. split; [eauto 8|].
    eexists _, _. split; [done|]. unfold seated, DECR. do 3 f_equal.
    rewrite INCRBY_n by done. unfold budget_of, num_or. do 2 f_equal; lia.
Qed.

(** The only other reply that says "admitted" repeats the ticket of an earlier seat. *)
Lemma admit_echo t jti now ettl uttl dwell beats s :
  let r := (run_op (OAdmit t jti now ettl uttl dwell beats) s).2 in
  seat_given r = false -> r !! 0%nat = Some (RStr "admitted") ->
  v_state (view s t) = Some "admitted" /\ r !! 3%nat = Some (RStr (default emp (uhash s t !! "entry_jti"))).
Proof.
  cbv zeta. cbn [run_op]. unfold admit_script. rewrite !HGET_v, !ZRANK_v. cbn [view v_state].
  fold (uhash s t). destruct (uhash s t !! "state") as [st|]; [|done].
  case_decide as Ha; [by subst|]. case_decide as Hw; [cbn; intros _ [= ->]; done|].
  destruct (zrank _ t) as [k|] eqn:Hk; [|done]. apply zrank_Some in Hk as (_ & _ & Hk).
  destruct (_ && (_ || _)); [done|]. destruct (_ && _); [done|]. destruct (_ <=? k); [done|].
  cbn [snd seat_given]. rewrite bool_decide_eq_true_2 by done. intros Hs. bool_to_prop. lia.
Qed.

Lemma seated_effect t jti now ettl uttl s : int_or_absent (str_of s (skey KBudget)) ->
  0 < ettl -> 0 < uttl ->
  let s' := seated t jti now ettl uttl s in
  budget_of s' = budget_of s - 1 /\ v_state (view s' t) = Some "admitted" /\
  v_q (view s' t) = None /\ uhash s' t !! "entry_jti" = Some jti /\
  str_of s' (skey (KEntry jti)) = Some t /\ ttl_of s' (skey (KEntry jti)) = Some ettl.
Proof.
  intros Hb Hettl Huttl. cbv zeta.
  assert (Httl : ttl_of (seated t jti now ettl uttl s) (skey (KEntry jti)) = Some ettl).
  { unfold seated, ttl_of. rewrite entry_prefix_ok, SET_PX_law by done. unfold upd. by rewrite decide_True. }
  revert Httl. generalize (ttl_of (seated t jti now ettl uttl s) (skey (KEntry jti))). intros o ->.
  unfold seated, DECR, budget_of. cbn [view v_state v_q]. unfold uhash.
  split_and!; unfold num_or; observe; reflexivity.
Qed.

(** Seats handed out by the operation, and seats it adds to the budget. *)
Definition seats (o : op) (s : S) : Z :=
  match o with
  | OAdmit _ _ _ _ _ _ _ => if seat_given (run_op o s).2 then 1 else 0
  | _ => 0
  end.

Definition granted (o : op) : Z := match o with ORefill grant _ _ => Z.max grant 0 | _ => 0 end.

Lemma refill_bounds grant cap ttl s : 0 < ttl -> 
  let r := run_op (ORefill grant cap ttl) s in
  let b := budget_of r.1 in
  0 <= b /\ (0 <= cap -> b <= cap) /\ b <= zcard (zset_of s (skey KQueue)) /\
  b <= Z.max 0 (budget_of s + grant) /\ r.2 = [RInt b; RInt (zcard (zset_of s (skey KQueue)))].
Proof.
  intros Httl. cbn [run_op]. unfold refill_budget, budget_of. rewrite ZCARD_v, GET_v. cbn [fst snd].
  set (w := zcard _). assert (0 <= w) by (subst w; unfold zcard; lia).
  match goal with |- context [itoa ?x] => set (b := x) end.
  assert (Hb : num_or 0 (str_of (SET_PX (skey KBudget) (itoa b) ttl s) (skey KBudget)) = b)
    by (unfold num_or; observe; done).
  rewrite Hb. subst b. split_and!; try done; repeat case_match; bool_to_prop; lia.
Qed.

Definition budget_op (o : op) : bool :=
  match o with OAdmit _ _ _ _ _ _ _ | ORefill _ _ _ | OExpireBudget | OEvict _ _ _ _ _ _ => true | _ => false end.

Lemma budget_same o s : wf s -> op_ok o s -> budget_op o = false ->
  str_of (run_op o s).1 (skey KBudget) = str_of s (skey KBudget).
Proof.
  intros Hwf Hok He. destruct o; simplify_eq/=; counter_hyps Hwf; counter_branches; reflexivity.
Qed.

Lemma budget_of_same s s' : str_of s' (skey KBudget) = str_of s (skey KBudget) ->
  budget_of s' = budget_of s.
Proof. unfold budget_of. by intros ->. Qed.

Lemma budget_nonneg s : wf s -> 0 <= budget_of s.
Proof. intros Hwf. apply (nat_or_absent_num _ (wf_budget s Hwf)). Qed.

(** A step never creates seats beyond what a refill grants. *)
Lemma budget_step o s : wf s -> op_ok o s ->
  budget_of (run_op o s).1 + seats o s <= budget_of s + granted o.
Proof.
  intros Hwf Hok. pose proof (budget_nonneg s Hwf) as Hb0.
  destruct (budget_op o) eqn:He.
  2: { rewrite (budget_of_same s) by (by apply budget_same). destruct o; simpl in *; try discriminate; lia. }
  destruct o; try discriminate He; cbn [seats granted].
  - destruct Hok. rewrite (budget_of_same s); [lia|]. by apply op_ladder_evict.
  - destruct Hok. pose proof (nat_int_or_absent _ (wf_budget s Hwf)) as Hb.
    destruct (admit_cases t jti now entryTTL userTTL dwell beats s Hb)
      as [(_ & k & w & Hk & Hr)|(_ & r & Hr & Hs)]; rewrite Hr; cbn [fst snd].
    + rewrite (proj1 (seated_effect t jti now entryTTL userTTL s Hb ltac:(done) ltac:(done))).
      case_match; lia.
    + rewrite Hs. lia.
  - pose proof (refill_bounds grant cap ttl s Hok) as (_ & _ & _ & Hle & _). lia.
  - cbn [run_op fst]. assert (budget_of (DEL (skey KBudget) s) = 0) as ->; [|lia].
    unfold budget_of. observe. done.
Qed.

Fixpoint seats_run (ops : list op) (s : S) : Z :=
  match ops with
  | [] => 0
  | o :: rest => seats o s + seats_run rest (run_op o s).1
  end.

Definition granted_run (ops : list op) : Z := sumZ (granted <$> ops).

Lemma budget_run ops s : wf s -> run_ok ops s ->
  budget_of (run ops s) + seats_run ops s <= budget_of s + granted_run ops.
Proof.
  revert s. induction ops as [|o ops IH]; intros s Hwf; [unfold granted_run; simpl; lia|].
  intros [Ho Hr]. specialize (IH _ (wf_run_op o s Hwf Ho) Hr).
  pose proof (budget_step o s Hwf Ho). unfold granted_run in *. cbn in *. fold (sumZ (granted <$> ops)). lia.
Qed.

(** ** Joining *)

Definition place_given (now le rnd band : Z) (s : S) : Z :=
  if now <? le then rnd else band + (seq_of s + 1).

(** A call that gives a place. *)
Lemma enqueue_created t sh now le rnd band fp ip ttl s : wf s -> 0 < ttl ->
  (v_state (view s t) = None \/ v_state (view s t) = Some "evicted") ->
  let o := OEnqueue t sh now le rnd band fp ip ttl in
  let p := place_given now le rnd band s in
  let s' := (run_op o s).1 in
  view s' t = TView (Some "waiting") (Some p) (Some p) (v_g (view s t)) (v_h (view s t)) /\
  ((now <? le) = false -> seq_of s' = seq_of s + 1) /\
  (run_op o s).2 = [RStr "created"; RInt (default (-1) (zrank (zset_of s' (skey KQueue)) t));
    RInt (zcard (zset_of s' (skey KQueue))); RInt p; RStr (if now <? le then "lottery" else "fifo")].
Proof.
  intros Hwf Httl Hst. counter_hyps Hwf. cbn [view v_state] in Hst. unfold uhash in Hst.
  cbv zeta. unfold place_given, seq_of. cbn [run_op]. unfold enqueue. prep. rewrite HGET_v.
  destruct Hst as [->| ->]; [|rewrite decide_False by naive_solver; rewrite decide_False by naive_solver];
    destruct (now <? le); cbn [fst snd].
  all: counters; split_and!;
    [ apply view_intro; observe0; reflexivity
    | intros Hlt; try discriminate Hlt; observe0; reflexivity
    | rewrite ZRANK_v, ZCARD_v, ?INCRBY_n by assumption; do 3 f_equal; try done; observe0; reflexivity ].
Qed.

(** A call for a token that already has a place. *)
Lemma enqueue_exists t sh now le rnd band fp ip ttl s st : wf s -> 0 < ttl ->
  v_state (view s t) = Some st -> (st = "waiting" \/ st = "evicting") ->
  let r := run_op (OEnqueue t sh now le rnd band fp ip ttl) s in
  (forall t', view r.1 t' = view s t') /\ seq_of r.1 = seq_of s /\
  exists p, v_q (view s t) = Some p /\
  r.2 = [RStr "exists"; RInt (default (-1) (zrank (zset_of s (skey KQueue)) t));
         RInt (zcard (zset_of s (skey KQueue))); RInt p;
         RStr (default emp (uhash s t !! "segment"))].
Proof.
  intros Hwf Httl Hst Hor. destruct (place_waiting s t st Hwf Hst Hor) as (p & Hp & Hq & _).
  cbn [view v_state v_q] in *. unfold uhash, seq_of in *.
  cbv zeta. cbn [run_op]. unfold enqueue. prep. rewrite !HGET_v, Hst, decide_True by done. cbn [fst snd].
  split_and!.
  - intros t'. destruct (decide (t = t')) as [<-|]; [|frame].
    rewrite (view_eq s t). apply view_intro; observe0; reflexivity.
  - observe. done.
  - exists p. split; [done|]. unfold num_or. rewrite Hp. observe. done.
Qed.

(** *** Order inside a sorted set *)

Lemma filter_length_lt {A} (f g : A -> bool) l x :
  (forall y, f y = true -> g y = true) -> In x l -> f x = false -> g x = true ->
  (length (List.filter f l) < length (List.filter g l))%nat.
Proof.
  intros Hfg Hx Hfx Hgx.
  assert (Hle : forall l', (length (List.filter f l') <= length (List.filter g l'))%nat).
  { induction l' as [|y l' IH]; simpl; [lia|]. destruct (f y) eqn:Hy; [rewrite (Hfg y Hy); simpl; lia|].
    destruct (g y); simpl; lia. }
  induction l as [|y l IH]; [done|]. simpl. destruct Hx as [->|Hx].
  - rewrite Hfx, Hgx. simpl. specialize (Hle l). lia.
  - specialize (IH Hx). destruct (f y) eqn:Hy; [rewrite (Hfg y Hy); simpl; lia|]. destruct (g y); simpl; lia.
Qed.

Lemma zbefore_trans_lt x a b : zbefore x a = true -> a.1 < b.1 -> zbefore x b = true.
Proof.
  unfold zbefore. rewrite !orb_true_iff, !andb_true_iff, !Z.ltb_lt, !Z.eqb_eq. intros [?|[-> _]] ?; lia.
Qed.

Lemma zbefore_irrefl x : zbefore x x = false.
Proof.
  unfold zbefore. rewrite Z.ltb_irrefl, Z.eqb_refl. simpl. unfold String.ltb.
  pose proof (String.compare_antisym x.2 x.2) as Ha. destruct (String.compare x.2 x.2); done.
Qed.

Lemma zrank_lt z a b ra rb ka kb : z !! a = Some ra -> z !! b = Some rb -> ra < rb ->
  zrank z a = Some ka -> zrank z b = Some kb -> ka < kb.
Proof.
  unfold zrank. intros Ha Hb Hlt. rewrite Ha, Hb. simpl. intros [= <-] [= <-]. apply Nat2Z.inj_lt.
  apply filter_length_lt with (a, ra).
  - intros [m sc] Hm. by eapply zbefore_trans_lt.
  - apply list_elem_of_In, elem_of_map_to_list. done.
  - apply zbefore_irrefl.
  - unfold zbefore. simpl. apply orb_true_iff. left. by apply Z.ltb_lt.
Qed.

(** *** Ranks *)

(** As long as the record of a token lives, it has a state. *)
Lemma state_lives o s t st : wf s -> op_ok o s -> o <> OExpireUser t -> v_state (view s t) = Some st ->
  exists st', v_state (view (run_op o s).1 t) = Some st'.
Proof.
  intros Hwf Ho Hne Hst. destruct (op_ladder o s t Hwf Ho Hne) as [->|Hrule]; [by eauto|].
  revert Hst. destruct Hrule; simpl; eauto.
Qed.

Lemma run_rank ops s t st r : wf s -> run_ok ops s ->
  forallb (fun o => negb (joins o t)) ops = true -> OExpireUser t ∉ ops ->
  v_state (view s t) = Some st -> v_rank (view s t) = Some r -> v_rank (view (run ops s) t) = Some r.
Proof.
  revert s st. induction ops as [|o ops IH]; intros s st Hwf; [done|]. intros [Ho Hr] Hj Hne Hst Hrk.
  cbn [forallb] in Hj. apply andb_true_iff in Hj as [Hjo Hj]. apply negb_true_iff in Hjo.
  apply not_elem_of_cons in Hne as [Hneo Hne]. cbn [run].
  destruct (state_lives o s t st Hwf Ho (not_eq_sym Hneo) Hst) as [st' Hst'].
  apply (IH _ st'); [by apply wf_run_op|done..|].
  rewrite rank_kept; [done..| |by rewrite Hst]. by apply not_eq_sym.
Qed.

(** ** One visit of the sweeper *)

Lemma visit_waiting now stale grace ettl s n t : 0 < ettl -> v_state (view s t) = Some "waiting" ->
  let s' := (evict_one (skey KQueue) user_prefix now stale grace ettl (s, n) t).1 in
  view s' t = view s t \/
  (exists seen, tonumber (uhash s t !! "last_seen") = Some seen /\ stale < now - seen) /\
  uhash s' t !! "evict_at" = Some (itoa (now + grace)) /\
  view s' t = TView (Some "evicting") (v_rank (view s t)) (v_q (view s t)) (v_g (view s t)) (v_h (view s t)).
Proof.
  intros Httl Hst. cbn [view v_state] in Hst. unfold uhash in Hst. cbv zeta. unfold evict_one.
  rewrite user_prefix_ok, !HGET_v, Hst, decide_False, decide_True by done. unfold uhash.
  destruct (tonumber _) as [seen|] eqn:Hseen; [|by left]. destruct (stale <? now - seen) eqn:Hlt; [|by left].
  right. bool_to_prop. split; [by exists seen|]. cbn [fst]. split; [by observe0|]. apply view_intro; observe0; reflexivity.
Qed.

Lemma visit_evicting now stale grace ettl s n t : 0 < ettl -> v_state (view s t) = Some "evicting" ->
  let s' := (evict_one (skey KQueue) user_prefix now stale grace ettl (s, n) t).1 in
  view s' t = view s t \/
  (exists at_, tonumber (uhash s t !! "evict_at") = Some at_ /\ at_ <= now) /\
  view s' t = TView (Some "evicted") (v_rank (view s t)) None (v_g (view s t)) (v_h (view s t)).
Proof.
  intros Httl Hst. cbn [view v_state] in Hst. unfold uhash in Hst. cbv zeta. unfold evict_one.
  rewrite user_prefix_ok, !HGET_v, Hst, decide_True by done. unfold uhash.
  destruct (tonumber (hash_of s (skey (KUser t)) !! "evict_at")) as [at_|] eqn:Hat; [|by left].
  destruct (at_ <=? now) eqn:Hle; [|by left].
  right. bool_to_prop. split; [by exists at_|]. cbn [fst]. apply view_intro; observe0; reflexivity.
Qed.

(** ** Entry tickets over a run *)

Lemma entry_run ops s j : wf s -> run_ok ops s -> forallb (fun o => negb (issues o j)) ops = true ->
  str_of s (skey (KEntry j)) = None -> str_of (run ops s) (skey (KEntry j)) = None.
Proof.
  revert s. induction ops as [|o ops IH]; intros s Hwf; [done|]. intros [Ho Hr] Hj Hn.
  cbn [forallb] in Hj. apply andb_true_iff in Hj as [Hjo Hj]. apply negb_true_iff in Hjo. cbn [run].
  apply IH; [by apply wf_run_op|done..|].
  destruct (entry_kept o s j Hwf Ho Hjo) as [->| ->]; done.
Qed.

End Runs.
