(* ===== verification/Machine.v ===== *)
(** * The abstract machine of one token

    What each operation, with the answer it gave, does to the view of a token: a function of
    the view and the answer, except for a pass of the sweeper, which may visit a token or not.
    [climbs] is the specification; [run_climbs] shows that every run of the scripts, with its
    answers, is a run of this machine.  The last section follows a mark of the sweeper from
    the pass that sets it. *)

From S2P Require Import Prelude.
From S2P Require Import Redis.
From S2P Require Import Scripts.
From S2P Require Import Slot.
From S2P Require Import Ladder.
From S2P Require Import Runs.
Local Open Scope string_scope.
Local Open Scope Z_scope.

(** ** The specification *)

Definition in_state (v : tview) (st : string) : bool := bool_decide (v_state v = Some st).

Definition says (r : reply) (st : string) : Prop := r !! 0%nat = Some (RStr st).

Definition to_state (st : string) (v : tview) : tview := TView (Some st) (v_rank v) (v_q v) (v_g v) (v_h v).

(** A record without a place in the queue is made, or a new one after an eviction: the token
    waits at the number drawn inside the lottery window, and above the band after it. *)
Definition joins_at (now le rnd band p : Z) (v v' : tview) : Prop :=
  v' = TView (Some "waiting") (Some p) (Some p) (v_g v) (v_h v) /\ if now <? le then p = rnd else band < p.

(** One visit of the sweeper: a waiting token is marked, a marked one leaves, and a place
    without a record is cleared. *)
Definition visited (v : tview) : tview :=
  match v_state v with
  | None => TView None (v_rank v) None (v_g v) (v_h v)
  | Some st =>
      if decide (st = "waiting") then to_state "evicting" v
      else if decide (st = "evicting") then TView (Some "evicted") (v_rank v) None (v_g v) (v_h v)
      else v
  end.

(** A ruling of the scorer: nothing moves a blocked token, a hold takes every other one out of
    the queue and the greylist, a block out of the hold as well. *)
Definition ruled (action : string) (v : tview) : tview :=
  match v_state v with
  | None => v
  | Some st =>
      if decide (st = "blocked") then v
      else if decide (action = "hold") then
        if decide (st = "held") then v
        else TView (Some "held") (v_rank v) None None (match v_q v, v_g v with None, None => v_h v | _, _ => v_rank v end)
      else if decide (action = "block") then TView (Some "blocked") (v_rank v) None None None
      else v
  end.

(** What operation [o], answering [r], does to the token it names. *)
Definition own_climb (o : op) (r : reply) (v v' : tview) : Prop :=
  match o with
  | OEnqueue _ _ now le rnd band _ _ _ =>
      match v_state v with
      | None => says r "created" /\ exists p, r !! 3%nat = Some (RInt p) /\ joins_at now le rnd band p v v'
      | Some st =>
          if decide (st = "evicted") then says r "created" /\ exists p, r !! 3%nat = Some (RInt p) /\ joins_at now le rnd band p v v'
          else says r (if decide (st = "waiting" \/ st = "evicting") then "exists" else st) /\ v' = v
      end
  | OPosition _ => says r (default "unknown" (v_state v)) /\ v' = v
  | OHeartbeat _ _ _ => says r (default "unknown" (v_state v')) /\ v' = if in_state v "evicting" then to_state "waiting" v else v
  | OAdmit _ _ _ _ _ _ _ =>
      if seat_given r then in_state v "waiting" = true /\ v' = TView (Some "admitted") (v_rank v) None (v_g v) (v_h v)
      else v' = v
  | OAction _ _ action _ _ => v' = ruled action v
  | OMove _ _ _ _ _ =>
      v' = if in_state v "waiting" || in_state v "evicting" then TView (Some "greylist") (v_rank v) None (v_q v) (v_h v) else v
  | ORestore _ _ _ _ =>
      v' = if in_state v "greylist" || in_state v "held" then TView (Some "waiting") (v_rank v) (v_rank v) None None else v
  | ORechallenge _ _ _ _ _ _ _ =>
      if in_state v "greylist" then
        says r "restored" /\ v' = TView (Some "waiting") (v_rank v) (v_rank v) None (v_h v) \/
        says r "exhausted" /\ v' = TView (Some "held") (v_rank v) (v_q v) None (v_rank v)
      else v' = v
  | OExpireUser _ => v' = expired v
  | OEvict _ _ _ _ _ _ => v' = v \/ v' = visited v
  | ORedeem _ _ _ | ORefill _ _ _ | OExpireBudget | OExpireEntry _ => v' = v
  end.

(** The machine of token [t]: an operation that names another token does nothing. *)
Definition climbs (t : string) (o : op) (r : reply) (v v' : tview) : Prop :=
  match op_token o with
  | Some t' => if decide (t' = t) then own_climb o r v v' else v' = v
  | None => own_climb o r v v'
  end.

Inductive climb (t : string) : list (op * reply) -> tview -> tview -> Prop :=
  | climb_done v : climb t [] v v
  | climb_step o r l v v1 v' : climbs t o r v v1 -> climb t l v1 v' -> climb t ((o, r) :: l) v v'.

(** A token nobody has seen. *)
Definition unseen : tview := TView None None None None None.

Section Machine.
Context {S : Type} {R : Redis S} {RL : RedisLaws S} {SL : Slot}.

Fixpoint answers (ops : list op) (s : S) : list (op * reply) :=
  match ops with
  | [] => []
  | o :: rest => (o, (run_op o s).2) :: answers rest (run_op o s).1
  end.

(** ** Each operation *)

#[local] Abbreviation after o s := (view (run_op o s).1).

Lemma climb_enqueue t sh now le rnd band fp ip ttl s : let o := OEnqueue t sh now le rnd band fp ip ttl in
  wf s -> op_ok o s -> own_climb o (run_op o s).2 (view s t) (after o s t).
Proof.
  intros o Hwf (Httl & _).
  assert (Hjoin : v_state (view s t) = None \/ v_state (view s t) = Some "evicted" ->
    says (run_op o s).2 "created" /\ exists p, (run_op o s).2 !! 3%nat = Some (RInt p) /\ joins_at now le rnd band p (view s t) (after o s t)).
  { intros Hst. destruct (enqueue_created t sh now le rnd band fp ip ttl s Hwf Httl Hst) as (Hv & _ & Hr). fold o in Hv, Hr.
    rewrite Hr, Hv. split; [done|]. eexists. split; [done|]. split; [done|]. unfold place_given, seq_of.
    pose proof (nat_or_absent_num _ (wf_seq s Hwf)). case_match; lia. }
  subst o. cbn [own_climb]. destruct (v_state (view s t)) as [st|] eqn:E; [|by apply Hjoin; left]. case_decide as Hev; [subst; by apply Hjoin; right|].
  case_decide as Hw.
  - destruct (enqueue_exists t sh now le rnd band fp ip ttl s st Hwf Httl E Hw) as (Hv & _ & p & _ & Hr). by rewrite Hv, Hr.
  - cbn [run_op]. unfold enqueue. cbn [view v_state] in E. unfold uhash in E. rewrite !HGET_v, E, decide_False, decide_True by done. done.
Qed.

Lemma climb_heartbeat t now ttl s : let o := OHeartbeat t now ttl in
  wf s -> op_ok o s -> own_climb o (run_op o s).2 (view s t) (after o s t).
Proof.
  intros o Hwf Hok. subst o. counter_hyps Hwf. cbn [own_climb op_ok] in *. unfold in_state. cbn [run_op]. unfold heartbeat. rewrite !HGET_v.
  cbn [view v_state]. unfold uhash. destruct (_ !! "state") as [st|] eqn:E; [|rewrite bool_decide_eq_false_2 by done; cbn [snd fst]; by rewrite E].
  case_decide as Hd; [subst st; rewrite bool_decide_eq_true_2 by done|rewrite bool_decide_eq_false_2 by congruence]; cbn [fst snd].
  - split; [observe; done|]. unfold to_state. cbn [view v_rank v_q v_g v_h]. unfold uhash. counters; apply view_intro; observe0; done.
  - split; [observe; rewrite E; done|]. rewrite (view_eq s). counters; apply view_intro; observe0; done.
Qed.

Lemma climb_admit t jti now ettl uttl dwell beats s : let o := OAdmit t jti now ettl uttl dwell beats in
  wf s -> op_ok o s -> own_climb o (run_op o s).2 (view s t) (after o s t).
Proof.
  intros o Hwf (Hettl & Huttl). subst o. pose proof (nat_int_or_absent _ (wf_budget s Hwf)) as Hb. cbn [own_climb].
  destruct (admit_cases t jti now ettl uttl dwell beats s Hb) as [((Hw & _) & k & w & Hk & Hr)|(_ & r & Hr & Hs)];
    rewrite Hr; cbn [fst snd]; [|by rewrite Hs].
  apply zrank_Some in Hk as (_ & _ & Hk). cbn [seat_given]. rewrite bool_decide_eq_true_2 by done.
  rewrite (proj2 (Z.leb_le _ _) Hk). cbn [andb]. split; [by apply bool_decide_eq_true|].
  unfold seated, DECR. cbn [view v_rank v_g v_h]. unfold uhash. apply view_intro; observe; done.
Qed.

Lemma climb_action t score action now ttl s : let o := OAction t score action now ttl in
  wf s -> op_ok o s -> own_climb o (run_op o s).2 (view s t) (after o s t).
Proof.
  intros o Hwf Httl. subst o. cbn [own_climb op_ok] in *. unfold ruled. cbn [run_op]. unfold apply_action. prep. rewrite HGET_v.
  cbn [view v_state]. unfold uhash. destruct (_ !! "state") as [st|] eqn:Hst; [|done].
  destruct (place_known s t st Hwf Hst) as (r & Hr & Hr0).
  assert (Hrank : forall s', hash_of s' (skey (KUser t)) !! "orig_rank" = hash_of s (skey (KUser t)) !! "orig_rank" ->
    tonumber (HGET (skey (KUser t)) "orig_rank" s') = Some r) by (intros s' E; by rewrite HGET_v, E).
  rewrite !Hrank by (observe; done).
  repeat (case_decide; cbn [fst snd]; try congruence; try (rewrite (view_eq s); apply view_intro; observe0; done)).
  cbn [view v_rank v_q v_g v_h]. unfold uhash. rewrite Hr.
  match goal with |- context [if ?b then _ else _] => assert (b = bool_decide (is_Some (zset_of s (skey KQueue) !! t) \/ is_Some (zset_of s (skey KGrey) !! t))) as -> end.
  { observe0. rewrite removals_pos, (proj2 (Z.leb_le _ _) Hr0). by rewrite andb_true_r. }
  case_bool_decide as Hin; apply view_intro; observe0; try done;
    by destruct (zset_of s (skey KQueue) !! t), (zset_of s (skey KGrey) !! t); naive_solver.
Qed.

Lemma climb_move t grey score now ttl s : let o := OMove t grey score now ttl in
  wf s -> op_ok o s -> own_climb o (run_op o s).2 (view s t) (after o s t).
Proof.
  intros o Hwf Httl. subst o. cbn [own_climb op_ok] in *. unfold in_state. cbn [run_op]. unfold move_shard. rewrite !HGET_v.
  cbn [view v_state]. unfold uhash. destruct (_ !! "state") as [st|] eqn:Hst; [|by rewrite !bool_decide_eq_false_2 by done].
  case_decide as Hd; cbn [fst].
  { rewrite !bool_decide_eq_false_2 by naive_solver. cbn [orb]. rewrite (view_eq s). apply view_intro; observe0; done. }
  assert (Hor : st = "waiting" \/ st = "evicting") by (destruct (decide (st = "waiting")), (decide (st = "evicting")); naive_solver).
  assert (bool_decide (Some st = Some "waiting") || bool_decide (Some st = Some "evicting") = true) as ->
    by (destruct Hor as [->| ->]; reflexivity).
  destruct (place_waiting s t st Hwf Hst Hor) as (r & Hr & Hq & Hg & Hh & _).
  assert (Hz : tonumber (ZSCORE (skey KQueue) t (PEXPIRE (skey (KUser t)) ttl (HSET (skey (KUser t))
    [("score", itoa score); ("scored_at", itoa now)] (HSET (skey KScore) [(t, itoa score)] s)))) = Some r).
  { observe0. rewrite Hq. cbn. by rewrite parse_itoa. }
  rewrite Hz. cbn [fst view v_rank v_q v_g v_h]. unfold uhash. rewrite Hr, Hq.
  destruct (hash_of s (skey (KUser t)) !! "orig_rank") as [x|] eqn:Ho; [|done].
  destruct (hash_of s (skey (KUser t)) !! "orig_shard"); apply view_intro; observe0; try done; by rewrite Ho.
Qed.

Lemma climb_restore t origin now ttl s : let o := ORestore t origin now ttl in
  wf s -> op_ok o s -> own_climb o (run_op o s).2 (view s t) (after o s t).
Proof.
  intros o Hwf Httl. subst o. cbn [own_climb op_ok] in *. unfold in_state. cbn [run_op]. unfold restore_shard. rewrite !HGET_v.
  cbn [view v_state]. unfold uhash. destruct (_ !! "state") as [st|] eqn:Hst; [|by rewrite !bool_decide_eq_false_2 by done].
  case_decide as Hd; cbn [fst]; [by rewrite !bool_decide_eq_false_2 by naive_solver|].
  assert (bool_decide (Some st = Some "greylist") || bool_decide (Some st = Some "held") = true) as ->
    by (destruct (decide (st = "greylist")) as [->|]; [done|]; destruct (decide (st = "held")) as [->|]; [done|naive_solver]).
  destruct (place_known s t st Hwf Hst) as (r & Hr & _). cbn [v_rank]. rewrite Hr. cbn [fst]. apply view_intro; observe0; done.
Qed.

Lemma climb_rechallenge t origin maxa pass hold now ttl s : let o := ORechallenge t origin maxa pass hold now ttl in
  wf s -> op_ok o s -> own_climb o (run_op o s).2 (view s t) (after o s t).
Proof.
  intros o Hwf Httl. subst o. cbn [own_climb op_ok] in *. unfold in_state. cbn [run_op]. unfold rechallenge. rewrite !HGET_v.
  cbn [view v_state]. unfold uhash. destruct (_ !! "state") as [st|] eqn:Hst; [|by rewrite !bool_decide_eq_false_2 by done].
  case_decide as Hd; [by rewrite !bool_decide_eq_false_2 by congruence|].
  assert (st = "greylist") as -> by (destruct (decide (st = "greylist")); naive_solver). rewrite bool_decide_eq_true_2 by done.
  destruct (place_known s t "greylist" Hwf Hst) as (r & Hr & _). rewrite Hr. cbn [v_rank v_q v_h].
  case_match; [right|left]; (split; [done|]); cbn [fst]; apply view_intro; observe0; done.
Qed.

Lemma climb_evict now stale grace off lim ettl s t : let o := OEvict now stale grace off lim ettl in
  op_ok o s -> own_climb o (run_op o s).2 (view s t) (after o s t).
Proof.
  intros o [Httl Hlim]. subst o. destruct (evict_visits now stale grace off lim ettl s Hlim Httl) as [_ Hv].
  cbn [own_climb]. destruct (Hv t) as [[-> _]|(s0 & n0 & <- & _ & -> & _)]; [by left|]. clear Hv.
  unfold visited, to_state. destruct (v_state (view s0 t)) as [st|] eqn:Hst.
  - case_decide as Hw; [subst st; destruct (visit_waiting now stale grace ettl s0 n0 t Httl Hst) as [->|(_ & _ & ->)]; [by left|by right]|].
    case_decide as He; [subst st; destruct (visit_evicting now stale grace ettl s0 n0 t Httl Hst) as [->|(_ & ->)]; [by left|by right]|].
    left. cbn [view v_state] in Hst. unfold uhash in Hst. unfold evict_one. by rewrite user_prefix_ok, !HGET_v, Hst, !decide_False by done.
  - right. cbn [view v_state v_rank v_g v_h] in *. unfold uhash in *. unfold evict_one.
    rewrite user_prefix_ok, !HGET_v, Hst. cbn [fst]. apply view_intro; observe0; done.
Qed.

(** ** Every operation, every token *)

Lemma op_climbs o s t : wf s -> op_ok o s -> climbs t o (run_op o s).2 (view s t) (after o s t).
Proof.
  intros Hwf Hok. unfold climbs. destruct (op_token o) as [t0|] eqn:Ht.
  - case_decide as Hne; [subst t0|by eapply view_other].
    destruct o; try discriminate Ht; injection Ht as ->.
    + by apply climb_enqueue.
    + cbn [own_climb run_op]. unfold position. rewrite HGET_v. cbn [view v_state]. unfold uhash. by destruct (_ !! "state").
    + by apply climb_heartbeat.
    + by apply climb_admit.
    + cbn [own_climb run_op]. unfold redeem. case_match; [|done]. case_decide; [done|]. cbn [fst]. rewrite (view_eq s). apply view_intro; observe0; done.
    + by apply climb_action.
    + by apply climb_move.
    + by apply climb_restore.
    + by apply climb_rechallenge.
    + apply op_expire.
  - destruct o; try discriminate Ht.
    + by apply climb_evict.
    + cbn [own_climb run_op]. unfold refill_budget. cbn [fst]. rewrite (view_eq s). apply view_intro; observe0; done.
    + cbn [own_climb run_op fst]. rewrite (view_eq s). apply view_intro; observe0; done.
    + cbn [own_climb run_op fst]. rewrite (view_eq s). apply view_intro; observe0; done.
Qed.

Lemma run_climbs ops s t : wf s -> run_ok ops s -> climb t (answers ops s) (view s t) (view (run ops s) t).
Proof.
  revert s. induction ops as [|o ops IH]; intros s Hwf; [constructor|]. intros [Ho Hr]. cbn [run answers].
  econstructor; [by apply op_climbs|]. by apply IH; [apply wf_run_op|].
Qed.

Lemma empty_unseen s t : empty_slot s -> view s t = unseen.
Proof. intros He. unfold view, uhash, hash_of, zset_of. by rewrite !He. Qed.

(** ** From the mark to the removal *)

(** The operation hears from the token. *)
Definition hears (t : string) (o : op) : bool := match o with OHeartbeat t' _ _ => bool_decide (t' = t) | _ => false end.

(** Only a pass of the sweeper marks; a marked token that stays marked was not heard from. *)
Lemma stays_marked o s t : wf s -> op_ok o s -> v_state (after o s t) = Some "evicting" -> is_evict o = false ->
  v_state (view s t) = Some "evicting" /\ hears t o = false.
Proof.
  intros Hwf Hok Hst He. pose proof (op_climbs o s t Hwf Hok) as Hc. revert Hc Hst.
  generalize (view s t) as v, (after o s t) as v', (run_op o s).2 as r. clear Hwf Hok. intros v v' r.
  unfold climbs, hears. destruct (op_token o) as [t0|] eqn:Ht.
  2: { destruct o; try discriminate; cbn [own_climb]; by intros ->. }
  case_decide as Hne; [subst t0|intros ->; destruct o; try done; cbn in Ht; injection Ht as ->; by rewrite bool_decide_eq_false_2].
  destruct o; try discriminate; cbn [own_climb]; unfold in_state, ruled, to_state, joins_at, expired.
  all: try case_bool_decide; repeat case_match; bool_to_prop; try naive_solver.
Qed.

(** The deadline of a marked token is the one it was marked with. *)
Lemma mark_kept o s t : wf s -> op_ok o s -> v_state (after o s t) = Some "evicting" -> is_evict o = false ->
  uhash (run_op o s).1 t !! "evict_at" = uhash s t !! "evict_at".
Proof.
  intros Hwf Hok Hst He. destruct (stays_marked o s t Hwf Hok Hst He) as [Hb Hh].
  assert (Hex : o <> OExpireUser t) by (intros ->; by rewrite op_expire in Hst). clear Hst.
  cbn [view v_state] in Hb. unfold uhash in *.
  destruct o; simplify_eq/=; counter_hyps Hwf; try (destruct (decide (t0 = t)) as [->|Hne]);
    try (rewrite bool_decide_eq_true_2 in Hh by done); try done; counter_branches; try done.
  all: repeat match goal with H : HGET _ _ _ = _ |- _ => rewrite HGET_v in H end; naive_solver.
Qed.

(** The pass that marks a token. *)
Definition marks (now stale : Z) (s : S) (t : string) : Prop :=
  v_state (view s t) = Some "waiting" /\ exists seen, tonumber (uhash s t !! "last_seen") = Some seen /\ stale < now - seen.

Lemma pass_marks now stale grace off lim ettl s t : let o := OEvict now stale grace off lim ettl in
  op_ok o s -> v_state (after o s t) = Some "evicting" ->
  v_state (view s t) = Some "evicting" /\ uhash (run_op o s).1 t = uhash s t \/
  marks now stale s t /\ uhash (run_op o s).1 t !! "evict_at" = Some (itoa (now + grace)).
Proof.
  intros o [Httl Hlim]. subst o. destruct (evict_visits now stale grace off lim ettl s Hlim Httl) as [_ Hv].
  unfold marks. destruct (Hv t) as [[-> ->]|(s0 & n0 & <- & Eh & -> & ->)]; [by left|]. rewrite <- Eh. clear Hv Eh.
  unfold evict_one. rewrite user_prefix_ok, !HGET_v. cbn [view v_state]. unfold uhash.
  destruct (hash_of s0 (skey (KUser t)) !! "state") as [st|] eqn:Hst; [|cbn [fst]; observe0; by rewrite Hst].
  case_decide as He; [subst st|].
  - case_match; [case_match|]; cbn [fst]; [observe0; done|by left..].
  - case_decide as Hw; [subst st|cbn [fst]; rewrite Hst; congruence].
    destruct (tonumber _) as [seen|] eqn:Hseen; [|cbn [fst]; by rewrite Hst].
    destruct (stale <? now - seen) eqn:Hlt; cbn [fst]; [|by rewrite Hst].
    intros _. right. bool_to_prop. split; [eauto|]. by observe0.
Qed.

(** In the run [ops] a pass marked the token with deadline [d], after it had been silent for
    longer than the limit of that pass: the deadline is the time of the pass plus its grace.
    The token was not heard from since. *)
Definition marked_in (ops : list op) (s : S) (t : string) (d : Z) : Prop :=
  exists before now stale grace off lim ettl rest,
    ops = (before ++ OEvict now stale grace off lim ettl :: rest)%list /\ marks now stale (run before s) t /\
    d = now + grace /\ Forall (fun o => hears t o = false) rest.

Lemma marked_in_snoc ops o s t d : marked_in ops s t d -> hears t o = false -> marked_in (ops ++ [o])%list s t d.
Proof.
  intros (before & now & stale & grace & off & lim & ettl & rest & -> & Hm & Hd & Hf) Hh.
  exists before, now, stale, grace, off, lim, ettl, (rest ++ [o])%list. rewrite <- app_assoc. split_and!; [done..|].
  apply Forall_app. split; [done|by constructor].
Qed.

Lemma marked_by ops s t : wf s -> run_ok ops s -> v_state (view s t) <> Some "evicting" ->
  v_state (view (run ops s) t) = Some "evicting" ->
  exists d, uhash (run ops s) t !! "evict_at" = Some (itoa d) /\ marked_in ops s t d.
Proof.
  intros Hwf. induction ops as [|o ops IH] using rev_ind; [done|]. intros [Hr [Ho _]]%run_ok_app Hn. rewrite run_app. cbn [run].
  assert (Hwf' := run_wf ops s Hwf Hr). intros Hst. destruct (is_evict o) eqn:He.
  - destruct o as [| | |now stale grace off lim ettl| | | | | | | | | |]; try discriminate He.
    destruct (pass_marks now stale grace off lim ettl _ t Ho Hst) as [[Hb ->]|[Hm Hd]].
    + destruct (IH Hr Hn Hb) as (d & Hd & Hm). exists d. split; [done|]. by apply marked_in_snoc.
    + exists (now + grace). split; [done|]. by exists ops, now, stale, grace, off, lim, ettl, [].
  - destruct (stays_marked o _ t Hwf' Ho Hst He) as [Hb Hh]. rewrite (mark_kept o _ t Hwf' Ho Hst He).
    destruct (IH Hr Hn Hb) as (d & Hd & Hm). exists d. split; [done|]. by apply marked_in_snoc.
Qed.

End Machine.
