(* ===== verification/Frame.v ===== *)
(** * A slot's operations leave the rest of the store alone

    The frame rule of [Ladder.run_op]: no operation changes a key that is not one of its
    slot's, so the slots of different shards do not meet, and what is proved of one slot
    holds while the others run.  The exceptions of Redis's laws (an increment of a value that
    is not an integer) are excluded by the invariant [wf]. *)

From S2P Require Import Prelude.
From S2P Require Import Redis.
From S2P Require Import Keys.
From S2P Require Import Scripts.
From S2P Require Import Slot.
From S2P Require Import Ladder.
From S2P Require Import Runs.
Local Open Scope string_scope.
Local Open Scope Z_scope.

(** ** One command *)

Section Commands.
Context {S : Type} {R : Redis S} {RL : RedisLaws S}.

Lemma upd_other s k f k' : k <> k' -> upd cell_of s k f k' = cell_of s k'.
Proof. intros Hk. unfold upd. by rewrite decide_False. Qed.

Lemma cell_HSET k fvs s k' : fvs <> [] -> k <> k' -> cell_of (HSET k fvs s) k' = cell_of s k'.
Proof. intros Hf Hk. by rewrite HSET_law, upd_other. Qed.
Lemma cell_HDEL k fs s k' : k <> k' -> cell_of (HDEL k fs s) k' = cell_of s k'.
Proof. intros Hk. by rewrite HDEL_law, upd_other. Qed.
Lemma cell_HINCRBY k f d s k' : int_or_absent (hash_of s k !! f) -> k <> k' -> cell_of (HINCRBY k f d s).1 k' = cell_of s k'.
Proof. intros Hi Hk. by rewrite (proj2 (HINCRBY_law k f d s Hi)), upd_other. Qed.
Lemma cell_INCRBY k d s k' : k <> k' -> cell_of (INCRBY k d s).1 k' = cell_of s k'.
Proof. apply INCRBY_frame. Qed.
Lemma cell_SET_PX k v ms s k' : 0 < ms -> k <> k' -> cell_of (SET_PX k v ms s) k' = cell_of s k'.
Proof. intros Hm Hk. by rewrite SET_PX_law, upd_other. Qed.
Lemma cell_DEL k s k' : k <> k' -> cell_of (DEL k s) k' = cell_of s k'.
Proof. intros Hk. by rewrite DEL_law, upd_other. Qed.
Lemma cell_PEXPIRE k ms s k' : 0 < ms -> k <> k' -> cell_of (PEXPIRE k ms s) k' = cell_of s k'.
Proof. intros Hm Hk. by rewrite PEXPIRE_law, upd_other. Qed.
Lemma cell_ZADD k sc m s k' : k <> k' -> cell_of (ZADD k sc m s) k' = cell_of s k'.
Proof. intros Hk. by rewrite ZADD_law, upd_other. Qed.
Lemma cell_ZREM k m s k' : k <> k' -> cell_of (ZREM k m s).1 k' = cell_of s k'.
Proof. intros Hk. by rewrite (proj2 (ZREM_law k m s)), upd_other. Qed.

End Commands.

(** Peels the commands of a script off a key the slot does not own. *)
Ltac peel Hk :=
  repeat match goal with
  | |- context [cell_of ?s' ?k'] =>
      lazymatch s' with
      | HSET ?k ?f ?s => rewrite (cell_HSET k f s k') by (discriminate || apply Hk)
      | PEXPIRE ?k ?ms ?s => rewrite (cell_PEXPIRE k ms s k') by (apply Hk || pos)
      | ZADD ?k ?sc ?m ?s => rewrite (cell_ZADD k sc m s k') by apply Hk
      | HDEL ?k ?fs ?s => rewrite (cell_HDEL k fs s k') by apply Hk
      | DEL ?k ?s => rewrite (cell_DEL k s k') by apply Hk
      | SET_PX ?k ?v ?ms ?s => rewrite (cell_SET_PX k v ms s k') by (apply Hk || pos)
      | (ZREM ?k ?m ?s).1 => rewrite (cell_ZREM k m s k') by apply Hk
      | (INCRBY ?k ?d ?s).1 => rewrite (cell_INCRBY k d s k') by apply Hk
      | (HINCRBY ?k ?f ?d ?s).1 => rewrite (cell_HINCRBY k f d s k') by (assumption || apply Hk)
      end
  end.

Section Frame.
Context {S : Type} {R : Redis S} {RL : RedisLaws S} {SL : Slot}.

Definition foreign (k : string) : Prop := forall x, skey x <> k.

(** The slot is as it was. *)
Definition same_slot (s s' : S) : Prop := forall x, cell_of s' (skey x) = cell_of s (skey x).

Lemma evict_one_frame now stale grace ettl s n t k : 0 < ettl -> foreign k ->
  cell_of (evict_one (skey KQueue) user_prefix now stale grace ettl (s, n) t).1 k = cell_of s k.
Proof.
  intros Hettl Hk. unfold evict_one. rewrite ?user_prefix_ok. branches; peel Hk; done.
Qed.

Lemma evict_pass_frame now stale grace ettl l s n k : 0 < ettl -> foreign k ->
  cell_of (foldl (evict_one (skey KQueue) user_prefix now stale grace ettl) (s, n) l).1 k = cell_of s k.
Proof.
  intros Hettl Hk. revert s n. induction l as [|x l IH]; intros s n; [done|]. cbn [foldl].
  rewrite (surjective_pairing (evict_one _ _ _ _ _ _ (s, n) x)), IH. by apply evict_one_frame.
Qed.

(** The frame rule. *)
Lemma run_op_frame o s k : wf s -> op_ok o s -> foreign k -> cell_of (run_op o s).1 k = cell_of s k.
Proof.
  intros Hwf Hok Hk. counter_hyps Hwf. assert (Hk' := Hk). unfold foreign in Hk'. destruct o; simplify_eq/=;
    try (destruct_and?; scripts; prep; branches; rewrite ?entry_prefix_ok; counters; peel Hk'; done).
  destruct Hok as [He Hl]. unfold evict. case_match; [done|]. cbv zeta.
  match goal with |- context [foldl ?f (s, ?a) ?l] =>
    pose proof (evict_pass_frame now staleAfter grace evictedTTL l s a k He Hk) as E; destruct (foldl f (s, a) l) end.
  exact E.
Qed.

End Frame.

(** The invariant of a slot depends on the cells of the slot alone, and so on its names. *)
Lemma wf_same_cells {S} `{RedisLaws S} (SL1 SL2 : Slot) s1 s2 :
  (forall x, cell_of s1 (@skey SL1 x) = cell_of s2 (@skey SL2 x)) -> @wf S _ _ SL1 s1 -> @wf S _ _ SL2 s2.
Proof.
  intros Hc [Hv Hq Hb Hh]. split; [intros t; specialize (Hv t)|..|intros t; specialize (Hh t)];
    unfold view, uhash, hash_of, zset_of, str_of in *; by rewrite <- !Hc.
Qed.

Lemma budget_same_cells {S} `{RedisLaws S} (SL1 SL2 : Slot) s1 s2 :
  (forall x, cell_of s1 (@skey SL1 x) = cell_of s2 (@skey SL2 x)) -> @budget_of S _ _ SL1 s1 = @budget_of S _ _ SL2 s2.
Proof. intros Hc. unfold budget_of, str_of. by rewrite Hc. Qed.

(** What is the same in two states of the store with the same slot. *)
Section SameSlot.
Context {S : Type} {R : Redis S} {RL : RedisLaws S} {SL : Slot}.

Lemma kept_slot_wf s s' : same_slot s s' -> wf s -> wf s'.
Proof. intros Hs. apply wf_same_cells. intros x. by rewrite Hs. Qed.

Lemma same_slot_zset s s' k : same_slot s s' -> zset_of s' (skey k) = zset_of s (skey k).
Proof. intros Hs. unfold zset_of. by rewrite Hs. Qed.

Lemma same_slot_budget s s' : same_slot s s' -> budget_of s' = budget_of s.
Proof. intros Hs. apply budget_same_cells. exact Hs. Qed.

Lemma same_slot_seq s s' : same_slot s s' -> seq_of s' = seq_of s.
Proof. intros Hs. unfold seq_of, str_of. by rewrite Hs. Qed.

Lemma same_slot_view s s' t : same_slot s s' -> view s' t = view s t.
Proof. intros Hs. unfold view, uhash, hash_of, zset_of. by rewrite !Hs. Qed.

End SameSlot.

(** The index of the shards is no slot's. *)
Lemma index_aside ev sh (He : plain ev = true) (Ho : origin_shard sh) : @foreign (keys_slot ev sh He Ho) (Keys.Shards ev).
Proof. intros x E. cbn in E. rewrite key_name_tagged in E. by destruct x. Qed.

(** ** The slots of one event *)

Section Shards.
Context (ev : string) (He : plain ev = true).

(** An origin shard. *)
Record shard := MkShard { name : string; is_origin : origin_shard name }.

Definition slot_of (sh : shard) : Slot := keys_slot ev (name sh) He (is_origin sh).

Lemma skey_name (a b : shard) x : name a = name b -> @skey (slot_of a) x = @skey (slot_of b) x.
Proof. intros E. cbn. by rewrite E. Qed.

(** Slots of different shards share no key. *)
Lemma slots_apart (a b : shard) x : name a <> name b -> @foreign (slot_of a) (@skey (slot_of b) x).
Proof.
  intros Hne y Hy. cbn in Hy. destruct a as [a Ha], b as [b Hb]. cbn in *.
  destruct (origin_plain a Ha) as (Hpa & Hga & Hsa), (origin_plain b Hb) as (Hpb & Hgb & Hsb).
  apply key_name_inj in Hy as [_ Hy]; try done; [|by destruct y|by destruct x].
  destruct y, x; simpl in Hy; try discriminate Hy; rewrite ?Hsa, ?Hsb in Hy; try congruence.
  all: destruct Ha as (ra & -> & _), Hb as (rb & -> & _); unfold grey_of in Hy; simpl in Hy; congruence.
Qed.

Lemma index_foreign a : @foreign (slot_of a) (Keys.Shards ev).
Proof. apply index_aside. Qed.

Context {S : Type} {R : Redis S} {RL : RedisLaws S}.

(** Every shard's slot is well formed. *)
Definition all_wf (s : S) : Prop := forall sh, @wf S _ _ (slot_of sh) s.

Lemma same_slot_wf (a b : shard) s : name a = name b -> @wf S _ _ (slot_of a) s -> @wf S _ _ (slot_of b) s.
Proof. intros E. apply wf_same_cells. intros x. by rewrite (skey_name a b x E). Qed.

Lemma all_wf_op (sh : shard) o s : all_wf s -> @op_ok S _ _ (slot_of sh) o s -> all_wf (@run_op S _ (slot_of sh) o s).1.
Proof.
  intros Hwf Hok sh'. destruct (decide (name sh = name sh')) as [E|Hne].
  - apply (same_slot_wf sh); [done|]. by apply (wf_run_op (SL := slot_of sh)).
  - apply (wf_same_cells (slot_of sh') (slot_of sh') s); [|apply Hwf]. intros x. symmetry.
    apply (run_op_frame (SL := slot_of sh)); [apply Hwf|done|by apply slots_apart].
Qed.

Lemma other_budget (a b : shard) o s : all_wf s -> @op_ok S _ _ (slot_of a) o s -> name a <> name b ->
  @budget_of S _ _ (slot_of b) (@run_op S _ (slot_of a) o s).1 = @budget_of S _ _ (slot_of b) s.
Proof.
  intros Hwf Hok Hne. apply (budget_same_cells (slot_of b) (slot_of b)). intros x.
  apply (run_op_frame (SL := slot_of a)); [apply Hwf|done|by apply slots_apart].
Qed.

End Shards.
