(* ===== verification/Guarantees.v ===== *)
(** * What the queue of one slot guarantees

    The properties of the state transitions, over every run of [Runs.run]: the sorted sets
    agree with the records, seats are never oversold, places are given in order and given
    back exactly, a pass of the sweeper gives a token two chances, an entry ticket burns
    once, a block is final.  Each property has a witness: a concrete run of the in-memory
    store on the keys of shard [s0001] of the event [show]. *)

From S2P Require Import Prelude.
From S2P Require Import Redis.
From S2P Require Import Keys.
From S2P Require Import Scripts.
From S2P Require Import Slot.
From S2P Require Import Ladder.
From S2P Require Import Runs.
From S2P Require Import Machine.
From S2P Require Import Frame.
Import MemStore.
Local Open Scope string_scope.
Local Open Scope Z_scope.

(** ** The concrete slot of the witnesses *)

Lemma demo_origin : origin_shard "s0001".
Proof. by exists "0001". Defined.

#[export] Instance demo_slot : Slot := keys_slot "show" "s0001" eq_refl demo_origin.

Definition store0 : gmap string cell := ∅.

Lemma store0_wf : wf store0.
Proof. apply empty_slot_wf. intros k. reflexivity. Qed.

(** Two tokens join in the lottery window, one after it; two seats are granted. *)
Definition demo_ops : list op :=
  [OEnqueue "ann" "s0001" 10 100 7 1000 "fp" "ip" 5000;
   OEnqueue "bob" "s0001" 20 100 3 1000 "fp" "ip" 5000;
   OEnqueue "cat" "s0001" 200 100 9 1000 "fp" "ip" 5000;
   ORefill 2 10 5000].

Definition demo_store : gmap string cell := run demo_ops store0.

Lemma demo_ok : run_ok demo_ops store0.
Proof. repeat (split; [vm_compute; intuition (congruence || done)|]). exact I. Qed.

Lemma demo_wf : wf demo_store.
Proof. apply run_wf; [apply store0_wf|apply demo_ok]. Qed.

(** ** Invariant and refinement *)

(** C1: after any sequence of script calls and expiries on an empty slot, every token stands
    in at most one of the queue, the greylist and the hold, and where it stands agrees with
    the state of its record: a waiting (or evicting) token stands in the queue at its
    recorded rank, and nobody else with a record stands there. *)
Theorem places_agree_with_records {S} `{RedisLaws S} `{Slot} ops s t :
  empty_slot s -> run_ok ops s ->
  let v := view (run ops s) t in
  (v_q v <> None -> v_g v = None /\ v_h v = None) /\ (v_g v <> None -> v_h v = None) /\
  (v_state v = Some "waiting" \/ v_state v = Some "evicting" ->
     exists r, 0 <= r /\ v_rank v = Some r /\ v_q v = Some r) /\
  (v_state v = Some "greylist" -> exists r, v_rank v = Some r /\ v_g v = Some r) /\
  (v_q v <> None -> v_state v = None \/ v_state v = Some "waiting" \/ v_state v = Some "evicting") /\
  (v_g v <> None -> v_state v = None \/ v_state v = Some "greylist") /\
  (v_h v <> None -> v_state v = None \/ v_state v = Some "held").
Proof.
  intros He Hr v. pose proof (wf_view _ (run_wf ops s (empty_slot_wf s He) Hr) t) as Hv.
  fold v in Hv. clearbody v. destruct Hv as [st r Hst ?|r ?|r h ? Hh|st r Hst ?|q|g|h]; simpl;
    split_and!; intros; repeat match goal with H : _ \/ _ |- _ => destruct H end; simplify_eq; eauto.
Qed.

Lemma places_agree_with_records_witness :
  let v := view (run demo_ops store0) "ann" in
  v_q v = Some 7 /\ (v_q v <> None -> v_g v = None /\ v_h v = None).
Proof.
  split; [vm_compute; reflexivity|].
  exact (proj1 (places_agree_with_records demo_ops store0 "ann" (fun k => eq_refl) demo_ok)).
Defined.

(** C2: refinement.  Every run of the scripts, with the answers they give, is a run of the
    abstract machine of a token ([Machine.climbs]), from a token nobody has seen to the view
    in the store.  An operation that names another token does nothing to this one.  A join
    gives a place only to a token without a record or after an eviction, answering "created"
    with the place: the number drawn inside the lottery window, one above the band after it.
    A heartbeat changes only a marked token, which waits again.  An admission moves a waiting
    token out of the queue, exactly when it answers that a seat was given.  A hold and a block
    take the token out of the sets, a move puts it on the greylist at its place, a restore and
    a passed re-challenge put it back at its rank, and none of them moves a token in another
    state.  A pass marks a waiting token, removes a marked one, or clears a place without a
    record.  Only an expiry forgets the record. *)
Theorem scripts_refine_ladder {S} `{RedisLaws S} `{Slot} ops s t :
  empty_slot s -> run_ok ops s -> climb t (answers ops s) unseen (view (run ops s) t).
Proof. intros He Hr. rewrite <- (empty_unseen s t He). by apply run_climbs; [apply empty_slot_wf|]. Qed.

Lemma scripts_refine_ladder_witness :
  climb "ann" (answers demo_ops store0) unseen (TView (Some "waiting") (Some 7) (Some 7) None None).
Proof. exact (scripts_refine_ladder demo_ops store0 "ann" (fun k => eq_refl) demo_ok). Defined.

(** Seats are never oversold in a slot.  Over any run from an empty slot, the seats handed out are
    at most the seats granted by the refills, and the budget left is never negative. *)
Theorem never_oversold {S} `{RedisLaws S} `{Slot} ops s :
  empty_slot s -> run_ok ops s ->
  0 <= budget_of (run ops s) /\ seats_run ops s + budget_of (run ops s) <= granted_run ops.
Proof.
  intros He Hr. assert (Hwf := empty_slot_wf s He). split.
  - apply budget_nonneg. by apply run_wf.
  - pose proof (budget_run ops s Hwf Hr) as Hle. assert (budget_of s = 0) as Hb; [|lia].
    unfold budget_of, str_of. by rewrite He.
Qed.

Definition seating_ops : list op :=
  demo_ops ++ [OAdmit "bob" "j1" 300 600 5000 0 0; OAdmit "ann" "j2" 300 600 5000 0 0;
               OAdmit "cat" "j3" 300 600 5000 0 0].

Lemma seating_ok : run_ok seating_ops store0.
Proof. repeat (split; [vm_compute; intuition (congruence || done)|]). exact I. Qed.

Lemma never_oversold_witness :
  seats_run seating_ops store0 = 2 /\ granted_run seating_ops = 2 /\
  seats_run seating_ops store0 + budget_of (run seating_ops store0) <= granted_run seating_ops.
Proof.
  split; [vm_compute; reflexivity|]. split; [reflexivity|].
  apply (never_oversold seating_ops store0); [intros k; reflexivity|apply seating_ok].
Defined.

(** ** Admission *)

(** The admission script gives a seat exactly when the token waits, has been observed
    long enough, and fewer tokens stand before it than seats are left; then the budget drops
    by one, the token leaves the queue as admitted, and its entry ticket exists under the
    requested id for the requested time.  In every other case nothing is written. *)
Theorem seat_iff_may_enter {S} `{RedisLaws S} `{Slot} s t jti now ettl uttl dwell beats :
  wf s -> 0 < ettl -> 0 < uttl ->
  let r := run_op (OAdmit t jti now ettl uttl dwell beats) s in
  (seat_given r.2 = true <-> may_enter s t now dwell beats) /\
  (seat_given r.2 = false -> r.1 = s) /\
  (seat_given r.2 = true ->
     budget_of r.1 = budget_of s - 1 /\ v_state (view r.1 t) = Some "admitted" /\
     v_q (view r.1 t) = None /\ (forall t', t <> t' -> view r.1 t' = view s t') /\
     str_of r.1 (skey (KEntry jti)) = Some t /\ ttl_of r.1 (skey (KEntry jti)) = Some ettl).
Proof.
  intros Hwf He Hu r. subst r. pose proof (nat_int_or_absent _ (wf_budget s Hwf)) as Hb.
  pose proof (fun t' => view_other (OAdmit t jti now ettl uttl dwell beats) t t' s Hwf (conj He Hu) eq_refl)
    as Hother.
  pose proof (seated_effect t jti now ettl uttl s Hb He Hu) as (E1 & E2 & E3 & _ & E5 & E6).
  destruct (admit_cases t jti now ettl uttl dwell beats s Hb) as [(Hm & k & w & Hk & Hr)|(Hm & r & Hr & Hs)].
  - rewrite Hr in *. cbn [fst snd] in *. apply zrank_Some in Hk as (_ & _ & Hk).
    assert (seat_given [RStr "admitted"; RInt k; RInt (budget_of s - 1); RStr jti; RInt w] = true) as ->
      by (cbn [seat_given]; rewrite bool_decide_eq_true_2 by done; by apply Z.leb_le).
    split_and!; naive_solver.
  - rewrite Hr in *. cbn [fst snd]. rewrite Hs. split_and!; naive_solver.
Qed.

(** Asking again is harmless.  After a seat was given under [jti], a repeated call with
    any other proposed id and any gates answers with the same [jti] and writes nothing. *)
Lemma admit_idempotent {S} `{RedisLaws S} `{Slot} s t jti now ettl uttl dwell beats
    jti' now' ettl' uttl' dwell' beats' :
  wf s -> 0 < ettl -> 0 < uttl ->
  let r := run_op (OAdmit t jti now ettl uttl dwell beats) s in
  seat_given r.2 = true ->
  run_op (OAdmit t jti' now' ettl' uttl' dwell' beats') r.1 =
  (r.1, [RStr "admitted"; RInt (-1); RInt (budget_of r.1); RStr jti; RInt (-1)]).
Proof.
  intros Hwf He Hu r Hs. subst r. pose proof (nat_int_or_absent _ (wf_budget s Hwf)) as Hb.
  pose proof (seated_effect t jti now ettl uttl s Hb He Hu) as (_ & E2 & _ & E4 & _).
  destruct (admit_cases t jti now ettl uttl dwell beats s Hb) as [(_ & k & w & _ & Hr)|(_ & r & Hr & Hn)];
    rewrite Hr in *; cbn [fst snd] in *; [|congruence].
  cbn [run_op]. unfold admit_script. rewrite !HGET_v, GET_v. fold (budget_of (seated t jti now ettl uttl s)).
  cbn [view v_state] in E2. unfold uhash in *. by rewrite E2, E4.
Qed.

Example admit_idempotent_run :
  let r := run_op (OAdmit "bob" "j1" 300 600 5000 0 0) demo_store in
  run_op (OAdmit "bob" "other" 301 600 5000 9 9) r.1 =
  (r.1, [RStr "admitted"; RInt (-1); RInt (budget_of r.1); RStr "j1"; RInt (-1)]).
Proof.
  exact (admit_idempotent demo_store "bob" "j1" 300 600 5000 0 0 "other" 301 600 5000 9 9
           demo_wf eq_refl eq_refl eq_refl).
Defined.

(** A refill leaves between zero and the cap, never more seats than tokens wait, and
    never more than what was left plus the grant. *)
Theorem refill_within_bounds {S} `{RedisLaws S} `{Slot} s grant cap ttl :
  0 < ttl -> 0 <= cap ->
  let r := run_op (ORefill grant cap ttl) s in
  0 <= budget_of r.1 <= cap /\ budget_of r.1 <= zcard (zset_of s (skey KQueue)) /\
  budget_of r.1 <= Z.max 0 (budget_of s + grant) /\
  r.2 = [RInt (budget_of r.1); RInt (zcard (zset_of s (skey KQueue)))].
Proof.
  intros Httl Hcap r. destruct (refill_bounds grant cap ttl s Httl) as (? & Hc & ? & ? & ?).
  specialize (Hc Hcap). done.
Qed.

(** C4: the budget governs the seats.  A refill leaves between zero and the cap, never more
    seats than tokens wait, and never more than what was left plus the grant.  The admission
    script gives a seat exactly when the token waits, has been observed long enough, and fewer
    tokens stand before it than seats are left; then the budget drops by one, the token leaves
    the queue as admitted, nobody else moves, and its entry ticket exists under the requested
    id for the requested time.  In every other case nothing is written. *)
Theorem budget_governs_seats {S} `{RedisLaws S} `{Slot} s t jti now ettl uttl dwell beats grant cap ttl :
  wf s -> 0 < ettl -> 0 < uttl -> 0 < ttl -> 0 <= cap ->
  let r := run_op (OAdmit t jti now ettl uttl dwell beats) s in
  let f := run_op (ORefill grant cap ttl) s in
  (0 <= budget_of f.1 <= cap /\ budget_of f.1 <= zcard (zset_of s (skey KQueue)) /\
   budget_of f.1 <= Z.max 0 (budget_of s + grant) /\
   f.2 = [RInt (budget_of f.1); RInt (zcard (zset_of s (skey KQueue)))]) /\
  (seat_given r.2 = true <-> may_enter s t now dwell beats) /\
  (seat_given r.2 = false -> r.1 = s) /\
  (seat_given r.2 = true ->
     budget_of r.1 = budget_of s - 1 /\ v_state (view r.1 t) = Some "admitted" /\
     v_q (view r.1 t) = None /\ (forall t', t <> t' -> view r.1 t' = view s t') /\
     str_of r.1 (skey (KEntry jti)) = Some t /\ ttl_of r.1 (skey (KEntry jti)) = Some ettl).
Proof.
  intros Hwf He Hu Httl Hcap r f. split; [by apply refill_within_bounds|by apply seat_iff_may_enter].
Qed.

Lemma budget_governs_seats_witness :
  let r := run_op (OAdmit "bob" "j1" 300 600 5000 0 0) demo_store in
  let f := run_op (ORefill 50 10 5000) demo_store in
  (0 <= budget_of f.1 <= 10) /\ (seat_given r.2 = true <-> may_enter demo_store "bob" 300 0 0) /\ seat_given r.2 = true.
Proof.
  destruct (budget_governs_seats demo_store "bob" "j1" 300 600 5000 0 0 50 10 5000 demo_wf eq_refl eq_refl eq_refl ltac:(done))
    as ((J1 & _) & J2 & _).
  split; [exact J1|]. split; [exact J2|vm_compute; reflexivity].
Defined.

(** ** Joining *)

Definition fifo_ops : list op :=
  [OEnqueue "ann" "s0001" 100 100 0 1000 "fp" "ip" 5000; OHeartbeat "ann" 120 5000;
   OEnqueue "bob" "s0001" 130 100 0 1000 "fp" "ip" 5000].

Lemma fifo_ok : run_ok fifo_ops store0.
Proof. repeat (split; [vm_compute; intuition (congruence || done)|]). exact I. Qed.

(** A token that joins again, while it has a place: the reply repeats the place, and all that
    changes is when it was last seen and when its record expires. *)
Lemma rejoined {S} `{RedisLaws S} `{Slot} s t sh now le rnd band fp ip ttl p :
  wf s -> 0 < ttl -> v_state (view s t) = Some "waiting" -> v_q (view s t) = Some p ->
  let r := run_op (OEnqueue t sh now le rnd band fp ip ttl) s in
  (forall t', view r.1 t' = view s t') /\ seq_of r.1 = seq_of s /\
  uhash r.1 t = <["last_seen" := itoa now]> (uhash s t) /\
  (forall k, k <> skey (KUser t) -> cell_of r.1 k = cell_of s k) /\
  r.2 = [RStr "exists"; RInt (default (-1) (zrank (zset_of s (skey KQueue)) t));
         RInt (zcard (zset_of s (skey KQueue))); RInt p; RStr (default emp (uhash s t !! "segment"))].
Proof.
  intros Hwf Httl Hst Hq r.
  destruct (enqueue_exists t sh now le rnd band fp ip ttl s "waiting" Hwf Httl Hst (or_introl eq_refl)) as (J1 & J2 & p' & Hp & J3).
  rewrite Hq in Hp. injection Hp as <-. split_and!; [exact J1|exact J2| | |exact J3].
  all: cbn [view v_state] in Hst; unfold uhash in Hst; subst r; cbn [run_op]; unfold enqueue, enqueue_snapshot;
    rewrite !HGET_v, Hst, decide_True by (by left); cbn [fst].
  - unfold uhash. observe0. done.
  - intros k Hk. rewrite cell_PEXPIRE, cell_HSET by done. done.
Qed.

(** C5: the order of the queue.  Let a token join, then anything at all happen, then another
    token join.  A join inside the lottery window gets the number it drew, so two lottery
    entrants stand in the order of their numbers; a join after the window gets a place above
    every earlier one, of the lottery or not, in the same band.  While both tokens hold their
    places, the one with the smaller place stands before the other.  Joining again changes no
    place and consumes no sequence number: it touches only the token's own record, of which it
    sets when it was last seen and the expiry, and the reply repeats the place. *)
Theorem queue_order {S} `{RedisLaws S} `{Slot} s a b sh sh' now now' le le' rnd rnd' band fp fp' ip ip' ttl ttl' ops :
  let oa := OEnqueue a sh now le rnd band fp ip ttl in
  let ob := OEnqueue b sh' now' le' rnd' band fp' ip' ttl' in
  let s1 := (run_op oa s).1 in let s2 := run ops s1 in let s3 := (run_op ob s2).1 in
  wf s -> run_ok (oa :: ops ++ [ob]) s -> rnd < band ->
  (v_state (view s a) = None \/ v_state (view s a) = Some "evicted") ->
  (v_state (view s2 b) = None \/ v_state (view s2 b) = Some "evicted") ->
  exists pa pb, v_q (view s1 a) = Some pa /\ v_q (view s3 b) = Some pb /\
  (now < le -> pa = rnd) /\ (now' < le' -> pb = rnd') /\ (le' <= now' -> pa < pb) /\
  (v_q (view s3 a) = Some pa -> forall ka kb,
     zrank (zset_of s3 (skey KQueue)) a = Some ka -> zrank (zset_of s3 (skey KQueue)) b = Some kb ->
     (pa < pb -> ka < kb) /\ (pb < pa -> kb < ka)) /\
  (forall sh'' now'' le'' rnd'' band'' fp'' ip'' ttl'', 0 < ttl'' ->
     let r := run_op (OEnqueue b sh'' now'' le'' rnd'' band'' fp'' ip'' ttl'') s3 in
     (forall t, view r.1 t = view s3 t) /\ seq_of r.1 = seq_of s3 /\
     uhash r.1 b = <["last_seen" := itoa now'']> (uhash s3 b) /\
     (forall k, k <> skey (KUser b) -> cell_of r.1 k = cell_of s3 k) /\
     r.2 = [RStr "exists"; RInt (default (-1) (zrank (zset_of s3 (skey KQueue)) b));
            RInt (zcard (zset_of s3 (skey KQueue))); RInt pb; RStr (default emp (uhash s3 b !! "segment"))]).
Proof.
  intros oa ob s1 s2 s3 Hwf (Ha & Hr) Hrnd Hsa Hsb. apply run_ok_app in Hr as (Hops & Hb & _).
  assert (Hwf1 : wf s1) by (by apply wf_run_op). assert (Hwf2 : wf s2) by (by apply run_wf). assert (Hwf3 : wf s3) by (by apply wf_run_op).
  destruct (enqueue_created a sh now le rnd band fp ip ttl s Hwf (proj1 Ha) Hsa) as (Va & Sa & _).
  destruct (enqueue_created b sh' now' le' rnd' band fp' ip' ttl' s2 Hwf2 (proj1 Hb) Hsb) as (Vb & _ & _).
  fold oa ob in Va, Vb, Sa. fold s1 in Va, Sa. fold s3 in Vb.
  pose proof (seq_run ops s1 Hwf1 Hops) as Hseq. fold s2 in Hseq. pose proof (nat_or_absent_num _ (wf_seq s Hwf)) as Hs0. fold (seq_of s) in Hs0.
  pose proof (nat_or_absent_num _ (wf_seq s2 Hwf2)) as Hs2. fold (seq_of s2) in Hs2.
  exists (place_given now le rnd band s), (place_given now' le' rnd' band s2).
  assert (Hqb : v_q (view s3 b) = Some (place_given now' le' rnd' band s2)) by exact (f_equal v_q Vb).
  split_and!; [exact (f_equal v_q Va)|exact Hqb|..].
  - intros Hlt. unfold place_given. by rewrite (proj2 (Z.ltb_lt _ _) Hlt).
  - intros Hlt. unfold place_given. by rewrite (proj2 (Z.ltb_lt _ _) Hlt).
  - intros Hle. unfold place_given. rewrite (proj2 (Z.ltb_ge _ _) Hle). destruct (now <? le); [lia|]. specialize (Sa eq_refl). lia.
  - intros Hqa ka kb Hka Hkb.
    split; intros Hlt; [exact (zrank_lt _ a b _ _ ka kb Hqa Hqb Hlt Hka Hkb)|exact (zrank_lt _ b a _ _ kb ka Hqb Hqa Hlt Hkb Hka)].
  - intros sh'' now'' le'' rnd'' band'' fp'' ip'' ttl'' Httl. apply rejoined; [done|done|exact (f_equal v_state Vb)|done].
Qed.

Lemma queue_order_witness : exists pa pb,
  v_q (view (run_op (OEnqueue "ann" "s0001" 100 100 0 1000 "fp" "ip" 5000) store0).1 "ann") = Some pa /\
  v_q (view (run fifo_ops store0) "bob") = Some pb /\ pa < pb.
Proof.
  destruct (queue_order store0 "ann" "bob" "s0001" "s0001" 100 130 100 100 0 0 1000 "fp" "fp" "ip" "ip"
    5000 5000 [OHeartbeat "ann" 120 5000] store0_wf fifo_ok ltac:(done) (or_introl eq_refl)
    (or_introl eq_refl)) as (pa & pb & Hpa & Hpb & _ & _ & Hlt & _).
  exists pa, pb. exact (conj Hpa (conj Hpb (Hlt ltac:(done)))).
Defined.

(** ** Bans *)

(** C6: a block is final.  As long as its record lives, a blocked token stays blocked
    whatever scripts are called, and stands in no sorted set; in particular it is never
    given a seat. *)
Theorem block_is_final {S} `{RedisLaws S} `{Slot} ops s t :
  wf s -> run_ok ops s -> OExpireUser t ∉ ops -> v_state (view s t) = Some "blocked" ->
  view (run ops s) t = view s t /\ v_q (view s t) = None /\ v_g (view s t) = None /\ v_h (view s t) = None /\
  forall jti now ettl uttl dwell beats,
    seat_given (run_op (OAdmit t jti now ettl uttl dwell beats) (run ops s)).2 = false.
Proof.
  intros Hwf Hr Hne Hb.
  assert (Hv : view (run ops s) t = view s t).
  { pose proof (run_vstep ops s t Hwf Hr Hne) as Hstep. remember (view s t) as v eqn:E. clear E.
    induction Hstep as [v|v v' v'' Hrule _ IH]; [done|]. exfalso.
    destruct Hrule; simplify_eq/=; repeat match goal with H : _ \/ _ |- _ => destruct H end; done. }
  split; [done|]. pose proof (wf_view s Hwf t) as Ho.
  assert (Hn : v_q (view s t) = None /\ v_g (view s t) = None /\ v_h (view s t) = None)
    by (revert Hb; destruct Ho as [st r Hst ?|?|?|?|?|?|?]; simpl; intros; simplify_eq;
        repeat match goal with H : _ \/ _ |- _ => destruct H end; done).
  destruct_and!. split_and!; try done. intros jti now ettl uttl dwell beats.
  pose proof (nat_int_or_absent _ (wf_budget _ (run_wf ops s Hwf Hr))) as Hbud.
  destruct (admit_cases t jti now ettl uttl dwell beats (run ops s) Hbud)
    as [((Hw & _) & _)|(_ & r & -> & ?)]; [|done].
  rewrite Hv, Hb in Hw. done.
Qed.

Definition blocked_store : gmap string cell := (run_op (OAction "cat" 95 "block" 300 5000) demo_store).1.

Lemma blocked_wf : wf blocked_store.
Proof. apply wf_run_op; [apply demo_wf|reflexivity]. Qed.

Lemma block_is_final_witness :
  view (run [OEnqueue "cat" "s0001" 400 100 1 1000 "fp" "ip" 5000; ORestore "cat" "s0001" 401 5000]
          blocked_store) "cat" = view blocked_store "cat".
Proof.
  refine (proj1 (block_is_final _ blocked_store "cat" blocked_wf _ _ eq_refl)).
  - repeat (split; [vm_compute; intuition (congruence || done)|]). exact I.
  - apply not_elem_of_cons. split; [done|]. apply not_elem_of_cons. split; [done|]. apply not_elem_of_nil.
Defined.

(** ** Places are kept *)

(** A restore brings a greylisted or held token back to the queue at its original rank,
    and changes nobody else. *)
Theorem restore_brings_back {S} `{RedisLaws S} `{Slot} s t st origin now ttl :
  wf s -> 0 < ttl -> v_state (view s t) = Some st -> (st = "greylist" \/ st = "held") ->
  let r := run_op (ORestore t origin now ttl) s in
  exists rank, v_rank (view s t) = Some rank /\
  r.2 = [RStr "restore"; RStr "waiting"; RInt rank] /\
  view r.1 t = TView (Some "waiting") (Some rank) (Some rank) None None /\
  forall t', t <> t' -> view r.1 t' = view s t'.
Proof.
  intros Hwf Httl Hst Hor. cbv zeta. destruct (place_known s t st Hwf Hst) as (rank & Hr & _).
  exists rank. cbn [view v_state] in Hst. unfold uhash in Hst. split; [exact Hr|].
  assert (Hrun : run_op (ORestore t origin now ttl) s =
    (PEXPIRE (skey (KUser t)) ttl (HDEL (skey (KUser t)) ["held_at"; "greylisted_at"]
       (HSET (skey (KUser t)) [("state", "waiting"); ("shard", origin); ("restored_at", itoa now)]
         (ZADD (skey KQueue) rank t (ZREM (skey KHold) t (ZREM (skey KGrey) t s).1).1))),
     [RStr "restore"; RStr "waiting"; RInt rank])).
  { cbn [run_op]. unfold restore_shard. rewrite !HGET_v, Hst, Hr, decide_False; [done|].
    intros [? ?]. naive_solver. }
  rewrite Hrun. cbn [fst snd]. split_and!; [done| |].
  - apply view_intro; observe0; done.
  - intros t' Hne. frame.
Qed.

(** C7: a place is never lost or improved.  A token that waits at rank [r] and is moved to
    the greylist, held, restored, re-challenged, suspected of having left and revived, in any
    order and with anything happening to others, stands at the same [r] whenever it waits
    again, unless it left the queue and joined anew; and a restore brings it back to the
    queue from the greylist or a hold, at that rank, and moves nobody else. *)
Theorem place_is_kept {S} `{RedisLaws S} `{Slot} ops s t st r :
  wf s -> run_ok ops s -> forallb (fun o => negb (joins o t)) ops = true -> OExpireUser t ∉ ops ->
  v_state (view s t) = Some st -> v_rank (view s t) = Some r ->
  let s' := run ops s in
  v_rank (view s' t) = Some r /\
  (v_state (view s' t) = Some "waiting" -> v_q (view s' t) = Some r) /\
  (v_state (view s' t) = Some "greylist" \/ v_state (view s' t) = Some "held" -> forall origin now ttl, 0 < ttl ->
     let b := run_op (ORestore t origin now ttl) s' in
     b.2 = [RStr "restore"; RStr "waiting"; RInt r] /\ view b.1 t = TView (Some "waiting") (Some r) (Some r) None None /\
     forall t', t <> t' -> view b.1 t' = view s' t').
Proof.
  intros Hwf Hr Hj Hne Hst Hrk s'. assert (Hwf' := run_wf ops s Hwf Hr). fold s' in Hwf'.
  assert (Hk := run_rank ops s t st r Hwf Hr Hj Hne Hst Hrk). fold s' in Hk.
  split; [done|]. split.
  - intros Hw. destruct (view_ok_waiting _ _ (wf_view _ Hwf' t) Hw (or_introl eq_refl)) as (r' & Hv & _).
    rewrite Hv in Hk |- *. cbn [v_rank v_q] in *. done.
  - intros Hs' origin now ttl Httl. assert (exists st', v_state (view s' t) = Some st' /\ (st' = "greylist" \/ st' = "held")) as (st' & Hst' & Hor)
      by (destruct Hs'; eauto).
    destruct (restore_brings_back s' t st' origin now ttl Hwf' Httl Hst' Hor) as (rank & Hrank & Hb & Hv & Ho).
    rewrite Hk in Hrank. injection Hrank as <-. done.
Qed.

Definition detour : list op :=
  [OMove "cat" "g0001" 60 300 5000; ORechallenge "cat" "s0001" 3 30 80 310 5000;
   OAction "cat" 85 "hold" 320 5000; OHeartbeat "bob" 325 5000; ORestore "cat" "s0001" 330 5000].

Lemma detour_ok : run_ok detour demo_store.
Proof. repeat (split; [vm_compute; intuition (congruence || done)|]). exact I. Qed.

Lemma place_is_kept_witness :
  v_q (view demo_store "cat") = Some 1001 /\ v_state (view (run detour demo_store) "cat") = Some "waiting" /\
  v_q (view (run detour demo_store) "cat") = Some 1001.
Proof.
  split; [vm_compute; reflexivity|]. split; [vm_compute; reflexivity|].
  refine (proj1 (proj2 (place_is_kept detour demo_store "cat" "waiting" 1001 demo_wf detour_ok eq_refl _ eq_refl eq_refl)) _);
    [|vm_compute; reflexivity].
  unfold detour. repeat (apply not_elem_of_cons; split; [done|]). apply not_elem_of_nil.
Defined.

(** ** The sweeper *)

(** A heartbeat in the grace period revives: the token waits again at its old place,
    and the deadline is gone, so the next pass cannot remove it. *)
Lemma heartbeat_revives {S} `{RedisLaws S} `{Slot} s t now ttl :
  wf s -> 0 < ttl -> v_state (view s t) = Some "evicting" ->
  let r := run_op (OHeartbeat t now ttl) s in
  v_state (view r.1 t) = Some "waiting" /\ v_q (view r.1 t) = v_q (view s t) /\
  uhash r.1 t !! "evict_at" = None /\ uhash r.1 t !! "last_seen" = Some (itoa now) /\
  r.2 !! 4%nat = Some (RInt 1).
Proof.
  intros Hwf Httl Hst r. subst r. counter_hyps Hwf. cbn [view v_state v_q] in *. unfold uhash in *.
  cbn [run_op]. unfold heartbeat, rank_or. rewrite !HGET_v, Hst, decide_True by done. cbn [fst snd].
  split_and!; observe; done.
Qed.

(** C8: a token is evicted only after two chances.  After any run from a store where the
    token is not marked, a pass of the sweeper at most marks a waiting token: its place is
    kept, it has been silent for longer than the limit, and its deadline is the time of the
    pass plus the grace.  A pass removes only a marked token whose deadline is over, and that
    deadline is the time of the earlier pass of the run that marked it, after a silence beyond
    its limit, plus the grace of that pass; no heartbeat of the token came since.  It touches
    no token in another state.  Until the removal a heartbeat revives: the token waits again
    at its old place and the deadline is gone. *)
Theorem eviction_gives_two_chances_and_a_way_back {S} `{RedisLaws S} `{Slot} ops s0 t now stale grace off lim ettl :
  wf s0 -> v_state (view s0 t) <> Some "evicting" -> run_ok (ops ++ [OEvict now stale grace off lim ettl]) s0 ->
  let s := run ops s0 in let s' := (run_op (OEvict now stale grace off lim ettl) s).1 in
  (v_state (view s t) = Some "waiting" ->
     v_q (view s' t) = v_q (view s t) /\
     (view s' t = view s t \/
      v_state (view s' t) = Some "evicting" /\ uhash s' t !! "evict_at" = Some (itoa (now + grace)) /\
      exists seen, tonumber (uhash s t !! "last_seen") = Some seen /\ stale < now - seen)) /\
  (v_state (view s t) = Some "evicting" ->
     exists d, uhash s t !! "evict_at" = Some (itoa d) /\ marked_in ops s0 t d /\
     (view s' t = view s t \/ v_state (view s' t) = Some "evicted" /\ v_q (view s' t) = None /\ d <= now)) /\
  (forall st, v_state (view s t) = Some st -> st <> "waiting" -> st <> "evicting" -> view s' t = view s t) /\
  (forall now ttl, 0 < ttl -> v_state (view s t) = Some "evicting" ->
     let r := run_op (OHeartbeat t now ttl) s in
     v_state (view r.1 t) = Some "waiting" /\ v_q (view r.1 t) = v_q (view s t) /\
     uhash r.1 t !! "evict_at" = None /\ uhash r.1 t !! "last_seen" = Some (itoa now) /\
     r.2 !! 4%nat = Some (RInt 1)).
Proof.
  intros Hwf0 Hn (Hr & (Hettl & Hlim) & _)%run_ok_app s s'. assert (Hwf : wf s) by (by apply run_wf).
  destruct (evict_visits now stale grace off lim ettl s Hlim Hettl) as [_ Hv]. specialize (Hv t). fold s' in Hv. split_and!.
  - intros Hst. destruct Hv as [[-> _]|(s1 & n1 & Ev & Eh & -> & ->)]; [by split; [|left]|].
    rewrite <- Ev in Hst |- *. rewrite <- Eh.
    destruct (visit_waiting now stale grace ettl s1 n1 t Hettl Hst) as [->|(Hseen & Hat & ->)];
      [by split; [|left]|split; [done|by right]].
  - intros Hst. destruct (marked_by ops s0 t Hwf0 Hr Hn Hst) as (d & Hd & Hm). fold s in Hd. exists d. split; [done|]. split; [done|].
    destruct Hv as [[-> _]|(s1 & n1 & Ev & Eh & -> & _)]; [by left|].
    rewrite <- Ev in Hst |- *. rewrite <- Eh in Hd.
    destruct (visit_evicting now stale grace ettl s1 n1 t Hettl Hst) as [->|((at_ & Hat & Hle) & ->)]; [by left|right].
    rewrite Hd, tonumber_itoa in Hat. by injection Hat as <-.
  - intros st Hst Hw He. destruct Hv as [[E _]|(s1 & n1 & Ev & _ & -> & _)]; [done|].
    rewrite <- Ev in Hst |- *.
    cbn [view v_state] in Hst. unfold uhash in Hst. unfold evict_one.
    rewrite user_prefix_ok, !HGET_v, Hst, !decide_False by done. done.
  - intros now' ttl. by apply heartbeat_revives.
Qed.

(** "ann" is silent, is marked at 900 with a grace of 100, and removed at 1000. *)
Definition two_passes : list op := demo_ops ++ [OEvict 900 200 100 0 10 5000].

Lemma two_passes_ok : run_ok (two_passes ++ [OEvict 1000 200 100 0 10 5000]) store0.
Proof. repeat (split; [vm_compute; intuition (congruence || done)|]). exact I. Qed.

Lemma eviction_gives_two_chances_and_a_way_back_witness :
  let s := run two_passes store0 in
  v_state (view (run_op (OEvict 1000 200 100 0 10 5000) s).1 "ann") = Some "evicted" /\
  (exists d, uhash s "ann" !! "evict_at" = Some (itoa d) /\ marked_in two_passes store0 "ann" d) /\
  v_state (view (run_op (OHeartbeat "ann" 950 5000) s).1 "ann") = Some "waiting".
Proof.
  destruct (eviction_gives_two_chances_and_a_way_back two_passes store0 "ann" 1000 200 100 0 10 5000 store0_wf ltac:(done) two_passes_ok)
    as (_ & J2 & _ & J4).
  split; [vm_compute; reflexivity|]. split.
  - destruct (J2 ltac:(vm_compute; reflexivity)) as (d & H1 & H2 & _). exists d. split; assumption.
  - apply (J4 950 5000); [reflexivity|vm_compute; reflexivity].
Defined.

(** ** Entry tickets *)

(** C11: an entry ticket burns once.  When a redemption succeeds the ticket belonged to the
    caller's token, and no later redemption of it succeeds, whoever asks and whatever
    happens in between, unless the admission script issues the same id again. *)
Theorem ticket_burns_once {S} `{RedisLaws S} `{Slot} s t j now ops t' now' :
  wf s -> run_ok ops (run_op (ORedeem t j now) s).1 ->
  forallb (fun o => negb (issues o j)) ops = true ->
  (run_op (ORedeem t j now) s).2 = [RStr "burned"; RStr t] ->
  str_of s (skey (KEntry j)) = Some t /\
  (run_op (ORedeem t' j now') (run ops (run_op (ORedeem t j now) s).1)).2 = [RStr "missing"; RStr emp].
Proof.
  intros Hwf Hr Hj Hburn. assert (Hwf1 : wf (run_op (ORedeem t j now) s).1) by (by apply wf_run_op).
  assert (Hd : str_of s (skey (KEntry j)) = Some t /\ str_of (run_op (ORedeem t j now) s).1 (skey (KEntry j)) = None).
  { revert Hburn. cbn [run_op]. unfold redeem. rewrite GET_v. destruct (str_of s _) as [o|]; [|done].
    case_decide; [done|]. cbn [fst snd]. intros [= ->]. split; [done|]. observe. done. }
  destruct Hd as [Hs Hd]. split; [done|].
  pose proof (entry_run ops _ j Hwf1 Hr Hj Hd) as He.
  cbn [run_op] in *. unfold redeem at 1. by rewrite GET_v, He.
Qed.

Definition seated_store : gmap string cell := run seating_ops store0.

Lemma seated_wf : wf seated_store.
Proof. apply run_wf; [apply store0_wf|apply seating_ok]. Qed.

Lemma ticket_burns_once_witness :
  (run_op (ORedeem "bob" "j1" 410) (run [OHeartbeat "ann" 405 5000] (run_op (ORedeem "bob" "j1" 400) seated_store).1)).2
  = [RStr "missing"; RStr emp].
Proof.
  refine (proj2 (ticket_burns_once seated_store "bob" "j1" 400 [OHeartbeat "ann" 405 5000] "bob" 410
    seated_wf _ eq_refl _)); [|vm_compute; reflexivity].
  split; [done|exact I].
Defined.

(** ** Re-challenges *)

(** C12: a passed re-challenge frees a greylisted token at most [maxAttempts] times.  Within
    the limit it waits again at its original rank, its score at most the pass score, its
    observation clock and heartbeat baseline reset; beyond the limit it is held, its score
    at least the hold score.  Either way the attempt is counted. *)
Theorem rechallenge_outcomes {S} `{RedisLaws S} `{Slot} s t origin maxa pass hold now ttl :
  wf s -> 0 < ttl -> v_state (view s t) = Some "greylist" ->
  let r := run_op (ORechallenge t origin maxa pass hold now ttl) s in
  let attempts := num_or 0 (uhash s t !! "rc_count") + 1 in
  let score := num_or 0 (uhash s t !! "score") in
  tonumber (uhash r.1 t !! "rc_count") = Some attempts /\
  exists rank, v_rank (view s t) = Some rank /\
  if attempts <=? maxa then
    view r.1 t = TView (Some "waiting") (Some rank) (Some rank) None None /\
    r.2 = [RStr "restored"; RStr "waiting"; RInt rank; RInt attempts; RInt (Z.min score pass)] /\
    observed_ms r.1 t = Some now /\ beats_since r.1 t = 0
  else
    view r.1 t = TView (Some "held") (Some rank) None None (Some rank) /\
    r.2 = [RStr "exhausted"; RStr "held"; RInt rank; RInt attempts; RInt (Z.max score hold)].
Proof.
  intros Hwf Httl Hst. cbv zeta. destruct (view_ok_greylist _ (wf_view s Hwf t) Hst) as (rank & Hv & _).
  apply view_eqs in Hv as (Hs & Hr & Hq & Hg & Hh).
  cbn [run_op]. unfold rechallenge, observed_ms, beats_since. cbn [view v_rank]. unfold uhash.
  rewrite !HGET_v, Hs, decide_False, Hr by naive_solver.
  set (attempts := _ + 1). set (score := num_or 0 (_ !! "score")).
  rewrite Z.leb_antisym. destruct (maxa <? attempts); cbn [fst snd negb].
  - assert ((if score <? hold then hold else score) = Z.max score hold) as -> by (case_match; bool_to_prop; lia).
    split; [observe; done|]. exists rank. split_and!; [done| |done]. apply view_intro; observe0; done.
  - assert ((if pass <? score then pass else score) = Z.min score pass) as -> by (case_match; bool_to_prop; lia).
    split; [observe; done|]. exists rank. split_and!; [done| |done|observe; done|].
    + apply view_intro; observe0; done.
    + unfold num_or. observe. simpl. lia.
Qed.

Definition grey_store : gmap string cell := (run_op (OMove "cat" "g0001" 60 300 5000) demo_store).1.

Lemma grey_wf : wf grey_store.
Proof. apply wf_run_op; [apply demo_wf|reflexivity]. Qed.

Lemma rechallenge_outcomes_witness :
  tonumber (uhash (run_op (ORechallenge "cat" "s0001" 1 30 80 310 5000) grey_store).1 "cat" !! "rc_count") = Some 1.
Proof. exact (proj1 (rechallenge_outcomes grey_store "cat" "s0001" 1 30 80 310 5000 grey_wf eq_refl eq_refl)). Defined.

(** ** A second ticket *)

(** A hold of an already admitted token undoes the seat.  [apply_action.lua]
    holds any token that is not blocked or held, so an admitted one can be held, restored
    to the queue at its old rank, and admitted again under a new id: the same token ends
    up with two live entry tickets, although [admit.lua] promises an admitted user no
    second one. *)
Theorem held_after_admission_gets_second_ticket :
  exists ops1 ops2 : list op,
    run_ok (ops1 ++ ops2) store0 /\
    forallb (fun o => negb (joins o "bob")) ops2 = true /\
    v_state (view (run ops1 store0) "bob") = Some "admitted" /\
    str_of (run ops1 store0) (skey (KEntry "j1")) = Some "bob" /\
    str_of (run (ops1 ++ ops2) store0) (skey (KEntry "j1")) = Some "bob" /\
    str_of (run (ops1 ++ ops2) store0) (skey (KEntry "j9")) = Some "bob".
Proof.
  exists seating_ops, [OAction "bob" 85 "hold" 400 5000; ORestore "bob" "s0001" 410 5000;
                  ORefill 1 10 5000; OAdmit "bob" "j9" 420 600 5000 0 0].
  split.
  - repeat (split; [vm_compute; intuition (congruence || done)|]). exact I.
  - vm_compute. done.
Qed.
