(* ===== verification/Sweeping.v ===== *)
(** * Sweeping: a silent queue is drained

    [Guarantees] shows that a pass of the sweeper takes nobody too early; this file shows
    that the passes take everybody in the end.  Each pass starts at the cursor the pass
    before it returned, which does not follow the removals (a pass that removes tokens makes
    the next one skip as many), so that no fixed number of rounds is enough; the proof counts
    what every pass must spend instead, from whatever cursor.  [Rounds] adds where the passes
    come from. *)

From S2P Require Import Prelude.
From S2P Require Import Redis.
From S2P Require Import Keys.
From S2P Require Import Scripts.
From S2P Require Import Slot.
From S2P Require Import Ladder.
From S2P Require Import Runs.
From S2P Require Import Guarantees.
Local Open Scope string_scope.
Local Open Scope Z_scope.
Local Open Scope list_scope.

(** A sum that loses somewhere and gains nowhere. *)
Lemma sumZ_map_lt {A} (f g : A -> Z) l x :
  (forall y, y ∈ l -> f y <= g y) -> x ∈ l -> f x < g x -> sumZ (f <$> l) < sumZ (g <$> l).
Proof.
  induction l as [|y l IH]; intros Hle Hx Hlt; [by apply elem_of_nil in Hx|]. rewrite !fmap_cons. cbn [sumZ foldr].
  fold (sumZ (f <$> l)) (sumZ (g <$> l)). pose proof (Hle y ltac:(left)).
  assert (Hle' : forall z, z ∈ l -> f z <= g z) by (intros z Hz; apply Hle; by right).
  apply elem_of_cons in Hx as [->|Hx].
  - pose proof (sumZ_map_le f g l 0 ltac:(intros z Hz; specialize (Hle' z Hz); lia)). lia.
  - specialize (IH Hle' Hx Hlt). lia.
Qed.

Lemma sumZ_map_0 {A} (f : A -> Z) l : (forall x, f x = 0) -> sumZ (f <$> l) = 0.
Proof. intros Hf. induction l as [|x l IH]; [done|]. rewrite fmap_cons. cbn [sumZ foldr]. fold (sumZ (f <$> l)). by rewrite Hf, IH. Qed.

Section Sweeping.
Context {S : Type} {R : Redis S} {RL : RedisLaws S} {SL : Slot}.
Context (stale grace lim ettl : Z) (Hlim : 0 < lim) (Hettl : 0 < ettl).

(** Every token's record and place are as they were. *)
Definition same_tokens (s s' : S) : Prop := forall t, view s' t = view s t /\ uhash s' t = uhash s t.

(** Passes at the times [ts], from any cursors, with anything between them that leaves the
    tokens alone. *)
Inductive swept : S -> list Z -> S -> Prop :=
  | swept_nil s : swept s [] s
  | swept_aside s s1 ts s' : same_tokens s s1 -> swept s1 ts s' -> swept s ts s'
  | swept_pass s now off ts s' : swept (run_op (OEvict now stale grace off lim ettl) s).1 ts s' -> swept s (now :: ts) s'.

Lemma swept_app s ts1 s1 ts2 s2 : swept s ts1 s1 -> swept s1 ts2 s2 -> swept s (ts1 ++ ts2) s2.
Proof. induction 1 as [s|s s0 ts s1 Hs _ IH|s now off ts s1 _ IH]; intros H; [done|by eapply swept_aside, IH|by eapply swept_pass, IH]. Qed.

Lemma swept_split s ts1 ts2 s2 : swept s (ts1 ++ ts2) s2 -> exists s1, swept s ts1 s1 /\ swept s1 ts2 s2.
Proof.
  intros H. remember (ts1 ++ ts2) as ts eqn:E. revert ts1 E. induction H as [s|s s0 ts s2 Hs _ IH|s now off ts s2 H IH]; intros ts1 E.
  - symmetry in E. apply app_nil in E as [-> ->]. exists s. split; constructor.
  - destruct (IH ts1 E) as (s1 & H1 & H2). exists s1. split; [by eapply swept_aside|done].
  - destruct ts1 as [|x ts1]; cbn in E.
    + exists s. rewrite <- E. split; [constructor|by eapply swept_pass].
    + injection E as <- E. destruct (IH ts1 E) as (s1 & H1 & H2). exists s1. split; [by eapply swept_pass|done].
Qed.

(** ** Silence *)

(** Of a token in the queue: its record is gone, or it has not been heard from for longer
    than the limit at [h], or it is marked, with a deadline that ends by [d]. *)
Definition silent (h d : Z) (s : S) (t : string) : Prop :=
  is_Some (v_q (view s t)) ->
  match v_state (view s t) with
  | None => True
  | Some st =>
      st = "waiting" /\ (exists seen, tonumber (uhash s t !! "last_seen") = Some seen /\ stale < h - seen) \/
      st = "evicting" /\ (exists at_, tonumber (uhash s t !! "evict_at") = Some at_ /\ at_ <= d)
  end.

(** What the sweeps still owe a token: two visits, one, none. *)
Definition owed (s : S) (t : string) : Z :=
  match v_q (view s t) with
  | None => 0
  | Some _ => if decide (v_state (view s t) = Some "waiting") then 2 else 1
  end.

(** In the queue with a record, or evicted. *)
Definition settling (s : S) (t : string) : Prop :=
  is_Some (v_q (view s t)) /\ is_Some (v_state (view s t)) \/ v_state (view s t) = Some "evicted" /\ v_q (view s t) = None.

Lemma owed_bounds s t : 0 <= owed s t <= 2.
Proof. unfold owed. repeat case_match; lia. Qed.

Lemma owed_pos s t : is_Some (v_q (view s t)) -> 0 < owed s t.
Proof. unfold owed. intros [r ->]. by case_match. Qed.

(** All three depend on the record and the place alone. *)
Lemma same_token s s' t h d : view s' t = view s t -> uhash s' t = uhash s t ->
  (silent h d s t -> silent h d s' t) /\ owed s' t = owed s t /\ (settling s t -> settling s' t).
Proof. unfold silent, owed, settling. intros -> ->. done. Qed.

Lemma silent_later h d d' s t : d <= d' -> silent h d s t -> silent h d' s t.
Proof.
  unfold silent. intros Hd Hs Hq. specialize (Hs Hq). destruct (v_state _) as [st|]; [|done].
  destruct Hs as [?|[? (a & ? & ?)]]; [by left|right]. split; [done|]. exists a. split; [done|lia].
Qed.

(** ** One visit *)

Abbreviation visit now := (evict_one (skey KQueue) user_prefix now stale grace ettl).

(** A visit spends what is owed, unless the token is marked and its deadline not reached:
    then it changes nothing. *)
Lemma visit_spends h d now s n t : h <= now -> silent h d s t -> is_Some (v_q (view s t)) ->
  let s' := (visit now (s, n) t).1 in
  (silent h d s' t /\ owed s' t = owed s t /\ now < d \/
   silent h (now + grace) s' t /\ owed s' t < owed s t) /\ (settling s t -> settling s' t).
Proof.
  intros Hh Hs Hq s'. specialize (Hs Hq). destruct Hq as [r Hr]. destruct (v_state (view s t)) as [st|] eqn:Hst.
  2: { (* a ghost *)
    assert (Hv : v_q (view s' t) = None).
    { subst s'. cbn [view v_state v_q] in *. unfold uhash in *. unfold evict_one. rewrite user_prefix_ok, !HGET_v, Hst.
      cbn [fst view v_q]. observe0. done. }
    split; [right|].
    - split; [intros [? E]; congruence|]. unfold owed. rewrite Hv, Hr. by case_match.
    - unfold settling. rewrite Hst. intros [[_ [? ?]]|[? ?]]; done. }
  destruct Hs as [[-> (seen & Hseen & Hlate)]|[-> (at_ & Hat & Hle)]]; subst s'; unfold settling, owed, silent; cbn [view v_state v_q] in *;
    unfold uhash in *; unfold evict_one; rewrite user_prefix_ok, !HGET_v, Hst.
  - rewrite decide_False, decide_True, Hseen, (proj2 (Z.ltb_lt _ _)) by (done || lia). cbn [fst]. observe0. rewrite Hr.
    split; [right|intros _; left; by split]. split; [intros _; right; split; [done|]; exists (now + grace); split; [done|lia]|done].
  - rewrite decide_True, Hat by done. destruct (at_ <=? now) eqn:E; bool_to_prop; cbn [fst].
    + observe0. rewrite Hr. split; [right|intros _; right; by split]. split; [intros [? ?]; done|done].
    + rewrite Hr, Hst. split; [left|done]. split; [|split; [done|lia]]. intros _. right. split; [done|]. exists at_. by split.
Qed.

(** ** One pass *)

(** A token a pass does not visit keeps its record and its place; one it visits has them
    until then. *)
Lemma pass_tokens now l s n : NoDup l ->
  let s' := (foldl (visit now) (s, n) l).1 in
  (forall t, t ∉ l -> view s' t = view s t /\ uhash s' t = uhash s t) /\
  (forall t, t ∈ l -> exists s0 n0, view s0 t = view s t /\ uhash s0 t = uhash s t /\
     view s' t = view (visit now (s0, n0) t).1 t /\ uhash s' t = uhash (visit now (s0, n0) t).1 t).
Proof.
  revert s n. induction l as [|x l IH]; intros s n Hnd; cbn [foldl]; [by split; [|intros t ?%elem_of_nil]|].
  apply list.NoDup_cons in Hnd as [Hx Hnd]. rewrite (surjective_pairing (visit now (s, n) x)).
  destruct (IH (visit now (s, n) x).1 (visit now (s, n) x).2 Hnd) as [Ho Hi]. cbv zeta in Ho, Hi. split.
  - intros t [Hne Hnl]%not_elem_of_cons. destruct (Ho t Hnl) as [-> ->].
    split; [by apply one_other, not_eq_sym|by apply one_other_hash, not_eq_sym].
  - intros t [->|Hin]%elem_of_cons; [exists s, n; destruct (Ho x Hx) as [-> ->]; done|].
    destruct (Hi t Hin) as (s0 & n0 & Hv & Hh & E). assert (x <> t) by (by intros ->). exists s0, n0. rewrite Hv, Hh.
    split_and!; [by apply one_other|by apply one_other_hash|apply E|apply E].
Qed.

Lemma zsorted_elem z t : t ∈ zsorted z <-> is_Some (z !! t).
Proof.
  unfold zsorted. rewrite (fmap_Permutation fst _ _ (merge_sort_Permutation zle (map_to_list z))), list_elem_of_fmap. split.
  - intros ([m sc] & -> & Hin%elem_of_map_to_list). by exists sc.
  - intros [sc Hsc]. exists (t, sc). split; [done|]. by apply elem_of_map_to_list.
Qed.

(** A pass visits somebody if anybody is there, and only tokens that are. *)
Lemma pass_members now off s : exists l,
  NoDup l /\ (forall t, t ∈ l -> is_Some (v_q (view s t))) /\ (l = [] -> forall t, v_q (view s t) = None) /\
  (run_op (OEvict now stale grace off lim ettl) s).1 = (foldl (visit now) (s, Acc 0 0 0) l).1.
Proof.
  cbn [run_op]. unfold evict. rewrite ZCARD_v. unfold zcard. set (q := zset_of s (skey KQueue)).
  destruct (Z.of_nat (size q) =? 0) eqn:Hz; bool_to_prop.
  { exists []. split_and!; [constructor|by intros t ?%elem_of_nil| |done]. intros _ t. cbn [view v_q]. fold q.
    assert (q = ∅) as -> by (apply map_size_empty_iff; lia). done. }
  cbv zeta. match goal with |- context [ZRANGE _ ?x _ s] => set (lo := x) end.
  assert (Hlo : 0 <= lo < Z.of_nat (size q)) by (subst lo; case_match; bool_to_prop; lia).
  rewrite ZRANGE_law by lia. change (c_zset (cell_of s (skey KQueue))) with q.
  replace (lo + lim - 1 - lo + 1) with lim by lia. set (l := take _ _). exists l. split_and!.
  - apply take_drop_NoDup, zsorted_NoDup.
  - intros t Ht. cbn [view v_q]. fold q. apply zsorted_elem. subst l. apply elem_of_take in Ht as (i & Hi & _).
    rewrite lookup_drop in Hi. by eapply list_elem_of_lookup_2.
  - intros Hnil. exfalso. apply (f_equal length) in Hnil. subst l. rewrite length_take, length_drop in Hnil. cbn [length] in Hnil.
    assert (length (zsorted q) = size q).
    { unfold zsorted. rewrite length_fmap, (merge_sort_Permutation zle (map_to_list q)). apply length_map_to_list. }
    lia.
  - by destruct (foldl _ _ l).
Qed.

(** Everybody the sweeps started with. *)
Context (everyone : list string).

Definition total_owed (s : S) : Z := sumZ (owed s <$> everyone).

Definition all_silent (h d : Z) (s : S) : Prop :=
  (forall t, silent h d s t) /\ (forall t, is_Some (v_q (view s t)) -> t ∈ everyone).

(** A pass spends something, unless some deadline is not reached; then it only looks. *)
Lemma pass_spends h d now off s : h <= now -> all_silent h d s ->
  let s' := (run_op (OEvict now stale grace off lim ettl) s).1 in
  (forall t, settling s t -> settling s' t) /\
  (all_silent h d s' /\ total_owed s' = total_owed s /\ (d <= now -> total_owed s = 0) \/
   all_silent h (Z.max d (now + grace)) s' /\ total_owed s' < total_owed s).
Proof.
  intros Hh [Hs Hin] s'. destruct (pass_members now off s) as (l & Hnd & Hmem & Hnil & E). fold s' in E.
  destruct (pass_tokens now l s (Acc 0 0 0) Hnd) as [Ho Hi]. rewrite <- E in Ho, Hi.
  assert (Ht : forall t, (silent h d s' t /\ owed s' t = owed s t /\ (t ∈ l -> now < d) \/
                silent h (now + grace) s' t /\ owed s' t < owed s t) /\ (settling s t -> settling s' t)).
  { intros t. destruct (decide (t ∈ l)) as [Hl|Hl].
    - destruct (Hi t Hl) as (s0 & n0 & Hv & Hu & Hv' & Hu'). destruct (same_token s s0 t h d Hv Hu) as (A1 & A2 & A3).
      destruct (visit_spends h d now s0 n0 t Hh (A1 (Hs t))) as [V1 V2]; [rewrite Hv; by apply Hmem|]. cbv zeta in V1, V2.
      destruct (same_token _ s' t h d Hv' Hu') as (B1 & B2 & B3). destruct (same_token _ s' t h (now + grace) Hv' Hu') as (C1 & _ & _).
      split; [|tauto]. rewrite B2. rewrite A2 in V1. tauto.
    - destruct (Ho t Hl) as [Hv Hu]. destruct (same_token s s' t h d Hv Hu) as (A1 & A2 & A3). split; [left; split_and!; [by apply A1, Hs|done|done]|done]. }
  assert (Hin' : forall t, is_Some (v_q (view s' t)) -> t ∈ everyone).
  { intros t Hq. apply Hin. destruct (v_q (view s t)) as [r|] eqn:Er; [by eexists|]. exfalso. apply owed_pos in Hq.
    assert (owed s t = 0) by (unfold owed; by rewrite Er). destruct (Ht t) as [[(_ & ? & _)|[_ ?]] _]; lia. }
  split; [apply Ht|]. assert (Hle : forall t, t ∈ everyone -> owed s' t <= owed s t) by (intros t _; destruct (Ht t) as [[(_ & ? & _)|[_ ?]] _]; lia).
  destruct (Z.lt_ge_cases (total_owed s') (total_owed s)) as [Hlt|Hge].
  - right. split; [|done]. split; [|done]. intros t. destruct (Ht t) as [[(? & _)|[? _]] _]; (eapply silent_later; [|eassumption]; lia).
  - left. assert (Heq : forall t, silent h d s' t /\ owed s' t = owed s t /\ (t ∈ l -> now < d)).
    { intros t. destruct (Ht t) as [[?|[Hsil Hlt]] _]; [done|]. destruct (decide (t ∈ everyone)) as [Hev|Hev].
      - pose proof (sumZ_map_lt (owed s') (owed s) everyone t Hle Hev Hlt). unfold total_owed in *. lia.
      - pose proof (owed_bounds s' t). exfalso. apply Hev, Hin. destruct (v_q (view s t)) as [r|] eqn:Er; [by eexists|].
        unfold owed in Hlt at 2. rewrite Er in Hlt. lia. }
    split; [split; [apply Heq|done]|]. split.
    + unfold total_owed. f_equal. apply list_fmap_ext. intros i t _. apply Heq.
    + intros Hd. assert (Hl : l = []). { destruct l as [|t l]; [done|]. destruct (Heq t) as (_ & _ & Hn). specialize (Hn ltac:(left)). lia. }
      apply sumZ_map_0. intros t. unfold owed. by rewrite (Hnil Hl t).
Qed.

(** ** Many passes *)

Lemma total_owed_nonneg s : 0 <= total_owed s.
Proof. apply sumZ_nonneg, Forall_fmap, list.Forall_forall. intros t _. apply owed_bounds. Qed.

Lemma aside_keeps h d s s1 : same_tokens s s1 -> all_silent h d s ->
  all_silent h d s1 /\ total_owed s1 = total_owed s /\ (forall t, settling s t -> settling s1 t).
Proof.
  intros Hs [H1 H2]. pose proof (fun t => same_token s s1 t h d (proj1 (Hs t)) (proj2 (Hs t))) as Ht. split_and!.
  - split; [intros t; by apply Ht, H1|]. intros t. rewrite (proj1 (Hs t)). apply H2.
  - unfold total_owed. f_equal. apply list_fmap_ext. intros i t _. apply Ht.
  - intros t. apply Ht.
Qed.

Lemma passes_keep h dl s ts s' : swept s ts s' -> forall d, Forall (fun now => h <= now /\ now + grace <= dl) ts -> d <= dl -> all_silent h d s ->
  all_silent h dl s' /\ total_owed s' <= total_owed s /\ (forall t, settling s t -> settling s' t).
Proof.
  induction 1 as [s|s s1 ts s' Hs1 _ IH|s now off ts s' _ IH]; intros d Hts Hd Hs.
  - split_and!; [|lia|done]. split; [|apply Hs]. intros t. eapply silent_later, Hs. done.
  - destruct (aside_keeps h d s s1 Hs1 Hs) as (A & <- & C). destruct (IH d Hts Hd A) as (? & ? & ?). auto.
  - apply list.Forall_cons in Hts as [[Hh Hg] Hts]. destruct (pass_spends h d now off s Hh Hs) as [Hset [(Hs1 & Ho & _)|[Hs1 Ho]]].
    + destruct (IH d Hts Hd Hs1) as (A & B & C). split_and!; [done|lia|auto].
    + destruct (IH (Z.max d (now + grace)) Hts ltac:(lia) Hs1) as (A & B & C). split_and!; [done|lia|auto].
Qed.

(** Passes of which one comes after every deadline spend something. *)
Lemma passes_spend h d dl s ts s' u : swept s ts s' -> Forall (fun now => h <= now /\ now + grace <= dl) ts -> d <= dl -> all_silent h d s ->
  u ∈ ts -> d <= u -> total_owed s' < total_owed s \/ total_owed s = 0.
Proof.
  induction 1 as [s|s s1 ts s' Hs1 _ IH|s now off ts s' H IH]; intros Hts Hd Hs Hu Hdu; [by apply elem_of_nil in Hu| |].
  - destruct (aside_keeps h d s s1 Hs1 Hs) as (A & <- & _). by apply IH.
  - apply list.Forall_cons in Hts as [[Hh Hg] Hts]. destruct (pass_spends h d now off s Hh Hs) as [_ [(Hs1 & Ho & Hz)|[Hs1 Ho]]].
    + apply elem_of_cons in Hu as [->|Hu]; [right; auto|]. rewrite <- Ho. by apply IH.
    + left. destruct (passes_keep h dl _ ts s' H (Z.max d (now + grace)) Hts ltac:(lia) Hs1) as (_ & B & _). lia.
Qed.

(** The times of the passes: in order, [m] of them spanning the grace. *)
Definition paced (m : nat) (ts : list Z) : Prop :=
  (forall i j a b, (i <= j)%nat -> ts !! i = Some a -> ts !! j = Some b -> a <= b) /\
  (forall i a b, ts !! i = Some a -> ts !! (i + m)%nat = Some b -> a + grace <= b).

Lemma paced_drop m k ts : paced m ts -> paced m (drop k ts).
Proof.
  intros [H1 H2]. split.
  - intros i j a b Hij. rewrite !lookup_drop. apply H1. lia.
  - intros i a b. rewrite !lookup_drop, Nat.add_assoc. apply H2.
Qed.

Lemma paced_passes_drain m h (k : nat) : (0 < m)%nat -> forall ts d s s',
  swept s ts s' -> all_silent h d s -> total_owed s <= Z.of_nat k -> (k * m <= length ts)%nat -> Forall (Z.le h) ts -> paced m ts ->
  (forall a, ts !! (m - 1)%nat = Some a -> d <= a) ->
  (forall t, v_q (view s' t) = None) /\ (forall t, settling s t -> settling s' t).
Proof.
  intros Hm. induction k as [|k IH]; intros ts d s s' Hsw Hs Ho Hlen Hh Hp Hd.
  - set (dl := Z.max d (foldr Z.max 0 ts + grace)).
    destruct (passes_keep h dl s ts s' Hsw d) as ([_ A] & B & C); [|lia|done|].
    + apply list.Forall_forall. intros now Hn. rewrite list.Forall_forall in Hh. specialize (Hh now Hn). cbn in Hh. split; [done|].
      assert (now <= foldr Z.max 0 ts); [|lia]. clear -Hn. induction Hn as [x l|x y l Hn IHn]; cbn [foldr]; lia.
    + split; [|done]. intros t. destruct (v_q _) as [r|] eqn:E; [|done]. assert (Hq : is_Some (v_q (view s' t))) by (by rewrite E).
      pose proof (sumZ_map_lt (fun _ => 0) (owed s') everyone t ltac:(intros y _; apply owed_bounds) (A t Hq) (owed_pos _ t Hq)) as Hlt.
      rewrite sumZ_map_0 in Hlt by done. fold (total_owed s') in Hlt. lia.
  - destruct (lookup_lt_is_Some_2 ts (m - 1)) as [u Hu]; [lia|].
    rewrite <- (take_drop m ts) in Hsw. destruct (swept_split _ _ _ _ Hsw) as (s1 & Hsw1 & Hsw2).
    set (dl := Z.max d (u + grace)). assert (Hb : Forall (fun now => h <= now /\ now + grace <= dl) (take m ts)).
    { apply list.Forall_forall. intros now (i & Hi & Him)%elem_of_take. split.
      - rewrite list.Forall_forall in Hh. apply Hh. by eapply list_elem_of_lookup_2.
      - assert (now <= u); [|lia]. apply (proj1 Hp i (m - 1)%nat); [lia|done|done]. }
    destruct (passes_keep h dl s _ s1 Hsw1 d Hb ltac:(lia) Hs) as (A & B & C).
    assert (Hut : u ∈ take m ts) by (apply elem_of_take; exists (m - 1)%nat; split; [done|lia]).
    pose proof (passes_spend h d dl s _ s1 u Hsw1 Hb ltac:(lia) Hs Hut (Hd u Hu)) as Hsp.
    pose proof (total_owed_nonneg s1).
    destruct (IH (drop m ts) dl s1 s' Hsw2) as [I1 I2]; [done|lia|rewrite length_drop; lia|by apply Forall_drop|by apply paced_drop| |auto].
    intros a. rewrite lookup_drop. intros Ha. specialize (Hd u Hu).
    pose proof (proj1 Hp (m - 1)%nat (m + (m - 1))%nat u a ltac:(lia) Hu Ha).
    pose proof (proj2 Hp (m - 1)%nat u a Hu). replace (m - 1 + m)%nat with (m + (m - 1))%nat in * by lia. specialize (H1 Ha). lia.
Qed.

End Sweeping.

(** The times of a ticker. *)
Definition ticks (t0 every : Z) (n : nat) : list Z := (fun i => t0 + every * Z.of_nat i) <$> seq 0 n.

Lemma ticks_lookup t0 every n i a : ticks t0 every n !! i = Some a -> a = t0 + every * Z.of_nat i.
Proof. unfold ticks. rewrite list_lookup_fmap. intros (k & [-> _]%lookup_seq & ->)%fmap_Some. done. Qed.

Lemma ticks_paced grace m t0 every n : 0 <= every -> grace <= every * Z.of_nat m -> paced grace m (ticks t0 every n).
Proof.
  intros He Hg. split.
  - intros i j a b Hij ->%ticks_lookup ->%ticks_lookup. nia.
  - intros i a b ->%ticks_lookup ->%ticks_lookup. nia.
Qed.

(** Let nobody in the queue have been heard from for longer than the limit when the passes
    begin, and the marked ones' deadlines end by the [m]-th pass; let [m] passes span the
    grace.  Then twice [m] passes for each token leave the queue empty, from any cursors and
    with any positive limit; and each token that had a record is evicted. *)
Lemma silent_queue_drains {S} `{RedisLaws S} `{Slot} stale grace lim ettl s m ts h d s' :
  0 < lim -> 0 < ettl -> (0 < m)%nat ->
  (forall t, silent stale h d s t) ->
  Forall (Z.le h) ts -> paced grace m ts -> (forall a, ts !! (m - 1)%nat = Some a -> d <= a) ->
  2 * ZCARD (skey KQueue) s * Z.of_nat m <= Z.of_nat (length ts) ->
  swept stale grace lim ettl s ts s' ->
  ZCARD (skey KQueue) s' = 0 /\
  forall t, is_Some (v_q (view s t)) -> v_state (view s t) <> None -> v_state (view s' t) = Some "evicted".
Proof.
  intros Hlim Hettl Hm Hs Hh Hp Hd Hlen Hsw. set (everyone := zsorted (zset_of s (skey KQueue))).
  assert (Hev : forall t, is_Some (v_q (view s t)) <-> t ∈ everyone) by (intros t; symmetry; apply zsorted_elem).
  assert (Hsize : Z.of_nat (length everyone) = ZCARD (skey KQueue) s).
  { rewrite ZCARD_v. unfold zcard, everyone, zsorted. rewrite length_fmap, (merge_sort_Permutation zle (map_to_list _)). f_equal. apply length_map_to_list. }
  assert (Ho : total_owed everyone s <= 2 * Z.of_nat (length everyone)).
  { unfold total_owed. pose proof (sumZ_map_le (owed s) (fun _ => 0) everyone 2) as E. rewrite (sumZ_map_0 (fun _ : string => 0)) in E by done.
    specialize (E ltac:(intros t _; pose proof (owed_bounds s t); lia)). lia. }
  destruct (paced_passes_drain stale grace lim ettl Hlim Hettl everyone m h (2 * length everyone) Hm ts d s s' Hsw) as [Hz Hset];
    [split; [done|intros t; apply Hev]|lia|nia|done..|].
  split.
  - rewrite ZCARD_v. unfold zcard. assert (zset_of s' (skey KQueue) = ∅) as ->; [|done].
    apply map_eq. intros t. rewrite lookup_empty. exact (Hz t).
  - intros t Hq Hst. destruct (Hset t) as [[[? Hq'] _]|[E _]]; [left; split; [done|by apply not_eq_None_Some]| |done].
    rewrite Hz in Hq'. done.
Qed.
