(* ===== verification/Turns.v ===== *)
(** * Turns: whoever waits long enough gets a seat

    [Guarantees] says when the admission script gives a seat; this file shows that the moment
    comes.  A token near enough to the front falls short of the budget by some number of
    seats; refills close the gap seat by seat, while those before it either take seats, which
    brings it forward as fast as the budget falls, or leave, or do nothing, which leaves the
    seats in the budget.  Only those that are put before it could open the gap again. *)

From S2P Require Import Prelude.
From S2P Require Import Redis.
From S2P Require Import Keys.
From S2P Require Import Scripts.
From S2P Require Import Slot.
From S2P Require Import Ladder.
From S2P Require Import Runs.
From S2P Require Import Frame.
Local Open Scope string_scope.
Local Open Scope Z_scope.
Local Open Scope list_scope.

(** ** Ranks, by the names before a member *)

Definition names_before (z : gmap string Z) (m : string) (sc : Z) : list string :=
  (List.filter (fun p => zbefore (p.2, p.1) (sc, m)) (map_to_list z)).*1.

Lemma names_before_elem z m sc x : x ∈ names_before z m sc <-> exists r, z !! x = Some r /\ zbefore (r, x) (sc, m) = true.
Proof.
  unfold names_before. rewrite list_elem_of_fmap. split.
  - intros ([y r] & -> & Hin). apply list_elem_of_In, List.filter_In in Hin as [Hin Hb]. exists r.
    split; [|done]. by apply elem_of_map_to_list, list_elem_of_In.
  - intros (r & Hr & Hb). exists (x, r). split; [done|]. apply list_elem_of_In, List.filter_In.
    split; [|done]. by apply list_elem_of_In, elem_of_map_to_list.
Qed.

Lemma names_before_NoDup z m sc : NoDup (names_before z m sc).
Proof.
  unfold names_before. pose proof (NoDup_fst_map_to_list z) as Hnd. induction (map_to_list z) as [|[x r] l IH]; [constructor|].
  rewrite fmap_cons in Hnd. apply list.NoDup_cons in Hnd as [Hx Hnd]. cbn [List.filter]. destruct (zbefore _ _); [|by apply IH].
  rewrite fmap_cons. apply list.NoDup_cons. split; [|by apply IH]. intros (p & Hp & Hin)%list_elem_of_fmap. apply Hx, list_elem_of_fmap.
  exists p. split; [done|]. apply list_elem_of_In, List.filter_In in Hin as [Hin _]. by apply list_elem_of_In.
Qed.

Lemma zrank_names z m sc : z !! m = Some sc -> zrank z m = Some (Z.of_nat (length (names_before z m sc))).
Proof. unfold zrank, names_before. intros ->. cbn. by rewrite length_fmap. Qed.

(** Fewer before it, a smaller rank; and by one if somebody left. *)
Lemma zrank_mono z z' m sc (gone : list string) k : z !! m = Some sc -> z' !! m = Some sc -> zrank z m = Some k ->
  (forall x, x ∈ names_before z' m sc -> x ∈ names_before z m sc) ->
  NoDup gone -> (forall x, x ∈ gone -> x ∈ names_before z m sc /\ x ∉ names_before z' m sc) ->
  exists k', zrank z' m = Some k' /\ k' + Z.of_nat (length gone) <= k.
Proof.
  intros Hz Hz' Hk Hsub Hnd Hgone. rewrite (zrank_names z m sc Hz) in Hk. injection Hk as <-.
  eexists. split; [by apply zrank_names|]. rewrite <- Nat2Z.inj_add, Nat.add_comm, <- length_app. apply Nat2Z.inj_le, submseteq_length, NoDup_submseteq.
  - apply list.NoDup_app. split_and!; [done| |apply names_before_NoDup]. intros x Hx. by apply Hgone.
  - intros x [Hx|Hx]%elem_of_app; [by apply Hgone|by apply Hsub].
Qed.

Lemma zrank_lt_card z m k : zrank z m = Some k -> k < zcard z.
Proof.
  intros Hk. destruct (zrank_Some z m k Hk) as (sc & Hz & _). unfold zrank in Hk. rewrite Hz in Hk. cbn in Hk. injection Hk as <-.
  unfold zcard. rewrite <- length_map_to_list. apply Nat2Z.inj_lt.
  assert (Hall : forall l : list (string * Z), List.filter (fun _ => true) l = l) by (induction l as [|x l IH]; cbn; [done|by rewrite IH]).
  rewrite <- (Hall (map_to_list z)) at 2. apply filter_length_lt with (m, sc); [done| |apply zbefore_irrefl|done].
  by apply list_elem_of_In, elem_of_map_to_list.
Qed.

(** The order is total. *)
Lemma str_lt_trans a b c : String.compare a b = Lt -> String.compare b c = Lt -> String.compare a c = Lt.
Proof.
  revert b c. induction a as [|x a IH]; intros [|y b] [|z c]; cbn; try done. unfold Ascii.compare.
  destruct (N.compare_spec (N_of_ascii x) (N_of_ascii y)) as [E1|E1|E1], (N.compare_spec (N_of_ascii y) (N_of_ascii z)) as [E2|E2|E2]; try done;
    intros H1 H2; destruct (N.compare_spec (N_of_ascii x) (N_of_ascii z)) as [E3|E3|E3]; try lia; try done. by apply (IH b).
Qed.

Lemma zbefore_trans x y z : zbefore x y = true -> zbefore y z = true -> zbefore x z = true.
Proof.
  unfold zbefore. rewrite !orb_true_iff, !andb_true_iff, !Z.ltb_lt, !Z.eqb_eq. unfold String.ltb.
  intros [?|[? ?]] [?|[? ?]]; try (left; lia). right. split; [lia|].
  destruct (String.compare x.2 y.2) eqn:E1; try done. destruct (String.compare y.2 z.2) eqn:E2; try done. by rewrite (str_lt_trans _ _ _ E1 E2).
Qed.

Lemma zbefore_total x y : x.2 <> y.2 -> zbefore x y = false -> zbefore y x = true.
Proof.
  unfold zbefore. intros Hne. rewrite orb_false_iff, andb_false_iff, orb_true_iff, andb_true_iff, Z.ltb_ge, Z.ltb_lt, !Z.eqb_eq, Z.eqb_neq.
  intros [Hle Hor]. destruct (Z.eq_dec y.1 x.1) as [E|E]; [right|left; lia]. split; [done|]. destruct Hor as [|Hs]; [lia|].
  unfold String.ltb in *. rewrite String.compare_antisym. destruct (String.compare x.2 y.2) eqn:Ec; try done. by apply String.compare_eq_iff in Ec.
Qed.

Lemma zrank_before z a b ra rb ka kb : z !! a = Some ra -> z !! b = Some rb -> zbefore (ra, a) (rb, b) = true ->
  zrank z a = Some ka -> zrank z b = Some kb -> ka < kb.
Proof.
  unfold zrank. intros Ha Hb Hab. rewrite Ha, Hb. cbn. intros [= <-] [= <-]. apply Nat2Z.inj_lt, filter_length_lt with (a, ra).
  - intros [m sc] Hm. by eapply zbefore_trans.
  - apply list_elem_of_In, elem_of_map_to_list. done.
  - apply zbefore_irrefl.
  - done.
Qed.

Section Turns.
Context {S : Type} {R : Redis S} {RL : RedisLaws S} {SL : Slot}.

Abbreviation queue s := (zset_of s (skey KQueue)).

(** What cannot put anybody before a token of place at most [band] plus the sequence number,
    does not make that token join again, and keeps the budget: joining after the lottery
    window, refills of at least zero whose cap is above [k], and everything but returns to the
    queue and the expiry of the budget. *)
Definition calm (t : string) (k band : Z) (o : op) : bool :=
  match o with
  | OEnqueue t' _ now le _ b _ _ _ => negb (bool_decide (t' = t)) && (le <=? now) && (b =? band)
  | ORefill grant cap _ => (0 <=? grant) && (k <? cap)
  | ORestore _ _ _ _ | ORechallenge _ _ _ _ _ _ _ | OExpireBudget => false
  | _ => true
  end.

(** Such an operation moves nobody within the queue, but for a newcomer, whose place is the
    next of the sequence. *)
Lemma evict_one_queue now stale grace ettl s n t : 0 < ettl ->
  let s' := (evict_one (skey KQueue) user_prefix now stale grace ettl (s, n) t).1 in
  v_q (view s' t) = v_q (view s t) \/ v_q (view s' t) = None.
Proof.
  intros Hettl. cbv zeta. unfold evict_one. rewrite ?user_prefix_ok. cbn [view v_q].
  branches; observe; rewrite ?decide_True by done; rewrite ?lookup_delete_eq; auto.
Qed.

Lemma own_place o s t : wf s -> op_ok o s -> op_token o = Some t ->
  match o with OEnqueue _ _ _ _ _ _ _ _ _ | ORestore _ _ _ _ | ORechallenge _ _ _ _ _ _ _ => False | _ => True end ->
  v_q (view (run_op o s).1 t) = v_q (view s t) \/ v_q (view (run_op o s).1 t) = None.
Proof.
  intros Hwf Hok Ht Ho. counter_hyps Hwf. destruct o; simplify_eq/=; try done; cbn [view v_q]; scripts; prep; branches; observe;
    rewrite ?decide_True by done; rewrite ?lookup_delete_eq; auto.
Qed.

Lemma own_place_enqueue t sh now le rnd band fp ip ttl s : wf s -> 0 < ttl -> le <= now ->
  let s' := (run_op (OEnqueue t sh now le rnd band fp ip ttl) s).1 in
  v_q (view s' t) = v_q (view s t) \/ v_q (view s' t) = Some (band + (seq_of s + 1)).
Proof.
  intros Hwf Httl Hle. counter_hyps Hwf. cbv zeta. unfold seq_of. cbn [run_op view v_q]. unfold enqueue. prep.
  rewrite (proj2 (Z.ltb_ge now le) Hle). branches; observe; rewrite ?decide_True by done; rewrite ?lookup_insert_eq; auto.
Qed.

Lemma calm_place o s t k band x : wf s -> op_ok o s -> calm t k band o = true ->
  let s' := (run_op o s).1 in
  v_q (view s' x) = v_q (view s x) \/ v_q (view s' x) = None \/ x <> t /\ v_q (view s' x) = Some (band + (seq_of s + 1)).
Proof.
  intros Hwf Hok Hc. cbv zeta. destruct (op_token o) as [t0|] eqn:Ht.
  - destruct (decide (t0 = x)) as [->|Hne]; [|left; by erewrite view_other]. destruct o; try done; try (destruct (own_place _ s x Hwf Hok Ht I) as [?|?]; [by left|by right; left]).
    injection Ht as ->. cbn [calm] in Hc. bool_to_prop. subst band0. destruct Hok as (Httl & _).
    destruct (own_place_enqueue x shard now lotteryEnd rand band fp ip ttl s Hwf Httl) as [?|?]; [done|by left|by right; right].
  - destruct o; try discriminate Ht; try discriminate Hc.
    + destruct Hok as [He Hl]. destruct (evict_visits now staleAfter grace offset limit evictedTTL s Hl He) as [_ Hv].
      destruct (Hv x) as [[E _]|(s0 & n0 & Hs0 & _ & E & _)]; rewrite E; [by left|]. rewrite <- Hs0.
      destruct (evict_one_queue now staleAfter grace evictedTTL s0 n0 x He) as [?|?]; [by left|by right; left].
    + left. cbn [run_op view v_q fst]. unfold refill_budget. cbn [fst]. observe. done.
    + left. cbn [run_op view v_q fst]. observe. done.
Qed.

(** A refill brings the budget to that rank, or as far as it grants. *)
Lemma refill_least grant cap ttl s k : 0 < ttl -> k < cap -> k < zcard (queue s) ->
  Z.min (k + 1) (budget_of s + grant) <= budget_of (run_op (ORefill grant cap ttl) s).1.
Proof.
  intros Httl Hcap Hcard. cbn [run_op]. unfold refill_budget, budget_of. rewrite ZCARD_v, GET_v. cbn [fst].
  set (w := zcard _) in *. match goal with |- context [itoa ?x] => set (b := x) end.
  assert (num_or 0 (str_of (SET_PX (skey KBudget) (itoa b) ttl s) (skey KBudget)) = b) as -> by (unfold num_or; observe; done).
  subst b. repeat case_match; bool_to_prop; lia.
Qed.

(** One calm operation: the token comes no later, and the gap closes by what is granted. *)
Lemma calm_step o s t k0 band r k : wf s -> op_ok o s -> calm t k0 band o = true ->
  v_q (view s t) = Some r -> r <= band + seq_of s -> v_q (view (run_op o s).1 t) = Some r ->
  zrank (queue s) t = Some k -> k <= k0 ->
  exists k', zrank (queue (run_op o s).1) t = Some k' /\ k' <= k /\
    k' + 1 - budget_of (run_op o s).1 <= Z.max 0 (k + 1 - budget_of s - granted o).
Proof.
  intros Hwf Hok Hc Hr Hrb Hr' Hk Hk0. set (s' := (run_op o s).1) in *. cbn [view v_q] in Hr, Hr'.
  assert (Hsub : forall x, x ∈ names_before (queue s') t r -> x ∈ names_before (queue s) t r).
  { intros x (rx & Hx & Hb)%names_before_elem. apply names_before_elem.
    destruct (calm_place o s t k0 band x Hwf Hok Hc) as [E|[E|[_ E]]]; cbn [view v_q] in E; fold s' in E; rewrite Hx in E; [by exists rx|done|].
    injection E as ->. exfalso. unfold zbefore in Hb. cbn in Hb. bool_to_prop. lia. }
  destruct (zrank_mono (queue s) (queue s') t r [] k Hr Hr' Hk Hsub) as (k' & Hk' & Hle); [constructor|by intros x ?%elem_of_nil|].
  cbn [length] in Hle. exists k'. split; [done|]. split; [lia|]. pose proof (budget_nonneg s Hwf).
  destruct (budget_op o) eqn:Eb.
  2: { rewrite (budget_of_same s s') by (by apply budget_same). assert (granted o = 0) as -> by (by destruct o). lia. }
  destruct o; try discriminate Eb; try discriminate Hc; cbn [granted].
  - destruct Hok. rewrite (budget_of_same s s'); [lia|]. by apply op_ladder_evict.
  - destruct Hok as [He Hu]. pose proof (nat_int_or_absent _ (wf_budget s Hwf)) as Hb.
    destruct (admit_cases t0 jti now entryTTL userTTL dwell beats s Hb) as [((_ & _ & kx & Hkx & Hlt) & k3 & w3 & _ & E)|(_ & x & E & _)];
      assert (Es : s' = (run_op (OAdmit t0 jti now entryTTL userTTL dwell beats) s).1) by done; rewrite E in Es; cbn [fst] in Es; clearbody s'; subst s'; [|lia].
    destruct (seated_effect t0 jti now entryTTL userTTL s Hb He Hu) as (-> & _ & Hgone & _). cbn [view v_q] in Hgone.
    assert (Hne : t0 <> t) by congruence. destruct (zrank_Some _ _ _ Hkx) as (rx & Hrx & _).
    destruct (zbefore (rx, t0) (r, t)) eqn:Ez.
    + destruct (zrank_mono (queue s) (queue (seated t0 jti now entryTTL userTTL s)) t r [t0] k Hr Hr' Hk Hsub) as (k2 & Hk2 & Hle2).
      * apply list.NoDup_singleton.
      * intros x ->%list_elem_of_singleton. split; [apply names_before_elem; by exists rx|]. intros (ry & Hy & _)%names_before_elem. congruence.
      * rewrite Hk' in Hk2. injection Hk2 as <-. cbn [length] in Hle2. lia.
    + apply zbefore_total in Ez; [|done]. pose proof (zrank_before _ t t0 r rx k kx Hr Hrx Ez Hk Hkx). lia.
  - cbn [calm] in Hc. bool_to_prop. pose proof (refill_least grant cap ttl s k Hok ltac:(lia) (zrank_lt_card _ _ _ Hk)) as Hl. fold s' in Hl. lia.
Qed.

(** A calm stretch of the shard's history: calm operations, and whatever leaves the slot as it
    is, in any order; with the seats its refills grant. *)
Inductive calmly (t : string) (k band : Z) : S -> Z -> S -> Prop :=
  | calmly_nil s : calmly t k band s 0 s
  | calmly_same s s1 n s' : same_slot s s1 -> calmly t k band s1 n s' -> calmly t k band s n s'
  | calmly_op s o n s' : op_ok o s -> calm t k band o = true -> calmly t k band (run_op o s).1 n s' ->
      calmly t k band s (granted o + n) s'.

Lemma granted_nonneg o : 0 <= granted o.
Proof. destruct o; cbn; lia. Qed.

Lemma calmly_nonneg t k band s n s' : calmly t k band s n s' -> 0 <= n.
Proof. induction 1 as [|?|s o n s' _ _ _ IH]; [lia|done|]. pose proof (granted_nonneg o). lia. Qed.

Lemma calmly_app t k band s n s1 n1 s' : calmly t k band s n s1 -> calmly t k band s1 n1 s' -> calmly t k band s (n + n1) s'.
Proof.
  induction 1 as [s|s s0 n s2 Hs _ IH|s o n s2 Ho Hc _ IH]; intros H; [done|by eapply calmly_same, IH|].
  rewrite <- Z.add_assoc. apply calmly_op; auto.
Qed.

(** What a calm stretch takes from the queue it does not give back. *)
Lemma calmly_place t k band s n s' : calmly t k band s n s' -> wf s ->
  wf s' /\ (v_q (view s' t) = v_q (view s t) \/ v_q (view s' t) = None).
Proof.
  cbn [view v_q]. induction 1 as [s|s s1 n s' Hs _ IH|s o n s' Ho Hc _ IH]; intros Hwf; [by split; [|left]| |].
  - rewrite <- (same_slot_zset s s1 KQueue Hs). by apply IH, (kept_slot_wf s).
  - destruct (IH (wf_run_op o s Hwf Ho)) as [Hwf' [->| ->]]; (split; [done|]); [|by right].
    destruct (calm_place o s t k band t Hwf Ho Hc) as [?|[?|[? _]]]; [by left|by right|done].
Qed.

Lemma calmly_rank t k0 band s n s' : calmly t k0 band s n s' -> forall r k, wf s ->
  v_q (view s t) = Some r -> r <= band + seq_of s -> v_q (view s' t) = Some r ->
  zrank (queue s) t = Some k -> k <= k0 ->
  exists k', zrank (queue s') t = Some k' /\ k' <= k /\ k' + 1 - budget_of s' <= Z.max 0 (k + 1 - budget_of s - n).
Proof.
  induction 1 as [s|s s1 n s' Hs H IH|s o n s' Ho Hc H IH]; intros r k Hwf Hr Hrb Hr' Hk Hk0.
  - exists k. split; [done|]. split; [lia|]. lia.
  - cbn [view v_q] in Hr. rewrite <- (same_slot_zset s s1 KQueue Hs) in Hr, Hk.
    rewrite <- (same_slot_seq s s1 Hs) in Hrb. rewrite <- (same_slot_budget s s1 Hs). apply (IH r k); try done. by apply (kept_slot_wf s).
  - pose proof (wf_run_op o s Hwf Ho) as Hwf1. set (s1 := (run_op o s).1) in *.
    assert (Hr1 : v_q (view s1 t) = Some r).
    { destruct (calmly_place t k0 band s1 n s' H Hwf1) as [_ [E|E]]; rewrite E in Hr'; [done|done]. }
    destruct (calm_step o s t k0 band r k Hwf Ho Hc Hr Hrb Hr1 Hk Hk0) as (k1 & Hk1 & Hle1 & Hg1). fold s1 in Hk1, Hg1.
    pose proof (seq_step o s Hwf Ho) as Hseq. fold s1 in Hseq.
    destruct (IH r k1 Hwf1 Hr1 ltac:(lia) Hr' Hk1 ltac:(lia)) as (k2 & Hk2 & Hle2 & Hg2). exists k2. split; [done|]. split; [lia|].
    pose proof (granted_nonneg o). pose proof (calmly_nonneg _ _ _ _ _ _ H). lia.
Qed.

(** So the gap to the seat closes with what the refills grant. *)
Lemma calmly_may_enter t k band s n s' r now dwell beats : calmly t k band s n s' -> wf s ->
  v_q (view s t) = Some r -> r <= band + seq_of s -> zrank (queue s) t = Some k -> k + 1 - budget_of s <= n ->
  v_q (view s' t) = Some r -> v_state (view s' t) = Some "waiting" -> observed_enough s' t now dwell beats ->
  may_enter s' t now dwell beats.
Proof.
  intros H Hwf Hr Hrb Hk Hg Hr' Hst Hob.
  destruct (calmly_rank t k band s n s' H r k Hwf Hr Hrb Hr' Hk ltac:(lia)) as (k' & Hk' & _ & Hgap).
  split_and!; [done|done|]. exists k'. split; [done|lia].
Qed.

End Turns.
