(* ===== verification/Replies.v ===== *)
(** * The types of the scripts' replies

    The string types of the Go packages ([queue.Status], [queue.Segment],
    [queue.RechallengeOutcome], [admission.Status], [admission.BurnStatus]) with the constants
    the source declares, the type each script's reply is read at, and the theorem that every
    reply of every run has that type: an integer stands wherever [asInt64] is applied, a
    string wherever [asString] is, and a string converted to one of the types is one of its
    constants. *)

From S2P Require Import Prelude.
From S2P Require Import Redis.
From S2P Require Import Scripts.
From S2P Require Import Slot.
From S2P Require Import Ladder.
From S2P Require Import Runs.
From S2P Require Import Guarantees.
Import MemStore.
Local Open Scope string_scope.
Local Open Scope Z_scope.

(** ** The declared constants *)

Module QueueStatus.
Inductive Status :=
  | StatusCreated | StatusExists | StatusWaiting | StatusGreylist | StatusEvicting
  | StatusEvicted | StatusHeld | StatusBlocked | StatusAdmitted | StatusUnknown.

Definition text (x : Status) : string :=
  match x with
  | StatusCreated => "created" | StatusExists => "exists" | StatusWaiting => "waiting"
  | StatusGreylist => "greylist" | StatusEvicting => "evicting" | StatusEvicted => "evicted"
  | StatusHeld => "held" | StatusBlocked => "blocked" | StatusAdmitted => "admitted"
  | StatusUnknown => "unknown"
  end.
End QueueStatus.

Module Segments.
Inductive Segment := SegmentLottery | SegmentFIFO.

Definition text (x : Segment) : string := match x with SegmentLottery => "lottery" | SegmentFIFO => "fifo" end.
End Segments.

Module Outcomes.
Inductive RechallengeOutcome :=
  | RechallengeRestored | RechallengeExhausted | RechallengeNoop | RechallengeNoRank | RechallengeUnknown.

Definition text (x : RechallengeOutcome) : string :=
  match x with
  | RechallengeRestored => "restored" | RechallengeExhausted => "exhausted" | RechallengeNoop => "noop"
  | RechallengeNoRank => "no_rank" | RechallengeUnknown => "unknown"
  end.
End Outcomes.

Module AdmissionStatus.
Inductive Status :=
  | StatusAdmitted | StatusNotYet | StatusObserving | StatusGreylist | StatusUnknown
  | StatusEvicting | StatusEvicted | StatusHeld | StatusBlocked.

Definition text (x : Status) : string :=
  match x with
  | StatusAdmitted => "admitted" | StatusNotYet => "not_yet" | StatusObserving => "observing"
  | StatusGreylist => "greylist" | StatusUnknown => "unknown" | StatusEvicting => "evicting"
  | StatusEvicted => "evicted" | StatusHeld => "held" | StatusBlocked => "blocked"
  end.

Inductive BurnStatus := BurnOK | BurnMissing | BurnMismatch.

Definition burn_text (x : BurnStatus) : string :=
  match x with BurnOK => "burned" | BurnMissing => "missing" | BurnMismatch => "mismatch" end.
End AdmissionStatus.

(** ** Types of reply fields *)

(** A string of a type is one of the type's texts; [TText] is any string. *)
Inductive field :=
  | TInt
  | TText
  | TStatus (x : list QueueStatus.Status)
  | TSegment               (** empty for a token without a record *)
  | TOutcome (x : list Outcomes.RechallengeOutcome)
  | TAdmission
  | TBurn
  | TDone (x : list string).  (** what [apply_action], [move_shard] and [restore_shard] did *)

Definition texts (f : field) : list string :=
  match f with
  | TStatus x => QueueStatus.text <$> x
  | TSegment => [emp; Segments.text Segments.SegmentLottery; Segments.text Segments.SegmentFIFO]
  | TOutcome x => Outcomes.text <$> x
  | TAdmission => AdmissionStatus.text <$>
      [AdmissionStatus.StatusAdmitted; AdmissionStatus.StatusNotYet; AdmissionStatus.StatusObserving;
       AdmissionStatus.StatusGreylist; AdmissionStatus.StatusUnknown; AdmissionStatus.StatusEvicting;
       AdmissionStatus.StatusEvicted; AdmissionStatus.StatusHeld; AdmissionStatus.StatusBlocked]
  | TBurn => AdmissionStatus.burn_text <$> [AdmissionStatus.BurnOK; AdmissionStatus.BurnMissing; AdmissionStatus.BurnMismatch]
  | TDone x => x
  | TInt | TText => []
  end.

Definition has_type (f : field) (v : rv) : bool :=
  match f, v with
  | TInt, RInt _ | TText, RStr _ => true
  | TInt, RStr _ | _, RInt _ => false
  | _, RStr s => bool_decide (s ∈ texts f)
  end.

(** The states a record can be in, and what a lookup answers besides. *)
Definition stored_states : list QueueStatus.Status :=
  [QueueStatus.StatusWaiting; QueueStatus.StatusGreylist; QueueStatus.StatusEvicting; QueueStatus.StatusEvicted;
   QueueStatus.StatusHeld; QueueStatus.StatusBlocked; QueueStatus.StatusAdmitted].

Definition known_states : list QueueStatus.Status := QueueStatus.StatusUnknown :: stored_states.

Definition joined_states : list QueueStatus.Status :=
  [QueueStatus.StatusCreated; QueueStatus.StatusExists; QueueStatus.StatusGreylist; QueueStatus.StatusHeld;
   QueueStatus.StatusBlocked; QueueStatus.StatusAdmitted].

Definition reply_type (o : op) : list field :=
  match o with
  | OEnqueue _ _ _ _ _ _ _ _ _ => [TStatus joined_states; TInt; TInt; TInt; TSegment]
  | OPosition _ => [TStatus known_states; TInt; TInt; TInt; TInt; TInt; TSegment; TInt; TInt; TInt; TInt; TInt]
  | OHeartbeat _ _ _ => [TStatus known_states; TInt; TInt; TInt; TInt]
  | OEvict _ _ _ _ _ _ => [TInt; TInt; TInt; TInt; TInt; TInt]
  | OAdmit _ _ _ _ _ _ _ => [TAdmission; TInt; TInt; TText; TInt]
  | ORedeem _ _ _ => [TBurn; TText]
  | ORefill _ _ _ => [TInt; TInt]
  | OAction _ _ _ _ _ => [TDone ["unknown"; "noop"; "observe"; "hold"; "block"; "unknown_action"]; TStatus known_states; TInt]
  | OMove _ _ _ _ _ => [TDone ["unknown"; "noop"; "greylist"]; TStatus known_states; TInt]
  | ORestore _ _ _ _ => [TDone ["unknown"; "noop"; "restore"]; TStatus known_states; TInt]
  | ORechallenge _ _ _ _ _ _ _ =>
      [TOutcome [Outcomes.RechallengeRestored; Outcomes.RechallengeExhausted; Outcomes.RechallengeNoop; Outcomes.RechallengeUnknown];
       TStatus known_states; TInt; TInt; TInt]
  | OExpireUser _ | OExpireBudget | OExpireEntry _ => []
  end.

(** ** The segment of a record *)

Section Typing.
Context {S : Type} {R : Redis S} {RL : RedisLaws S} {SL : Slot}.

Definition segment_ok (s : S) (t : string) : Prop :=
  uhash s t !! "segment" = None \/ uhash s t !! "segment" = Some "lottery" \/ uhash s t !! "segment" = Some "fifo".

Lemma evict_segment now stale grace ettl l s n t : 0 < ettl ->
  uhash (foldl (evict_one (skey KQueue) user_prefix now stale grace ettl) (s, n) l).1 t !! "segment" = uhash s t !! "segment".
Proof.
  intros Hettl. revert s n. induction l as [|x l IH]; intros s n; [done|]. cbn [foldl].
  destruct (evict_one _ _ _ _ _ _ (s, n) x) as [s1 n1] eqn:E. rewrite IH. apply (f_equal fst) in E. cbn in E.
  rewrite <- E. unfold evict_one, uhash. rewrite ?user_prefix_ok.
  destruct (decide (x = t)) as [->|]; branches; observe; done.
Qed.

(** Only joining writes it. *)
Lemma segment_kept o s t : wf s -> op_ok o s -> segment_ok s t -> segment_ok (run_op o s).1 t.
Proof.
  intros Hwf Hok Hs. unfold segment_ok in *. destruct (is_evict o) eqn:Hev.
  - destruct o; try discriminate Hev. destruct Hok as [He Hl]. cbn [run_op]. unfold evict. case_match; [done|]. cbv zeta.
    pose proof (evict_segment now staleAfter grace evictedTTL) as E.
    match goal with |- context [foldl ?f (s, ?a) ?l] => specialize (E l s a t He); destruct (foldl f (s, a) l) end.
    cbn [fst] in *. by rewrite E.
  - unfold uhash in *. destruct o; simplify_eq/=; counter_hyps Hwf;
      try (destruct (decide (t0 = t)) as [->|Hne]); counter_branches; auto.
Qed.

Lemma segments_run ops s t : wf s -> run_ok ops s -> segment_ok s t -> segment_ok (run ops s) t.
Proof.
  revert s. induction ops as [|o ops IH]; intros s Hwf; [done|]. intros [Ho Hr] Hs. cbn [run].
  apply IH; [by apply wf_run_op|done|by apply segment_kept].
Qed.

(** ** The replies *)

Lemma stored_state s t st : wf s -> hash_of s (skey (KUser t)) !! "state" = Some st -> st ∈ texts (TStatus stored_states).
Proof.
  intros Hwf Hst. assert (Hv : v_state (view s t) = Some st) by done. revert Hv.
  destruct (wf_view s Hwf t) as [st' r Hs ?|r ?|r h ? Hh|st' r Hs ?|q|g|h]; cbn [v_state]; intros [= <-];
    try (cbn; set_solver); repeat match goal with Hor : _ \/ _ |- _ => destruct Hor end; subst; cbn; set_solver.
Qed.

(** A stored state, where a string of a type is expected that covers the stored states left. *)
Lemma state_typed s t st f : wf s -> HGET (skey (KUser t)) "state" s = Some st ->
  match f with TStatus _ | TAdmission => true | _ => false end = true ->
  (st = "waiting" \/ st = "greylist" \/ st = "evicting" \/ st = "evicted" \/ st = "held" \/ st = "blocked" \/ st = "admitted" ->
   st ∈ texts f) -> has_type f (RStr st) = true.
Proof.
  intros Hwf Hst Hf Hin. rewrite HGET_v in Hst. pose proof (stored_state s t st Hwf Hst) as Hs.
  cbn in Hs. rewrite !elem_of_cons, elem_of_nil in Hs. specialize (Hin ltac:(tauto)).
  destruct f; try done; by apply bool_decide_eq_true_2.
Qed.

(** A record has its rank, so no script misses it. *)
Lemma rank_there s t st : wf s -> HGET (skey (KUser t)) "state" s = Some st -> tonumber (HGET (skey (KUser t)) "orig_rank" s) <> None.
Proof. rewrite !HGET_v. intros Hwf Hst. destruct (place_known s t st Hwf Hst) as (r & -> & _). done. Qed.

Lemma segment_typed s t : segment_ok s t -> has_type TSegment (RStr (default emp (HGET (skey (KUser t)) "segment" s))) = true.
Proof. rewrite HGET_v. unfold segment_ok, uhash. intros [->|[->| ->]]; reflexivity. Qed.

Definition typed (fs : list field) (vs : reply) : Prop := Forall2 (fun f v => has_type f v = true) fs vs.

Ltac field_typed Hwf Hseg :=
  first
    [ reflexivity
    | eapply segment_typed; apply Hseg
    | exfalso; eapply rank_there; [exact Hwf|eassumption|eassumption]
    | eapply state_typed; [exact Hwf|eassumption|reflexivity|]; cbn; rewrite ?elem_of_cons; tauto ].

Lemma reply_typed o s : wf s -> op_ok o s -> (forall t, segment_ok s t) -> typed (reply_type o) (run_op o s).2.
Proof.
  intros Hwf Hok Hseg. destruct o; cbn [run_op reply_type]; scripts; prep; branches; unfold typed;
    repeat (apply list.Forall2_cons; split); try (apply list.Forall2_nil_2); try (field_typed Hwf Hseg).
Qed.

End Typing.

(** C13: replies have the types they are read at.  In every run from an empty slot, every reply
    has the length its caller checks for, an integer or a string in each position as the
    caller converts it, and a string that is converted to [queue.Status], [queue.Segment],
    [queue.RechallengeOutcome], [admission.Status] or [admission.BurnStatus] is one of the
    constants the source declares (of those, only the ones listed in [reply_type]: a lookup
    never answers "created", a record never misses its rank). *)
Theorem replies_are_typed {S} `{RedisLaws S} `{Slot} ops o s :
  empty_slot s -> run_ok (ops ++ [o]) s -> typed (reply_type o) (run_op o (run ops s)).2.
Proof.
  intros He Hr. apply run_ok_app in Hr as (Hops & Ho & _). pose proof (empty_slot_wf s He) as Hwf.
  apply reply_typed; [by apply run_wf|done|]. intros t. apply segments_run; [done..|].
  left. unfold uhash, hash_of. by rewrite He.
Qed.

Lemma replies_are_typed_witness :
  typed [TStatus known_states; TInt; TInt; TInt; TInt] (run_op (OHeartbeat "ann" 120 5000) demo_store).2 /\
  (run_op (OHeartbeat "ann" 120 5000) demo_store).2 = [RStr "waiting"; RInt 110; RInt 1; RInt 1; RInt 0].
Proof.
  split; [|vm_compute; reflexivity].
  apply (replies_are_typed demo_ops (OHeartbeat "ann" 120 5000) store0); [intros k; reflexivity|].
  apply run_ok_app. split; [apply demo_ok|done].
Defined.
