(* ===== verification/Float.v ===== *)
(** * Go's [float64]

    IEEE-754 binary64 with round-to-nearest-even, as the Standard Library's [SpecFloat]
    computes it (precision 53, maximal exponent 1024).  Every operation of the program on
    [float64] is one of the functions below, so concrete runs evaluate exactly as in Go. *)

From Stdlib Require Import Floats.SpecFloat.
From S2P Require Import Prelude.
From S2P Require Import Go.
Local Open Scope Z_scope.

Definition float64 : Type := spec_float.

#[export] Instance float64_eq_dec : EqDecision float64.
Proof. unfold float64. solve_decision. Defined.

Definition f64_prec : Z := 53.
Definition f64_emax : Z := 1024.

(** [float64(n)]. *)
Definition f64_of_Z (n : Z) : float64 := binary_normalize f64_prec f64_emax n 0 false.

(** A decimal constant [n / 10^k]: the compiler rounds the exact value once. *)
Definition f64_add : float64 -> float64 -> float64 := SFadd f64_prec f64_emax.
Definition f64_sub : float64 -> float64 -> float64 := SFsub f64_prec f64_emax.
Definition f64_mul : float64 -> float64 -> float64 := SFmul f64_prec f64_emax.
Definition f64_div : float64 -> float64 -> float64 := SFdiv f64_prec f64_emax.
Definition f64_sqrt : float64 -> float64 := SFsqrt f64_prec f64_emax.
Definition f64_abs : float64 -> float64 := SFabs.
Definition f64_ltb : float64 -> float64 -> bool := SFltb.
Definition f64_leb : float64 -> float64 -> bool := SFleb.
Definition f64_eqb : float64 -> float64 -> bool := SFeqb.

Definition f64_0 : float64 := S754_zero false.
Definition f64_1 : float64 := f64_of_Z 1.

Definition signed (s : bool) (z : Z) : Z := if s then - z else z.

(** The integer part of a finite value. *)
Definition f64_trunc (x : float64) : option Z :=
  match x with
  | S754_zero _ => Some 0
  | S754_finite s m e =>
      Some (signed s (if 0 <=? e then Zpos m * 2 ^ e else Z.quot (Zpos m) (2 ^ (- e))))
  | _ => None
  end.

(** [int64(x)]: truncation; outside the range the conversion is implementation-defined, and
    on amd64 it yields the smallest [int64]. *)
Definition int64_of_f64 (x : float64) : Z :=
  match f64_trunc x with
  | Some z => if in64 z then z else - two63
  | None => - two63
  end.

(** [math.Round]: to the nearest integer, halves away from zero. *)
Definition math_Round (x : float64) : float64 :=
  match x with
  | S754_finite s m e =>
      if 0 <=? e then x
      else binary_normalize f64_prec f64_emax
             (signed s ((Zpos m + 2 ^ (- e - 1)) / 2 ^ (- e))) 0 s
  | _ => x
  end.

(** [Duration.Minutes] and [Duration.Seconds]. *)
Definition Minutes (d : Z) : float64 :=
  f64_add (f64_of_Z (Z.quot d Minute)) (f64_div (f64_of_Z (Z.rem d Minute)) (f64_of_Z Minute)).

Definition Seconds (d : Z) : float64 :=
  f64_add (f64_of_Z (Z.quot d Second)) (f64_div (f64_of_Z (Z.rem d Second)) (f64_of_Z Second)).

Definition f64_NaN : float64 := S754_nan.

(** [math.IsNaN]. *)
Definition f64_isNaN (x : float64) : bool := negb (f64_eqb x x).

(** [math.Max]: infinities and signed zeros as the language specifies them. *)
Definition math_Max (x y : float64) : float64 :=
  if f64_eqb x (S754_infinity false) || f64_eqb y (S754_infinity false) then S754_infinity false
  else if f64_isNaN x || f64_isNaN y then f64_NaN
  else if f64_eqb x f64_0 && f64_eqb x y then
    match x with S754_zero true => y | _ => x end
  else if f64_ltb y x then x else y.

(** [cmp.Less]: the order of [slices.Sort], NaN before every other value. *)
Definition cmp_Less (x y : float64) : bool := (f64_isNaN x && negb (f64_isNaN y)) || f64_ltb x y.

Fixpoint sort_insert (x : float64) (l : list float64) : list float64 :=
  match l with
  | [] => [x]
  | y :: l' => if cmp_Less y x then y :: sort_insert x l' else x :: l
  end.

Definition slices_Sort (l : list float64) : list float64 := foldr sort_insert [] l.

(** ** Lemmas *)

Lemma f64_ltb_irrefl x : f64_ltb x x = false.
Proof.
  unfold f64_ltb, SFltb. destruct x as [[]|[]| |[] m e]; simpl; try done;
    by rewrite Z.compare_refl, ?Pos.compare_refl, ?Pos.compare_cont_refl.
Qed.

Lemma f64_compare_sym x y : SFcompare y x = CompOpp <$> SFcompare x y.
Proof.
  destruct x as [[]|[]| |[] m e], y as [[]|[]| |[] m' e']; try reflexivity;
    unfold SFcompare; rewrite (Z.compare_antisym e e'); destruct (Z.compare e e'); simpl; try reflexivity;
    change (Pos.compare_cont Eq ?a ?b) with (Pos.compare a b);
    rewrite (Pos.compare_antisym m m'); destruct (Pos.compare m m'); reflexivity.
Qed.

Lemma f64_not_NaN x : f64_isNaN x = false <-> x <> S754_nan.
Proof.
  unfold f64_isNaN, f64_eqb, SFeqb, SFcompare.
  destruct x as [[]|[]| |[] m e]; simpl; try done;
    rewrite Z.compare_refl; change (Pos.compare_cont Eq m m) with (Pos.compare m m);
    rewrite Pos.compare_refl; done.
Qed.

Lemma f64_compare_total x y : x <> S754_nan -> y <> S754_nan -> exists c, SFcompare x y = Some c.
Proof. destruct x as [[]|[]| |[] m e], y as [[]|[]| |[] m' e']; simpl; eauto; done. Qed.

(** Away from NaN the comparisons are those of a total order. *)
Lemma f64_ltb_ge x y : x <> S754_nan -> y <> S754_nan -> f64_ltb x y = negb (f64_leb y x).
Proof.
  intros Hx Hy. destruct (f64_compare_total x y Hx Hy) as [c Hc]. unfold f64_ltb, f64_leb, SFltb, SFleb.
  rewrite (f64_compare_sym x y), Hc. by destruct c.
Qed.

(** The order as a lexicographic order on integers: sign class, exponent, mantissa. *)
Definition f64_key (x : float64) : Z * Z * Z :=
  match x with
  | S754_infinity true => (-2, 0, 0)
  | S754_finite true m e => (-1, - e, - Zpos m)
  | S754_zero _ | S754_nan => (0, 0, 0)
  | S754_finite false m e => (1, e, Zpos m)
  | S754_infinity false => (2, 0, 0)
  end.

Definition key_le (a b : Z * Z * Z) : Prop :=
  let '(a1, a2, a3) := a in let '(b1, b2, b3) := b in
  a1 < b1 \/ (a1 = b1 /\ (a2 < b2 \/ (a2 = b2 /\ a3 <= b3))).

Lemma f64_leb_key x y : x <> S754_nan -> y <> S754_nan -> f64_leb x y = true <-> key_le (f64_key x) (f64_key y).
Proof.
  unfold f64_leb, SFleb, key_le.
  destruct x as [[]|[]| |[] m e], y as [[]|[]| |[] m' e']; intros Hx Hy; try done; cbn [f64_key SFcompare];
    try (split; intros; (lia || done)).
  all: change (Pos.compare_cont Eq m m') with (Pos.compare m m').
  all: destruct (Z.compare_spec e e'), (Pos.compare_spec m m'); cbn [CompOpp]; split; intros; (lia || done).
Qed.

Lemma f64_leb_defined x y : f64_leb x y = true -> x <> S754_nan /\ y <> S754_nan.
Proof. by destruct x as [[]|[]| |[] m e], y as [[]|[]| |[] m' e']. Qed.

Lemma f64_leb_trans x y z : f64_leb x y = true -> f64_leb y z = true -> f64_leb x z = true.
Proof.
  intros Hxy Hyz. destruct (f64_leb_defined x y Hxy) as [Hx Hy], (f64_leb_defined y z Hyz) as [_ Hz].
  rewrite f64_leb_key in * by done. unfold key_le in *. destruct (f64_key x) as [[? ?] ?], (f64_key y) as [[? ?] ?],
    (f64_key z) as [[? ?] ?]. lia.
Qed.

Lemma f64_leb_refl x : x <> S754_nan -> f64_leb x x = true.
Proof.
  intros Hx. pose proof (f64_ltb_ge x x Hx Hx) as H. rewrite f64_ltb_irrefl in H.
  by destruct (f64_leb x x).
Qed.

Lemma int64_of_f64_range x : in64 (int64_of_f64 x) = true.
Proof. unfold int64_of_f64. destruct (f64_trunc x) as [z|]; [|done]. by destruct (in64 z) eqn:E. Qed.


#[export] Hint Resolve int64_of_f64_range : sg.
