(* ===== verification/Rounding.v ===== *)
(** * Rounding: when [float64] arithmetic on integers is exact

    [SpecFloat] computes binary64; this file proves what the program's integer-valued uses of
    it need.  Below [2^53] the conversion of an integer is exact, sums and products that stay
    below are exact, and the integer part of a quotient is the integer quotient, although the
    quotient itself is rounded. *)

From Stdlib Require Import Floats.SpecFloat.
From S2P Require Import Prelude.
From S2P Require Import Go.
From S2P Require Import Float.
Local Open Scope Z_scope.

Definition two53 : Z := 2 ^ 53.

(** The number of binary digits. *)
Definition digits (n : Z) : Z := Z.log2 n + 1.

Lemma digits_pos p : Zpos (digits2_pos p) = digits (Zpos p).
Proof.
  unfold digits. induction p as [p IH|p IH|]; cbn [digits2_pos]; [| |done].
  - rewrite Pos2Z.inj_succ, IH, Pos2Z.inj_xI, Z.log2_succ_double by lia. lia.
  - rewrite Pos2Z.inj_succ, IH, Pos2Z.inj_xO, Z.log2_double by lia. lia.
Qed.

Lemma Zdigits2_digits n : 0 < n -> Zdigits2 n = digits n.
Proof. destruct n as [|p|p]; try lia. intros _. apply digits_pos. Qed.

Lemma digits_bounds n : 0 < n -> 1 <= digits n /\ 2 ^ (digits n - 1) <= n < 2 ^ digits n.
Proof.
  intros Hn. unfold digits. pose proof (Z.log2_nonneg n). destruct (Z.log2_spec n Hn). 
  rewrite Z.add_simpl_r, Z.add_1_r. lia.
Qed.

Lemma digits_shift n k : 0 < n -> 0 <= k -> digits (n * 2 ^ k) = digits n + k.
Proof. intros Hn Hk. unfold digits. rewrite Z.log2_mul_pow2 by lia. lia. Qed.

Lemma digits_le n k : 0 < n -> n < 2 ^ k -> digits n <= k.
Proof.
  intros Hn Hk. destruct (digits_bounds n Hn) as (_ & Hlo & _). destruct (Z.le_gt_cases (digits n) k) as [|Hgt]; [done|].
  assert (2 ^ k <= 2 ^ (digits n - 1)) by (apply Z.pow_le_mono_r; lia). lia.
Qed.

(** ** Shifts *)

Lemma iter_pos_nat {A} (f : A -> A) p x : SpecFloat.iter_pos f p x = Nat.iter (Pos.to_nat p) f x.
Proof.
  revert x. induction p as [p IH|p IH|]; intros x; cbn [SpecFloat.iter_pos]; [| |done].
  - rewrite !IH, Pos2Nat.inj_xI, <- Nat.iter_add. replace (S (2 * Pos.to_nat p)) with (Pos.to_nat p + Pos.to_nat p + 1)%nat by lia.
    rewrite (Nat.iter_add _ 1). reflexivity.
  - rewrite !IH, Pos2Nat.inj_xO, <- Nat.iter_add. f_equal. lia.
Qed.

Lemma shr_1_even n : 0 < n -> shr_1 (Build_shr_record (2 * n) false false) = Build_shr_record n false false.
Proof. by destruct n. Qed.

Lemma shr_exact n (k : nat) : 0 < n ->
  Nat.iter k shr_1 (Build_shr_record (n * 2 ^ Z.of_nat k) false false) = Build_shr_record n false false.
Proof.
  intros Hn. induction k as [|k IH]; [by rewrite Z.mul_1_r|]. 
  replace (S k) with (k + 1)%nat by lia. rewrite Nat.iter_add. cbn [Nat.iter nat_rect].
  replace (n * 2 ^ Z.of_nat (k + 1)) with (2 * (n * 2 ^ Z.of_nat k)).
  2: { rewrite Nat2Z.inj_add, Z.pow_add_r by lia. lia. }
  rewrite shr_1_even; [done|]. pose proof (Z.pow_pos_nonneg 2 (Z.of_nat k)). nia.
Qed.

Lemma shr_mul n e k : 0 < n -> 0 <= k ->
  shr (Build_shr_record (n * 2 ^ k) false false) e k = (Build_shr_record n false false, e + k).
Proof.
  intros Hn Hk. destruct k as [|p|p]; [by rewrite Z.mul_1_r, Z.add_0_r| |lia]. cbn [shr].
  rewrite iter_pos_nat, <- (shr_exact n (Pos.to_nat p) Hn) at 1. by rewrite positive_nat_Z.
Qed.

Lemma iter_xO m d : Zpos (Pos.iter xO m d) = Zpos m * 2 ^ Zpos d.
Proof.
  induction d as [|d IH] using Pos.peano_ind; [cbn; lia|].
  rewrite Pos.iter_succ, Pos2Z.inj_xO, IH, Pos2Z.inj_succ, Z.pow_succ_r by lia. lia.
Qed.

Lemma shl_align_down m e e' : e' <= e -> shl_align m e e' = (Z.to_pos (Zpos m * 2 ^ (e - e')), e').
Proof.
  intros He. unfold shl_align. destruct (e' - e) as [|p|p] eqn:E; [| lia|].
  - replace (e - e') with 0 by lia. rewrite Z.mul_1_r. by replace e with e' by lia.
  - replace (e - e') with (Zpos p) by lia. rewrite <- iter_xO. done.
Qed.

Lemma shl_align_up m e e' : e <= e' -> shl_align m e e' = (m, e).
Proof. intros He. unfold shl_align. by destruct (e' - e) eqn:E; [| |lia]. Qed.

(** ** Exact results *)

Abbreviation fexp64 := (fexp f64_prec f64_emax).

Lemma fexp_small x : -1021 <= x -> fexp64 x = x - 53.
Proof. intros Hx. unfold fexp, emin, f64_prec, f64_emax. lia. Qed.

(** The float of a positive integer below [2^53]. *)
Definition exact (n : Z) : float64 := S754_finite false (Z.to_pos (n * 2 ^ (53 - digits n))) (digits n - 53).

Lemma round_exact n k : 0 < n < two53 -> 53 - digits n <= k ->
  binary_round_aux f64_prec f64_emax false (n * 2 ^ k) (- k) loc_Exact = exact n.
Proof.
  intros [Hn Hlt] Hk. destruct (digits_bounds n Hn) as (H1 & _ & _). assert (H53 : digits n <= 53) by (by apply digits_le).
  unfold binary_round_aux, shr_fexp. cbn [shr_record_of_loc].
  pose proof (Z.pow_pos_nonneg 2 k ltac:(lia) ltac:(lia)). rewrite Zdigits2_digits, digits_shift by nia.
  rewrite fexp_small by lia. replace (digits n + k + - k - 53 - - k) with (digits n - 53 + k) by lia.
  set (m := n * 2 ^ (53 - digits n)). assert (Hm : 0 < m) by (pose proof (Z.pow_pos_nonneg 2 (53 - digits n)); unfold m; nia).
  replace (n * 2 ^ k) with (m * 2 ^ (digits n - 53 + k)).
  2: { unfold m. rewrite <- Z.mul_assoc, <- Z.pow_add_r by lia. f_equal. f_equal. lia. }
  rewrite shr_mul by lia. cbn [shr_m loc_of_shr_record round_nearest_even shr_record_of_loc].
  rewrite Zdigits2_digits by done. unfold m at 2. rewrite digits_shift, fexp_small by lia.
  replace (digits n + (53 - digits n) + (- k + (digits n - 53 + k)) - 53 - (- k + (digits n - 53 + k))) with 0 by lia.
  cbn [shr shr_m]. unfold exact. fold m. destruct m as [|p|p] eqn:Em; try lia. cbn [Z.to_pos].
  rewrite (proj2 (Z.leb_le _ _)) by (unfold f64_emax, f64_prec; lia). f_equal. lia.
Qed.

Lemma f64_of_Z_exact n : 0 < n < two53 -> f64_of_Z n = exact n.
Proof.
  intros [Hn Hlt]. destruct (digits_bounds n Hn) as (H1 & _ & _). assert (H53 : digits n <= 53) by (by apply digits_le).
  unfold f64_of_Z, binary_normalize. destruct n as [|p|p]; try lia. unfold binary_round.
  rewrite digits_pos, fexp_small by lia. rewrite shl_align_down by lia.
  replace (digits (Zpos p) + 0 - 53) with (- (53 - digits (Zpos p))) by lia. rewrite Z.sub_opp_r, Z.add_0_l.
  rewrite Z2Pos.id by (pose proof (Z.pow_pos_nonneg 2 (53 - digits (Zpos p))); nia). by apply round_exact.
Qed.

Lemma exact_mantissa n : 0 < n < two53 -> Zpos (Z.to_pos (n * 2 ^ (53 - digits n))) = n * 2 ^ (53 - digits n).
Proof.
  intros [Hn Hlt]. pose proof (digits_le n 53 Hn Hlt). rewrite Z2Pos.id; [done|].
  pose proof (Z.pow_pos_nonneg 2 (53 - digits n)). nia.
Qed.

Lemma f64_mul_exact a b : 0 < a -> 0 < b -> a * b < two53 -> f64_mul (f64_of_Z a) (f64_of_Z b) = f64_of_Z (a * b).
Proof.
  intros Ha Hb Hab. assert (Ha' : 0 < a < two53) by nia. assert (Hb' : 0 < b < two53) by nia.
  pose proof (digits_le a 53 Ha (proj2 Ha')) as Hda. pose proof (digits_le b 53 Hb (proj2 Hb')) as Hdb.
  rewrite !f64_of_Z_exact by nia. unfold f64_mul, exact at 1 2, SFmul. cbn [xorb].
  rewrite Pos2Z.inj_mul, !exact_mantissa by done.
  replace (a * 2 ^ (53 - digits a) * (b * 2 ^ (53 - digits b))) with (a * b * 2 ^ (106 - digits a - digits b)).
  2: { replace (106 - digits a - digits b) with ((53 - digits a) + (53 - digits b)) by lia. rewrite Z.pow_add_r by lia. ring. }
  replace (digits a - 53 + (digits b - 53)) with (- (106 - digits a - digits b)) by lia.
  apply round_exact; [nia|].
  pose proof (Z.log2_mul_below a b ltac:(lia) ltac:(lia)). unfold digits in *. lia.
Qed.

Lemma f64_add_exact a b : 0 < a -> 0 < b -> a + b < two53 -> f64_add (f64_of_Z a) (f64_of_Z b) = f64_of_Z (a + b).
Proof.
  intros Ha Hb Hab. assert (Ha' : 0 < a < two53) by lia. assert (Hb' : 0 < b < two53) by lia.
  pose proof (digits_le a 53 Ha (proj2 Ha')) as Hda. pose proof (digits_le b 53 Hb (proj2 Hb')) as Hdb.
  rewrite !f64_of_Z_exact by lia. unfold f64_add, exact at 1 2, SFadd. cbn [cond_Zopp].
  set (ez := Z.min _ _). assert (Hez : ez = Z.min (digits a) (digits b) - 53) by (subst ez; lia).
  rewrite !shl_align_down by lia. cbn [fst]. rewrite !exact_mantissa by done.
  assert (Hm : forall n, 0 < n < two53 -> ez <= digits n - 53 ->
    Zpos (Z.to_pos (n * 2 ^ (53 - digits n) * 2 ^ (digits n - 53 - ez))) = n * 2 ^ (- ez)).
  { intros n Hn Hle. pose proof (digits_le n 53 (proj1 Hn) (proj2 Hn)).
    rewrite <- Z.mul_assoc, <- Z.pow_add_r by lia. replace (53 - digits n + (digits n - 53 - ez)) with (- ez) by lia.
    rewrite Z2Pos.id; [done|]. pose proof (Z.pow_pos_nonneg 2 (- ez)). nia. }
  rewrite !Hm by lia. rewrite <- Z.mul_add_distr_r.
  pose proof (Z.pow_pos_nonneg 2 (- ez) ltac:(lia) ltac:(lia)) as Hp.
  assert (Hd : Z.min (digits a) (digits b) <= digits (a + b)).
  { unfold digits. pose proof (Z.log2_le_mono a (a + b) ltac:(lia)). lia. }
  destruct (digits_bounds (a + b) ltac:(lia)) as (Hab1 & _ & _).
  unfold binary_normalize. destruct ((a + b) * 2 ^ (- ez)) as [|p|p] eqn:Em; try nia. unfold binary_round.
  rewrite digits_pos, <- Em, digits_shift by lia. rewrite fexp_small by lia. rewrite shl_align_up by lia.
  rewrite <- Em. replace ez with (- - ez) at 2 by lia. apply round_exact; lia.
Qed.

(** ** The integer part of a quotient *)

(** The last step of a rounding, on a mantissa of 53 digits or [2^53] itself. *)
Lemma finish p e : 2 ^ 52 <= p <= 2 ^ 53 -> -1000 <= e <= 0 ->
  exists m e2,
    (let '(mrs, e') := shr_fexp f64_prec f64_emax p e loc_Exact in
     match shr_m mrs with
     | Z0 => S754_zero false
     | Zpos m => if e' <=? f64_emax - f64_prec then S754_finite false m e' else S754_infinity false
     | Zneg _ => S754_nan
     end) = S754_finite false m e2 /\ e <= e2 <= e + 1 /\ Zpos m * 2 ^ (e2 - e) = p.
Proof.
  intros Hp He. unfold shr_fexp. cbn [shr_record_of_loc]. rewrite Zdigits2_digits by lia.
  destruct (decide (p = 2 ^ 53)) as [->|Hne].
  - change (digits (2 ^ 53)) with 54. rewrite fexp_small by lia. replace (54 + e - 53 - e) with 1 by lia.
    change (2 ^ 53) with (2 ^ 52 * 2 ^ 1). rewrite shr_mul by lia. cbn [shr_m]. change (2 ^ 52) with (Zpos 4503599627370496).
    cbn [shr_m]. rewrite (proj2 (Z.leb_le _ _)) by (unfold f64_emax, f64_prec; lia).
    eexists _, _. split; [reflexivity|]. split; [lia|]. by replace (e + 1 - e) with 1 by lia.
  - assert (digits p = 53) as ->.
    { unfold digits. rewrite (Z.log2_unique p 52); [done|lia|]. change (2 ^ Z.succ 52) with (2 ^ 53). lia. }
    rewrite fexp_small by lia. replace (53 + e - 53 - e) with 0 by lia. cbn [shr shr_m].
    destruct p as [|p|p]; try lia. rewrite (proj2 (Z.leb_le _ _)) by (unfold f64_emax, f64_prec; lia).
    exists p, e. split; [done|]. split; [lia|]. rewrite Z.sub_diag. lia.
Qed.

Lemma trunc_finish m e e2 p : e <= 0 -> e <= e2 <= e + 1 -> Zpos m * 2 ^ (e2 - e) = p ->
  f64_trunc (S754_finite false m e2) = Some (p / 2 ^ (- e)).
Proof.
  intros He He2 <-. cbn [f64_trunc signed]. f_equal. destruct (Z.leb_spec 0 e2) as [H|H].
  - apply Z.div_unique_exact; [apply Z.pow_nonzero; lia|].
    replace (e2 - e) with (e2 + - e) by lia. rewrite Z.pow_add_r by lia. ring.
  - rewrite Z.quot_div_nonneg by (lia || apply Z.pow_pos_nonneg; lia).
    replace (2 ^ (- e)) with (2 ^ (- e2) * 2 ^ (e2 - e)) by (rewrite <- Z.pow_add_r by lia; f_equal; lia).
    rewrite Z.div_mul_cancel_r; [done|apply Z.pow_nonzero; lia|apply Z.pow_nonzero; lia].
Qed.

Lemma loc_record m l : loc_of_shr_record (shr_record_of_loc m l) = l /\ shr_m (shr_record_of_loc m l) = m.
Proof. by destruct l as [|[]]. Qed.

Lemma round_cases m l : round_nearest_even m l = m \/ round_nearest_even m l = m + 1.
Proof. destruct l as [|[]]; cbn; auto. destruct (Z.even m); auto. Qed.

(** One step of a shift: half the mantissa; it is rounded up only if a digit was lost. *)
Lemma shr_1_half q l : 0 < q ->
  let r := shr_1 (shr_record_of_loc q l) in
  shr_m r = q / 2 /\ (Z.even q = true -> round_nearest_even (shr_m r) (loc_of_shr_record r) = q / 2).
Proof.
  intros Hq. cbv zeta. destruct q as [|[p|p|]|p]; try lia.
  - replace (Zpos p~1 / 2) with (Zpos p) by (apply Z.div_unique with 1; lia). destruct l as [|[]]; cbn; done.
  - replace (Zpos p~0 / 2) with (Zpos p) by (apply Z.div_unique with 0; lia). destruct l as [|[]]; cbn; done.
  - destruct l as [|[]]; cbn; done.
Qed.

(** The quotient as it is computed: [q] of 53 or 54 digits, rounded to 53. *)
Lemma round_quotient q k l : 2 ^ 52 <= q < 2 ^ 54 -> 1 <= k <= 200 ->
  exists q', f64_trunc (binary_round_aux f64_prec f64_emax false q (- k) l) = Some (q' / 2 ^ k) /\
    (q' = q \/ q' = q + 1).
Proof.
  intros Hq Hk. unfold binary_round_aux. unfold shr_fexp at 1. rewrite Zdigits2_digits by lia.
  destruct (Z.lt_ge_cases q (2 ^ 53)) as [H53|H53].
  - assert (digits q = 53) as ->.
    { unfold digits. rewrite (Z.log2_unique q 52); [done|lia|]. change (2 ^ Z.succ 52) with (2 ^ 53). lia. }
    rewrite fexp_small by lia. replace (53 + - k - 53 - - k) with 0 by lia. cbn [shr].
    destruct (loc_record q l) as [-> ->]. set (q' := round_nearest_even q l).
    assert (Hq' : q' = q \/ q' = q + 1) by apply round_cases.
    destruct (finish q' (- k)) as (m & e2 & Hr & He2 & Hm); [lia|lia|]. rewrite Hr. exists q'.
    rewrite (trunc_finish m (- k) e2 q') by (lia || done). split; [by rewrite Z.opp_involutive|tauto].
  - assert (digits q = 54) as ->.
    { unfold digits. rewrite (Z.log2_unique q 53); [done|lia|]. change (2 ^ Z.succ 53) with (2 ^ 54). lia. }
    rewrite fexp_small by lia. replace (54 + - k - 53 - - k) with 1 by lia. cbn [shr SpecFloat.iter_pos].
    destruct (shr_1_half q l ltac:(lia)) as [Hm Hev]. set (r := shr_1 _) in *.
    set (p := round_nearest_even (shr_m r) (loc_of_shr_record r)) in *.
    assert (Hp : p = q / 2 \/ p = q / 2 + 1) by (rewrite <- Hm; apply round_cases).
    assert (2 ^ 52 <= q / 2) by (apply Z.div_le_lower_bound; lia).
    assert (q / 2 < 2 ^ 53) by (apply Z.div_lt_upper_bound; lia).
    destruct (finish p (- k + 1)) as (m & e2 & Hr & He2 & Hmm); [lia|lia|]. rewrite Hr.
    rewrite (trunc_finish m (- k + 1) e2 p) by (lia || done).
    assert (Hhalf : p / 2 ^ (- (- k + 1)) = (2 * p) / 2 ^ k).
    { replace (2 ^ k) with (2 * 2 ^ (- (- k + 1))) by (rewrite <- Z.pow_succ_r by lia; f_equal; lia).
      rewrite Z.div_mul_cancel_l; [done|apply Z.pow_nonzero; lia|lia]. }
    rewrite Hhalf. destruct (Z.even q) eqn:Ev.
    + rewrite (Hev eq_refl) in *. exists q. split; [|tauto]. do 2 f_equal.
      apply Z.even_spec in Ev as [h ->]. rewrite (Z.mul_comm 2 h), Z.div_mul by lia. lia.
    + assert (Hodd : q = 2 * (q / 2) + 1).
      { pose proof (Z.div_mod q 2 ltac:(lia)). rewrite Zmod_even, Ev in H1. lia. }
      destruct Hp as [->| ->].
      * exists q. split; [|tauto]. f_equal. rewrite Hodd at 2. 
        assert (Hk' : 2 ^ k = 2 * 2 ^ (k - 1)) by (rewrite <- Z.pow_succ_r by lia; f_equal; lia).
        rewrite Hk'. rewrite <- !Z.div_div by (try lia; apply Z.pow_pos_nonneg; lia).
        replace (2 * (q / 2)) with (q / 2 * 2) by lia. rewrite Z.div_mul, Z.div_add_l by lia. f_equal. 
        change (1 / 2) with 0. lia.
      * exists (q + 1). split; [|tauto]. do 2 f_equal. lia.
Qed.

(** Neither the quotient's digits beyond the point nor one unit in their last place reach the
    next integer. *)
Lemma floor_kept a b k : 0 < a -> 0 < b < 2 ^ k -> 0 <= k ->
  (a * 2 ^ k / b) / 2 ^ k = a / b /\ (a * 2 ^ k / b + 1) / 2 ^ k = a / b.
Proof.
  intros Ha Hb Hk. assert (Hp : 0 < 2 ^ k) by (apply Z.pow_pos_nonneg; lia). set (K := 2 ^ k) in *.
  assert (Hq : (a * K / b) / K = a / b).
  { rewrite Z.div_div by lia. rewrite Z.div_mul_cancel_r by lia. done. }
  split; [done|]. set (q := a * K / b) in *. set (n := a / b) in *.
  pose proof (Z.div_mod q K ltac:(lia)) as Hqd. pose proof (Z.mod_pos_bound q K Hp) as Hqm. rewrite Hq in Hqd.
  destruct (decide (q mod K = K - 1)) as [E|Hne].
  2: { symmetry. apply Z.div_unique with (q mod K + 1); lia. }
  exfalso. pose proof (Z.div_mod (a * K) b ltac:(lia)) as Had. pose proof (Z.mod_pos_bound (a * K) b ltac:(lia)) as Ham. fold q in Had.
  pose proof (Z.div_mod a b ltac:(lia)) as Han. pose proof (Z.mod_pos_bound a b ltac:(lia)) as Hann. fold n in Han.
  assert (q = (n + 1) * K - 1) by lia. nia.
Qed.

(** [int64(float64(a) / float64(b))] is [a / b]. *)
Lemma trunc_quotient a b : 0 < a < two53 -> 0 < b < two53 -> f64_trunc (f64_div (f64_of_Z a) (f64_of_Z b)) = Some (a / b).
Proof.
  intros Ha Hb. pose proof (digits_le a 53 (proj1 Ha) (proj2 Ha)) as Hda. pose proof (digits_le b 53 (proj1 Hb) (proj2 Hb)) as Hdb.
  destruct (digits_bounds a (proj1 Ha)) as (Ha1 & Hal & Hau), (digits_bounds b (proj1 Hb)) as (Hb1 & Hbl & Hbu).
  rewrite !f64_of_Z_exact by done. unfold f64_div, exact, SFdiv, SFdiv_core_binary. cbn [xorb].
  rewrite !exact_mantissa by done. pose proof (Z.pow_pos_nonneg 2 (53 - digits a)). pose proof (Z.pow_pos_nonneg 2 (53 - digits b)).
  rewrite !Zdigits2_digits, !digits_shift by nia.
  set (k := 53 + digits b - digits a). rewrite fexp_small by lia.
  replace (Z.min _ _) with (- k) by lia. replace (digits a - 53 - (digits b - 53) - - k) with 53 by lia.
  rewrite Z.shiftl_mul_pow2 by lia. set (c := 2 ^ (53 - digits b)) in *.
  assert (Hm : a * 2 ^ (53 - digits a) * 2 ^ 53 = a * 2 ^ k * c).
  { unfold c, k. rewrite <- !Z.mul_assoc, <- !Z.pow_add_r by lia. f_equal. f_equal. lia. }
  rewrite Hm. pose proof (surjective_pairing (Z.div_eucl (a * 2 ^ k * c) (b * c))) as E.
  rewrite E. clear E. change (Z.div_eucl (a * 2 ^ k * c) (b * c)).1 with (a * 2 ^ k * c / (b * c)).
  assert (Hc : 0 < c) by (apply Z.pow_pos_nonneg; lia). rewrite Z.div_mul_cancel_r by lia.
  assert (Hbk : b < 2 ^ k) by (eapply Z.lt_le_trans; [exact Hbu|]; apply Z.pow_le_mono_r; lia).
  assert (Hlo : 2 ^ 52 <= a * 2 ^ k / b).
  { apply Z.div_le_lower_bound; [lia|]. transitivity (2 ^ digits b * 2 ^ 52); [nia|].
    transitivity (2 ^ (digits a - 1) * 2 ^ k); [|apply Z.mul_le_mono_nonneg_r; [apply Z.pow_nonneg|]; lia].
    unfold k. rewrite <- !Z.pow_add_r by lia. apply Z.pow_le_mono_r; lia. }
  assert (Hhi : a * 2 ^ k / b < 2 ^ 54).
  { apply Z.div_lt_upper_bound; [lia|]. apply Z.lt_le_trans with (2 ^ digits a * 2 ^ k).
    - apply Z.mul_lt_mono_pos_r; [apply Z.pow_pos_nonneg|]; lia.
    - transitivity (2 ^ (digits b - 1) * 2 ^ 54); [|nia]. unfold k. rewrite <- !Z.pow_add_r by lia. apply Z.pow_le_mono_r; lia. }
  destruct (round_quotient (a * 2 ^ k / b) k (new_location (b * c) (Z.div_eucl (a * 2 ^ k * c) (b * c)).2)) as (q' & -> & Hq'); [lia|unfold k; lia|].
  destruct (floor_kept a b k) as [F1 F2]; [lia|lia|unfold k; lia|]. by destruct Hq' as [->| ->]; rewrite ?F1, ?F2.
Qed.

(** ** Order *)

Lemma f64_of_Z_0 : f64_of_Z 0 = f64_0.
Proof. reflexivity. Qed.

Lemma f64_positive n : 0 < n < two53 -> f64_leb (f64_of_Z n) f64_0 = false /\ f64_ltb f64_0 (f64_of_Z n) = true.
Proof. intros Hn. by rewrite f64_of_Z_exact. Qed.

(** A result computed without a sign has none, and is a number. *)
Lemma shr_1_nonneg r : 0 <= shr_m r -> 0 <= shr_m (shr_1 r).
Proof. destruct r as [[|[p|p|]|p] b s]; cbn; lia. Qed.

Lemma shr_nonneg r e n : 0 <= shr_m r -> 0 <= shr_m (shr r e n).1.
Proof.
  intros Hr. destruct n as [|p|p]; cbn [shr fst]; [done| |done]. rewrite iter_pos_nat.
  induction (Pos.to_nat p) as [|k IH]; [done|]. by apply shr_1_nonneg.
Qed.

Lemma round_nonneg m e l : 0 <= m -> f64_leb f64_0 (binary_round_aux f64_prec f64_emax false m e l) = true.
Proof.
  intros Hm. unfold binary_round_aux, shr_fexp.
  assert (H1 : 0 <= shr_m (shr_record_of_loc m l)) by (by destruct (loc_record m l) as [_ ->]).
  pose proof (shr_nonneg _ e (fexp64 (Zdigits2 m + e) - e) H1) as H2. destruct (shr _ e _) as [r1 e1]. cbn [fst] in H2.
  assert (H3 : 0 <= round_nearest_even (shr_m r1) (loc_of_shr_record r1)) by (destruct (round_cases (shr_m r1) (loc_of_shr_record r1)) as [->| ->]; lia).
  revert H3. generalize (round_nearest_even (shr_m r1) (loc_of_shr_record r1)). intros z Hz.
  pose proof (shr_nonneg (shr_record_of_loc z loc_Exact) e1 (fexp64 (Zdigits2 z + e1) - e1) Hz) as H4.
  destruct (shr _ e1 _) as [r2 e2]. cbn [fst] in H4. destruct (shr_m r2) as [|p|p]; [done|by destruct (_ <=? _)|lia].
Qed.

Lemma f64_of_Z_nonneg n : 0 <= n -> f64_leb f64_0 (f64_of_Z n) = true.
Proof.
  intros Hn. destruct n as [|p|p]; [done| |lia]. unfold f64_of_Z, binary_normalize, binary_round.
  destruct (shl_align _ _ _) as [m e]. by apply round_nonneg.
Qed.
