(* ===== verification/Config.v ===== *)
(** * Configuration

    [internal/config/config.go] and [secret.go]: the configuration record of a process, the
    defaults, and [Validate], which every process runs before it starts.  The messages of the
    checks are the format strings of the source. *)

From S2P Require Import Prelude.
From S2P Require Import Go.
From S2P Require Import Float.
Local Open Scope string_scope.
Local Open Scope Z_scope.

Module Cfg.

(** ** Secrets *)

(** [Secret]: the bytes, never shown. *)
Record Secret := MkSecret { b : list Z }.

Definition redactedMark : string := "[REDACTED]".

Definition ErrEmptySecret : string := "secret is empty".

Definition NewSecret (bytes : list Z) : Secret := MkSecret bytes.

(** One hexadecimal digit, as [hex.DecodeString] reads it. *)
Definition hex_digit (c : ascii) : option Z :=
  if byte_between "0" "9" c then Some (byte_of c - 48)
  else if byte_between "a" "f" c then Some (byte_of c - 87)
  else if byte_between "A" "F" c then Some (byte_of c - 55)
  else None.

(** [hex.DecodeString]. *)
Fixpoint hex_DecodeString (s : string) : option (list Z) :=
  match s with
  | EmptyString => Some []
  | String h (String l s') =>
      hi ← hex_digit h; lo ← hex_digit l; rest ← hex_DecodeString s'; Some (16 * hi + lo :: rest)
  | String _ EmptyString => None
  end.

Definition ParseSecretHex (s : string) : result Secret :=
  if bool_decide (s = emp) then Err (ErrNew ErrEmptySecret)
  else match hex_DecodeString s with
       | None => Err (ErrNew "secret is not valid hex")
       | Some bytes => Ok (MkSecret bytes)
       end.

Definition Bytes (s : Secret) : list Z := b s.
Definition Len (s : Secret) : Z := Z.of_nat (length (b s)).
Definition Secret_IsZero (s : Secret) : bool := Len s =? 0.

(** Every way of turning a secret into text: [fmt] verbs, logs, text and JSON encodings. *)
Inductive rendering := RString | RGoString | RLogValue | RMarshalText | RMarshalJSON | RFormat (verb : ascii).

Definition render (r : rendering) (s : Secret) : string :=
  match r with
  | RMarshalJSON => String (ascii_of_nat 34) (redactedMark +:+ String (ascii_of_nat 34) emp)
  | _ => redactedMark
  end.

(** ** Defaults *)

(** A decimal constant [n / 10^k], rounded once. *)
Definition f64_dec (n : Z) (k : Z) : float64 := f64_div (f64_of_Z n) (f64_of_Z (10 ^ k)).

Definition DefaultLogLevel : string := "info".
Definition DefaultShutdownTimeout : Z := 15 * Second.
Definition DefaultMetricsPath : string := "/internal/metrics".
Definition DefaultRedisAddr : string := "127.0.0.1:6379".
Definition DefaultRedisPool : Z := 64.
Definition DefaultKafkaBroker : string := "127.0.0.1:9092".
Definition DefaultKafkaTopic : string := "shardgate.telemetry".
Definition DefaultKafkaGroup : string := "shardgate-scorer".
Definition DefaultShardSize : Z := 1000.
Definition DefaultShardCount : Z := 16.
Definition DefaultMaxShardCount : Z := 4096.
Definition DefaultLotteryWindow : Z := 2 * Minute.
Definition DefaultHeartbeatInterval : Z := 5 * Second.
Definition DefaultMissedHeartbeats : Z := 3.
Definition DefaultEvictGrace : Z := 30 * Second.
Definition DefaultStatusPollHint : Z := 5 * Second.
Definition DefaultSSEKeepalive : Z := 15 * Second.
Definition DefaultSweepBatch : Z := 256.
Definition DefaultEvictedRetain : Z := 10 * Minute.
Definition DefaultAdmitRatePerMin : Z := 3000.
Definition DefaultAdmitInterval : Z := 5 * Second.
Definition DefaultAdmitAfterLottery : bool := false.
Definition DefaultAdmitMinDwell : Z := 0.
Definition DefaultAdmitMinBeats : Z := 0.
Definition DefaultMaxBudgetPerShard : Z := 500.
Definition DefaultBackpressureMin : float64 := f64_dec 1 1.
Definition DefaultBreakerFailures : Z := 5.
Definition DefaultBreakerCooldown : Z := 30 * Second.
Definition DefaultShopHealthTimeout : Z := 2 * Second.
Definition DefaultChallengeTTL : Z := 2 * Minute.
Definition DefaultBaseDifficulty : Z := 16.
Definition DefaultMaxDifficulty : Z := 26.
Definition DefaultChallengeNonces : Z := 16.
Definition DefaultQueueTokenTTL : Z := 2 * Hour.
Definition DefaultEntryTokenTTL : Z := 5 * Minute.
Definition DefaultTokenIssuer : string := "shardgate".
Definition DefaultIPv4PrefixBits : Z := 24.
Definition DefaultIPv6PrefixBits : Z := 48.
Definition DefaultScoreGreylist : Z := 40.
Definition DefaultScoreHold : Z := 70.
Definition DefaultScoreBlock : Z := 90.
Definition DefaultScoreWindow : Z := 60 * Second.
Definition DefaultScoreFlush : Z := 5 * Second.
Definition DefaultScoreMinSamples : Z := 5.
Definition DefaultScoreDecay : float64 := f64_dec 9 1.
Definition DefaultHeartbeatCVFloor : float64 := f64_dec 2 2.
Definition DefaultSignalZSpan : float64 := f64_dec 30 1.
Definition DefaultScoreRobustBaseline : bool := true.
Definition DefaultSyncBin : Z := 250 * Millisecond.
Definition DefaultFPGroupCap : Z := 5.
Definition DefaultIPGroupCap : Z := 8.
Definition DefaultMinSignalsToBlock : Z := 2.
Definition DefaultSignalMinContrib : float64 := f64_dec 2 1.
Definition DefaultSuspicionTTL : Z := 30 * Minute.
Definition DefaultGreylistDifficulty : Z := 4.
Definition DefaultRechallengePassScore : Z := 35.
Definition DefaultRechallengeMaxAttempts : Z := 2.
Definition DefaultWeightHeartbeat : float64 := f64_dec 25 2.
Definition DefaultWeightCorrelation : float64 := f64_dec 20 2.
Definition DefaultWeightFingerprint : float64 := f64_dec 25 2.
Definition DefaultWeightIPPrefix : float64 := f64_dec 15 2.
Definition DefaultWeightPoW : float64 := f64_dec 15 2.

(** ** The configuration record *)

Module Service.
Record t := mk {
  Name : string;
  HTTPAddr : string;
  LogLevel : string;
  MetricsPath : string;
  ShutdownTimeout : Z
}.
End Service.

Module Redis.
Record t := mk {
  Addrs : list string;
  Password : Secret;
  DB : Z;
  Cluster : bool;
  PoolSize : Z
}.
End Redis.

Module Postgres.
Record t := mk {
  DSN : Secret;
  Enabled : bool;
  MaxConns : Z
}.
End Postgres.

Module Kafka.
Record t := mk {
  Brokers : list string;
  Topic : string;
  GroupID : string;
  Enabled : bool
}.
End Kafka.

Module Event.
Record t := mk {
  ID : string;
  Salt : Secret;
  OpenAt : time;
  ShardSize : Z;
  ShardCount : Z;
  MaxShardCount : Z;
  LotteryWindow : Z
}.
End Event.

Module Queue.
Record t := mk {
  HeartbeatInterval : Z;
  MissedHeartbeats : Z;
  EvictGrace : Z;
  StatusPollHint : Z;
  SSEKeepalive : Z;
  SweepBatch : Z;
  EvictedRetain : Z
}.
End Queue.

Module Admission.
Record t := mk {
  RatePerMin : Z;
  Interval : Z;
  AfterLottery : bool;
  MinDwell : Z;
  MinBeats : Z;
  MaxBudgetPerShard : Z;
  BackpressureMin : float64;
  BreakerFailures : Z;
  BreakerCooldown : Z;
  ShopHealthURL : string;
  ShopHealthTimeout : Z
}.
End Admission.

Module Challenge.
Record t := mk {
  TTL : Z;
  BaseDifficulty : Z;
  MaxDifficulty : Z;
  NonceBytes : Z;
  HMACKey : Secret;
  CaptchaEnabled : bool
}.
End Challenge.

Module Token.
Record t := mk {
  SigningKey : Secret;
  Issuer : string;
  QueueTTL : Z;
  EntryTTL : Z;
  IPv4PrefixBits : Z;
  IPv6PrefixBits : Z;
  SecureCookie : bool
}.
End Token.

Module Weights.
Record t := mk {
  Heartbeat : float64;
  Correlation : float64;
  Fingerprint : float64;
  IPPrefix : float64;
  PoW : float64
}.
End Weights.

Module BotScore.
Record t := mk {
  Greylist : Z;
  Hold : Z;
  Block : Z;
  Window : Z;
  FlushEvery : Z;
  MinSamples : Z;
  Decay : float64;
  Weights : Weights.t;
  HeartbeatCVFloor : float64;
  SignalZSpan : float64;
  SyncBin : Z;
  FPGroupCap : Z;
  IPGroupCap : Z;
  RobustBaseline : bool;
  MinSignalsToBlock : Z;
  SignalMinContrib : float64;
  SuspicionTTL : Z;
  GreylistDifficulty : Z;
  RechallengePassScore : Z;
  RechallengeMaxAttempts : Z
}.
End BotScore.


(** [Weights.Sum]. *)
Definition Sum (w : Weights.t) : float64 :=
  f64_add (f64_add (f64_add (f64_add (Weights.Heartbeat w) (Weights.Correlation w))
    (Weights.Fingerprint w)) (Weights.IPPrefix w)) (Weights.PoW w).

Record Config := MkConfig {
  service : Service.t;
  redis : Redis.t;
  postgres : Postgres.t;
  kafka : Kafka.t;
  event : Event.t;
  queue : Queue.t;
  admission : Admission.t;
  challenge : Challenge.t;
  token : Token.t;
  botscore : BotScore.t;
  fromEnv : gmap string string
}.

(** ** The defaults as a configuration *)

Definition no_secret : Secret := NewSecret [].

Definition default_botscore : BotScore.t :=
  BotScore.mk DefaultScoreGreylist DefaultScoreHold DefaultScoreBlock DefaultScoreWindow
    DefaultScoreFlush DefaultScoreMinSamples DefaultScoreDecay
    (Weights.mk DefaultWeightHeartbeat DefaultWeightCorrelation DefaultWeightFingerprint
       DefaultWeightIPPrefix DefaultWeightPoW)
    DefaultHeartbeatCVFloor DefaultSignalZSpan DefaultSyncBin DefaultFPGroupCap DefaultIPGroupCap
    DefaultScoreRobustBaseline DefaultMinSignalsToBlock DefaultSignalMinContrib DefaultSuspicionTTL
    DefaultGreylistDifficulty DefaultRechallengePassScore DefaultRechallengeMaxAttempts.

Definition config_with (name addr : string) (score : BotScore.t) : Config :=
  MkConfig (Service.mk name addr DefaultLogLevel DefaultMetricsPath DefaultShutdownTimeout)
    (Redis.mk [DefaultRedisAddr] no_secret 0 false DefaultRedisPool)
    (Postgres.mk no_secret true 8)
    (Kafka.mk [DefaultKafkaBroker] DefaultKafkaTopic DefaultKafkaGroup true)
    (Event.mk "demo" no_secret zero_time DefaultShardSize DefaultShardCount DefaultMaxShardCount DefaultLotteryWindow)
    (Queue.mk DefaultHeartbeatInterval DefaultMissedHeartbeats DefaultEvictGrace DefaultStatusPollHint
       DefaultSSEKeepalive DefaultSweepBatch DefaultEvictedRetain)
    (Admission.mk DefaultAdmitRatePerMin DefaultAdmitInterval DefaultAdmitAfterLottery DefaultAdmitMinDwell
       DefaultAdmitMinBeats DefaultMaxBudgetPerShard DefaultBackpressureMin DefaultBreakerFailures
       DefaultBreakerCooldown emp DefaultShopHealthTimeout)
    (Challenge.mk DefaultChallengeTTL DefaultBaseDifficulty DefaultMaxDifficulty DefaultChallengeNonces
       no_secret false)
    (Token.mk no_secret DefaultTokenIssuer DefaultQueueTokenTTL DefaultEntryTokenTTL
       DefaultIPv4PrefixBits DefaultIPv6PrefixBits true)
    score ∅.

(** ** Validation *)

Definition scoreMax : Z := 100.
(** [1 - weightEpsilon] and [1 + weightEpsilon]: constant expressions, rounded once. *)
Definition weightLow : float64 := f64_dec 999999 6.
Definition weightHigh : float64 := f64_dec 1000001 6.
Definition maxSupportedDifficulty : Z := 32.
Definition minNonceBytes : Z := 8.

(** [errors.Join]: nothing when there is no error. *)
Fixpoint errors_Join (errs : list error) : result unit :=
  match errs with
  | [] => Ok tt
  | [e] => Err e
  | e :: es => match errors_Join es with Ok _ => Err e | Err e' => Err (ErrBoth e e') end
  end.

Definition check (ok : bool) (format : string) : list error :=
  if ok then [] else [ErrNew format].

Definition checks (c : Config) : list (bool * string) := [
  (negb (bool_decide (Event.ID (event c) = emp)),
    "EVENT_ID must not be empty");
  (0 <? Event.ShardSize (event c),
    "SHARD_SIZE must be > 0");
  (0 <? Event.ShardCount (event c),
    "SHARD_COUNT must be > 0");
  (Event.ShardCount (event c) <=? Event.MaxShardCount (event c),
    "SHARD_COUNT (%d) must be <= MAX_SHARD_COUNT (%d)");
  (0 <=? Event.LotteryWindow (event c),
    "LOTTERY_WINDOW must be >= 0");
  (0 <? Z.of_nat (length (Redis.Addrs (redis c))),
    "REDIS_ADDRS must not be empty");
  (0 <? Redis.PoolSize (redis c),
    "REDIS_POOL_SIZE must be > 0");
  (0 <? Queue.HeartbeatInterval (queue c),
    "HEARTBEAT_INTERVAL must be > 0");
  (0 <? Queue.MissedHeartbeats (queue c),
    "MISSED_HEARTBEATS must be > 0");
  (0 <=? Queue.EvictGrace (queue c),
    "EVICT_GRACE must be >= 0");
  (0 <? Queue.SweepBatch (queue c),
    "SWEEP_BATCH must be > 0");
  (0 <? Queue.EvictedRetain (queue c),
    "EVICTED_RETAIN must be > 0");
  (0 <? Admission.RatePerMin (admission c),
    "ADMIT_RATE_PER_MIN must be > 0");
  (0 <? Admission.Interval (admission c),
    "ADMIT_INTERVAL must be > 0");
  (negb (Admission.AfterLottery (admission c)) || negb (IsZero (Event.OpenAt (event c))),
    "ADMIT_AFTER_LOTTERY requires EVENT_OPEN_AT (없으면 추첨 구간이 없어 게이트가 무효다)");
  (0 <=? Admission.MinDwell (admission c),
    "ADMIT_MIN_DWELL must be >= 0");
  (0 <=? Admission.MinBeats (admission c),
    "ADMIT_MIN_BEATS must be >= 0");
  (Admission.MinDwell (admission c) <? Token.QueueTTL (token c),
    "ADMIT_MIN_DWELL (%v) must be < QUEUE_TOKEN_TTL (%v) — 아니면 게이트가 열리기 전에 토큰이 만료된다");
  (0 <? Admission.MaxBudgetPerShard (admission c),
    "MAX_BUDGET_PER_SHARD must be > 0");
  ((f64_ltb f64_0 (Admission.BackpressureMin (admission c))) && (f64_leb (Admission.BackpressureMin (admission c)) f64_1),
    "BACKPRESSURE_MIN must be within (0,1]");
  (0 <? Challenge.BaseDifficulty (challenge c),
    "POW_BASE_DIFFICULTY must be > 0");
  (Challenge.BaseDifficulty (challenge c) <=? Challenge.MaxDifficulty (challenge c),
    "POW_MAX_DIFFICULTY (%d) must be >= POW_BASE_DIFFICULTY (%d)");
  (Challenge.MaxDifficulty (challenge c) <=? maxSupportedDifficulty,
    "POW_MAX_DIFFICULTY must be <= %d");
  (minNonceBytes <=? Challenge.NonceBytes (challenge c),
    "POW_NONCE_BYTES must be >= %d");
  (0 <? Challenge.TTL (challenge c),
    "CHALLENGE_TTL must be > 0");
  (0 <? Token.QueueTTL (token c),
    "QUEUE_TOKEN_TTL must be > 0");
  (0 <? Token.EntryTTL (token c),
    "ENTRY_TOKEN_TTL must be > 0");
  ((0 <? Token.IPv4PrefixBits (token c)) && (Token.IPv4PrefixBits (token c) <=? 32),
    "IPV4_PREFIX_BITS must be within (0,32]");
  ((0 <? Token.IPv6PrefixBits (token c)) && (Token.IPv6PrefixBits (token c) <=? 128),
    "IPV6_PREFIX_BITS must be within (0,128]");
  ((0 <? BotScore.Greylist (botscore c)) && (BotScore.Greylist (botscore c) <? BotScore.Hold (botscore c)) && (BotScore.Hold (botscore c) <? BotScore.Block (botscore c)) && (BotScore.Block (botscore c) <=? scoreMax),
    "score thresholds must satisfy 0 < greylist(%d) < hold(%d) < block(%d) <= %d");
  (0 <? BotScore.Window (botscore c),
    "SCORE_WINDOW must be > 0");
  (0 <? BotScore.MinSamples (botscore c),
    "SCORE_MIN_SAMPLES must be > 0");
  (f64_ltb f64_0 (BotScore.SignalZSpan (botscore c)),
    "SIGNAL_Z_SPAN must be > 0");
  (0 <? BotScore.SyncBin (botscore c),
    "SYNC_BIN must be > 0");
  (1 <? BotScore.FPGroupCap (botscore c),
    "FP_GROUP_CAP must be > 1");
  (1 <? BotScore.IPGroupCap (botscore c),
    "IP_GROUP_CAP must be > 1");
  (0 <? BotScore.SuspicionTTL (botscore c),
    "SUSPICION_TTL must be > 0");
  (0 <=? BotScore.GreylistDifficulty (botscore c),
    "GREYLIST_DIFFICULTY_BUMP must be >= 0");
  ((0 <=? BotScore.RechallengePassScore (botscore c)) && (BotScore.RechallengePassScore (botscore c) <? BotScore.Greylist (botscore c)),
    "RECHALLENGE_PASS_SCORE (%d) must be within [0, SCORE_GREYLIST(%d)) — 아니면 통과해도 즉시 재격리된다");
  (1 <=? BotScore.RechallengeMaxAttempts (botscore c),
    "RECHALLENGE_MAX_ATTEMPTS must be >= 1 (0 이면 greylist 가 출구 없는 종점이 된다)");
  (2 <=? BotScore.MinSignalsToBlock (botscore c),
    "SCORE_MIN_SIGNALS_TO_BLOCK must be >= 2 (불변식 3: 단일 신호로 차단 금지)");
  ((f64_ltb f64_0 (BotScore.SignalMinContrib (botscore c))) && (f64_leb (BotScore.SignalMinContrib (botscore c)) f64_1),
    "SIGNAL_MIN_CONTRIB must be within (0,1]");
  ((f64_ltb f64_0 (BotScore.Decay (botscore c))) && (f64_leb (BotScore.Decay (botscore c)) f64_1),
    "SCORE_DECAY must be within (0,1]");
  (negb (f64_ltb (Sum (BotScore.Weights (botscore c))) weightLow
         || f64_ltb weightHigh (Sum (BotScore.Weights (botscore c)))),
    "botscore weights must sum to 1.0, got %.3f")
].

Definition Validate (c : Config) : result unit := errors_Join (concat ((fun p => check p.1 p.2) <$> checks c)).

(** One name of [RequireSecrets]. *)
Definition requirement (c : Config) (n : string) : list error :=
  if decide (n = "event_salt") then
    check (negb (Secret_IsZero (Event.Salt (event c)))) "SG_EVENT_SALT is required"
  else if decide (n = "token_signing_key") then
    check (negb (Secret_IsZero (Token.SigningKey (token c)))) "SG_TOKEN_SIGNING_KEY is required"
  else if decide (n = "challenge_hmac_key") then
    check (negb (Secret_IsZero (Challenge.HMACKey (challenge c)))) "SG_CHALLENGE_HMAC_KEY is required"
  else if decide (n = "postgres_dsn") then
    check (negb (Postgres.Enabled (postgres c) && Secret_IsZero (Postgres.DSN (postgres c)))) "SG_POSTGRES_DSN is required"
  else [ErrNew "unknown secret requirement %q"].

Definition RequireSecrets (c : Config) (names : list string) : result unit :=
  errors_Join (concat (requirement c <$> names)).

(** ** What the process reports of its environment *)

Definition secretKeyParts : list string := ["SALT"; "KEY"; "PASSWORD"; "SECRET"; "DSN"; "TOKEN"].

Definition redacted (k : string) : bool := existsb (str_contains k) secretKeyParts.

Definition EffectiveEnv (c : Config) : gmap string string :=
  map_imap (fun k v => Some (if redacted k then "<redacted>" else v)) (fromEnv c).

(** ** Lemmas *)

Lemma Join_ok errs : errors_Join errs = Ok tt <-> errs = [].
Proof.
  split; [|by intros ->]. destruct errs as [|e [|e' es]]; [done|done|].
  cbn [errors_Join]. by destruct (match es with [] => _ | _ => _ end).
Qed.

Lemma check_nil ok f : check ok f = [] <-> ok = true.
Proof. by destruct ok. Qed.

Lemma Validate_ok c : Validate c = Ok tt <-> forallb fst (checks c) = true.
Proof.
  unfold Validate. rewrite Join_ok. induction (checks c) as [|[ok f] ls IH]; [done|].
  cbn [fmap list_fmap concat forallb fst snd]. rewrite andb_true_iff, <- IH, <- (check_nil ok f).
  split; [by intros ?%app_nil|by intros [-> ->]].
Qed.

(** What the other components rely on. *)
Lemma Validate_score c : Validate c = Ok tt ->
  let b := botscore c in
  0 < BotScore.Greylist b /\ BotScore.Greylist b < BotScore.Hold b /\ BotScore.Hold b < BotScore.Block b /\
  BotScore.Block b <= scoreMax /\ 2 <= BotScore.MinSignalsToBlock b /\ 0 < BotScore.MinSamples b /\
  f64_ltb f64_0 (BotScore.SignalMinContrib b) = true /\
  0 <= BotScore.RechallengePassScore b /\ BotScore.RechallengePassScore b < BotScore.Greylist b /\
  0 <= BotScore.GreylistDifficulty b.
Proof.
  intros Hv%Validate_ok. unfold checks in Hv. cbn [forallb fst] in Hv. bool_to_prop. cbv zeta. split_and!; assumption.
Qed.

Lemma Validate_challenge c : Validate c = Ok tt ->
  let h := challenge c in
  0 < Challenge.BaseDifficulty h /\ Challenge.BaseDifficulty h <= Challenge.MaxDifficulty h /\
  Challenge.MaxDifficulty h <= maxSupportedDifficulty /\ minNonceBytes <= Challenge.NonceBytes h /\ 0 < Challenge.TTL h.
Proof.
  intros Hv%Validate_ok. unfold checks in Hv. cbn [forallb fst] in Hv. bool_to_prop. cbv zeta. split_and!; assumption.
Qed.

End Cfg.
