(* ===== verification/Load.v ===== *)
(** * Reading the configuration from the environment

    [internal/config/config.go], from [LoadFrom] on: the loader, its accessors, and the
    configuration they fill field by field, in the order of the source.  The lookup of a
    variable is an argument, as in the source.  [strconv.ParseFloat] and
    [time.Parse(time.RFC3339, _)] are parameters ([Texts]); no property depends on them.

    The specification is the table [fields]: which variable is read, as what, for which field.
    [describes] says by it which configuration an environment describes, and
    [loads_described] and [LoadFrom_eq] derive from the code that loading yields that one. *)

From S2P Require Import Prelude.
From S2P Require Import Go.
From S2P Require Import Float.
From S2P Require Import Config.
Local Open Scope string_scope.
Local Open Scope Z_scope.
Local Open Scope list_scope.

Class Texts := {
  ParseFloat : string -> option float64;
  ParseRFC3339 : string -> option time
}.

(** ** [time.ParseDuration] *)

Module Dur.

Definition is_digit (c : ascii) : bool := byte_between "0" "9" c.
Definition digit (c : ascii) : Z := byte_of c - 48.

(** [leadingInt]: the value and the text left; nothing on overflow. *)
Fixpoint leadingInt (x : Z) (s : string) : option (Z * string) :=
  match s with
  | String c s' =>
      if is_digit c then
        if two63 / 10 <? x then None
        else let y := x * 10 + digit c in if two63 <? y then None else leadingInt y s'
      else Some (x, s)
  | EmptyString => Some (x, s)
  end.

(** [leadingFraction]: the digits taken, the power of ten, the text left. *)
Fixpoint leadingFraction (x : Z) (scale : float64) (overflow : bool) (s : string) : Z * float64 * string :=
  match s with
  | String c s' =>
      if is_digit c then
        if overflow then leadingFraction x scale overflow s'
        else if (two63 - 1) / 10 <? x then leadingFraction x scale true s'
        else
          let y := x * 10 + digit c in
          if two63 <? y then leadingFraction x scale true s'
          else leadingFraction y (f64_mul scale (f64_of_Z 10)) false s'
      else (x, scale, s)
  | EmptyString => (x, scale, s)
  end.

(** The unit: everything before the next digit or period. *)
Fixpoint unit_text (s : string) : string * string :=
  match s with
  | String c s' =>
      if bool_decide (c = "."%char) || is_digit c then (emp, s)
      else let '(u, r) := unit_text s' in (String c u, r)
  | EmptyString => (emp, emp)
  end.

Definition micro1 : string := String (ascii_of_nat 194) (String (ascii_of_nat 181) "s").
Definition micro2 : string := String (ascii_of_nat 206) (String (ascii_of_nat 188) "s").

Definition unitMap (u : string) : option Z :=
  if decide (u = "ns") then Some 1
  else if decide (u ∈ ["us"; micro1; micro2]) then Some 1000
  else if decide (u = "ms") then Some Millisecond
  else if decide (u = "s") then Some Second
  else if decide (u = "m") then Some Minute
  else if decide (u = "h") then Some Hour
  else None.

(** An optional fraction: a period and digits. *)
Definition fraction (s : string) : Z * float64 * bool * string :=
  match s with
  | String "." s' =>
      let '(f, scale, r) := leadingFraction 0 f64_1 false s' in (f, scale, negb (bool_decide (r = s')), r)
  | _ => (0, f64_1, false, s)
  end.

(** The magnitude of one "number unit" pair. *)
Definition scaled (v f : Z) (scale : float64) (u : Z) : option Z :=
  if two63 / u <? v then None
  else
    let v := v * u in
    if 0 <? f then
      let v := v + int64_of_f64 (f64_mul (f64_of_Z f) (f64_div (f64_of_Z u) scale)) in
      if two63 <? v then None else Some v
    else Some v.

(** The loop; each round consumes at least one character, so the length bounds the rounds. *)
Fixpoint pairs (fuel : nat) (d : Z) (s : string) : option Z :=
  match fuel, s with
  | _, EmptyString => Some d
  | O, _ => None
  | S fuel, String c _ =>
      if negb (bool_decide (c = "."%char) || is_digit c) then None
      else
        '(v, r) ← leadingInt 0 s;
        let pre := negb (bool_decide (r = s)) in
        let '(f, scale, post, r) := fraction r in
        if negb pre && negb post then None
        else
          let '(u, r) := unit_text r in
          u ← unitMap u;
          v ← scaled v f scale u;
          if two63 <? d + v then None else pairs fuel (d + v) r
  end.

Definition magnitude (s : string) : option Z :=
  if decide (s = "0") then Some 0
  else if decide (s = emp) then None
  else pairs (String.length s) 0 s.

Definition ParseDuration (s : string) : option Z :=
  match s with
  | String "-" s' => Z.opp <$> magnitude s'
  | String "+" s' => d ← magnitude s'; if two63 - 1 <? d then None else Some d
  | _ => d ← magnitude s; if two63 - 1 <? d then None else Some d
  end.

Example ParseDuration_spec :
  ParseDuration <$> ["5s"; "1h30m"; "-1.5h"; "250ms"; "2"; "0"; ".s"; "9223372036854775807ns"; "9223372036854775808ns"; "1.0001us"; "3 s"]
  = [Some (5 * Second); Some (90 * Minute); Some (- 90 * Minute); Some (250 * Millisecond); None; Some 0; None;
     Some (two63 - 1); None; Some 1000; None].
Proof. vm_compute. reflexivity. Qed.

(** The fuel is enough: more of it changes nothing. *)
Lemma leadingInt_shorter x s v r : leadingInt x s = Some (v, r) -> (String.length r <= String.length s)%nat.
Proof.
  revert x. induction s as [|c s IH]; intros x; cbn; [by intros [= <- <-]|].
  destruct (is_digit c); [|by intros [= <- <-]]. destruct (_ <? x); [done|]. destruct (_ <? _); [done|]. intros ->%IH. lia.
Qed.

Lemma leadingFraction_shorter x sc o s f sc' r : leadingFraction x sc o s = (f, sc', r) -> (String.length r <= String.length s)%nat.
Proof.
  revert x sc o. induction s as [|c s IH]; intros x sc o; cbn; [by intros [= <- <- <-]|].
  destruct (is_digit c); [|by intros [= <- <- <-]].
  destruct o; [intros ->%IH; lia|]. destruct (_ <? x); [intros ->%IH; lia|]. destruct (_ <? _); intros ->%IH; lia.
Qed.

Lemma fraction_shorter s f sc post r : fraction s = (f, sc, post, r) -> (String.length r <= String.length s)%nat.
Proof.
  unfold fraction. destruct s as [|c s]; [by intros [= <- <- <- <-]|].
  destruct (decide (c = "."%char)) as [->|Hc].
  - destruct (leadingFraction _ _ _ s) as [[f1 sc1] r1] eqn:E. apply leadingFraction_shorter in E. intros [= <- <- <- <-]. cbn. lia.
  - intros E. assert (r = String c s) as ->; [|done]. destruct c as [[] [] [] [] [] [] [] []]; by simplify_eq.
Qed.

Lemma unit_shorter s u r : unit_text s = (u, r) -> u <> emp -> (String.length r < String.length s)%nat.
Proof.
  assert (Hle : forall s u r, unit_text s = (u, r) -> (String.length r <= String.length s)%nat).
  { clear. induction s as [|c s IH]; intros u r; cbn; [by intros [= <- <-]|].
    destruct (_ || _); [by intros [= <- <-]|]. destruct (unit_text s) as [u1 r1]. intros [= <- <-]. specialize (IH _ _ eq_refl). lia. }
  destruct s as [|c s]; cbn; [by intros [= <- <-]|]. destruct (_ || _); [by intros [= <- <-]|].
  destruct (unit_text s) as [u1 r1] eqn:E. intros [= <- <-] _. specialize (Hle _ _ _ E). lia.
Qed.

Lemma pairs_fuel n m d s : (String.length s <= n)%nat -> (String.length s <= m)%nat -> pairs n d s = pairs m d s.
Proof.
  revert m d s. induction n as [|n IH]; intros m d s Hn Hm; destruct s as [|c s]; [by destruct m|cbn in Hn; lia|by destruct m|].
  destruct m as [|m]; [cbn in Hm; lia|]. cbn [pairs]. destruct (negb _); [done|].
  destruct (leadingInt 0 (String c s)) as [[v r1]|] eqn:E1; cbn [mbind option_bind]; [|done]. apply leadingInt_shorter in E1.
  destruct (fraction r1) as [[[f sc] post] r2] eqn:E2. apply fraction_shorter in E2. destruct (_ && _); [done|].
  destruct (unit_text r2) as [u r3] eqn:E3. destruct (unitMap u) as [k|] eqn:Ek; cbn [mbind option_bind]; [|done].
  apply unit_shorter in E3; [|by intros ->]. destruct (scaled v f sc k) as [x|]; cbn [mbind option_bind]; [|done].
  destruct (_ <? _); [done|]. apply IH; cbn in *; lia.
Qed.

End Dur.

Module Load.
Import Cfg.

(** ** The loader *)

Section Loading.

Context `{Texts} (lookup : string -> option string).

Record loader := MkLoader { errs : list error; fromEnv : gmap string string }.

(** A computation of the loader. *)
Definition Ld (A : Type) : Type := loader -> A * loader.

#[export] Instance Ld_ret : MRet Ld := fun A a l => (a, l).
#[export] Instance Ld_bind : MBind Ld := fun A B f m l => let '(a, l) := m l in f a l.

Definition envPrefix : string := "SG_".

Definition raw (key : string) : Ld (option string) := fun l =>
  match lookup (envPrefix +:+ key) with
  | None => (None, l)
  | Some v =>
      let v := TrimSpace v in
      if decide (v = emp) then (None, l)
      else (Some v, MkLoader (errs l) (<[envPrefix +:+ key := v]> (fromEnv l)))
  end.

Definition fail (key : string) (err : error) : Ld unit := fun l =>
  (tt, MkLoader (errs l ++ [ErrWrap (envPrefix +:+ key) err]) (fromEnv l)).

Definition str (key def : string) : Ld string :=
  v ← raw key; match v with Some v => mret v | None => mret def end.

Definition list_ (key : string) (def : list string) : Ld (list string) :=
  v ← raw key;
  match v with
  | None => mret def
  | Some v =>
      let out := List.filter (fun p => negb (bool_decide (p = emp))) (TrimSpace <$> Split "," v) in
      if decide (out = []) then mret def else mret out
  end.

Definition intVal (key : string) (def : Z) : Ld Z :=
  v ← raw key;
  match v with
  | None => mret def
  | Some v =>
      match Atoi v with
      | None => fail key (ErrNew "not an integer") ≫= fun _ => mret def
      | Some n => mret n
      end
  end.

Definition floatVal (key : string) (def : float64) : Ld float64 :=
  v ← raw key;
  match v with
  | None => mret def
  | Some v =>
      match ParseFloat v with
      | None => fail key (ErrNew "not a number") ≫= fun _ => mret def
      | Some f => mret f
      end
  end.

Definition boolVal (key : string) (def : bool) : Ld bool :=
  v ← raw key;
  match v with
  | None => mret def
  | Some v =>
      match ParseBool v with
      | None => fail key (ErrNew "not a boolean") ≫= fun _ => mret def
      | Some b => mret b
      end
  end.

Definition dur (key : string) (def : Z) : Ld Z :=
  v ← raw key;
  match v with
  | None => mret def
  | Some v =>
      match Dur.ParseDuration v with
      | None => fail key (ErrNew "not a duration (e.g. 5s, 2m)") ≫= fun _ => mret def
      | Some d => mret d
      end
  end.

Definition timeVal (key : string) (def : time) : Ld time :=
  v ← raw key;
  match v with
  | None => mret def
  | Some v =>
      match ParseRFC3339 v with
      | None => fail key (ErrNew "not an RFC3339 timestamp") ≫= fun _ => mret def
      | Some t => mret t
      end
  end.

Definition secretHex (key : string) : Ld Secret :=
  v ← raw key;
  match v with
  | None => mret (MkSecret [])
  | Some v =>
      match ParseSecretHex v with
      | Err err => fail key err ≫= fun _ => mret (MkSecret [])
      | Ok s => mret s
      end
  end.

Definition secretRaw (key : string) : Ld Secret :=
  v ← raw key;
  match v with
  | None => mret (MkSecret [])
  | Some v => mret (NewSecret (byte_of <$> String.list_ascii_of_string v))
  end.

(** ** The fields, in the order of the composite literal *)

Definition read_Service (serviceName defaultAddr : string) : Ld Service.t :=
  HTTPAddr_ ← str "HTTP_ADDR" defaultAddr;
  LogLevel_ ← str "LOG_LEVEL" DefaultLogLevel;
  MetricsPath_ ← str "METRICS_PATH" DefaultMetricsPath;
  ShutdownTimeout_ ← dur "SHUTDOWN_TIMEOUT" DefaultShutdownTimeout;
  mret (Service.mk serviceName HTTPAddr_ LogLevel_ MetricsPath_ ShutdownTimeout_).

Definition read_Redis : Ld Redis.t :=
  Addrs_ ← list_ "REDIS_ADDRS" [DefaultRedisAddr];
  Password_ ← secretRaw "REDIS_PASSWORD";
  DB_ ← intVal "REDIS_DB" 0;
  Cluster_ ← boolVal "REDIS_CLUSTER" false;
  PoolSize_ ← intVal "REDIS_POOL_SIZE" DefaultRedisPool;
  mret (Redis.mk Addrs_ Password_ DB_ Cluster_ PoolSize_).

Definition read_Postgres : Ld Postgres.t :=
  DSN_ ← secretRaw "POSTGRES_DSN";
  Enabled_ ← boolVal "POSTGRES_ENABLED" true;
  MaxConns_ ← intVal "POSTGRES_MAX_CONNS" 8;
  mret (Postgres.mk DSN_ Enabled_ MaxConns_).

Definition read_Kafka : Ld Kafka.t :=
  Brokers_ ← list_ "KAFKA_BROKERS" [DefaultKafkaBroker];
  Topic_ ← str "KAFKA_TOPIC" DefaultKafkaTopic;
  GroupID_ ← str "KAFKA_GROUP_ID" DefaultKafkaGroup;
  Enabled_ ← boolVal "KAFKA_ENABLED" true;
  mret (Kafka.mk Brokers_ Topic_ GroupID_ Enabled_).

Definition read_Event : Ld Event.t :=
  ID_ ← str "EVENT_ID" "demo";
  Salt_ ← secretHex "EVENT_SALT";
  OpenAt_ ← timeVal "EVENT_OPEN_AT" zero_time;
  ShardSize_ ← intVal "SHARD_SIZE" DefaultShardSize;
  ShardCount_ ← intVal "SHARD_COUNT" DefaultShardCount;
  MaxShardCount_ ← intVal "MAX_SHARD_COUNT" DefaultMaxShardCount;
  LotteryWindow_ ← dur "LOTTERY_WINDOW" DefaultLotteryWindow;
  mret (Event.mk ID_ Salt_ OpenAt_ ShardSize_ ShardCount_ MaxShardCount_ LotteryWindow_).

Definition read_Queue : Ld Queue.t :=
  HeartbeatInterval_ ← dur "HEARTBEAT_INTERVAL" DefaultHeartbeatInterval;
  MissedHeartbeats_ ← intVal "MISSED_HEARTBEATS" DefaultMissedHeartbeats;
  EvictGrace_ ← dur "EVICT_GRACE" DefaultEvictGrace;
  StatusPollHint_ ← dur "STATUS_POLL_HINT" DefaultStatusPollHint;
  SSEKeepalive_ ← dur "SSE_KEEPALIVE" DefaultSSEKeepalive;
  SweepBatch_ ← intVal "SWEEP_BATCH" DefaultSweepBatch;
  EvictedRetain_ ← dur "EVICTED_RETAIN" DefaultEvictedRetain;
  mret (Queue.mk HeartbeatInterval_ MissedHeartbeats_ EvictGrace_ StatusPollHint_ SSEKeepalive_ SweepBatch_
    EvictedRetain_).

Definition read_Admission : Ld Admission.t :=
  RatePerMin_ ← intVal "ADMIT_RATE_PER_MIN" DefaultAdmitRatePerMin;
  Interval_ ← dur "ADMIT_INTERVAL" DefaultAdmitInterval;
  AfterLottery_ ← boolVal "ADMIT_AFTER_LOTTERY" DefaultAdmitAfterLottery;
  MinDwell_ ← dur "ADMIT_MIN_DWELL" DefaultAdmitMinDwell;
  MinBeats_ ← intVal "ADMIT_MIN_BEATS" DefaultAdmitMinBeats;
  MaxBudgetPerShard_ ← intVal "MAX_BUDGET_PER_SHARD" DefaultMaxBudgetPerShard;
  BackpressureMin_ ← floatVal "BACKPRESSURE_MIN" DefaultBackpressureMin;
  BreakerFailures_ ← intVal "BREAKER_FAILURES" DefaultBreakerFailures;
  BreakerCooldown_ ← dur "BREAKER_COOLDOWN" DefaultBreakerCooldown;
  ShopHealthURL_ ← str "SHOP_HEALTH_URL" emp;
  ShopHealthTimeout_ ← dur "SHOP_HEALTH_TIMEOUT" DefaultShopHealthTimeout;
mret (Admission.mk RatePerMin_ Interval_ AfterLottery_ MinDwell_ MinBeats_ MaxBudgetPerShard_ BackpressureMin_
    BreakerFailures_ BreakerCooldown_ ShopHealthURL_ ShopHealthTimeout_).

Definition read_Challenge : Ld Challenge.t :=
  TTL_ ← dur "CHALLENGE_TTL" DefaultChallengeTTL;
  BaseDifficulty_ ← intVal "POW_BASE_DIFFICULTY" DefaultBaseDifficulty;
  MaxDifficulty_ ← intVal "POW_MAX_DIFFICULTY" DefaultMaxDifficulty;
  NonceBytes_ ← intVal "POW_NONCE_BYTES" DefaultChallengeNonces;
  HMACKey_ ← secretHex "CHALLENGE_HMAC_KEY";
  CaptchaEnabled_ ← boolVal "CAPTCHA_ENABLED" false;
  mret (Challenge.mk TTL_ BaseDifficulty_ MaxDifficulty_ NonceBytes_ HMACKey_ CaptchaEnabled_).

Definition read_Token : Ld Token.t :=
  SigningKey_ ← secretHex "TOKEN_SIGNING_KEY";
  Issuer_ ← str "TOKEN_ISSUER" DefaultTokenIssuer;
  QueueTTL_ ← dur "QUEUE_TOKEN_TTL" DefaultQueueTokenTTL;
  EntryTTL_ ← dur "ENTRY_TOKEN_TTL" DefaultEntryTokenTTL;
  SecureCookie_ ← boolVal "SECURE_COOKIE" true;
  IPv4PrefixBits_ ← intVal "IPV4_PREFIX_BITS" DefaultIPv4PrefixBits;
  IPv6PrefixBits_ ← intVal "IPV6_PREFIX_BITS" DefaultIPv6PrefixBits;
  mret (Token.mk SigningKey_ Issuer_ QueueTTL_ EntryTTL_ IPv4PrefixBits_ IPv6PrefixBits_ SecureCookie_).

Definition read_Weights : Ld Weights.t :=
  Heartbeat_ ← floatVal "WEIGHT_HEARTBEAT" DefaultWeightHeartbeat;
  Correlation_ ← floatVal "WEIGHT_CORRELATION" DefaultWeightCorrelation;
  Fingerprint_ ← floatVal "WEIGHT_FINGERPRINT" DefaultWeightFingerprint;
  IPPrefix_ ← floatVal "WEIGHT_IP_PREFIX" DefaultWeightIPPrefix;
  PoW_ ← floatVal "WEIGHT_POW" DefaultWeightPoW;
  mret (Weights.mk Heartbeat_ Correlation_ Fingerprint_ IPPrefix_ PoW_).

Definition read_BotScore : Ld BotScore.t :=
  Greylist_ ← intVal "SCORE_GREYLIST" DefaultScoreGreylist;
  Hold_ ← intVal "SCORE_HOLD" DefaultScoreHold;
  Block_ ← intVal "SCORE_BLOCK" DefaultScoreBlock;
  Window_ ← dur "SCORE_WINDOW" DefaultScoreWindow;
  FlushEvery_ ← dur "SCORE_FLUSH_EVERY" DefaultScoreFlush;
  MinSamples_ ← intVal "SCORE_MIN_SAMPLES" DefaultScoreMinSamples;
  Decay_ ← floatVal "SCORE_DECAY" DefaultScoreDecay;
  HeartbeatCVFloor_ ← floatVal "HEARTBEAT_CV_FLOOR" DefaultHeartbeatCVFloor;
  SignalZSpan_ ← floatVal "SIGNAL_Z_SPAN" DefaultSignalZSpan;
  RobustBaseline_ ← boolVal "SCORE_ROBUST_BASELINE" DefaultScoreRobustBaseline;
  SyncBin_ ← dur "SYNC_BIN" DefaultSyncBin;
  FPGroupCap_ ← intVal "FP_GROUP_CAP" DefaultFPGroupCap;
  IPGroupCap_ ← intVal "IP_GROUP_CAP" DefaultIPGroupCap;
  MinSignalsToBlock_ ← intVal "SCORE_MIN_SIGNALS_TO_BLOCK" DefaultMinSignalsToBlock;
  SignalMinContrib_ ← floatVal "SIGNAL_MIN_CONTRIB" DefaultSignalMinContrib;
  SuspicionTTL_ ← dur "SUSPICION_TTL" DefaultSuspicionTTL;
  GreylistDifficulty_ ← intVal "GREYLIST_DIFFICULTY_BUMP" DefaultGreylistDifficulty;
  RechallengePassScore_ ← intVal "RECHALLENGE_PASS_SCORE" DefaultRechallengePassScore;
  RechallengeMaxAttempts_ ← intVal "RECHALLENGE_MAX_ATTEMPTS" DefaultRechallengeMaxAttempts;
  Weights_ ← read_Weights;
mret (BotScore.mk Greylist_ Hold_ Block_ Window_ FlushEvery_ MinSamples_ Decay_ Weights_ HeartbeatCVFloor_
    SignalZSpan_ SyncBin_ FPGroupCap_ IPGroupCap_ RobustBaseline_ MinSignalsToBlock_ SignalMinContrib_
    SuspicionTTL_ GreylistDifficulty_ RechallengePassScore_ RechallengeMaxAttempts_).

Definition read_Config (serviceName defaultAddr : string) : Ld Config :=
  Service_ ← read_Service serviceName defaultAddr;
  Redis_ ← read_Redis;
  Postgres_ ← read_Postgres;
  Kafka_ ← read_Kafka;
  Event_ ← read_Event;
  Queue_ ← read_Queue;
  Admission_ ← read_Admission;
  Challenge_ ← read_Challenge;
  Token_ ← read_Token;
  BotScore_ ← read_BotScore;
  mret (MkConfig Service_ Redis_ Postgres_ Kafka_ Event_ Queue_ Admission_ Challenge_ Token_ BotScore_ ∅).

Definition with_env (env : gmap string string) (c : Config) : Config :=
  MkConfig (service c) (redis c) (postgres c) (kafka c) (event c) (queue c) (admission c) (challenge c)
    (token c) (botscore c) env.

Definition LoadFrom (serviceName defaultAddr : string) : result Config :=
  let '(cfg, l) := read_Config serviceName defaultAddr (MkLoader [] ∅) in
  match errors_Join (errs l) with
  | Err err => Err (ErrWrap "config: parse env" err)
  | Ok _ =>
      match Validate cfg with
      | Err err => Err (ErrWrap "config: validate" err)
      | Ok _ => Ok (with_env (fromEnv l) cfg)
      end
  end.

End Loading.

(** ** Specification: the table of settings *)

Inductive kind := AsText | AsList | AsInt | AsFloat | AsBool | AsDuration | AsTime | AsHexSecret | AsRawSecret.

Definition setting : Type := kind * string.

(** What a text of some kind means: the value a field of the configuration gets.  A list
    without an entry means nothing, and leaves the default. *)
Inductive value :=
  | VText (t : string) | VList (l : list string) | VInt (n : Z) | VFloat (f : float64) | VBool (b : bool)
  | VDuration (d : Z) | VTime (t : time) | VSecret (s : Secret).

Definition means `{Texts} (k : kind) (v : string) : option value :=
  match k with
  | AsText => Some (VText v)
  | AsList =>
      let parts := List.filter (fun p => negb (bool_decide (p = emp))) (TrimSpace <$> Split "," v) in
      if decide (parts = []) then None else Some (VList parts)
  | AsInt => VInt <$> Atoi v
  | AsFloat => VFloat <$> ParseFloat v
  | AsBool => VBool <$> ParseBool v
  | AsDuration => VDuration <$> Dur.ParseDuration v
  | AsTime => VTime <$> ParseRFC3339 v
  | AsHexSecret => match ParseSecretHex v with Ok b => Some (VSecret b) | Err _ => None end
  | AsRawSecret => Some (VSecret (NewSecret (byte_of <$> String.list_ascii_of_string v)))
  end.

(** Which variable is read, as what, for which field. *)
Definition field (T : Type) : Type := setting * (T -> value).

Definition Service_fields : list (field Service.t) := [
  ((AsText, "HTTP_ADDR"), fun x => VText (Service.HTTPAddr x));
  ((AsText, "LOG_LEVEL"), fun x => VText (Service.LogLevel x));
  ((AsText, "METRICS_PATH"), fun x => VText (Service.MetricsPath x));
  ((AsDuration, "SHUTDOWN_TIMEOUT"), fun x => VDuration (Service.ShutdownTimeout x))].

Definition Redis_fields : list (field Redis.t) := [
  ((AsList, "REDIS_ADDRS"), fun x => VList (Redis.Addrs x));
  ((AsRawSecret, "REDIS_PASSWORD"), fun x => VSecret (Redis.Password x));
  ((AsInt, "REDIS_DB"), fun x => VInt (Redis.DB x));
  ((AsBool, "REDIS_CLUSTER"), fun x => VBool (Redis.Cluster x));
  ((AsInt, "REDIS_POOL_SIZE"), fun x => VInt (Redis.PoolSize x))].

Definition Postgres_fields : list (field Postgres.t) := [
  ((AsRawSecret, "POSTGRES_DSN"), fun x => VSecret (Postgres.DSN x));
  ((AsBool, "POSTGRES_ENABLED"), fun x => VBool (Postgres.Enabled x));
  ((AsInt, "POSTGRES_MAX_CONNS"), fun x => VInt (Postgres.MaxConns x))].

Definition Kafka_fields : list (field Kafka.t) := [
  ((AsList, "KAFKA_BROKERS"), fun x => VList (Kafka.Brokers x));
  ((AsText, "KAFKA_TOPIC"), fun x => VText (Kafka.Topic x));
  ((AsText, "KAFKA_GROUP_ID"), fun x => VText (Kafka.GroupID x));
  ((AsBool, "KAFKA_ENABLED"), fun x => VBool (Kafka.Enabled x))].

Definition Event_fields : list (field Event.t) := [
  ((AsText, "EVENT_ID"), fun x => VText (Event.ID x));
  ((AsHexSecret, "EVENT_SALT"), fun x => VSecret (Event.Salt x));
  ((AsTime, "EVENT_OPEN_AT"), fun x => VTime (Event.OpenAt x));
  ((AsInt, "SHARD_SIZE"), fun x => VInt (Event.ShardSize x));
  ((AsInt, "SHARD_COUNT"), fun x => VInt (Event.ShardCount x));
  ((AsInt, "MAX_SHARD_COUNT"), fun x => VInt (Event.MaxShardCount x));
  ((AsDuration, "LOTTERY_WINDOW"), fun x => VDuration (Event.LotteryWindow x))].

Definition Queue_fields : list (field Queue.t) := [
  ((AsDuration, "HEARTBEAT_INTERVAL"), fun x => VDuration (Queue.HeartbeatInterval x));
  ((AsInt, "MISSED_HEARTBEATS"), fun x => VInt (Queue.MissedHeartbeats x));
  ((AsDuration, "EVICT_GRACE"), fun x => VDuration (Queue.EvictGrace x));
  ((AsDuration, "STATUS_POLL_HINT"), fun x => VDuration (Queue.StatusPollHint x));
  ((AsDuration, "SSE_KEEPALIVE"), fun x => VDuration (Queue.SSEKeepalive x));
  ((AsInt, "SWEEP_BATCH"), fun x => VInt (Queue.SweepBatch x));
  ((AsDuration, "EVICTED_RETAIN"), fun x => VDuration (Queue.EvictedRetain x))].

Definition Admission_fields : list (field Admission.t) := [
  ((AsInt, "ADMIT_RATE_PER_MIN"), fun x => VInt (Admission.RatePerMin x));
  ((AsDuration, "ADMIT_INTERVAL"), fun x => VDuration (Admission.Interval x));
  ((AsBool, "ADMIT_AFTER_LOTTERY"), fun x => VBool (Admission.AfterLottery x));
  ((AsDuration, "ADMIT_MIN_DWELL"), fun x => VDuration (Admission.MinDwell x));
  ((AsInt, "ADMIT_MIN_BEATS"), fun x => VInt (Admission.MinBeats x));
  ((AsInt, "MAX_BUDGET_PER_SHARD"), fun x => VInt (Admission.MaxBudgetPerShard x));
  ((AsFloat, "BACKPRESSURE_MIN"), fun x => VFloat (Admission.BackpressureMin x));
  ((AsInt, "BREAKER_FAILURES"), fun x => VInt (Admission.BreakerFailures x));
  ((AsDuration, "BREAKER_COOLDOWN"), fun x => VDuration (Admission.BreakerCooldown x));
  ((AsText, "SHOP_HEALTH_URL"), fun x => VText (Admission.ShopHealthURL x));
  ((AsDuration, "SHOP_HEALTH_TIMEOUT"), fun x => VDuration (Admission.ShopHealthTimeout x))].

Definition Challenge_fields : list (field Challenge.t) := [
  ((AsDuration, "CHALLENGE_TTL"), fun x => VDuration (Challenge.TTL x));
  ((AsInt, "POW_BASE_DIFFICULTY"), fun x => VInt (Challenge.BaseDifficulty x));
  ((AsInt, "POW_MAX_DIFFICULTY"), fun x => VInt (Challenge.MaxDifficulty x));
  ((AsInt, "POW_NONCE_BYTES"), fun x => VInt (Challenge.NonceBytes x));
  ((AsHexSecret, "CHALLENGE_HMAC_KEY"), fun x => VSecret (Challenge.HMACKey x));
  ((AsBool, "CAPTCHA_ENABLED"), fun x => VBool (Challenge.CaptchaEnabled x))].

Definition Token_fields : list (field Token.t) := [
  ((AsHexSecret, "TOKEN_SIGNING_KEY"), fun x => VSecret (Token.SigningKey x));
  ((AsText, "TOKEN_ISSUER"), fun x => VText (Token.Issuer x));
  ((AsDuration, "QUEUE_TOKEN_TTL"), fun x => VDuration (Token.QueueTTL x));
  ((AsDuration, "ENTRY_TOKEN_TTL"), fun x => VDuration (Token.EntryTTL x));
  ((AsBool, "SECURE_COOKIE"), fun x => VBool (Token.SecureCookie x));
  ((AsInt, "IPV4_PREFIX_BITS"), fun x => VInt (Token.IPv4PrefixBits x));
  ((AsInt, "IPV6_PREFIX_BITS"), fun x => VInt (Token.IPv6PrefixBits x))].

Definition Weights_fields : list (field Weights.t) := [
  ((AsFloat, "WEIGHT_HEARTBEAT"), fun x => VFloat (Weights.Heartbeat x));
  ((AsFloat, "WEIGHT_CORRELATION"), fun x => VFloat (Weights.Correlation x));
  ((AsFloat, "WEIGHT_FINGERPRINT"), fun x => VFloat (Weights.Fingerprint x));
  ((AsFloat, "WEIGHT_IP_PREFIX"), fun x => VFloat (Weights.IPPrefix x));
  ((AsFloat, "WEIGHT_POW"), fun x => VFloat (Weights.PoW x))].

Definition BotScore_fields : list (field BotScore.t) := [
  ((AsInt, "SCORE_GREYLIST"), fun x => VInt (BotScore.Greylist x));
  ((AsInt, "SCORE_HOLD"), fun x => VInt (BotScore.Hold x));
  ((AsInt, "SCORE_BLOCK"), fun x => VInt (BotScore.Block x));
  ((AsDuration, "SCORE_WINDOW"), fun x => VDuration (BotScore.Window x));
  ((AsDuration, "SCORE_FLUSH_EVERY"), fun x => VDuration (BotScore.FlushEvery x));
  ((AsInt, "SCORE_MIN_SAMPLES"), fun x => VInt (BotScore.MinSamples x));
  ((AsFloat, "SCORE_DECAY"), fun x => VFloat (BotScore.Decay x));
  ((AsFloat, "HEARTBEAT_CV_FLOOR"), fun x => VFloat (BotScore.HeartbeatCVFloor x));
  ((AsFloat, "SIGNAL_Z_SPAN"), fun x => VFloat (BotScore.SignalZSpan x));
  ((AsBool, "SCORE_ROBUST_BASELINE"), fun x => VBool (BotScore.RobustBaseline x));
  ((AsDuration, "SYNC_BIN"), fun x => VDuration (BotScore.SyncBin x));
  ((AsInt, "FP_GROUP_CAP"), fun x => VInt (BotScore.FPGroupCap x));
  ((AsInt, "IP_GROUP_CAP"), fun x => VInt (BotScore.IPGroupCap x));
  ((AsInt, "SCORE_MIN_SIGNALS_TO_BLOCK"), fun x => VInt (BotScore.MinSignalsToBlock x));
  ((AsFloat, "SIGNAL_MIN_CONTRIB"), fun x => VFloat (BotScore.SignalMinContrib x));
  ((AsDuration, "SUSPICION_TTL"), fun x => VDuration (BotScore.SuspicionTTL x));
  ((AsInt, "GREYLIST_DIFFICULTY_BUMP"), fun x => VInt (BotScore.GreylistDifficulty x));
  ((AsInt, "RECHALLENGE_PASS_SCORE"), fun x => VInt (BotScore.RechallengePassScore x));
  ((AsInt, "RECHALLENGE_MAX_ATTEMPTS"), fun x => VInt (BotScore.RechallengeMaxAttempts x))].

(** The fields of a part of a record. *)
Definition part {T U} (get : U -> T) (fs : list (field T)) : list (field U) := (fun r => (r.1, fun x => r.2 (get x))) <$> fs.

Definition fields : list (field Config) :=
  part service Service_fields ++ part redis Redis_fields ++ part postgres Postgres_fields ++ part kafka Kafka_fields ++
  part event Event_fields ++ part queue Queue_fields ++ part admission Admission_fields ++ part challenge Challenge_fields ++
  part token Token_fields ++ part botscore (BotScore_fields ++ part BotScore.Weights Weights_fields).

Definition settings {T} (fs : list (field T)) : list setting := fst <$> fs.

Definition table : list setting := settings fields.

(** The variable of a setting, and what an environment sets it to: blank is not set. *)
Definition variable (s : setting) : string := envPrefix +:+ s.2.

Definition value_in (lookup : string -> option string) (s : setting) : option string :=
  v ← lookup (variable s); if decide (TrimSpace v = emp) then None else Some (TrimSpace v).

(** The value of a setting: what its text means, and otherwise the default. *)
Definition setting_value `{Texts} (lookup : string -> option string) (s : setting) (def : value) : value :=
  default def (v ← value_in lookup s; means s.1 v).

(** Every field of [x] has the value its variable sets, or the one it has in [def]. *)
Definition set_from `{Texts} {T} (lookup : string -> option string) (fs : list (field T)) (def x : T) : Prop :=
  Forall (fun r => r.2 x = setting_value lookup r.1 (r.2 def)) fs.

Definition defaults (name addr : string) : Config := config_with name addr default_botscore.

(** The configuration an environment describes, before it is validated. *)
Definition describes `{Texts} (lookup : string -> option string) (name addr : string) (c : Config) : Prop :=
  Service.Name (service c) = name /\ set_from lookup fields (defaults name addr) c.

Definition malformed `{Texts} (k : kind) (v : string) : bool :=
  match k with
  | AsInt => bool_decide (Atoi v = None)
  | AsFloat => bool_decide (ParseFloat v = None)
  | AsBool => bool_decide (ParseBool v = None)
  | AsDuration => bool_decide (Dur.ParseDuration v = None)
  | AsTime => bool_decide (ParseRFC3339 v = None)
  | AsHexSecret => negb (is_ok (ParseSecretHex v))
  | _ => false
  end.

(** The complaint about a setting: a function of its kind and its name alone. *)
Definition complaint (k : kind) : string :=
  match k with
  | AsInt => "not an integer"
  | AsFloat => "not a number"
  | AsBool => "not a boolean"
  | AsDuration => "not a duration (e.g. 5s, 2m)"
  | AsTime => "not an RFC3339 timestamp"
  | _ => "secret is not valid hex"
  end.

Definition report (s : setting) : error := ErrWrap (variable s) (ErrNew (complaint s.1)).

Definition rejected `{Texts} (lookup : string -> option string) (s : setting) : bool :=
  match value_in lookup s with Some v => malformed s.1 v | None => false end.

Definition reports `{Texts} (lookup : string -> option string) (ss : list setting) : list error :=
  report <$> List.filter (rejected lookup) ss.

(** What the loader notes of its environment. *)
Definition note (lookup : string -> option string) (s : setting) (env : gmap string string) : gmap string string :=
  match value_in lookup s with Some v => <[variable s := v]> env | None => env end.

Definition notes (lookup : string -> option string) (ss : list setting) (env : gmap string string) : gmap string string :=
  foldl (fun env s => note lookup s env) env ss.

Definition agree (lookup lookup' : string -> option string) (ss : list setting) : Prop :=
  Forall (fun s => value_in lookup s = value_in lookup' s) ss.

(** ** The loader implements the table *)

Section Specification.

Context `{Texts}.

(** [m] reads exactly the settings [ss]: its effect is the reports and the notes of [ss], and
    its result depends on nothing else of the environment. *)
Definition reads {A} (ss : list setting) (m : (string -> option string) -> Ld A) : Prop := forall lookup,
  (forall l, (m lookup l).2 = MkLoader (errs l ++ reports lookup ss) (notes lookup ss (fromEnv l))) /\
  (forall lookup' l l', agree lookup lookup' ss -> (m lookup l).1 = (m lookup' l').1).

Lemma reports_app lookup ss ss' : reports lookup (ss ++ ss') = reports lookup ss ++ reports lookup ss'.
Proof. unfold reports. by rewrite List.filter_app, fmap_app. Qed.

Lemma notes_app lookup ss ss' env : notes lookup (ss ++ ss') env = notes lookup ss' (notes lookup ss env).
Proof. apply foldl_app. Qed.

Lemma raw_eq lookup s l : raw lookup s.2 l = (value_in lookup s, MkLoader (errs l) (note lookup s (fromEnv l))).
Proof.
  unfold raw, note, value_in, variable. destruct (lookup _) as [v|]; cbn [mbind option_bind]; [|by destruct l].
  destruct (decide _); [by destruct l|done].
Qed.

Lemma value_in_nonempty lookup s : value_in lookup s <> Some emp.
Proof. unfold value_in. destruct (lookup _); cbn; [|done]. destruct (decide _); [done|]. by intros [= ?]. Qed.

Lemma hex_error v e : v <> emp -> ParseSecretHex v = Err e -> e = ErrNew (complaint AsHexSecret).
Proof. intros Hv. unfold ParseSecretHex. rewrite bool_decide_eq_false_2 by done. destruct (hex_DecodeString v); [done|]. by intros [= <-]. Qed.

Lemma reads_ret {A} (a : A) : reads [] (fun _ => mret a).
Proof. intros lookup. split; [|done]. intros []. cbn. by rewrite app_nil_r. Qed.

Lemma reads_bind {A B} ss ss' (m : (string -> option string) -> Ld A) (f : A -> (string -> option string) -> Ld B) :
  reads ss m -> (forall a, reads ss' (f a)) -> reads (ss ++ ss') (fun lookup => m lookup ≫= fun a => f a lookup).
Proof.
  intros Hm Hf lookup. destruct (Hm lookup) as [He Hv]. unfold mbind, Ld_bind. split.
  - intros l. specialize (He l). destruct (m lookup l) as [a l1]. cbn in He. subst l1.
    rewrite (proj1 (Hf a lookup)). cbn. by rewrite reports_app, notes_app, app_assoc.
  - intros lookup' l l' [Ha Ha']%list.Forall_app. specialize (Hv lookup' l l' Ha).
    destruct (m lookup l) as [a l1], (m lookup' l') as [a' l1']. cbn in Hv. subst a'.
    by apply (proj2 (Hf a lookup)).
Qed.

Lemma reads_cons {A B} s ss (m : (string -> option string) -> Ld A) (f : A -> (string -> option string) -> Ld B) :
  reads [s] m -> (forall a, reads ss (f a)) -> reads (s :: ss) (fun lookup => m lookup ≫= fun a => f a lookup).
Proof. apply (reads_bind [s]). Qed.

(** An accessor: it looks at one variable and complains when its text is malformed. *)
Lemma reads_raw {A} s (f : option string -> Ld A) :
  (forall v l, v <> Some emp -> f v l = ((f v (MkLoader [] ∅)).1,
     MkLoader (errs l ++ match v with Some v => if malformed s.1 v then [report s] else [] | None => [] end) (fromEnv l))) ->
  reads [s] (fun lookup => raw lookup s.2 ≫= f).
Proof.
  intros Hf lookup. unfold mbind, Ld_bind. split.
  - intros l. rewrite raw_eq, Hf by apply value_in_nonempty. cbn. unfold reports, rejected. cbn [List.filter].
    by destruct (value_in lookup s) as [v|]; [destruct (malformed _ v)|].
  - intros lookup' l l' Ha. apply list.Forall_cons in Ha as [Ha _]. rewrite !raw_eq, Ha.
    assert (Hc : forall l1, (f (value_in lookup' s) l1).1 = (f (value_in lookup' s) (MkLoader [] ∅)).1).
    { intros l1. exact (f_equal fst (Hf _ l1 (value_in_nonempty _ _))). }
    by rewrite Hc, (Hc (MkLoader (errs l') _)).
Qed.

Lemma reads_raw_bind {A} k key (f : option string -> Ld A) :
  (forall v l, v <> Some emp -> f v l = ((f v (MkLoader [] ∅)).1,
     MkLoader (errs l ++ match v with Some v => if malformed k v then [report (k, key)] else [] | None => [] end) (fromEnv l))) ->
  reads [(k, key)] (fun lookup => raw lookup key ≫= f).
Proof. apply (reads_raw (k, key)). Qed.

(** Every accessor is one. *)
Ltac accessor :=
  intros; apply reads_raw_bind; intros [v|] [es env] Hne; cbn;
  repeat (case_match; cbn; rewrite ?app_nil_r); simplify_eq/=; rewrite ?app_nil_r; try done.

Lemma reads_str key def : reads [(AsText, key)] (fun lookup => str lookup key def).
Proof. accessor. Qed.
Lemma reads_list key def : reads [(AsList, key)] (fun lookup => list_ lookup key def).
Proof. accessor. Qed.
Lemma reads_int key def : reads [(AsInt, key)] (fun lookup => intVal lookup key def).
Proof. accessor. Qed.
Lemma reads_float key def : reads [(AsFloat, key)] (fun lookup => floatVal lookup key def).
Proof. accessor. Qed.
Lemma reads_bool key def : reads [(AsBool, key)] (fun lookup => boolVal lookup key def).
Proof. accessor. Qed.
Lemma reads_dur key def : reads [(AsDuration, key)] (fun lookup => dur lookup key def).
Proof. accessor. Qed.
Lemma reads_time key def : reads [(AsTime, key)] (fun lookup => timeVal lookup key def).
Proof. accessor. Qed.
Lemma reads_hex key : reads [(AsHexSecret, key)] (fun lookup => secretHex lookup key).
Proof. accessor. rewrite (hex_error v e) by (done || by intros ->). done. Qed.
Lemma reads_secret key : reads [(AsRawSecret, key)] (fun lookup => secretRaw lookup key).
Proof. accessor. Qed.


Lemma settings_app {T} (fs fs' : list (field T)) : settings (fs ++ fs') = settings fs ++ settings fs'.
Proof. apply fmap_app. Qed.

Lemma settings_part {T U} (get : U -> T) fs : settings (part get fs) = settings fs.
Proof. unfold settings, part. by rewrite <- list_fmap_compose. Qed.

(** Section by section. *)
Ltac sections :=
  intros;
  cbv [settings fmap list_fmap fst app Service_fields Redis_fields Postgres_fields Kafka_fields Event_fields Queue_fields
    Admission_fields Challenge_fields Token_fields Weights_fields BotScore_fields];
  repeat lazymatch goal with
  | |- reads [] _ => apply reads_ret
  | |- reads [_] (fun _ => _) => first
      [ apply reads_str | apply reads_list | apply reads_int | apply reads_float | apply reads_bool
      | apply reads_dur | apply reads_time | apply reads_hex | apply reads_secret
      | refine (reads_cons _ _ _ (fun a lookup => _) _ _); [|intro] ]
  | |- reads (_ :: _) _ => refine (reads_cons _ _ _ (fun a lookup => _) _ _); [|intro]
  end.

Lemma reads_Service name addr : reads (settings Service_fields) (fun lookup => read_Service lookup name addr).
Proof. unfold read_Service. sections. Qed.

Lemma reads_Redis : reads (settings Redis_fields) (fun lookup => read_Redis lookup).
Proof. unfold read_Redis. sections. Qed.

Lemma reads_Postgres : reads (settings Postgres_fields) (fun lookup => read_Postgres lookup).
Proof. unfold read_Postgres. sections. Qed.

Lemma reads_Kafka : reads (settings Kafka_fields) (fun lookup => read_Kafka lookup).
Proof. unfold read_Kafka. sections. Qed.

Lemma reads_Event : reads (settings Event_fields) (fun lookup => read_Event lookup).
Proof. unfold read_Event. sections. Qed.

Lemma reads_Queue : reads (settings Queue_fields) (fun lookup => read_Queue lookup).
Proof. unfold read_Queue. sections. Qed.

Lemma reads_Admission : reads (settings Admission_fields) (fun lookup => read_Admission lookup).
Proof. unfold read_Admission. sections. Qed.

Lemma reads_Challenge : reads (settings Challenge_fields) (fun lookup => read_Challenge lookup).
Proof. unfold read_Challenge. sections. Qed.

Lemma reads_Token : reads (settings Token_fields) (fun lookup => read_Token lookup).
Proof. unfold read_Token. sections. Qed.

Lemma reads_Weights : reads (settings Weights_fields) (fun lookup => read_Weights lookup).
Proof. unfold read_Weights. sections. Qed.

Lemma reads_BotScore : reads (settings BotScore_fields ++ settings Weights_fields) (fun lookup => read_BotScore lookup).
Proof.
  unfold read_BotScore. rewrite <- (app_nil_r (settings Weights_fields)).
  set (ws := settings Weights_fields ++ []). sections. subst ws. refine (reads_bind _ [] _ (fun a lookup => _) reads_Weights _). intros. apply reads_ret.
Qed.

Lemma reads_Config name addr : reads table (fun lookup => read_Config lookup name addr).
Proof.
  unfold read_Config, table, fields. rewrite !settings_app, !settings_part, settings_app, settings_part, <- (app_nil_r (settings BotScore_fields ++ _)).
  repeat first
    [ apply reads_ret
    | refine (reads_bind _ _ _ (fun a lookup => _) _ _);
        [first [apply reads_Service | apply reads_Redis | apply reads_Postgres | apply reads_Kafka | apply reads_Event
               | apply reads_Queue | apply reads_Admission | apply reads_Challenge | apply reads_Token | apply reads_BotScore]
        |intro] ].
Qed.

(** ** What the fields get *)

Lemma bind_eq {A B} (m : Ld A) (f : A -> Ld B) l : (m ≫= f) l = f (m l).1 (m l).2.
Proof. unfold mbind, Ld_bind. by destruct (m l). Qed.

Lemma raw_value lookup k key l : (raw lookup key l).1 = value_in lookup (k, key).
Proof. exact (f_equal fst (raw_eq lookup (k, key) l)). Qed.

Ltac gets k :=
  intros; unfold str, list_, intVal, floatVal, boolVal, dur, timeVal, secretHex, secretRaw; rewrite bind_eq, (raw_value _ k); unfold setting_value; destruct (value_in _ _) as [v|]; cbn; try done;
  repeat (case_match; cbn; try done).

Lemma gets_str lookup key def l : VText (str lookup key def l).1 = setting_value lookup (AsText, key) (VText def).
Proof. gets AsText. Qed.
Lemma gets_list lookup key def l : VList (list_ lookup key def l).1 = setting_value lookup (AsList, key) (VList def).
Proof. gets AsList. Qed.
Lemma gets_int lookup key def l : VInt (intVal lookup key def l).1 = setting_value lookup (AsInt, key) (VInt def).
Proof. gets AsInt. Qed.
Lemma gets_float lookup key def l : VFloat (floatVal lookup key def l).1 = setting_value lookup (AsFloat, key) (VFloat def).
Proof. gets AsFloat. Qed.
Lemma gets_bool lookup key def l : VBool (boolVal lookup key def l).1 = setting_value lookup (AsBool, key) (VBool def).
Proof. gets AsBool. Qed.
Lemma gets_dur lookup key def l : VDuration (dur lookup key def l).1 = setting_value lookup (AsDuration, key) (VDuration def).
Proof. gets AsDuration. Qed.
Lemma gets_time lookup key def l : VTime (timeVal lookup key def l).1 = setting_value lookup (AsTime, key) (VTime def).
Proof. gets AsTime. Qed.
Lemma gets_hex lookup key l : VSecret (secretHex lookup key l).1 = setting_value lookup (AsHexSecret, key) (VSecret no_secret).
Proof. gets AsHexSecret. Qed.
Lemma gets_secret lookup key l : VSecret (secretRaw lookup key l).1 = setting_value lookup (AsRawSecret, key) (VSecret no_secret).
Proof. gets AsRawSecret. Qed.

(** A part of the configuration, from the fields it reads. *)
Ltac fill :=
  intros; unfold set_from; repeat (rewrite bind_eq; cbv beta); repeat (apply list.Forall_cons; split;
    [first [ refine (gets_int _ _ _ _) | refine (gets_dur _ _ _ _) | refine (gets_float _ _ _ _) | refine (gets_str _ _ _ _)
           | refine (gets_bool _ _ _ _) | refine (gets_list _ _ _ _) | refine (gets_time _ _ _ _) | refine (gets_hex _ _ _)
           | refine (gets_secret _ _ _) ]|]); try constructor.

Lemma fills_Redis lookup name addr l : set_from lookup Redis_fields (redis (defaults name addr)) (read_Redis lookup l).1.
Proof. unfold read_Redis. fill. Qed.

Lemma fills_Postgres lookup name addr l : set_from lookup Postgres_fields (postgres (defaults name addr)) (read_Postgres lookup l).1.
Proof. unfold read_Postgres. fill. Qed.

Lemma fills_Kafka lookup name addr l : set_from lookup Kafka_fields (kafka (defaults name addr)) (read_Kafka lookup l).1.
Proof. unfold read_Kafka. fill. Qed.

Lemma fills_Event lookup name addr l : set_from lookup Event_fields (event (defaults name addr)) (read_Event lookup l).1.
Proof. unfold read_Event. fill. Qed.

Lemma fills_Queue lookup name addr l : set_from lookup Queue_fields (queue (defaults name addr)) (read_Queue lookup l).1.
Proof. unfold read_Queue. fill. Qed.

Lemma fills_Admission lookup name addr l : set_from lookup Admission_fields (admission (defaults name addr)) (read_Admission lookup l).1.
Proof. unfold read_Admission. fill. Qed.

Lemma fills_Challenge lookup name addr l : set_from lookup Challenge_fields (challenge (defaults name addr)) (read_Challenge lookup l).1.
Proof. unfold read_Challenge. fill. Qed.

Lemma fills_Token lookup name addr l : set_from lookup Token_fields (token (defaults name addr)) (read_Token lookup l).1.
Proof. unfold read_Token. fill. Qed.

Lemma fills_Service lookup name addr l : set_from lookup Service_fields (service (defaults name addr)) (read_Service lookup name addr l).1 /\
  Service.Name (read_Service lookup name addr l).1 = name.
Proof. unfold read_Service. split; [fill|by rewrite !bind_eq]. Qed.

Lemma fills_Weights lookup name addr l : set_from lookup Weights_fields (BotScore.Weights (botscore (defaults name addr))) (read_Weights lookup l).1.
Proof. unfold read_Weights. fill. Qed.

Lemma set_from_part {T U} lookup (get : U -> T) fs def x : set_from lookup fs (get def) (get x) -> set_from lookup (part get fs) def x.
Proof. unfold set_from, part. by rewrite Forall_fmap. Qed.

Lemma fills_BotScore lookup name addr l :
  set_from lookup (BotScore_fields ++ part BotScore.Weights Weights_fields) (botscore (defaults name addr)) (read_BotScore lookup l).1.
Proof.
  apply Forall_app. split; [unfold read_BotScore; fill|]. apply set_from_part. unfold read_BotScore. repeat (rewrite bind_eq; cbv beta).
  apply (fills_Weights lookup name addr).
Qed.

(** The loader fills every field from its variable. *)
Definition read_from (lookup : string -> option string) (name addr : string) : Config :=
  (read_Config lookup name addr (MkLoader [] ∅)).1.

Lemma loads_described lookup name addr : describes lookup name addr (read_from lookup name addr).
Proof.
  unfold describes, read_from, read_Config, fields. repeat (rewrite bind_eq; cbv beta).
  split; [apply fills_Service|]. unfold set_from. rewrite !Forall_app.
  split_and!; apply set_from_part; [apply fills_Service|apply fills_Redis|apply fills_Postgres|apply fills_Kafka|apply fills_Event
    |apply fills_Queue|apply fills_Admission|apply fills_Challenge|apply fills_Token|apply fills_BotScore].
Qed.

(** The fields of the table are all the fields. *)
Definition same_fields {T} (fs : list (field T)) (x y : T) : Prop := Forall (fun r => r.2 x = r.2 y) fs.

Lemma set_from_same {T} lookup (fs : list (field T)) def x y : set_from lookup fs def x -> set_from lookup fs def y -> same_fields fs x y.
Proof. unfold set_from, same_fields. rewrite !list.Forall_forall. intros Hx Hy r Hr. by rewrite Hx, Hy. Qed.

Lemma same_part {T U} (get : U -> T) fs x y : same_fields (part get fs) x y -> same_fields fs (get x) (get y).
Proof. unfold same_fields, part. by rewrite Forall_fmap. Qed.

Ltac determined :=
  intros [] []; unfold same_fields; intros Hs; repeat (apply list.Forall_cons in Hs as [? Hs]); simplify_eq/=; try done.

Lemma determined_Redis : forall x y, same_fields Redis_fields x y -> x = y.
Proof. determined. Qed.

Lemma determined_Postgres : forall x y, same_fields Postgres_fields x y -> x = y.
Proof. determined. Qed.

Lemma determined_Kafka : forall x y, same_fields Kafka_fields x y -> x = y.
Proof. determined. Qed.

Lemma determined_Event : forall x y, same_fields Event_fields x y -> x = y.
Proof. determined. Qed.

Lemma determined_Queue : forall x y, same_fields Queue_fields x y -> x = y.
Proof. determined. Qed.

Lemma determined_Admission : forall x y, same_fields Admission_fields x y -> x = y.
Proof. determined. Qed.

Lemma determined_Challenge : forall x y, same_fields Challenge_fields x y -> x = y.
Proof. determined. Qed.

Lemma determined_Token : forall x y, same_fields Token_fields x y -> x = y.
Proof. determined. Qed.

Lemma determined_Weights : forall x y, same_fields Weights_fields x y -> x = y.
Proof. determined. Qed.

Lemma determined_Service : forall x y, same_fields Service_fields x y -> Service.Name x = Service.Name y -> x = y.
Proof. determined. by intros ->. Qed.

Lemma determined_BotScore x y : same_fields (BotScore_fields ++ part BotScore.Weights Weights_fields) x y -> x = y.
Proof.
  intros [Hs Hw]%Forall_app. apply same_part, determined_Weights in Hw. revert x y Hs Hw. determined. by intros ->.
Qed.

Lemma described_once lookup name addr c c' : describes lookup name addr c -> describes lookup name addr c' ->
  Cfg.fromEnv c = Cfg.fromEnv c' -> c = c'.
Proof.
  intros [Hn Hc] [Hn' Hc'] He. pose proof (set_from_same _ _ _ _ _ Hc Hc') as Hs. unfold fields, same_fields in Hs. rewrite !Forall_app in Hs.
  destruct Hs as (H1 & H2 & H3 & H4 & H5 & H6 & H7 & H8 & H9 & H10).
  apply same_part in H1, H2, H3, H4, H5, H6, H7, H8, H9, H10.
  apply determined_Service in H1; [|congruence]. apply determined_Redis in H2. apply determined_Postgres in H3. apply determined_Kafka in H4.
  apply determined_Event in H5. apply determined_Queue in H6. apply determined_Admission in H7. apply determined_Challenge in H8.
  apply determined_Token in H9. apply determined_BotScore in H10. destruct c, c'. cbn in *. congruence.
Qed.

Lemma describes_env lookup name addr env c : describes lookup name addr (with_env env c) <-> describes lookup name addr c.
Proof. unfold describes, set_from, fields, part. rewrite !Forall_app, !Forall_fmap. reflexivity. Qed.

(** ** What loading answers *)

Lemma notes_spec lookup ss k v :
  notes lookup ss ∅ !! k = Some v <-> exists s, s ∈ ss /\ k = variable s /\ value_in lookup s = Some v.
Proof.
  induction ss as [|s ss IH] using rev_ind.
  - change (notes lookup [] ∅) with (∅ : gmap string string). rewrite lookup_empty. split; [done|]. by intros (s & Hs%elem_of_nil & _).
  - rewrite notes_app. cbn. unfold note. setoid_rewrite elem_of_app. setoid_rewrite list_elem_of_singleton.
    assert (Hv : forall s', variable s' = variable s -> value_in lookup s' = value_in lookup s).
    { intros s'. unfold value_in. by intros ->. }
    destruct (value_in lookup s) as [v0|] eqn:E; [destruct (decide (variable s = k)) as [<-|Hk]|].
    + rewrite lookup_insert_eq. split; [intros [= <-]; eauto|]. intros (s' & _ & Hk%eq_sym & Hs'). rewrite Hv in Hs'; congruence.
    + rewrite lookup_insert_ne, IH by done. split; [intros (s' & ? & ?); eauto 6|]. intros (s' & [?| ->] & ?); naive_solver.
    + rewrite IH. split; [intros (s' & ? & ?); eauto 6|]. intros (s' & [?| ->] & ?); naive_solver.
Qed.

Lemma Validate_env env c : Validate (with_env env c) = Validate c.
Proof. reflexivity. Qed.

Lemma read_agree lookup lookup' name addr :
  agree lookup lookup' table -> read_from lookup name addr = read_from lookup' name addr.
Proof. apply (reads_Config name addr). Qed.

Lemma LoadFrom_eq lookup name addr : LoadFrom lookup name addr =
  match errors_Join (reports lookup table) with
  | Err e => Err (ErrWrap "config: parse env" e)
  | Ok _ =>
      match Validate (read_from lookup name addr) with
      | Err e => Err (ErrWrap "config: validate" e)
      | Ok _ => Ok (with_env (notes lookup table ∅) (read_from lookup name addr))
      end
  end.
Proof.
  unfold LoadFrom, read_from. pose proof (proj1 (reads_Config name addr lookup) (MkLoader [] ∅)) as Hl.
  cbv beta in Hl. destruct (read_Config _ _ _ _) as [c l]. cbn [fst snd] in *. by subst l.
Qed.

Lemma agree_effects lookup lookup' ss : agree lookup lookup' ss ->
  reports lookup ss = reports lookup' ss /\ forall env, notes lookup ss env = notes lookup' ss env.
Proof.
  unfold reports, notes. induction 1 as [|s ss Hs _ [IHr IHn]]; [done|]. cbn.
  assert (Hr : rejected lookup s = rejected lookup' s) by (unfold rejected; by rewrite Hs).
  assert (Hn : forall env, note lookup s env = note lookup' s env) by (intros env; unfold note; by rewrite Hs).
  split; [rewrite Hr; destruct (rejected lookup' s); cbn; congruence|]. intros env. rewrite Hn. apply IHn.
Qed.

(** Every variable that holds a secret has a name that is redacted. *)
Lemma secrets_are_redacted s : s ∈ table -> s.1 = AsHexSecret \/ s.1 = AsRawSecret -> redacted (variable s) = true.
Proof.
  intros Hs Hk. assert (Ht : forallb (fun s => match s.1 with AsHexSecret | AsRawSecret => redacted (variable s) | _ => true end) table = true)
    by (vm_compute; reflexivity).
  rewrite forallb_forall in Ht. specialize (Ht s (proj1 (list_elem_of_In _ _) Hs)). by destruct Hk as [E|E]; rewrite E in Ht.
Qed.

Lemma Join_nonempty errs : errs <> [] <-> exists e, errors_Join errs = Err e.
Proof.
  split.
  - intros Hn. destruct (errors_Join errs) as [[]|e] eqn:E; [by apply Join_ok in E|by eexists].
  - intros [e He] ->. done.
Qed.

(** C19: the environment is accounted for.  Loading fails to parse exactly when some variable
    of the table is malformed, and then reports every malformed variable in the order of
    reading, by its name and kind alone, so that no value of a variable, and no part of a
    secret, is in the report.  Otherwise the environment describes one configuration: each
    field of each part has what the text of its own variable means, an integer, a duration, a
    list and so on, and its default when that variable is not set.  Loading fails exactly when
    that configuration is invalid, and else yields it: valid, with the variables that were set
    (and no others) on record, those of secrets redacted in what the process shows of them.
    The answer depends on nothing but the variables of the table, blank ones being unset; an
    environment that sets none of them yields the defaults, which are valid. *)
Theorem environment_is_accounted lookup name addr :
  let bad := List.filter (rejected lookup) table in
  match LoadFrom lookup name addr with
  | Ok c =>
      bad = [] /\ Validate c = Ok tt /\ describes lookup name addr c /\
      (forall k v, Cfg.fromEnv c !! k = Some v <-> exists s, s ∈ table /\ k = variable s /\ value_in lookup s = Some v) /\
      (forall s, s ∈ table -> s.1 = AsHexSecret \/ s.1 = AsRawSecret -> value_in lookup s <> None ->
         EffectiveEnv c !! variable s = Some "<redacted>")
  | Err e =>
      (bad <> [] /\ exists e', e = ErrWrap "config: parse env" e' /\ errors_Join (report <$> bad) = Err e') \/
      (bad = [] /\ exists c e', describes lookup name addr c /\ e = ErrWrap "config: validate" e' /\ Validate c = Err e')
  end /\
  (forall c c', describes lookup name addr c -> describes lookup name addr c' -> Cfg.fromEnv c = Cfg.fromEnv c' -> c = c') /\
  (forall lookup', agree lookup lookup' table -> LoadFrom lookup' name addr = LoadFrom lookup name addr) /\
  ((forall s, s ∈ table -> value_in lookup s = None) -> LoadFrom lookup name addr = Ok (defaults name addr)).
Proof.
  intros bad. split_and!; [|by apply described_once|..].
  - rewrite LoadFrom_eq. fold bad. change (reports lookup table) with (report <$> bad).
    pose proof (loads_described lookup name addr) as Hdes.
    destruct (errors_Join (report <$> bad)) as [[]|e] eqn:Ej; cbn [fst snd].
    + apply Join_ok in Ej. assert (Hb : bad = []) by (by destruct bad).
      destruct (Validate (read_from _ _ _)) as [[]|e] eqn:Ev; [|right; eauto 6].
      split_and!; [done|by rewrite Validate_env|by apply describes_env|apply notes_spec|].
      intros s Hs Hk Hset. destruct (value_in lookup s) as [v|] eqn:Hv; [|done].
      unfold EffectiveEnv. rewrite map_lookup_imap. cbn [with_env Cfg.fromEnv].
      rewrite (proj2 (notes_spec lookup table (variable s) v)) by eauto. cbn [mbind option_bind]. by rewrite secrets_are_redacted.
    + left. split; [|eauto]. intros Hb. by rewrite Hb in Ej.
  - intros lookup' Ha. destruct (agree_effects _ _ _ Ha) as [Hr Hn].
    by rewrite !LoadFrom_eq, Hr, Hn, (read_agree _ _ name addr Ha).
  - intros Hnone. assert (Ha : agree lookup (fun _ => None) table).
    { apply list.Forall_forall. intros s Hs. by rewrite Hnone. }
    destruct (agree_effects _ _ _ Ha) as [Hr Hn]. rewrite LoadFrom_eq, Hr, Hn, (read_agree _ _ name addr Ha).
    vm_compute. reflexivity.
Qed.

End Specification.

(** ** Two environments *)

Definition plain_texts : Texts := {| ParseFloat _ := None; ParseRFC3339 _ := None |}.

Definition env_of (m : gmap string string) : string -> option string := fun k => m !! k.

(** Blanks around a value are dropped; a variable outside the table is ignored without a word. *)
Definition good_env : gmap string string :=
  {["SG_SHARD_SIZE" := " 500 "; "SG_ADMIT_INTERVAL" := "2s"; "SG_REDIS_ADDRS" := "a:1, ,b:2"; "SG_SHARD_SIZES" := "7";
    "SG_EVENT_SALT" := "00ff"; "SG_LOG_LEVEL" := "  "]}.

Example good_env_loads :
  (fun c => (Event.ShardSize (event c), Admission.Interval (admission c), Redis.Addrs (redis c), Bytes (Event.Salt (event c)),
             Service.LogLevel (service c), Queue.SweepBatch (queue c)))
    <$> @LoadFrom plain_texts (env_of good_env) "queue" ":8081"
  = Ok (500, 2 * Second, ["a:1"; "b:2"], [0; 255], DefaultLogLevel, DefaultSweepBatch).
Proof. vm_compute. reflexivity. Qed.

Example good_env_shown :
  (fun c => (fun k => EffectiveEnv c !! k) <$> ["SG_SHARD_SIZE"; "SG_EVENT_SALT"; "SG_SHARD_SIZES"; "SG_LOG_LEVEL"])
    <$> @LoadFrom plain_texts (env_of good_env) "queue" ":8081"
  = Ok [Some "500"; Some "<redacted>"; None; None].
Proof. vm_compute. reflexivity. Qed.

Example bad_env_reports :
  @LoadFrom plain_texts (env_of {["SG_SHARD_SIZE" := "five"; "SG_ADMIT_INTERVAL" := "2"; "SG_EVENT_SALT" := "secret!"]}) "queue" ":8081"
  = Err (ErrWrap "config: parse env"
      (ErrBoth (ErrWrap "SG_EVENT_SALT" (ErrNew "secret is not valid hex"))
        (ErrBoth (ErrWrap "SG_SHARD_SIZE" (ErrNew "not an integer"))
          (ErrWrap "SG_ADMIT_INTERVAL" (ErrNew "not a duration (e.g. 5s, 2m)"))))).
Proof. vm_compute. reflexivity. Qed.

End Load.
