(* ===== verification/Conn.v ===== *)
(** * The client side: one process, its Redis connection, clock and entropy

    A Go method that talks to Redis is a computation of the monad [M]: it threads a [world]
    (the server's store and script cache, what the wire does to the next commands, the
    process's clock and random source, the store's memo of registered shards) and returns
    a Go [(value, error)] pair.  A command may be executed and answered, executed with its
    answer lost, or not executed at all.  The client library cannot tell the last two apart
    and sends the command again, as often as its option [MaxRetries] says: [redisx.New]
    leaves that option alone, so the library's default holds, and one call of the program may
    execute its command several times.

    [Redisx.Run] is [internal/redisx/redisx.go]: EVALSHA, and one reload on NOSCRIPT. *)

From S2P Require Import Prelude.
From S2P Require Import Go.
From S2P Require Import Redis.
From S2P Require Import Scripts.
Local Open Scope string_scope.
Local Open Scope Z_scope.

(** What happens to one attempt at a command.  A failure is final when the client library does
    not try again after it (the context of the call is done); after a timeout, a connection
    that closed, or a server that is loading, it does. *)
Inductive wire_event :=
  | WOk
  | WLost (final : bool) (msg : string)   (** executed, but the answer is lost *)
  | WDown (final : bool) (msg : string).  (** not executed *)

Record world (S : Type) := World {
  db : S;
  cached : list string;            (** sources the server's script cache holds *)
  wire : list wire_event;          (** an exhausted list is a healthy connection *)
  clock : list time;               (** successive readings; the last one repeats *)
  entropy : list (option (list Z)); (** successive reads of the random source; [None] fails *)
  registered : gmap string time    (** [Store.registered], a [sync.Map] *)
}.
Arguments World {S} _ _ _ _ _ _.
Arguments db {S} _.
Arguments cached {S} _.
Arguments wire {S} _.
Arguments clock {S} _.
Arguments entropy {S} _.
Arguments registered {S} _.

Definition M (S A : Type) : Type := world S -> world S * result A.

#[export] Instance M_ret {S} : MRet (M S) := fun A a w => (w, Ok a).
#[export] Instance M_bind {S} : MBind (M S) := fun A B f m w =>
  match m w with
  | (w', Ok a) => f a w'
  | (w', Err e) => (w', Err e)
  end.

Definition fail {S A} (e : error) : M S A := fun w => (w, Err e).

(** A pure fallible call inside a method. *)
Definition lift {S A} (r : result A) : M S A := fun w => (w, r).

(** [fmt.Errorf("...: %w", err)]. *)
Definition wrapping {S A} (ctx : string) (m : M S A) : M S A := fun w =>
  match m w with
  | (w', Ok a) => (w', Ok a)
  | (w', Err e) => (w', Err (ErrWrap ctx e))
  end.

(** [now()]. *)
Definition now {S} : M S time := fun w =>
  match clock w with
  | [] => (w, Ok 0)
  | [t] => (w, Ok t)
  | t :: rest => (World (db w) (cached w) (wire w) rest (entropy w) (registered w), Ok t)
  end.

(** The next reading, and the process after it. *)
Definition reading {S} (w : world S) : time := match clock w with [] => 0 | t :: _ => t end.

Definition ticked {S} (w : world S) : world S := (now w).1.

Lemma now_eq {S} (w : world S) : now w = (ticked w, Ok (reading w)).
Proof. unfold ticked, reading, now. by destruct (clock w) as [|t [|t' rest]]. Qed.

Lemma ticked_same {S} (w : world S) :
  db (ticked w) = db w /\ cached (ticked w) = cached w /\ wire (ticked w) = wire w /\
  entropy (ticked w) = entropy w /\ registered (ticked w) = registered w.
Proof. unfold ticked, now. by destruct (clock w) as [|t [|t' rest]]. Qed.

(** [rand.Read]. *)
Definition rand_Read {S} : M S (list Z) := fun w =>
  match entropy w with
  | Some bytes :: rest =>
      (World (db w) (cached w) (wire w) (clock w) rest (registered w), Ok bytes)
  | _ => (w, Err (ErrNew "rand: read failed"))
  end.

(** ** Code outside the repository

    [lua_read] is the embedded directory [scripts/lua], [sha1Hex] the script hash, and
    [lua_eval] the Lua interpreter inside Redis.  [client_retries] is the number of retries
    the client library makes for a value of its option [MaxRetries]; its documentation says
    three for a value of zero. *)
Class Lua (S : Type) := {
  lua_read : string -> string;
  sha1Hex : string -> string;
  lua_eval : string -> list string -> list string -> S -> S * reply;
  client_retries : Z -> nat
}.

(** [redisx.New] does not set the option. *)
Definition MaxRetries : Z := 0.

Definition retries {S} `{Lua S} : nat := client_retries MaxRetries.

(** The next event of the wire, and those after it. *)
Definition next_event (wi : list wire_event) : wire_event * list wire_event :=
  match wi with [] => (WOk, []) | e :: rest => (e, rest) end.

(** The attempts at one command: its effect on the server, then what the wire does with the
    answer; [n] retries are left. *)
Fixpoint attempts {S A} (n : nat) (cmd : S -> list string -> S * list string * result A) : M S A := fun w =>
  let '(ev, rest) := next_event (wire w) in
  let on (s : S) (c : list string) := World s c rest (clock w) (entropy w) (registered w) in
  let failed (final : bool) msg (w' : world S) :=
    if final then (w', Err (ErrNew msg))
    else match n with O => (w', Err (ErrNew msg)) | Datatypes.S n' => attempts n' cmd w' end in
  match ev with
  | WDown final msg => failed final msg (on (db w) (cached w))
  | WOk => let '(s, c, r) := cmd (db w) (cached w) in (on s c, r)
  | WLost final msg => let '(s, c, _) := cmd (db w) (cached w) in failed final msg (on s c)
  end.

Definition send {S} `{Lua S} {A} (cmd : S -> list string -> S * list string * result A) : M S A :=
  attempts retries cmd.

(** A command other than EVALSHA. *)
Definition command {S} `{Lua S} {A} (cmd : S -> S * A) : M S A :=
  send (fun s c => (let r := cmd s in (r.1, c, Ok r.2))).

(** [err.Error()]. *)
Fixpoint error_text (e : error) : string :=
  match e with
  | ErrNew m => m
  | ErrWrap ctx e' => ctx +:+ ": " +:+ error_text e'
  | ErrBoth e1 e2 => error_text e1 +:+ ": " +:+ error_text e2
  end.

(** [strings.ToUpper], on the ASCII letters. *)
Definition ascii_upper (c : ascii) : ascii :=
  if byte_between "a" "z" c then ascii_of_nat (nat_of_ascii c - 32) else c.

Fixpoint ToUpper (s : string) : string :=
  match s with
  | EmptyString => EmptyString
  | String c s' => String (ascii_upper c) (ToUpper s')
  end.

Definition isNoScript (e : error) : bool := str_contains (ToUpper (error_text e)) "NOSCRIPT".

(** [LuaLaws] says that the interpreter run on each file does what [Scripts] says, and that the
    files that differ have different hashes. *)
Class LuaLaws (S : Type) `{Redis S} `{Lua S} := {
  sha1_distinct n1 n2 : sha1Hex (lua_read n1) = sha1Hex (lua_read n2) -> lua_read n1 = lua_read n2;
  eval_enqueue : lua_eval (lua_read "enqueue.lua") = enqueue_lua;
  eval_position : lua_eval (lua_read "position.lua") = position_lua;
  eval_heartbeat : lua_eval (lua_read "heartbeat.lua") = heartbeat_lua;
  eval_evict : lua_eval (lua_read "evict.lua") = evict_lua;
  eval_admit : lua_eval (lua_read "admit.lua") = admit_lua;
  eval_redeem : lua_eval (lua_read "redeem.lua") = redeem_lua;
  eval_refill : lua_eval (lua_read "refill_budget.lua") = refill_budget_lua;
  eval_action : lua_eval (lua_read "apply_action.lua") = apply_action_lua;
  eval_move : lua_eval (lua_read "move_shard.lua") = move_shard_lua;
  eval_restore : lua_eval (lua_read "restore_shard.lua") = restore_shard_lua;
  eval_rechallenge : lua_eval (lua_read "rechallenge.lua") = rechallenge_lua
}.

Module Redisx.
Section Redisx.
Context {S : Type} {L : Lua S}.

Definition EvalSha (sha : string) (KEYS ARGV : list string) : M S reply :=
  send (fun s c =>
    match List.find (fun src => bool_decide (sha1Hex src = sha)) c with
    | Some src => let r := lua_eval src KEYS ARGV s in (r.1, c, Ok r.2)
    | None => (s, c, Err (ErrNew "NOSCRIPT No matching script."))
    end).

Definition ScriptLoad (src : string) : M S unit := send (fun s c => (s, src :: c, Ok tt)).

(** [Script.Run]; the name of a script determines its source ([NewScript] of [MustRead]). *)
Definition Run (name : string) (KEYS ARGV : list string) : M S reply := fun w =>
  let src := lua_read name in
  match EvalSha (sha1Hex src) KEYS ARGV w with
  | (w1, Ok r) => (w1, Ok r)
  | (w1, Err e) =>
      if isNoScript e then
        match ScriptLoad src w1 with
        | (w2, Err le) => (w2, Err (ErrWrap ("load lua " +:+ name) le))
        | (w2, Ok _) => wrapping ("run lua " +:+ name) (EvalSha (sha1Hex src) KEYS ARGV) w2
        end
      else (w1, Err (ErrWrap ("run lua " +:+ name) e))
  end.

End Redisx.
End Redisx.

(** The helper [reply] of the packages that run scripts: the length check of a Lua array.
    (A reply that is not an array cannot come from the scripts of this repository.) *)
Definition check_len (sentinel : string) (v : reply) (want : nat) : result reply :=
  if bool_decide (length v = want) then Ok v else Err (ErrWrap "len" (ErrNew sentinel)).

(** [vals[i]], after the length check. *)
Definition at_ (vals : reply) (i : nat) : rv := default (RInt 0) (vals !! i).

(** ** How often a call executes its command *)

Section Executions.
Context {S : Type} {L : Lua S}.

(** The wire loses no answer. *)
Definition answered (e : wire_event) : bool := match e with WLost _ _ => false | _ => true end.

(** At most once over a wire that loses no answer, otherwise at most once for each attempt. *)
Definition times (w : world S) : nat := if forallb answered (wire w) then 1 else Datatypes.S retries.

(** The store after [k] executions of [f]. *)
Definition again {A} (f : S -> S * A) (k : nat) (s : S) : S := Nat.iter k (fun s => (f s).1) s.

(** [m] executed [f] some number of times, and if it answered it is with the last result. *)
Definition executed {A} (f : S -> S * A) (w : world S) (o : world S * result A) : Prop :=
  exists k, (k <= times w)%nat /\ db o.1 = again f k (db w) /\
    (forall a, o.2 = Ok a -> exists j, k = Datatypes.S j /\ a = (f (again f j (db w))).2).

(** The parts of the world a command leaves alone; what is left of the wire is what it was
    going to do next. *)
Definition same_process (w w' : world S) : Prop :=
  clock w' = clock w /\ entropy w' = entropy w /\ registered w' = registered w.

Lemma suffix_forallb {A} (p : A -> bool) l l' : l `suffix_of` l' -> forallb p l' = true -> forallb p l = true.
Proof. intros [x ->]. rewrite forallb_app. by intros [_ ?]%andb_true_iff. Qed.

Lemma times_suffix w w' : wire w' `suffix_of` wire w -> (times w' <= times w)%nat.
Proof.
  intros H. unfold times. destruct (forallb answered (wire w)) eqn:E; [by rewrite (suffix_forallb _ _ _ H E)|].
  case_match; lia.
Qed.

(** The outcome of a call: the error of a failed attempt, or what the last execution said. *)
Definition wire_error (e : error) (wi : list wire_event) : Prop :=
  exists b msg, e = ErrNew msg /\ (WLost b msg ∈ wi \/ WDown b msg ∈ wi).

Definition outcome_of {A} (cmd : S -> list string -> S * list string * result A) (j : nat) (w : world S) : S * list string * result A :=
  let c := Nat.iter j (fun x => (cmd x.1 x.2).1) (db w, cached w) in cmd c.1 c.2.

Definition tried {A} (n : nat) (cmd : S -> list string -> S * list string * result A) (w : world S) (o : world S * result A) : Prop :=
  exists k, (k <= Datatypes.S n)%nat /\ (forallb answered (wire w) = true -> (k <= 1)%nat) /\
    (db o.1, cached o.1) = Nat.iter k (fun x => (cmd x.1 x.2).1) (db w, cached w) /\
    same_process w o.1 /\ wire o.1 `suffix_of` wire w /\
    ((exists j, k = Datatypes.S j /\ o.2 = (outcome_of cmd j w).2) \/ (exists e, o.2 = Err e /\ wire_error e (wire w))) /\
    (wire w = [] -> k = 1%nat /\ o.2 = (outcome_of cmd 0 w).2).

Lemma wire_error_cons ev e wi : wire_error e wi -> wire_error e (ev :: wi).
Proof. intros (b & m & -> & [H|H]); exists b, m; (split; [done|]); [left|right]; by right. Qed.

(** A further attempt, after one that failed. *)
Lemma tried_again {A} n (cmd : S -> list string -> S * list string * result A) ev rest d c d1 c1 cl en re o :
  (exists m, ev = WLost false m /\ (cmd d c).1 = (d1, c1)) \/ (exists m, ev = WDown false m /\ (d, c) = (d1, c1)) ->
  tried n cmd (World d1 c1 rest cl en re) o -> tried (Datatypes.S n) cmd (World d c (ev :: rest) cl en re) o.
Proof.
  unfold tried, same_process. cbn [db cached wire clock entropy registered].
  intros Hev (k & Hk & Ha & Hdb & Hp & Hw & Ho & _).
  assert (Hs : wire o.1 `suffix_of` ev :: rest) by (by apply suffix_cons_r).
  destruct Hev as [(m & -> & E)|(m & -> & [= <- <-])]; cbn [forallb answered andb].
  - exists (Datatypes.S k). rewrite Nat.iter_succ_r. cbn [fst snd]. rewrite E.
    split_and!; [lia|done|done|apply Hp..|done| |done].
    destruct Ho as [(j & -> & Ho)|(e & Ho & He)]; [left; exists (Datatypes.S j)|right; exists e].
    + split; [done|]. rewrite Ho. unfold outcome_of. rewrite Nat.iter_succ_r. cbn [db cached fst snd]. by rewrite E.
    + split; [done|by apply wire_error_cons].
  - exists k. split_and!; [lia|done|done|apply Hp..|done| |done].
    destruct Ho as [(j & -> & Ho)|(e & Ho & He)]; [left; exists j; by split|right; exists e; split; [done|by apply wire_error_cons]].
Qed.

Lemma attempts_spec {A} n (cmd : S -> list string -> S * list string * result A) w : tried n cmd w (attempts n cmd w).
Proof.
  assert (Hdone : forall d c wi rest cl en re, next_event wi = (WOk, rest) -> rest `suffix_of` wi -> (cmd d c).1 = (cmd d c).1 ->
    forall n, tried n cmd (World d c wi cl en re) (let '(s, c', r) := cmd d c in (World s c' rest cl en re, r))).
  { intros d c wi rest cl en re _ Hs _ m. unfold tried. exists 1%nat. unfold outcome_of. cbn. destruct (cmd d c) as [[s1 c1] r1] eqn:E.
    cbn. split_and!; [lia|lia|done|done..|left; exists O; cbn; by rewrite E|done]. }
  assert (Hlost : forall d c b m rest cl en re n, tried n cmd (World d c (WLost b m :: rest) cl en re)
    (let '(s, c', _) := cmd d c in (World s c' rest cl en re, Err (ErrNew m)))).
  { intros d c b m rest cl en re n'. unfold tried. exists 1%nat. cbn. destruct (cmd d c) as [[s1 c1] r1]. cbn.
    split_and!; [lia|done|done|done..|by exists [WLost b m]| |done]. right. eexists. split; [done|]. exists b, m. split; [done|]. left. by left. }
  assert (Hdown : forall d c b m rest cl en re n, tried n cmd (World d c (WDown b m :: rest) cl en re)
    (World d c rest cl en re, Err (ErrNew m))).
  { intros d c b m rest cl en re n'. unfold tried. exists 0%nat. cbn.
    split_and!; [lia|lia|done|done..|by exists [WDown b m]| |done]. right. eexists. split; [done|]. exists b, m. split; [done|]. right. by left. }
  revert w. induction n as [|n IH]; intros [d c [|[|b m|b m] rest] cl en re]; cbn [attempts next_event wire db cached clock entropy registered].
  1, 5: by apply Hdone.
  1, 4: apply Hdone; [done|by exists [WOk]|done].
  - specialize (Hlost d c b m rest cl en re 0%nat). destruct (cmd d c) as [[s1 c1] r1]. by destruct b.
  - specialize (Hdown d c b m rest cl en re 0%nat). by destruct b.
  - specialize (Hlost d c b m rest cl en re (Datatypes.S n)). destruct (cmd d c) as [[s1 c1] r1] eqn:E. destruct b; [done|].
    apply tried_again with s1 c1; [|apply IH]. left. exists m. by rewrite E.
  - specialize (Hdown d c b m rest cl en re (Datatypes.S n)). destruct b; [done|].
    apply tried_again with d c; [|apply IH]. right. by exists m.
Qed.

(** A command other than EVALSHA. *)
Lemma command_spec {A} (f : S -> S * A) w :
  let o := command f w in
  executed f w o /\ cached o.1 = cached w /\ same_process w o.1 /\ wire o.1 `suffix_of` wire w /\
  (forall e, o.2 = Err e -> wire_error e (wire w)) /\
  (wire w = [] -> wire o.1 = [] /\ db o.1 = (f (db w)).1 /\ o.2 = Ok (f (db w)).2).
Proof.
  cbv zeta. unfold command, send. set (cmd := fun s c => _).
  destruct (attempts_spec retries cmd w) as (k & Hk & Ha & Hdb & Hp & Hw & Ho & Hh).
  assert (Hit : forall j, Nat.iter j (fun x => (cmd x.1 x.2).1) (db w, cached w) = (again f j (db w), cached w)).
  { intros j. unfold again. induction j as [|j IHj]; [done|]. by rewrite !Nat.iter_succ, IHj. }
  rewrite Hit in Hdb. injection Hdb as Hdb Hc.
  assert (Hout : forall j, (outcome_of cmd j w).2 = Ok (f (again f j (db w))).2).
  { intros j. unfold outcome_of. rewrite Hit. done. }
  split_and!; [|done|apply Hp..|done| |].
  - exists k. split; [|split; [done|]].
    + unfold times. destruct (forallb answered (wire w)); [by apply Ha|done].
    + intros a Hok. destruct Ho as [(j & -> & Ho)|(e & Ho & _)]; [|congruence]. exists j. rewrite Hout in Ho. split; [done|congruence].
  - intros e He. destruct Ho as [(j & -> & Ho)|(e' & Ho & ?)]; [rewrite Hout in Ho; congruence|]. congruence.
  - intros Hwi. destruct (Hh Hwi) as [-> Ho']. rewrite Hout in Ho'. split_and!; [|done|done].
    destruct Hw as [x Hx]. rewrite Hwi in Hx. destruct x; [done|discriminate Hx].
Qed.

End Executions.

(** ** A run executes its script as often as its command was attempted *)

Section Runs.
Context {S : Type} {R : Redis S} {L : Lua S} {LL : LuaLaws S}.

(** A cached source with the hash of an embedded file is that file. *)
Definition cache_ok (w : world S) : Prop :=
  forall src n, src ∈ cached w -> sha1Hex src = sha1Hex (lua_read n) -> src = lua_read n.

(** No failure of the wire spells the server's NOSCRIPT answer. *)
Definition event_quiet (e : wire_event) : bool :=
  match e with WOk => true | WLost _ m | WDown _ m => negb (isNoScript (ErrNew m)) end.

Definition quiet (w : world S) : Prop := forallb event_quiet (wire w) = true.

Definition ready (w : world S) : Prop := cache_ok w /\ quiet w.

Lemma quiet_error w e : quiet w -> wire_error e (wire w) -> isNoScript e = false.
Proof.
  unfold quiet. rewrite forallb_forall. intros Hq (b & m & -> & [H|H]); apply list_elem_of_In, Hq in H; cbn -[isNoScript] in H;
    by apply negb_true_iff.
Qed.

Lemma command_ready {A} (f : S -> S * A) w : ready w -> ready (command f w).1.
Proof.
  intros [Hc Hq]. destruct (command_spec f w) as (_ & E & _ & Hw & _). unfold ready, cache_ok, quiet. rewrite E.
  split; [done|]. by eapply suffix_forallb.
Qed.

Lemma find_script c n : (forall src n, src ∈ c -> sha1Hex src = sha1Hex (lua_read n) -> src = lua_read n) ->
  List.find (fun src => bool_decide (sha1Hex src = sha1Hex (lua_read n))) c = None \/
  List.find (fun src => bool_decide (sha1Hex src = sha1Hex (lua_read n))) c = Some (lua_read n).
Proof.
  intros Hc. destruct (List.find _ c) as [src|] eqn:E; [|by left]. right.
  apply List.find_some in E as [Hin Heq]. apply bool_decide_eq_true in Heq.
  rewrite (Hc src n); [done| |done]. by apply list_elem_of_In.
Qed.

Definition no_script : error := ErrNew "NOSCRIPT No matching script.".

(** EVALSHA executes the script of its hash, or answers that it is not cached. *)
Lemma EvalSha_spec n K A w : ready w ->
  let o := Redisx.EvalSha (sha1Hex (lua_read n)) K A w in
  ready o.1 /\ same_process w o.1 /\ wire o.1 `suffix_of` wire w /\
  executed (lua_eval (lua_read n) K A) w o /\
  (forall e, o.2 = Err e -> isNoScript e = true -> db o.1 = db w) /\
  (wire w = [] -> ((exists r, o.2 = Ok r) \/ o.2 = Err no_script) /\
     (lua_read n ∈ cached w -> exists r, o.2 = Ok r)).
Proof.
  intros [Hc Hq]. cbv zeta. unfold Redisx.EvalSha, send. set (cmd := fun s c => _).
  destruct (attempts_spec retries cmd w) as (k & Hk & Ha & Hdb & Hp & Hw & Ho & Hh).
  assert (Hkt : (k <= times w)%nat) by (unfold times; destruct (forallb answered (wire w)); [by apply Ha|done]).
  assert (Hin : lua_read n ∈ cached w ->
    List.find (fun src => bool_decide (sha1Hex src = sha1Hex (lua_read n))) (cached w) <> None).
  { intros Hin%list_elem_of_In Hf. apply (List.find_none _ _ Hf) in Hin. by apply bool_decide_eq_false in Hin. }
  destruct (find_script (cached w) n Hc) as [Hf|Hf].
  - assert (Hit : forall j, Nat.iter j (fun x => (cmd x.1 x.2).1) (db w, cached w) = (db w, cached w)).
    { induction j as [|j IHj]; [done|]. rewrite ?Nat.iter_succ, IHj. unfold cmd. cbn [fst snd]. by rewrite Hf. }
    rewrite Hit in Hdb. injection Hdb as Hdb Hcc.
    assert (Hout : forall j, (outcome_of cmd j w).2 = Err no_script).
    { intros j. unfold outcome_of. rewrite Hit. unfold cmd. cbn [fst snd]. by rewrite Hf. }
    assert (Herr : exists e, (attempts retries cmd w).2 = Err e) by (destruct Ho as [(j & _ & ->)|(e & -> & _)]; [rewrite Hout|]; eauto).
    split_and!; [|by apply Hp..|done| |done|].
    + split; [unfold cache_ok; by rewrite Hcc|by eapply suffix_forallb].
    + exists 0%nat. split_and!; [unfold times; case_match; lia|done|]. destruct Herr as [e ->]. done.
    + intros Hwi. destruct (Hh Hwi) as [_ ->]. rewrite Hout. split; [by right|]. intros Hl. by apply Hin in Hl.
  - assert (Hit : forall j, Nat.iter j (fun x => (cmd x.1 x.2).1) (db w, cached w) = (again (lua_eval (lua_read n) K A) j (db w), cached w)).
    { unfold again. induction j as [|j IHj]; [done|]. rewrite !Nat.iter_succ, IHj. unfold cmd. cbn [fst snd]. by rewrite Hf. }
    rewrite Hit in Hdb. injection Hdb as Hdb Hcc.
    assert (Hout : forall j, (outcome_of cmd j w).2 = Ok (lua_eval (lua_read n) K A (again (lua_eval (lua_read n) K A) j (db w))).2).
    { intros j. unfold outcome_of. rewrite Hit. unfold cmd. cbn [fst snd]. by rewrite Hf. }
    split_and!; [|by apply Hp..|done| | |].
    + split; [unfold cache_ok; by rewrite Hcc|by eapply suffix_forallb].
    + exists k. split_and!; [done|done|]. intros a Hok. destruct Ho as [(j & -> & Ho)|(e & Ho & _)]; [|congruence].
      exists j. rewrite Hout in Ho. split; [done|congruence].
    + intros e He Hns. exfalso. destruct Ho as [(j & _ & Ho)|(e' & Ho & Hwe)]; [rewrite Hout in Ho; congruence|].
      assert (e' = e) as -> by congruence. apply (quiet_error w) in Hwe; [congruence|done].
    + intros Hwi. destruct (Hh Hwi) as [_ ->]. rewrite Hout. split; eauto.
Qed.

Lemma ScriptLoad_spec n w : ready w ->
  let o := Redisx.ScriptLoad (lua_read n) w in
  ready o.1 /\ same_process w o.1 /\ wire o.1 `suffix_of` wire w /\ db o.1 = db w /\
  (wire w = [] -> o.2 = Ok tt /\ lua_read n ∈ cached o.1).
Proof.
  intros [Hc Hq]. cbv zeta. unfold Redisx.ScriptLoad, send. set (cmd := fun s c => _).
  destruct (attempts_spec retries cmd w) as (k & _ & _ & Hdb & Hp & Hw & _ & Hh).
  assert (Hit : forall j, exists c, Nat.iter j (fun x => (cmd x.1 x.2).1) (db w, cached w) = (db w, c) /\
    (forall src, src ∈ c -> src = lua_read n \/ src ∈ cached w) /\ (j = 1%nat -> lua_read n ∈ c)).
  { induction j as [|j (c & IH1 & IH2 & _)]; [exists (cached w); split_and!; [done|by right|done]|].
    exists (lua_read n :: c). rewrite Nat.iter_succ, IH1. split_and!; [done| |intros _; by left].
    intros src [->|H]%elem_of_cons; [by left|by apply IH2]. }
  destruct (Hit k) as (c & E & Hcs & H1). rewrite E in Hdb. injection Hdb as Hdb Hcc. split_and!; [|by apply Hp..|done|done|].
  - split; [|by eapply suffix_forallb]. unfold cache_ok. rewrite Hcc. intros src n0 Hs Heq.
    destruct (Hcs src Hs) as [->|Hs']; [by apply sha1_distinct|by apply Hc].
  - intros Hwi. destruct (Hh Hwi) as [-> ->]. split; [done|]. rewrite Hcc. by apply H1.
Qed.

Lemma suffix_nil_wire (w w' : world S) : wire w' `suffix_of` wire w -> wire w = [] -> wire w' = [].
Proof. intros [x Hx] E. rewrite E in Hx. by destruct x. Qed.

Lemma executed_from {A} (f : S -> S * A) (w w' : world S) o : db w' = db w -> wire w' `suffix_of` wire w ->
  executed f w' o -> executed f w o.
Proof.
  intros Hdb Hw (k & Hk & Hd & Hr). exists k. rewrite <- Hdb. pose proof (times_suffix w w' Hw). split_and!; [lia|done|done].
Qed.

Lemma executed_none {A} (f : S -> S * A) (w : world S) o e : db o.1 = db w -> o.2 = Err e -> executed f w o.
Proof. intros Hd He. exists 0%nat. split_and!; [unfold times; case_match; lia|done|]. by rewrite He. Qed.

Lemma executed_err {A} (f : S -> S * A) (w w' : world S) (r : result A) e :
  executed f w (w', r) -> executed f w (w', Err e).
Proof. intros (k & Hk & Hd & _). by exists k. Qed.

Lemma Run_spec n K A w : ready w ->
  let o := Redisx.Run n K A w in
  ready o.1 /\ same_process w o.1 /\ wire o.1 `suffix_of` wire w /\ executed (lua_eval (lua_read n) K A) w o /\
  (wire w = [] -> wire o.1 = [] /\ exists r, o.2 = Ok r).
Proof.
  intros Hw. unfold Redisx.Run. cbv zeta.
  destruct (EvalSha_spec n K A w Hw) as (Hw1 & Hp1 & Hs1 & Ho1 & Hn1 & Hh1).
  destruct (Redisx.EvalSha _ K A w) as [w1 [r|e]]; cbn [fst snd] in *.
  { split_and!; try done. intros Hwi. split; [by eapply suffix_nil_wire|eauto]. }
  destruct (isNoScript e) eqn:Hns.
  2: { split_and!; try done; cbn [fst snd].
       - by eapply executed_err.
       - intros Hwi. exfalso. destruct (proj1 (Hh1 Hwi)) as [[r ?]|[= ->]]; [done|]. by vm_compute in Hns. }
  assert (Hdb1 : db w1 = db w) by (by eapply Hn1).
  destruct (ScriptLoad_spec n w1 Hw1) as (Hw2 & Hp2 & Hs2 & Hdb2 & Hh2).
  destruct (Redisx.ScriptLoad _ w1) as [w2 [[]|le]]; cbn [fst snd] in *.
  2: { unfold same_process in *. destruct_and?. split_and!; try congruence; try done; [by etrans|by eapply executed_none; [cbn [fst]; congruence|done]|].
       intros Hwi. destruct (Hh2 ltac:(by eapply suffix_nil_wire)) as [? _]. done. }
  destruct (EvalSha_spec n K A w2 Hw2) as (Hw3 & Hp3 & Hs3 & Ho3 & _ & Hh3). unfold wrapping.
  assert (Hs13 : wire w2 `suffix_of` wire w) by (by etrans).
  assert (Hex : executed (lua_eval (lua_read n) K A) w (Redisx.EvalSha (sha1Hex (lua_read n)) K A w2))
    by (apply (executed_from _ w w2); [congruence|done|done]).
  assert (Hp13 : same_process w (Redisx.EvalSha (sha1Hex (lua_read n)) K A w2).1) by (unfold same_process in *; destruct_and?; split_and!; congruence).
  assert (Hok : wire w = [] -> exists r, (Redisx.EvalSha (sha1Hex (lua_read n)) K A w2).2 = Ok r).
  { intros Hwi. apply Hh3; [by eapply suffix_nil_wire|]. apply Hh2. by eapply suffix_nil_wire. }
  assert (Hs : wire (Redisx.EvalSha (sha1Hex (lua_read n)) K A w2).1 `suffix_of` wire w) by (by etrans).
  destruct (Redisx.EvalSha _ K A w2) as [w3 [r|e']]; cbn [fst snd] in *.
  - split_and!; try done. intros Hwi. split; [by eapply suffix_nil_wire|eauto].
  - split_and!; try done; [by eapply executed_err|]. intros Hwi. by destruct (Hok Hwi).
Qed.

(** Running a script and decoding a reply of the expected length. *)
Lemma Run_decode {B} n K A sentinel k (dec : reply -> B) w : ready w ->
  (forall s, length (lua_eval (lua_read n) K A s).2 = k) ->
  let o := (res ← Redisx.Run n K A; vals ← lift (check_len sentinel res k); mret (dec vals)) w in
  let f s := let r := lua_eval (lua_read n) K A s in (r.1, dec r.2) in
  ready o.1 /\ same_process w o.1 /\ wire o.1 `suffix_of` wire w /\ executed f w o /\
  (wire w = [] -> wire o.1 = [] /\ o.2 = Ok (f (db w)).2 /\ db o.1 = (f (db w)).1).
Proof.
  intros Hw Hk. destruct (Run_spec n K A w Hw) as (Hr & Hp & Hs & (j & Hj & Hd & Ho) & Hh).
  cbv zeta. unfold mbind, M_bind, lift, check_len, mret, M_ret.
  assert (Hag : forall i s, again (fun s => ((lua_eval (lua_read n) K A s).1, dec (lua_eval (lua_read n) K A s).2)) i s =
    again (lua_eval (lua_read n) K A) i s) by done.
  destruct (Redisx.Run n K A w) as [w' [r|e]]; cbn [fst snd] in *.
  - destruct (Ho r eq_refl) as (i & -> & Hr'). rewrite bool_decide_eq_true_2 by (by rewrite Hr'). cbn [fst snd]. split_and!; [done..| |].
    + exists (Datatypes.S i). split_and!; [done|by rewrite Hag|]. intros a [= <-]. exists i. split; [done|]. rewrite Hag. cbn [snd]. by rewrite Hr'.
    + intros Hwi. destruct (Hh Hwi) as [? _]. unfold times in Hj. rewrite Hwi in Hj. cbn in Hj.
      assert (i = 0%nat) as -> by lia. cbn in Hr', Hd. split_and!; [done|by rewrite Hr'|done].
  - split_and!; try done.
    + exists j. split_and!; [done|by rewrite Hag|done].
    + intros Hwi. destruct (Hh Hwi) as [_ [r ?]]. done.
Qed.

(** Steps before the script that leave the store alone. *)
Lemma bind_now {B} (k : time -> M S B) w :
  exists t w', mbind k now w = k t w' /\ db w' = db w /\ cached w' = cached w /\ wire w' = wire w /\
    entropy w' = entropy w.
Proof.
  unfold mbind, M_bind, now. destruct w as [d c wi [|t [|t' cl]] en re]; cbn; eexists _, _; split_and!; try done.

Qed.

Lemma bind_ok {A B} (m : M S A) (k : A -> M S B) w w1 a : m w = (w1, Ok a) -> mbind k m w = k a w1.
Proof. unfold mbind, M_bind. by intros ->. Qed.

Lemma bind_err {A B} (m : M S A) (k : A -> M S B) w w1 e : m w = (w1, Err e) -> mbind k m w = (w1, Err e).
Proof. unfold mbind, M_bind. by intros ->. Qed.

Lemma bind_lift {A B} (r : result A) (k : A -> M S B) w a : r = Ok a -> (x ← lift r; k x) w = k a w.
Proof. by intros ->. Qed.

Lemma ready_same w w' : ready w -> cached w' = cached w -> wire w' = wire w -> ready w'.
Proof. unfold ready, cache_ok, quiet. by intros [? ?] -> ->. Qed.

End Runs.

(** ** A concrete interpreter for the witnesses: a source is named by its file *)

Module MemLua.
Import MemStore.

Definition demo_eval (src : string) : list string -> list string -> gmap string cell -> gmap string cell * reply :=
  if decide (src = "enqueue.lua") then enqueue_lua
  else if decide (src = "position.lua") then position_lua
  else if decide (src = "heartbeat.lua") then heartbeat_lua
  else if decide (src = "evict.lua") then evict_lua
  else if decide (src = "admit.lua") then admit_lua
  else if decide (src = "redeem.lua") then redeem_lua
  else if decide (src = "refill_budget.lua") then refill_budget_lua
  else if decide (src = "apply_action.lua") then apply_action_lua
  else if decide (src = "move_shard.lua") then move_shard_lua
  else if decide (src = "restore_shard.lua") then restore_shard_lua
  else if decide (src = "rechallenge.lua") then rechallenge_lua
  else fun _ _ s => (s, []).

#[export] Instance demo_lua : Lua (gmap string cell) :=
  {| lua_read n := n; sha1Hex s := s; lua_eval := demo_eval; client_retries n := if n =? 0 then 3%nat else Z.to_nat n |}.

#[export] Instance demo_lua_laws : LuaLaws (gmap string cell).
Proof. split; try reflexivity. by intros n1 n2. Defined.

End MemLua.
