(* ===== verification/Again.v ===== *)
(** * Scripts that are executed more than once

    The client library sends a command again when its answer is lost, so one call of a method
    may execute its script several times with the same keys and arguments ([Conn.executed]).
    This file says what the further executions do: a join and the scripts of the decisions
    have nothing left to do after the first.  A refill of the budget does what it does again. *)

From S2P Require Import Prelude.
From S2P Require Import Redis.
From S2P Require Import Scripts.
From S2P Require Import Slot.
From S2P Require Import Ladder.
From S2P Require Import Runs.
From S2P Require Import Frame.
From S2P Require Import Conn.
Local Open Scope string_scope.
Local Open Scope Z_scope.

Section Again.
Context {S : Type} {R : Redis S} {RL : RedisLaws S} {SL : Slot}.

(** The store after [k] executions of an operation. *)
Definition repeat_op (o : op) (k : nat) (s : S) : S := again (run_op o) k s.

(** Executing an operation over and over keeps a well-formed slot so. *)
Lemma repeat_op_wf o k s : wf s -> (forall s', wf s' -> op_ok o s') -> wf (repeat_op o k s).
Proof.
  intros Hwf Hok. unfold repeat_op, again. induction k as [|k IH]; [done|]. rewrite Nat.iter_succ. by apply wf_run_op, Hok.
Qed.

Lemma repeat_op_S o k s : repeat_op o (Datatypes.S k) s = (run_op o (repeat_op o k s)).1.
Proof. done. Qed.

End Again.

(** ** A join that is executed again *)

Section Join.
Context {S : Type} {R : Redis S} {RL : RedisLaws S} {SL : Slot}.
Context (t sh : string) (now le rnd band : Z) (fp ip : string) (ttl : Z).

Abbreviation join := (OEnqueue t sh now le rnd band fp ip ttl).

(** For a token that has a place, or is past having one, joining changes no place. *)
Lemma join_again s st : wf s -> 0 < ttl -> v_state (view s t) = Some st -> st <> "evicted" ->
  (forall t', view (run_op join s).1 t' = view s t') /\ seq_of (run_op join s).1 = seq_of s.
Proof.
  intros Hwf Httl Hst Hne. destruct (decide (st = "waiting" \/ st = "evicting")) as [Hor|Hno].
  { destruct (enqueue_exists t sh now le rnd band fp ip ttl s st Hwf Httl Hst Hor) as (H1 & H2 & _). done. }
  cbn [view v_state] in Hst. unfold uhash in Hst. cbn [run_op]. unfold enqueue. rewrite HGET_v, Hst, decide_False, decide_True by done. done.
Qed.

(** After a join the token has a state, and is not evicted. *)
Lemma join_state s : wf s -> 0 < ttl -> exists st, v_state (view (run_op join s).1 t) = Some st /\ st <> "evicted".
Proof.
  intros Hwf Httl. destruct (v_state (view s t)) as [st|] eqn:E; [destruct (decide (st = "evicted")) as [->|Hne]|].
  2: { exists st. by rewrite (proj1 (join_again s st Hwf Httl E Hne)). }
  all: destruct (enqueue_created t sh now le rnd band fp ip ttl s Hwf Httl) as (-> & _); [by (left + right)|by exists "waiting"].
Qed.

(** However often it is executed, the join is one join. *)
Lemma join_settles k s : wf s -> op_ok join s ->
  wf (repeat_op join k s) /\ op_ok join (repeat_op join k s) /\
  ((0 < k)%nat -> (forall t', view (repeat_op join k s) t' = view (run_op join s).1 t') /\
     seq_of (repeat_op join k s) = seq_of (run_op join s).1) /\
  (forall x, foreign x -> cell_of (repeat_op join k s) x = cell_of s x).
Proof.
  intros Hwf Hok. pose proof (proj1 Hok) as Httl. destruct (join_state s Hwf Httl) as (st & Hst & Hne).
  induction k as [|k (IHw & IHo & IHv & IHc)]; [split_and!; try done; lia|]. rewrite repeat_op_S.
  assert (Hv : (forall t', view (run_op join (repeat_op join k s)).1 t' = view (run_op join s).1 t') /\
    seq_of (run_op join (repeat_op join k s)).1 = seq_of (run_op join s).1).
  { destruct k as [|k]; [done|]. destruct (IHv ltac:(lia)) as [Hv Hs].
    destruct (join_again _ st IHw Httl ltac:(by rewrite Hv) Hne) as [Hv' Hs']. split; [intros t'; by rewrite Hv'|by rewrite Hs']. }
  split_and!; [by apply wf_run_op| |done|].
  - destruct Hok as (? & ? & ? & _). split_and!; try done; rewrite (proj1 Hv), Hst; done.
  - intros x Hx. by rewrite run_op_frame, IHc.
Qed.

End Join.

(** ** A decision that is executed again *)

(** The word a script answers first. *)
Definition word (r : reply) : string := match r with RStr x :: _ => x | _ => emp end.

Section Settle.
Context {S : Type} {R : Redis S} {RL : RedisLaws S} {SL : Slot}.

(** The operations decisions are made of. *)
Definition decided_op (o : op) : bool :=
  match o with
  | OAction _ _ act _ _ => bool_decide (act = "observe" \/ act = "hold" \/ act = "block")
  | OMove _ _ _ _ _ | ORestore _ _ _ _ => true
  | _ => false
  end.

(** The operation has nothing left to do. *)
Definition settled (o : op) (s : S) : Prop :=
  match o with
  | OAction t _ act _ _ => exists st, uhash s t !! "state" = Some st /\ (st = "blocked" \/ act = "observe" \/ act = "hold" /\ st = "held")
  | OMove t _ _ _ _ => exists st, uhash s t !! "state" = Some st /\ (st <> "waiting" /\ st <> "evicting" \/ zset_of s (skey KQueue) !! t = None)
  | ORestore t _ _ _ => exists st, uhash s t !! "state" = Some st /\ st <> "greylist" /\ st <> "held"
  | _ => False
  end.

Ltac same_views t :=
  let t' := fresh "t'" in intros t'; cbn [fst snd]; destruct (decide (t = t')) as [<-|]; [rewrite (view_eq _ t); apply view_intro; observe0; reflexivity|frame].

Ltac still st := exists st; cbn [fst snd]; observe0; (split; [done|]).

Lemma settled_action t sc act now ttl s : let o := OAction t sc act now ttl in
  0 < ttl -> settled o s ->
  settled o (run_op o s).1 /\ (forall t, view (run_op o s).1 t = view s t) /\
  (word (run_op o s).2 = "noop" \/ word (run_op o s).2 = "observe").
Proof.
  cbv zeta. unfold settled, uhash. intros Httl (st & Hst & Hs). cbn [run_op]. unfold apply_action. rewrite HGET_v, Hst.
  destruct (decide (st = "blocked")) as [Hb|Hb]; [split_and!; [by still st|same_views t|by left]|].
  destruct (decide (act = "observe")) as [Ha|Ha]; [split_and!; [by still st|same_views t|by right]|].
  destruct Hs as [?|[?|[-> ->]]]; [done..|]. rewrite !decide_True by done. split_and!; [by still "held"; right; right|same_views t|by left].
Qed.

Lemma settled_move t grey sc now ttl s : let o := OMove t grey sc now ttl in
  0 < ttl -> settled o s ->
  settled o (run_op o s).1 /\ (forall t, view (run_op o s).1 t = view s t) /\ word (run_op o s).2 = "noop".
Proof.
  cbv zeta. unfold settled, uhash. intros Httl (st & Hst & Hs). cbn [run_op]. unfold move_shard. rewrite HGET_v, Hst.
  destruct (decide (st <> "waiting" /\ st <> "evicting")) as [Hn|Hn]; [split_and!; [by still st|same_views t|done]|].
  destruct Hs as [?|Hz]; [done|].
  assert (forall s', zset_of s' (skey KQueue) = zset_of s (skey KQueue) -> tonumber (ZSCORE (skey KQueue) t s') = None) as E
    by (intros s' E; by rewrite ZSCORE_v, E, Hz).
  rewrite E by (observe0; done). split_and!; [by still st; right|same_views t|done].
Qed.

Lemma settled_restore t origin now ttl s : let o := ORestore t origin now ttl in
  settled o s -> run_op o s = (s, [RStr "noop"; RStr (default emp (uhash s t !! "state")); RInt (-1)]).
Proof.
  cbv zeta. unfold settled, uhash. intros (st & Hst & Hs). cbn [run_op]. unfold restore_shard. rewrite HGET_v, Hst.
  by rewrite decide_True.
Qed.

Lemma settled_again o s : decided_op o = true -> op_ok o s -> settled o s ->
  settled o (run_op o s).1 /\ (forall t, view (run_op o s).1 t = view s t) /\
  (word (run_op o s).2 = "noop" \/ word (run_op o s).2 = "observe").
Proof.
  destruct o; try done; intros _ Hok Hs.
  - by apply settled_action.
  - destruct (settled_move t grey score now ttl s Hok Hs) as (? & ? & ?). auto.
  - rewrite (settled_restore t origin now ttl s Hs). split_and!; [done|done|by left].
Qed.

Lemma settles o s : decided_op o = true -> op_ok o s -> (run_op o s).1 = s \/ settled o (run_op o s).1.
Proof.
  destruct o; try done; cbn [op_ok decided_op settled run_op]; unfold uhash; intros Hd Hok.
  - apply bool_decide_eq_true in Hd. unfold apply_action. rewrite HGET_v. destruct (hash_of s _ !! "state") as [st|] eqn:Hst; [right|by left].
    destruct (decide (st = "blocked")); [still st; by left|]. destruct (decide (action = "observe")); [still st; by right; left|].
    destruct (decide (action = "hold")) as [->|]; [destruct (decide (st = "held")); [still st; by right; right|still "held"; by right; right]|].
    destruct Hd as [?|[?| ->]]; [done..|]. rewrite decide_True by done. still "blocked". by left.
  - unfold move_shard. rewrite HGET_v. destruct (hash_of s _ !! "state") as [st|] eqn:Hst; [right|by left].
    destruct (decide _) as [Hn|Hn]; [still st; by left|]. destruct (tonumber _) as [rank|] eqn:Ez.
    + destruct (HGET _ "orig_shard" s), (HGET _ "orig_rank" s); still "greylist"; by left.
    + still st. right. revert Ez. observe0. destruct (zset_of s _ !! t); [|done]. cbn. by rewrite parse_itoa.
  - unfold restore_shard. rewrite HGET_v. destruct (hash_of s _ !! "state") as [st|] eqn:Hst; [|by left].
    destruct (decide _) as [Hn|Hn]; [by left|]. destruct (tonumber _) as [rank|]; [right|by left]. by still "waiting".
Qed.

(** After the first execution no standing changes, and the word is that of the first or says
    that nothing was done. *)
Lemma decided_repeats o k s : decided_op o = true -> (forall s', op_ok o s') ->
  (forall t, view (repeat_op o (Datatypes.S k) s) t = view (run_op o s).1 t) /\
  (word (run_op o (repeat_op o k s)).2 = word (run_op o s).2 \/
   word (run_op o (repeat_op o k s)).2 = "noop" \/ word (run_op o (repeat_op o k s)).2 = "observe").
Proof.
  intros Hd Hok. destruct (settles o s Hd (Hok s)) as [E|Hs].
  - assert (Hk : forall j, repeat_op o j s = s).
    { intros j. unfold repeat_op, again. induction j as [|j IH]; [done|]. by rewrite Nat.iter_succ, IH. }
    rewrite repeat_op_S, Hk. auto.
  - destruct k as [|k]; [auto|].
    assert (Hk : forall j, settled o (repeat_op o (Datatypes.S j) s) /\ forall t, view (repeat_op o (Datatypes.S j) s) t = view (run_op o s).1 t).
    { induction j as [|j [IHs IHv]]; [done|]. rewrite repeat_op_S. destruct (settled_again o _ Hd (Hok _) IHs) as (H1 & H2 & _).
      split; [done|]. intros t. by rewrite H2. }
    destruct (Hk k) as [Hsk _]. split; [apply Hk|right]. by apply (settled_again o).
Qed.

End Settle.
