(* ===== verification/QueueStore.v ===== *)
(** * The queue's Go API ([internal/queue/queue.go], [internal/queue/sweeper.go])

    [Store]'s methods check their arguments, build the keys and arguments of one script,
    run it, and decode its reply.  Logging and metrics (in [Metrics]) are left out: they do not feed back
    into any result. *)

From S2P Require Import Prelude.
From S2P Require Import Go.
From S2P Require Import Redis.
From S2P Require Import Keys.
From S2P Require Import Shard.
From S2P Require Import Scripts.
From S2P Require Import Float.
From S2P Require Import Conn.
Local Open Scope string_scope.
Local Open Scope Z_scope.

Module Queue.

Definition LotteryBand : Z := 1000000000.
Definition maxIDLen : nat := 128.

Definition ErrEmptyToken : string := "queue: token id is required".
Definition ErrInvalidToken : string := "queue: invalid token id".
Definition ErrInvalidEvent : string := "queue: invalid event id".
Definition ErrUnexpectedReply : string := "queue: unexpected lua reply".

(** ** Decoding replies *)

Definition reply_ : reply -> nat -> result reply := check_len ErrUnexpectedReply.

(** [fmt.Sscan(t, &n)] for a decimal integer: leading blanks, a sign, the longest run of
    digits, which must fit an [int64]; what follows is left unread. *)
Fixpoint skip_blanks (s : string) : string :=
  match s with
  | String c s' =>
      if bool_decide (c = " "%char) || byte_between (ascii_of_nat 9) (ascii_of_nat 13) c
      then skip_blanks s' else s
  | EmptyString => EmptyString
  end.

Fixpoint take_while (p : ascii -> bool) (s : string) : string :=
  match s with
  | String c s' => if p c then String c (take_while p s') else EmptyString
  | EmptyString => EmptyString
  end.

Definition Sscan (t : string) : option Z :=
  let t := skip_blanks t in
  let '(neg, t) := match t with
                   | String "-" t' => (true, t')
                   | String "+" t' => (false, t')
                   | _ => (false, t)
                   end in
  let digits := take_while Ids.is_digit t in
  match parse_dec digits with
  | Some n => let n := if neg then - n else n in if in64 n then Some n else None
  | None => None
  end.

Definition asInt64 (v : rv) : Z :=
  match v with
  | RInt n => n
  | RStr t => default (-1) (Sscan t)
  end.

Definition asString (v : rv) : string :=
  match v with RStr s => s | RInt _ => emp end.

(** ** Identifiers and times *)

Definition id_char (c : ascii) : bool :=
  byte_between "a" "z" c || byte_between "A" "Z" c || byte_between "0" "9" c ||
  bool_decide (c = "-"%char) || bool_decide (c = "_"%char) || bool_decide (c = "."%char).

Definition validID (s : string) : bool :=
  if bool_decide (s = emp) || (maxIDLen <? String.length s)%nat then false
  else forall_chars id_char s.

Definition milliOrZero (t : time) : Z := if IsZero t then 0 else UnixMilli t.
Definition fromMilli (ms : Z) : time := if ms <? 0 then zero_time else time_UnixMilli ms.

Definition check (shardID tokenID : string) : result unit :=
  if decide (tokenID = emp) then Err (ErrNew ErrEmptyToken)
  else if negb (validID tokenID) then Err (ErrNew ErrInvalidToken)
  else Ids.Validate shardID.

(** ** Configuration *)

Record Config := MkConfig {
  EventID : string;
  OpenAt : time;
  LotteryWindow : Z;
  UserTTL : Z;
  HeartbeatInterval : Z;
  MissedHeartbeats : Z;
  EvictGrace : Z;
  EvictedRetain : Z;
  SweepBatch : Z
}.

(** [New]: the configuration it accepts. *)
Definition New (cfg : Config) : result Config :=
  if negb (validID (EventID cfg)) then Err (ErrNew ErrInvalidEvent)
  else if SweepBatch cfg <=? 0 then Err (ErrNew "queue: sweep batch must be > 0")
  else Ok cfg.

Definition LotteryEnd (cfg : Config) : time :=
  if IsZero (OpenAt cfg) then zero_time else time_add (OpenAt cfg) (LotteryWindow cfg).

Definition StaleAfter (cfg : Config) : Z := int64_mul (HeartbeatInterval cfg) (MissedHeartbeats cfg).

(** [lotteryRank]: eight random bytes, big-endian, modulo the band. *)
Definition be_uint64 (b : list Z) : Z := foldl (fun acc x => acc * 256 + x) 0 (take 8 b).

Definition lotteryRank {S} : M S Z :=
  b ← wrapping "queue: lottery rank" rand_Read;
  mret (wrap64 (be_uint64 b mod LotteryBand)).

(** ** Values returned *)

Record EnqueueRequest := MkEnqueueRequest {
  rShard : string; rTokenID : string; rFPHash : string; rIPPrefix : string }.

Record Ticket := MkTicket {
  tStatus : string; tShard : string; tRank : Z; tSize : Z; tScore : Z; tSegment : string }.

Definition Queued (t : Ticket) : bool :=
  bool_decide (tStatus t = "created") || bool_decide (tStatus t = "exists").

Record Snapshot := MkSnapshot {
  Status : string; SShard : string; Rank : Z; Size : Z; HoldRank : Z; HoldSize : Z; OrigRank : Z;
  Segment : string; JoinedAt : time; LastSeen : time; BotScore : Z; Rechallenges : Z;
  ObserveFrom : time }.

Definition ObservedFrom (s : Snapshot) : time :=
  if IsZero (ObserveFrom s) then JoinedAt s else ObserveFrom s.

Definition Ahead (s : Snapshot) : Z := if Rank s <? 0 then 0 else Rank s.

Definition EstimateWait (s : Snapshot) (shardAdmitPerMin : float64) : Z :=
  if (Rank s <? 0) || f64_leb shardAdmitPerMin f64_0 then 0
  else
    let minutes := f64_div (f64_of_Z (int64_add (Rank s) 1)) shardAdmitPerMin in
    int64_of_f64 (f64_mul minutes (f64_of_Z Minute)).

Record Gates := MkGates { AdmitOpensAt : time; MinDwell : Z }.

Definition EstimateWaitAt (s : Snapshot) (now : time) (shardAdmitPerMin : float64) (g : Gates) : Z :=
  let wait := EstimateWait s shardAdmitPerMin in
  if wait =? 0 then 0
  else
    let wait :=
      if negb (IsZero (AdmitOpensAt g)) then
        let left := time_sub (AdmitOpensAt g) now in
        if 0 <? left then int64_add wait left else wait
      else wait in
    let from := ObservedFrom s in
    if (0 <? MinDwell g) && negb (IsZero from) then
      let left := int64_sub (MinDwell g) (time_sub now from) in
      if wait <? left then left else wait
    else wait.

Record Beat := MkBeat {
  bStatus : string; Interval : Z; Count : Z; bRank : Z; Revived : bool }.

Record SweepResult := MkSweepResult {
  Scanned : Z; Marked : Z; Removed : Z; Ghosts : Z; NextOffset : Z; sSize : Z }.

Record RechallengeRequest := MkRechallengeRequest {
  qShard : string; qTokenID : string; MaxAttempts : Z; PassScore : Z; HoldScore : Z }.

Record RechallengeResult := MkRechallengeResult {
  Outcome : string; qStatus : string; qRank : Z; Attempts : Z; Score : Z }.

(** ** Methods of [Store] *)

Section Methods.
Context {S : Type} {R : Redis S} {L : Lua S}.
Variable cfg : Config.

Definition reregisterAfter : Z := Minute.

Definition memo_shard (shardID : string) (t : time) : M S unit := fun w =>
  (World (db w) (cached w) (wire w) (clock w) (entropy w) (<[shardID := t]> (registered w)), Ok tt).

Definition add_shard (shardID : string) : M S unit :=
  _ ← wrapping ("register shard " +:+ shardID)
        (command (fun s => (SADD (Keys.Shards (EventID cfg)) shardID s, tt)));
  t ← now;
  memo_shard shardID t.

Definition registerShard (shardID : string) : M S unit := fun w =>
  match registered w !! shardID with
  | Some t => (n ← now; if time_sub n t <? reregisterAfter then mret tt else add_shard shardID) w
  | None => add_shard shardID w
  end.

Definition enqueue_args (req : EnqueueRequest) (n : time) (lot : Z) : list string :=
  [rTokenID req; rShard req; itoa (UnixMilli n); itoa (milliOrZero (LotteryEnd cfg)); itoa lot;
   itoa LotteryBand; rFPHash req; rIPPrefix req; itoa (Milliseconds (UserTTL cfg))].

Definition Enqueue (req : EnqueueRequest) : M S Ticket :=
  let ev := EventID cfg in
  _ ← lift (check (rShard req) (rTokenID req));
  _ ← registerShard (rShard req);
  lot ← lotteryRank;
  n ← now;
  res ← Redisx.Run "enqueue.lua"
    [Keys.Queue ev (rShard req); Keys.Seq ev (rShard req); Keys.User ev (rShard req) (rTokenID req)]
    (enqueue_args req n lot);
  vals ← lift (reply_ res 5);
  mret (MkTicket (asString (at_ vals 0)) (rShard req) (asInt64 (at_ vals 1)) (asInt64 (at_ vals 2))
          (asInt64 (at_ vals 3)) (asString (at_ vals 4))).

Definition Position (shardID tokenID : string) : M S Snapshot :=
  let ev := EventID cfg in
  _ ← lift (check shardID tokenID);
  res ← Redisx.Run "position.lua"
    [Keys.Queue ev shardID; Keys.Hold ev shardID; Keys.User ev shardID tokenID] [tokenID];
  vals ← lift (reply_ res 12);
  mret (MkSnapshot (asString (at_ vals 0)) shardID (asInt64 (at_ vals 1)) (asInt64 (at_ vals 2))
    (asInt64 (at_ vals 3)) (asInt64 (at_ vals 4)) (asInt64 (at_ vals 5)) (asString (at_ vals 6))
    (fromMilli (asInt64 (at_ vals 7))) (fromMilli (asInt64 (at_ vals 8))) (asInt64 (at_ vals 9))
    (asInt64 (at_ vals 10)) (fromMilli (asInt64 (at_ vals 11)))).

Definition Heartbeat (shardID tokenID : string) : M S Beat :=
  let ev := EventID cfg in
  _ ← lift (check shardID tokenID);
  n ← now;
  res ← Redisx.Run "heartbeat.lua" [Keys.Queue ev shardID; Keys.User ev shardID tokenID]
    [tokenID; itoa (UnixMilli n); itoa (Milliseconds (UserTTL cfg))];
  vals ← lift (reply_ res 5);
  let d := asInt64 (at_ vals 1) in
  mret (MkBeat (asString (at_ vals 0)) (if 0 <=? d then int64_mul d Millisecond else 0)
    (asInt64 (at_ vals 2)) (asInt64 (at_ vals 3)) (asInt64 (at_ vals 4) =? 1)).

Definition Rechallenge (req : RechallengeRequest) : M S RechallengeResult :=
  let ev := EventID cfg in
  _ ← lift (check (qShard req) (qTokenID req));
  origin ← lift (Ids.Origin (qShard req));
  grey ← lift (Ids.Greylist (qShard req));
  n ← now;
  res ← Redisx.Run "rechallenge.lua"
    [Keys.Queue ev origin; Keys.Queue ev grey; Keys.Hold ev origin; Keys.Score ev origin;
     Keys.User ev origin (qTokenID req)]
    [qTokenID req; origin; itoa (MaxAttempts req); itoa (PassScore req); itoa (HoldScore req);
     itoa (UnixMilli n); itoa (Milliseconds (UserTTL cfg))];
  vals ← lift (reply_ res 5);
  mret (MkRechallengeResult (asString (at_ vals 0)) (asString (at_ vals 1)) (asInt64 (at_ vals 2))
    (asInt64 (at_ vals 3)) (asInt64 (at_ vals 4))).

Definition Sweep (shardID : string) (offset : Z) : M S SweepResult :=
  let ev := EventID cfg in
  _ ← lift (Ids.Validate shardID);
  n ← now;
  res ← Redisx.Run "evict.lua" [Keys.Queue ev shardID]
    [Keys.UserPrefix ev shardID; itoa (UnixMilli n); itoa (Milliseconds (StaleAfter cfg));
     itoa (Milliseconds (EvictGrace cfg)); itoa offset; itoa (SweepBatch cfg);
     itoa (Milliseconds (EvictedRetain cfg))];
  vals ← lift (reply_ res 6);
  mret (MkSweepResult (asInt64 (at_ vals 0)) (asInt64 (at_ vals 1)) (asInt64 (at_ vals 2))
    (asInt64 (at_ vals 3)) (asInt64 (at_ vals 4)) (asInt64 (at_ vals 5))).

(** [sort.Strings]. *)
Definition str_le (x y : string) : Prop := String.leb x y = true.

#[export] Instance str_le_dec : RelDecision str_le.
Proof. intros x y. unfold str_le. apply _. Defined.

Definition Shards : M S (list string) :=
  members ← wrapping "list shards"
    (command (fun s => (s, SMEMBERS (Keys.Shards (EventID cfg)) s)));
  mret (merge_sort str_le (List.filter (fun m => is_ok (Ids.Validate m)) members)).

(** One round trip for the whole pipeline; a ZCARD does not fail on its own. *)
Definition Sizes (shards : list string) : M S (list Z) :=
  match shards with
  | [] => mret []
  | _ => wrapping "read shard sizes"
           (command (fun s => (s, (fun sh => ZCARD (Keys.Queue (EventID cfg) sh) s) <$> shards)))
  end.

Definition TotalWaiting : M S Z :=
  shards ← Shards;
  sizes ← Sizes shards;
  mret (foldl int64_add 0 sizes).

(** ** [Sweeper.once]: one interval of every shard, cursors kept per shard *)

Fixpoint sweep_shards (shards : list string) (cursor : gmap string Z) : M S (gmap string Z) :=
  match shards with
  | [] => mret cursor
  | sh :: rest => fun w =>
      match Sweep sh (default 0 (cursor !! sh)) w with
      | (w', Ok res) => sweep_shards rest (<[sh := NextOffset res]> cursor) w'
      | (w', Err _) => sweep_shards rest cursor w'
      end
  end.

Definition once (cursor : gmap string Z) : M S (gmap string Z) := fun w =>
  match Shards w with
  | (w', Ok shards) => sweep_shards shards cursor w'
  | (w', Err _) => (w', Ok cursor)
  end.

End Methods.
End Queue.
