(* ===== verification/Admission.v ===== *)
(** * Admission control ([internal/admission])

    Module [Admission]: the store of [admission.go] (refill, admit, burn).
    Module [Breaker]: the circuit breaker of [breaker.go], a state machine over its three
    calls and the clock.
    Module [Controller]: one distribution cycle of [controller.go], from the health check
    to the integer shares given to the shards. *)

From Stdlib Require Import Floats.SpecFloat.
From S2P Require Import Prelude.
From S2P Require Import Go.
From S2P Require Import Redis.
From S2P Require Import Keys.
From S2P Require Import Shard.
From S2P Require Import Scripts.
From S2P Require Import Float.
From S2P Require Import Conn.
From S2P Require Import QueueStore.
Local Open Scope string_scope.
Local Open Scope Z_scope.

Module Admission.

Definition ErrInvalidEvent : string := "admission: invalid event id".
Definition ErrEmptyToken : string := "admission: token id is required".
Definition ErrUnexpectedReply : string := "admission: unexpected lua reply".

Definition BurnOK : string := "burned".
Definition BurnMissing : string := "missing".
Definition BurnMismatch : string := "mismatch".

Record Config := MkConfig {
  EventID : string;
  RatePerMin : Z;
  Interval : Z;
  AfterLottery : bool;
  OpenAt : time;
  LotteryWindow : Z;
  MinDwell : Z;
  MinBeats : Z;
  MaxBudgetPerShard : Z;
  BackpressureMin : float64;
  BreakerFailures : Z;
  BreakerCooldown : Z;
  EntryTTL : Z;
  UserTTL : Z
}.

Definition budgetTTLFactor : Z := 4.

Definition NewStore (cfg : Config) : result Config :=
  if decide (EventID cfg = emp) then Err (ErrNew ErrInvalidEvent) else Ok cfg.

Record Budget := MkBudget { bShard : string; bBudget : Z; bWaiting : Z }.

Record Result := MkResult { Status : string; Rank : Z; rBudget : Z; JTI : string; Waited : Z }.

Definition reply_ : reply -> nat -> result reply := check_len ErrUnexpectedReply.

Definition asInt64 (v : rv) : Z := match v with RInt n => n | RStr _ => -1 end.
Definition asString (v : rv) : string := match v with RStr s => s | RInt _ => emp end.

Section Methods.
Context {S : Type} {R : Redis S} {L : Lua S}.
Variable cfg : Config.

Definition Refill (shardID : string) (grant : Z) : M S Budget :=
  let ev := EventID cfg in
  _ ← lift (Ids.Validate shardID);
  res ← Redisx.Run "refill_budget.lua" [Keys.Budget ev shardID; Keys.Queue ev shardID]
    [itoa grant; itoa (MaxBudgetPerShard cfg);
     itoa (Milliseconds (int64_mul (Interval cfg) budgetTTLFactor))];
  vals ← lift (reply_ res 2);
  mret (MkBudget shardID (asInt64 (at_ vals 0)) (asInt64 (at_ vals 1))).

Definition decode_result (vals : reply) : Result :=
  let ms := asInt64 (at_ vals 4) in
  MkResult (asString (at_ vals 0)) (asInt64 (at_ vals 1)) (asInt64 (at_ vals 2))
    (asString (at_ vals 3)) (if 0 <=? ms then int64_mul ms Millisecond else 0).

Definition admit_args (shardID tokenID jti : string) (n : time) : list string :=
  [tokenID; jti; itoa (UnixMilli n); Keys.EntryPrefix (EventID cfg) shardID;
   itoa (Milliseconds (EntryTTL cfg)); itoa (Milliseconds (UserTTL cfg));
   itoa (Milliseconds (MinDwell cfg)); itoa (MinBeats cfg)].

Definition Admit (shardID tokenID jti : string) : M S Result :=
  let ev := EventID cfg in
  if decide (tokenID = emp \/ jti = emp) then fail (ErrNew ErrEmptyToken)
  else
    _ ← lift (Ids.Validate shardID);
    n ← now;
    res ← Redisx.Run "admit.lua"
      [Keys.Queue ev shardID; Keys.Budget ev shardID; Keys.User ev shardID tokenID]
      (admit_args shardID tokenID jti n);
    vals ← lift (reply_ res 5);
    mret (decode_result vals).

Definition Burn (shardID jti tokenID : string) : M S string :=
  let ev := EventID cfg in
  if decide (tokenID = emp \/ jti = emp) then fail (ErrNew ErrEmptyToken)
  else
    _ ← lift (Ids.Validate shardID);
    n ← now;
    res ← Redisx.Run "redeem.lua" [Keys.Entry ev shardID jti; Keys.User ev shardID tokenID]
      [tokenID; itoa (UnixMilli n)];
    vals ← lift (reply_ res 2);
    mret (asString (at_ vals 0)).

End Methods.
End Admission.

Module Breaker.

Inductive BreakerState := BreakerClosed | BreakerOpen | BreakerHalfOpen.

#[export] Instance state_eq_dec : EqDecision BreakerState.
Proof. solve_decision. Defined.

Record Breaker := MkBreaker {
  state : BreakerState;
  failures : Z;
  threshold : Z;
  cooldown : Z;
  openedAt : time
}.

Definition NewBreaker (threshold cooldown : Z) : Breaker :=
  MkBreaker BreakerClosed 0 (if threshold <=? 0 then 1 else threshold) cooldown zero_time.

(** [State]: reading an open breaker may move it to half-open. *)
Definition State (now : time) (b : Breaker) : Breaker * BreakerState :=
  let b := if bool_decide (state b = BreakerOpen) && (cooldown b <=? time_sub now (openedAt b))
           then MkBreaker BreakerHalfOpen (failures b) (threshold b) (cooldown b) (openedAt b) else b in
  (b, state b).

Definition Success (b : Breaker) : Breaker :=
  MkBreaker BreakerClosed 0 (threshold b) (cooldown b) (openedAt b).

Definition Failure (now : time) (b : Breaker) : Breaker :=
  let f := int64_add (failures b) 1 in
  if bool_decide (state b = BreakerHalfOpen) || (threshold b <=? f)
  then MkBreaker BreakerOpen f (threshold b) (cooldown b) now
  else MkBreaker (state b) f (threshold b) (cooldown b) (openedAt b).

(** The calls a client makes, in order, each at the time of its clock reading. *)
Inductive call := CState (now : time) | CSuccess | CFailure (now : time).

Definition do_call (b : Breaker) (c : call) : Breaker :=
  match c with
  | CState now => (State now b).1
  | CSuccess => Success b
  | CFailure now => Failure now b
  end.

Definition calls (b : Breaker) (cs : list call) : Breaker := foldl do_call b cs.

(** ** Failures since the last success *)

Definition count1 (n : Z) (c : call) : Z :=
  match c with CSuccess => 0 | CFailure _ => n + 1 | CState _ => n end.

Definition consecutive (cs : list call) : Z := foldl count1 0 cs.

Definition agrees (b : Breaker) (n : Z) : Prop :=
  failures b = n /\ 0 <= n /\ 1 <= threshold b /\ (state b = BreakerClosed <-> n < threshold b).

Lemma agrees_call b n c : agrees b n -> n + 1 < two63 -> agrees (do_call b c) (count1 n c).
Proof.
  intros (Hf & Hn & Ht & Hs) Hmax. destruct b as [st f th cd op]. cbn in *. subst f.
  destruct c as [t| |t]; unfold agrees; cbn.
  - case_bool_decide; cbn; [|done]. subst st. destruct (_ <=? _); cbn; [|done].
    split_and!; try done. rewrite <- Hs. split; done.
  - split_and!; try done. split; [intros; lia|done].
  - unfold Failure. cbn. unfold int64_add. rewrite wrap64_id by (apply in64_spec; unfold two63 in *; lia).
    case_bool_decide; cbn; [subst st; split_and!; try lia; split; [done|]|].
    + intros. assert (n < th) as Hlt by lia. by apply Hs in Hlt.
    + destruct (th <=? n + 1) eqn:E; cbn; bool_to_prop; split_and!; try lia; split; try done; try lia.
      intros. apply Hs. lia.
Qed.

Lemma agrees_calls b n cs : agrees b n -> n + Z.of_nat (length cs) < two63 ->
  agrees (calls b cs) (foldl count1 n cs).
Proof.
  revert b n. induction cs as [|c cs IH]; intros b n Hb Hlen; [done|]. cbn [calls foldl length] in *.
  rewrite Nat2Z.inj_succ in Hlen. apply IH; [apply agrees_call; [done|lia]|].
  destruct Hb as (_ & ? & _). destruct c; cbn; lia.
Qed.

Lemma New_agrees th cd : agrees (NewBreaker th cd) 0.
Proof. unfold NewBreaker, agrees. cbn. destruct (th <=? 0) eqn:E; bool_to_prop; split_and!; try lia; split; try done; lia. Qed.

Lemma threshold_calls b cs : threshold (calls b cs) = threshold b /\ cooldown (calls b cs) = cooldown b.
Proof.
  revert b. induction cs as [|c cs IH]; intros b; [done|]. cbn [calls foldl]. destruct (IH (do_call b c)) as [E1 E2].
  unfold calls in *. rewrite E1, E2. destruct c; cbn; unfold Failure; repeat case_match; done.
Qed.

(** Reads before the cooldown leave an open breaker as it is. *)
Lemma reads_open b ts : state b = BreakerOpen -> Forall (fun t => time_sub t (openedAt b) < cooldown b) ts ->
  calls b (CState <$> ts) = b.
Proof.
  intros Ho. induction ts as [|t ts IH]; intros Hts; [done|]. apply list.Forall_cons in Hts as [Ht Hts].
  rewrite fmap_cons. cbn [calls foldl do_call]. assert ((State t b).1 = b) as ->; [|by apply IH].
  unfold State. cbn. rewrite bool_decide_eq_true_2 by done. rewrite (proj2 (Z.leb_gt _ _)) by lia. done.
Qed.

End Breaker.

Module Controller.
Import Admission Breaker.

(** [NoopHealth], or [HTTPHealth] with its timeout. *)
Inductive HealthChecker :=
  | NoopHealth
  | HTTPHealth (Timeout : Z).

(** What the HTTP client reports to [HTTPHealth.Check]. *)
Inductive probe :=
  | PFailed                       (** the request could not be built or sent *)
  | PAnswer (elapsed status : Z).

Definition Check (h : HealthChecker) (p : probe) : result Z :=
  match h with
  | NoopHealth => Ok 0
  | HTTPHealth _ =>
      match p with
      | PFailed => Err (ErrWrap "health check" (ErrNew "request failed"))
      | PAnswer elapsed status =>
          if 500 <=? status then Err (ErrWrap "health check" (ErrNew "downstream unhealthy"))
          else Ok elapsed
      end
  end.

Definition healthBudget (h : HealthChecker) : Z :=
  match h with HTTPHealth t => t | NoopHealth => 0 end.

Section Pure.
Variable cfg : Config.

(** The gate is on: [AfterLottery], and the opening is known. *)
Definition gate_on : bool := negb (negb (AfterLottery cfg) || IsZero (OpenAt cfg)).

(** The time left at [now] until the lottery window closes, if it gates. *)
Definition gate_left (now : time) : option Z :=
  if gate_on then
    let end_ := time_add (OpenAt cfg) (LotteryWindow cfg) in
    let remaining := time_sub end_ now in
    if 0 <? remaining then Some remaining else None
  else None.

(** The clock is read only when the gate is on. *)
Definition gateRemaining {S} : M S (option Z) :=
  if gate_on then t ← now; mret (gate_left t) else mret None.

Definition perCycle (factor : float64) : Z :=
  let perMin := f64_mul (f64_of_Z (RatePerMin cfg)) factor in
  let n := f64_mul perMin (Minutes (Interval cfg)) in
  if f64_leb n f64_0 then 0 else int64_of_f64 (math_Round n).

Definition latencyFactor (h : HealthChecker) (latency : Z) : float64 :=
  let budget := healthBudget h in
  if budget <=? 0 then f64_1
  else
    let half := Z.quot budget 2 in
    if latency <=? half then f64_1
    else if budget <=? latency then BackpressureMin cfg
    else
      let ratio := f64_div (f64_of_Z (latency - half)) (f64_of_Z (budget - half)) in
      f64_sub f64_1 (f64_mul ratio (f64_sub f64_1 (BackpressureMin cfg))).

End Pure.

(** [weights]: greylist shards weigh nothing. *)
Fixpoint weights (shards : list string) (waiting : list Z) : list float64 :=
  match shards, waiting with
  | sh :: shards', n :: waiting' =>
      (if Ids.IsGreylist sh then f64_0 else f64_of_Z n) :: weights shards' waiting'
  | _, _ => []
  end.

(** ** [apportion]: largest remainders *)

Record rem := MkRem { idx : nat; frac : float64 }.

(** The first loop: floors, their sum, and the remainders of the positive weights. *)
Fixpoint floors (total : Z) (sum : float64) (i : nat) (w : list float64) : list Z * Z * list rem :=
  match w with
  | [] => ([], 0, [])
  | v :: w' =>
      let '(out, assigned, rems) := floors total sum (Datatypes.S i) w' in
      if f64_leb v f64_0 then (0 :: out, assigned, rems)
      else
        let exact := f64_div (f64_mul (f64_of_Z total) v) sum in
        let n := int64_of_f64 exact in
        (n :: out, int64_add n assigned, MkRem i (f64_sub exact (f64_of_Z n)) :: rems)
  end.

(** [sort.SliceStable] by decreasing remainder. *)
Fixpoint insert_rem (x : rem) (l : list rem) : list rem :=
  match l with
  | [] => [x]
  | y :: l' => if f64_ltb (frac y) (frac x) then x :: l else y :: insert_rem x l'
  end.

Definition sort_rems (l : list rem) : list rem := foldl (fun acc x => insert_rem x acc) [] l.

(** The last loop: one more for [rems[i % len(rems)]], until [total] is reached. *)
Fixpoint hand_out (fuel : nat) (rems : list rem) (i : nat) (out : list Z) : list Z :=
  match fuel with
  | O => out
  | Datatypes.S fuel' =>
      match rems !! (i mod length rems)%nat with
      | Some r => hand_out fuel' rems (Datatypes.S i)
                    (<[idx r := int64_add (default 0 (out !! idx r)) 1]> out)
      | None => out
      end
  end.

Definition positive_sum (w : list float64) : float64 :=
  foldl (fun sum v => if f64_ltb f64_0 v then f64_add sum v else sum) f64_0 w.

Definition apportion (total : Z) (w : list float64) : list Z :=
  if (total <=? 0) || bool_decide (w = []) then replicate (length w) 0
  else
    let sum := positive_sum w in
    if f64_leb sum f64_0 then replicate (length w) 0
    else
      let '(out, assigned, rems) := floors total sum 0 w in
      if (assigned <? total) && negb (bool_decide (rems = []))
      then hand_out (Z.to_nat (total - assigned)) (sort_rems rems) 0 out
      else out.

(** *** The shares add up *)

Lemma length_insert_rem x l : length (insert_rem x l) = Datatypes.S (length l).
Proof. induction l as [|y l IH]; [done|]. simpl. case_match; simpl; [done|]. by rewrite IH. Qed.

Lemma insert_rem_perm x l : insert_rem x l ≡ₚ x :: l.
Proof.
  induction l as [|y l IH]; [done|]. simpl. case_match; [done|]. rewrite IH. apply Permutation_swap.
Qed.

Lemma sort_rems_perm l : sort_rems l ≡ₚ l.
Proof.
  unfold sort_rems. assert (forall acc, foldl (fun a x => insert_rem x a) acc l ≡ₚ l ++ acc) as H.
  { induction l as [|x l IH]; intros acc; [done|]. simpl. rewrite IH, insert_rem_perm.
    by rewrite <- Permutation_middle. }
  rewrite H. by rewrite app_nil_r.
Qed.

(** The first loop: as many shares as weights, nothing for a weight that is not positive,
    and a remainder for each positive one. *)
Lemma floors_spec total sum i w out assigned rems : floors total sum i w = (out, assigned, rems) ->
  length out = length w /\ assigned = foldr int64_add 0 out /\
  (forall j v, w !! j = Some v -> f64_leb v f64_0 = true -> out !! j = Some 0) /\
  Forall (fun r => (i <= idx r < i + length w)%nat /\
                   exists v, w !! (idx r - i)%nat = Some v /\ f64_leb v f64_0 = false) rems /\
  (rems = [] -> Forall (fun v => f64_leb v f64_0 = true) w).
Proof.
  revert i out assigned rems. induction w as [|v w IH]; intros i out assigned rems; cbn [floors].
  { intros [= <- <- <-]. split_and!; try done; constructor. }
  destruct (floors total sum (Datatypes.S i) w) as [[out' a'] rems'] eqn:E.
  destruct (IH _ _ _ _ E) as (Hl & Ha & Hz & Hr & Hn).
  assert (Hr' : Forall (fun r => (i <= idx r < i + length (v :: w))%nat /\
    exists v', (v :: w) !! (idx r - i)%nat = Some v' /\ f64_leb v' f64_0 = false) rems').
  { eapply list.Forall_impl; [exact Hr|]. intros [k f] [Hk (v' & Hv' & Hp)]. cbn [idx length] in *. split; [lia|].
    exists v'. split; [|done]. replace (k - i)%nat with (Datatypes.S (k - Datatypes.S i)) by lia. done. }
  destruct (f64_leb v f64_0) eqn:Ev; intros [= <- <- <-]; cbn [length foldr].
  - split_and!; [lia| | |done|].
    + rewrite Ha. symmetry. apply (wrap64_id (foldr int64_add 0 out')).
      destruct out'; [done|]. apply wrap64_range.
    + intros [|j] v' Hv' Hp; [done|]. by eapply Hz.
    + intros Hnil. constructor; [done|]. by apply Hn.
  - split_and!; [lia|by rewrite Ha| | |done].
    + intros [|j] v' Hv' Hp; simplify_eq/=; [congruence|]. by eapply Hz.
    + constructor; [|done]. cbn [idx]. split; [lia|]. exists v. rewrite Nat.sub_diag. done.
Qed.

Definition in_shares (n : nat) (rems : list rem) : Prop := Forall (fun r => (idx r < n)%nat) rems.

(** The last loop adds exactly its fuel, one at a time, to shares that have a remainder. *)
Lemma hand_out_spec fuel rems i out B : rems <> [] -> in_shares (length out) rems ->
  Forall (fun x => 0 <= x <= B) out -> B + Z.of_nat fuel < two63 ->
  let res := hand_out fuel rems i out in
  length res = length out /\ sumZ res = sumZ out + Z.of_nat fuel /\
  (forall j x, out !! j = Some x -> exists y, res !! j = Some y /\ x <= y) /\
  (forall j, j ∉ (idx <$> rems) -> res !! j = out !! j).
Proof.
  revert i out B. induction fuel as [|fuel IH]; intros i out B Hne Hin Hb Hmax.
  { cbn [hand_out]. split_and!; [done|lia|eauto with lia|done]. }
  cbn [hand_out]. assert (Hlt : (i mod length rems < length rems)%nat).
  { apply Nat.mod_upper_bound. by destruct rems. }
  destruct (lookup_lt_is_Some_2 rems _ Hlt) as [r Hr]. rewrite Hr.
  assert (Hidx : (idx r < length out)%nat).
  { unfold in_shares in Hin. rewrite list.Forall_forall in Hin. apply Hin. by eapply list_elem_of_lookup_2. }
  destruct (lookup_lt_is_Some_2 out _ Hidx) as [x Hx]. rewrite Hx. change (default 0 (Some x)) with x.
  assert (Hxb : 0 <= x <= B) by (rewrite list.Forall_forall in Hb; apply Hb; by eapply list_elem_of_lookup_2).
  assert (int64_add x 1 = x + 1) as ->.
  { unfold int64_add. apply wrap64_id, in64_spec. unfold two63 in *. lia. }
  set (out' := <[idx r := x + 1]> out).
  assert (Hlen : length out' = length out) by apply length_insert.
  destruct (IH (Datatypes.S i) out' (B + 1) Hne) as (Hl & Hs & Hmono & Hoth).
  - by rewrite Hlen.
  - apply Forall_insert; [|lia]. eapply list.Forall_impl; [exact Hb|]. intros; cbn in *; lia.
  - lia.
  - split_and!.
    + by rewrite Hl.
    + rewrite Hs. unfold out'. rewrite (sumZ_insert out (idx r) x (x + 1) Hx). lia.
    + intros j y Hy. destruct (decide (idx r = j)) as [<-|Hn].
      * destruct (Hmono (idx r) (x + 1)) as (z & Hz & Hle); [by apply list_lookup_insert_eq|].
        exists z. split; [done|]. rewrite Hx in Hy. injection Hy as <-. lia.
      * apply Hmono. unfold out'. by rewrite list_lookup_insert_ne.
    + intros j Hj. rewrite Hoth by done. unfold out'. apply list_lookup_insert_ne. intros <-. apply Hj.
      apply list_elem_of_fmap. exists r. split; [done|]. by eapply list_elem_of_lookup_2.
Qed.

(** ** One cycle *)

Record CycleReport := MkReport {
  cShards : nat; Waiting : Z; Granted : Z; Factor : float64; cBreaker : BreakerState;
  Budgets : list Budget; SkipEmpty : Z; Gated : bool }.

Section Cycle.
Context {S : Type} {R : Redis S} {L : Lua S}.
Variables (cfg : Config) (qcfg : Queue.Config) (h : HealthChecker).

Definition brk_State (b : Breaker) : M S (Breaker * BreakerState) := fun w =>
  match state b with
  | BreakerOpen => (n ← now; mret (State n b)) w
  | _ => (w, Ok (b, state b))
  end.

Definition brk_Failure (b : Breaker) : M S Breaker := fun w =>
  if bool_decide (state b = BreakerHalfOpen) || (threshold b <=? int64_add (failures b) 1)
  then (n ← now; mret (Failure n b)) w
  else (w, Ok (Failure 0 b)).

(** [pressure]; the failure branch reads the state twice, once for the log. *)
Definition pressure (p : probe) (b : Breaker) : M S (Breaker * float64) :=
  '(b, st) ← brk_State b;
  if decide (st = BreakerOpen) then mret (b, f64_0)
  else
    match Check h p with
    | Err _ =>
        b ← brk_Failure b;
        '(b, _) ← brk_State b;
        '(b, st') ← brk_State b;
        if decide (st' = BreakerOpen) then mret (b, f64_0) else mret (b, BackpressureMin cfg)
    | Ok latency =>
        let b := Success b in
        if decide (st = BreakerHalfOpen) then mret (b, BackpressureMin cfg)
        else mret (b, latencyFactor cfg h latency)
    end.

(** The refill loop: a shard that fails does not stop the others. *)
Fixpoint refill_shards (shards : list string) (waiting grants : list Z) (rep : CycleReport)
    : M S CycleReport :=
  match shards, waiting, grants with
  | sh :: shards', n :: waiting', g :: grants' =>
      let rep := MkReport (cShards rep) (int64_add (Waiting rep) n) (Granted rep) (Factor rep)
                   (cBreaker rep) (Budgets rep) (SkipEmpty rep) (Gated rep) in
      if (n =? 0) && (g =? 0) then
        refill_shards shards' waiting' grants'
          (MkReport (cShards rep) (Waiting rep) (Granted rep) (Factor rep) (cBreaker rep)
             (Budgets rep) (SkipEmpty rep + 1) (Gated rep))
      else fun w =>
        match Refill cfg sh g w with
        | (w', Ok b) =>
            refill_shards shards' waiting' grants'
              (MkReport (cShards rep) (Waiting rep) (int64_add (Granted rep) g) (Factor rep)
                 (cBreaker rep) (Budgets rep ++ [b]) (SkipEmpty rep) (Gated rep)) w'
        | (w', Err _) => refill_shards shards' waiting' grants' rep w'
        end
  | _, _, _ => mret rep
  end.

(** The second half of [Cycle]: sizes, shares, refills. *)
Definition distribute (factor : float64) (rep : CycleReport) : M S (CycleReport * option error) := fun w =>
  match Queue.Shards qcfg w with
  | (w', Err e) => (w', Ok (rep, Some (ErrWrap "cycle" e)))
  | (w', Ok shards) =>
      let rep := MkReport (length shards) (Waiting rep) (Granted rep) (Factor rep) (cBreaker rep)
                   (Budgets rep) (SkipEmpty rep) (Gated rep) in
      match shards with
      | [] => (w', Ok (rep, None))
      | _ =>
          match Queue.Sizes qcfg shards w' with
          | (w'', Err e) => (w'', Ok (rep, Some (ErrWrap "cycle" e)))
          | (w'', Ok waiting) =>
              let total := perCycle cfg factor in
              let grants := apportion total (weights shards waiting) in
              (rep' ← refill_shards shards waiting grants rep; mret (rep', None)) w''
          end
      end
  end.

(** [Cycle]: the breaker after the cycle, the report, and the error if any. *)
Definition Cycle (p : probe) (b : Breaker) : M S (Breaker * CycleReport * option error) :=
  togo ← gateRemaining cfg;
  match togo with
  | Some _ =>
      '(b, st) ← brk_State b;
      mret (b, MkReport 0 0 0 f64_0 st [] 0 true, None)
  | None =>
      '(b, factor) ← pressure p b;
      '(b, st) ← brk_State b;
      '(rep, err) ← distribute factor (MkReport 0 0 0 factor st [] 0 false);
      mret (b, rep, err)
  end.

End Cycle.
End Controller.
