(* ===== verification/Shares.v ===== *)
(** * Shares: who gets the seats of a cycle

    [controller.go] divides the seats of one cycle among the shards in floating point
    ([weights], [apportion]).  On the sizes a queue has, the arithmetic is exact
    ([Rounding]), and the division is the method of largest remainders on integers: every
    shard gets its proportional share rounded down or up, and the shares add up to the
    seats. *)

From S2P Require Import Prelude.
From S2P Require Import Go.
From S2P Require Import Float.
From S2P Require Import Rounding.
From S2P Require Import Shard.
From S2P Require Import Admission.
Import Controller.
Local Open Scope string_scope.
Local Open Scope Z_scope.
Local Open Scope list_scope.

(** ** Proportional shares *)

(** The share of [m] in [total] seats, [sum] being everybody. *)
Definition quota (total sum m : Z) : Z := total * m / sum.

(** The waiting of a shard that counts: a greylist shard has none. *)
Definition eligible (sh : string) (n : Z) : Z := if Ids.IsGreylist sh then 0 else n.

Lemma weights_eligible shards waiting :
  weights shards waiting = f64_of_Z <$> zip_with eligible shards waiting.
Proof.
  revert waiting. induction shards as [|sh shards IH]; intros [|n waiting]; try done.
  cbn [weights zip_with]. rewrite fmap_cons, IH. unfold eligible. by destruct (Ids.IsGreylist sh).
Qed.

Section Quotas.
Variables (total sum : Z).
Hypotheses (Htotal : 0 < total) (Hsum : 0 < sum).

Lemma quota_0 : quota total sum 0 = 0.
Proof. unfold quota. by rewrite Z.mul_0_r, Z.div_0_l by lia. Qed.

Lemma quota_bounds m : 0 <= m <= sum -> 0 <= quota total sum m <= total.
Proof.
  intros Hm. unfold quota. split; [apply Z.div_pos; nia|]. apply Z.div_le_upper_bound; nia.
Qed.

(** The shares rounded down, and what they leave. *)
Lemma quota_sum ms : Forall (fun m => 0 <= m) ms ->
  sumZ (quota total sum <$> ms) * sum <= total * sumZ ms /\
  (total * sumZ ms - sumZ (quota total sum <$> ms) * sum <= Z.of_nat (length (filter (fun m => 0 < m) ms)) * (sum - 1)).
Proof.
  induction 1 as [|m ms Hm _ [IH1 IH2]]; [cbn; lia|]. rewrite fmap_cons, filter_cons. cbn [sumZ foldr].
  fold (sumZ ms) (sumZ (quota total sum <$> ms)).
  assert (Hq : quota total sum m * sum = total * m - (total * m) mod sum).
  { unfold quota. pose proof (Z.div_mod (total * m) sum ltac:(lia)). lia. }
  pose proof (Z.mod_pos_bound (total * m) sum Hsum) as Hmod.
  destruct (decide (0 < m)) as [Hp|Hz]; cbn [length].
  - rewrite Nat2Z.inj_succ. lia.
  - assert (m = 0) as -> by lia. rewrite Z.mul_0_r, Z.mod_0_l in * by lia. lia.
Qed.

(** What is left goes once around at most. *)
Lemma quota_rest ms : Forall (fun m => 0 <= m) ms -> sumZ ms = sum ->
  0 <= total - sumZ (quota total sum <$> ms) <= Z.of_nat (length (filter (fun m => 0 < m) ms)).
Proof. intros Hms E. destruct (quota_sum ms Hms) as [H1 H2]. rewrite E in *. nia. Qed.

End Quotas.

(** ** The sum of the weights *)

Lemma positive_sum_from ms a : Forall (fun m => 0 <= m) ms -> 0 <= a -> a + sumZ ms < two53 ->
  foldl (fun sum v => if f64_ltb f64_0 v then f64_add sum v else sum) (f64_of_Z a) (f64_of_Z <$> ms) = f64_of_Z (a + sumZ ms).
Proof.
  intros Hms. revert a. induction Hms as [|m ms Hm Hms IH]; intros a Ha Hlt; [cbn; by rewrite Z.add_0_r|].
  rewrite fmap_cons. cbn [foldl sumZ foldr] in *. fold (sumZ ms) in *. pose proof (sumZ_nonneg ms Hms).
  destruct (decide (m = 0)) as [->|Hm0]; [by apply IH|].
  destruct (f64_positive m) as [_ ->]; [lia|]. rewrite Z.add_assoc, <- IH by lia. f_equal.
  destruct (decide (a = 0)) as [->|Ha0]; [|apply f64_add_exact; lia].
  rewrite Z.add_0_l, (f64_of_Z_exact m) by lia. reflexivity.
Qed.

Lemma positive_sum_exact ms : Forall (fun m => 0 <= m) ms -> sumZ ms < two53 ->
  positive_sum (f64_of_Z <$> ms) = f64_of_Z (sumZ ms).
Proof. intros Hms Hlt. exact (positive_sum_from ms 0 Hms (Z.le_refl 0) Hlt). Qed.

(** ** The first loop *)

(** The places of the positive weights, from [i] on. *)
Fixpoint places (i : nat) (ms : list Z) : list nat :=
  match ms with
  | [] => []
  | m :: ms => if decide (0 < m) then i :: places (S i) ms else places (S i) ms
  end.

Lemma length_places i ms : length (places i ms) = length (filter (fun m => 0 < m) ms).
Proof.
  revert i. induction ms as [|m ms IH]; intros i; [done|]. rewrite filter_cons. cbn [places].
  destruct (decide (0 < m)); cbn [length]; by rewrite IH.
Qed.

Lemma places_ge i ms j : j ∈ places i ms -> (i <= j)%nat.
Proof.
  revert i. induction ms as [|m ms IH]; intros i; cbn [places]; [by intros ?%not_elem_of_nil|].
  destruct (decide (0 < m)); [intros [->|Hj]%elem_of_cons; [lia|]|intros Hj]; specialize (IH _ Hj); lia.
Qed.

Lemma places_NoDup i ms : NoDup (places i ms).
Proof.
  revert i. induction ms as [|m ms IH]; intros i; cbn [places]; [constructor|].
  destruct (decide (0 < m)); [|done]. apply list.NoDup_cons. split; [|done]. intros Hi%places_ge. lia.
Qed.

Lemma int64_of_quotient a b : 0 < a < two53 -> 0 < b < two53 -> int64_of_f64 (f64_div (f64_of_Z a) (f64_of_Z b)) = a / b.
Proof.
  intros Ha Hb. unfold int64_of_f64. rewrite trunc_quotient by done.
  assert (0 <= a / b < two63).
  { split; [apply Z.div_pos; lia|]. apply Z.le_lt_trans with a; [apply Z.div_le_upper_bound; nia|]. unfold two53, two63 in *. lia. }
  by rewrite (proj2 (in64_spec (a / b))) by (unfold two63 in *; lia).
Qed.

Lemma floors_quotas total sum i ms : 0 < total -> 0 < sum -> total * sum < two53 ->
  Forall (fun m => 0 <= m) ms -> sumZ ms <= sum ->
  exists rems, floors total (f64_of_Z sum) i (f64_of_Z <$> ms) = (quota total sum <$> ms, sumZ (quota total sum <$> ms), rems) /\
    idx <$> rems = places i ms.
Proof.
  intros Ht Hs Hlt Hms. revert i. induction Hms as [|m ms Hm Hms IH]; intros i Hle; [by exists []|].
  rewrite !fmap_cons. cbn [floors sumZ foldr places] in *. fold (sumZ ms) (sumZ (quota total sum <$> ms)) in *.
  pose proof (sumZ_nonneg ms Hms). destruct (IH (S i)) as (rems & -> & Hi); [lia|].
  destruct (decide (0 < m)) as [Hp|Hz].
  - destruct (f64_positive m) as [-> _]; [nia|]. rewrite f64_mul_exact, int64_of_quotient by nia.
    eexists (MkRem i _ :: rems). split; [|by rewrite fmap_cons, Hi]. change (total * m / sum) with (quota total sum m). f_equal. f_equal.
    apply wrap64_id, in64_spec. destruct (quota_sum total sum Hs (m :: ms)) as [Hq _]; [by constructor|].
    rewrite fmap_cons in Hq. cbn [sumZ foldr] in Hq. fold (sumZ ms) (sumZ (quota total sum <$> ms)) in Hq.
    pose proof (quota_bounds total sum Ht Hs m ltac:(lia)).
    assert (0 <= sumZ (quota total sum <$> ms)).
    { apply sumZ_nonneg, Forall_fmap. eapply list.Forall_impl; [exact Hms|]. intros x Hx. cbn in *. apply Z.div_pos; nia. }
    unfold two53, two63 in *. nia.
  - assert (m = 0) as -> by lia. exists rems. rewrite quota_0 by done. done.
Qed.

(** ** The last loop *)

Lemma hand_out_once fuel rems i out : NoDup (idx <$> rems) -> (i + fuel <= length rems)%nat ->
  forall j, hand_out fuel rems i out !! j =
    if decide (j ∈ idx <$> take fuel (drop i rems)) then (fun x => int64_add x 1) <$> out !! j else out !! j.
Proof.
  intros Hnd. revert i out. induction fuel as [|fuel IH]; intros i out Hle j.
  { rewrite take_0. cbn. by rewrite decide_False by set_solver. }
  cbn [hand_out]. rewrite Nat.mod_small by lia. destruct (lookup_lt_is_Some_2 rems i) as [r Hr]; [lia|]. rewrite Hr, IH by lia.
  rewrite (drop_S rems r i Hr). cbn [take]. rewrite fmap_cons.
  assert (Hnew : idx r ∉ idx <$> take fuel (drop (S i) rems)).
  { rewrite <- (take_drop_middle rems i r Hr), fmap_app, fmap_cons in Hnd. apply list.NoDup_app in Hnd as (_ & _ & [Hnot _]%list.NoDup_cons).
    intros Hin. apply Hnot. rewrite list_elem_of_fmap in Hin |- *. destruct Hin as (x & -> & Hx). exists x. split; [done|].
    rewrite <- (take_drop fuel (drop (S i) rems)). apply elem_of_app. by left. }
  destruct (decide (j = idx r)) as [->|Hj].
  - rewrite decide_False by done. rewrite decide_True by set_solver.
    destruct (out !! idx r) as [x|] eqn:Ex; [|rewrite list_insert_ge by (by apply lookup_ge_None_1); by rewrite Ex].
    rewrite list_lookup_insert_eq; [done|]. by eapply lookup_lt_Some.
  - rewrite list_lookup_insert_ne by done. destruct (decide (j ∈ idx <$> take fuel (drop (S i) rems))) as [Hin|Hout].
    + by rewrite decide_True by set_solver.
    + by rewrite decide_False by set_solver.
Qed.

(** ** The division *)

Lemma apportion_quotas total ms : 0 < total -> Forall (fun m => 0 <= m) ms -> 0 < sumZ ms -> total * sumZ ms < two53 ->
  let shares := apportion total (f64_of_Z <$> ms) in
  length shares = length ms /\ sumZ shares = total /\
  (forall j m, ms !! j = Some m -> exists x, shares !! j = Some x /\
     quota total (sumZ ms) m <= x <= quota total (sumZ ms) m + 1 /\ (m = 0 -> x = 0)).
Proof.
  intros Ht Hms Hs Hlt. cbv zeta. unfold apportion.
  rewrite (proj2 (Z.leb_gt total 0)), bool_decide_eq_false_2 by (done || by destruct ms). cbn [orb].
  rewrite positive_sum_exact by (done || nia). destruct (f64_positive (sumZ ms)) as [-> _]; [nia|].
  destruct (floors_quotas total (sumZ ms) 0 ms) as (rems & Hf & Hi); [done..|]. rewrite Hf.
  destruct (floors_spec _ _ _ _ _ _ _ Hf) as (Hl & _ & _ & Hr & _). rewrite !length_fmap in Hl.
  set (qs := quota total (sumZ ms) <$> ms) in *.
  pose proof (quota_rest total (sumZ ms) Hs ms Hms eq_refl) as Hrest. fold qs in Hrest.
  assert (Hqs : Forall (fun q => 0 <= q <= total) qs).
  { apply Forall_fmap, list.Forall_forall. intros m Hm. apply quota_bounds; [done..|].
    apply list_elem_of_lookup_1 in Hm as [j Hj]. pose proof (sumZ_insert ms j m 0 Hj) as E. pose proof (Forall_lookup_1 _ _ _ _ Hms Hj) as H0.
    assert (0 <= sumZ (<[j := 0]> ms)) by (apply sumZ_nonneg, Forall_insert; [done|lia]). cbn in H0. lia. }
  assert (Hzero : forall j, ms !! j = Some 0 -> qs !! j = Some 0).
  { intros j Hj. unfold qs. rewrite list_lookup_fmap, Hj. cbn. by rewrite quota_0. }
  destruct (decide (sumZ qs < total)) as [Hleft|Hdone].
  2: { rewrite (proj2 (Z.ltb_ge _ _)) by lia. cbn [andb]. split_and!; [unfold qs; by rewrite length_fmap|lia|]. intros j m Hj. exists (quota total (sumZ ms) m).
       unfold qs. rewrite list_lookup_fmap, Hj. split_and!; [done|lia|lia|]. intros ->. by rewrite quota_0. }
  assert (Hlen : length (sort_rems rems) = length rems) by (by rewrite (sort_rems_perm rems)).
  assert (Hn : length rems = length (filter (fun m => 0 < m) ms)) by (rewrite <- length_places with (i := 0%nat), <- Hi; by rewrite length_fmap).
  rewrite (proj2 (Z.ltb_lt _ _)) by done. rewrite bool_decide_eq_false_2 by (intros ->; cbn [length] in Hn; lia). cbn [andb negb].
  set (k := Z.to_nat (total - sumZ qs)). assert (Hk : (k <= length rems)%nat) by lia.
  assert (Hsmall : total < two53) by nia.
  assert (Hkt : Z.of_nat k <= total).
  { assert (0 <= sumZ qs) by (apply sumZ_nonneg; eapply list.Forall_impl; [exact Hqs|]; cbn; lia). lia. }
  assert (Hnd : NoDup (idx <$> sort_rems rems)) by (rewrite (sort_rems_perm rems), Hi; apply places_NoDup).
  destruct (hand_out_spec k (sort_rems rems) 0 qs total) as (Hl2 & Hs2 & _ & Hoth).
  - intros E. rewrite E in Hlen. cbn [length] in Hlen. lia.
  - unfold in_shares. rewrite (sort_rems_perm rems). eapply list.Forall_impl; [exact Hr|]. intros r [Hr' _]. rewrite length_fmap in Hr'. unfold qs. rewrite length_fmap. lia.
  - done.
  - unfold two53, two63 in *. lia.
  - split_and!; [rewrite Hl2; unfold qs; by rewrite length_fmap|rewrite Hs2; lia|]. intros j m Hj.
    pose proof (hand_out_once k (sort_rems rems) 0 qs Hnd ltac:(lia) j) as Hone.
    assert (Hq : qs !! j = Some (quota total (sumZ ms) m)) by (unfold qs; by rewrite list_lookup_fmap, Hj).
    pose proof (Forall_lookup_1 _ _ _ _ Hqs Hq) as Hb. cbn in Hb. rewrite Hq in Hone. cbn [fmap option_fmap option_map] in Hone.
    unfold int64_add in Hone. rewrite wrap64_id in Hone by (apply in64_spec; unfold two53, two63 in *; lia).
    destruct (decide (m = 0)) as [->|Hm].
    + exists 0. rewrite quota_0 by done. split_and!; [|lia|lia|done]. rewrite Hoth, Hzero; [done|done|].
      rewrite (sort_rems_perm rems). intros (r & -> & Hin)%list_elem_of_fmap. rewrite list.Forall_forall in Hr.
      destruct (Hr r Hin) as (_ & v & Hv & Hp). rewrite Nat.sub_0_r, list_lookup_fmap, Hj in Hv. injection Hv as <-. done.
    + destruct (decide _); rewrite Hone; eexists; (split_and!; [reflexivity|lia|lia|done]).
Qed.

Lemma eligible_nonneg shards waiting : Forall (fun n => 0 <= n) waiting -> Forall (fun m => 0 <= m) (zip_with eligible shards waiting).
Proof.
  intros Hw. revert shards. induction Hw as [|n waiting Hn _ IH]; intros [|sh shards]; cbn [zip_with]; constructor; [|apply IH].
  unfold eligible. by destruct (Ids.IsGreylist sh).
Qed.

Lemma apportion_none total ms : Forall (fun m => 0 <= m) ms -> total <= 0 \/ sumZ ms = 0 ->
  apportion total (f64_of_Z <$> ms) = replicate (length ms) 0.
Proof.
  intros Hms Hno. unfold apportion. rewrite length_fmap. destruct (_ || _) eqn:E; [done|]. apply orb_false_iff in E as [E _]. apply Z.leb_gt in E.
  destruct Hno as [Hno|Hno]; [lia|]. by rewrite positive_sum_exact, Hno by (done || by rewrite Hno).
Qed.

(** What the refills rely on: no share is negative, and together they are the seats or
    nothing. *)
Lemma shares_bounded total shards waiting :
  length shards = length waiting -> Forall (fun n => 0 <= n) waiting ->
  let everyone := sumZ (zip_with eligible shards waiting) in
  total * everyone < two53 ->
  let shares := apportion total (weights shards waiting) in
  length shares = length shards /\ Forall (fun x => 0 <= x) shares /\ sumZ shares <= Z.max 0 total /\
  (everyone = 0 -> sumZ shares = 0).
Proof.
  intros Hlen Hw everyone Hlt shares. subst shares. rewrite weights_eligible. set (ms := zip_with eligible shards waiting) in *.
  assert (Hml : length ms = length shards) by (unfold ms; rewrite length_zip_with; lia).
  pose proof (eligible_nonneg shards waiting Hw) as Hms. fold ms in Hms. pose proof (sumZ_nonneg ms Hms).
  destruct (decide (total <= 0 \/ everyone = 0)) as [Hno|Hyes].
  - rewrite (apportion_none total ms Hms Hno), length_replicate, sumZ_replicate. split_and!; [done|by apply Forall_replicate|lia|lia].
  - destruct (apportion_quotas total ms) as (Hl & Hs & Hx); [lia|done|unfold everyone in *; lia|done|]. split_and!; [lia| |lia|tauto].
    apply list.Forall_forall. intros x (j & Hj)%list_elem_of_lookup_1. destruct (ms !! j) as [m|] eqn:Em.
    + destruct (Hx j m Em) as (y & Hy & [Hq _] & _). rewrite Hj in Hy. injection Hy as <-.
      pose proof (Forall_lookup_1 _ _ _ _ Hms Em) as Hm. cbn in Hm. etrans; [|exact Hq]. apply Z.div_pos; unfold everyone in *; nia.
    + apply lookup_ge_None in Em. apply lookup_lt_Some in Hj. lia.
Qed.

(** The shares by the sizes of the queues: they add up to the seats, each is the proportional
    part rounded down or up, and a greylist or empty shard has none. *)
Lemma shares_proportional total shards waiting :
  length shards = length waiting -> Forall (fun n => 0 <= n) waiting ->
  let everyone := sumZ (zip_with eligible shards waiting) in
  total * everyone < two53 ->
  let shares := apportion total (weights shards waiting) in
  length shares = length shards /\
  (total <= 0 \/ everyone = 0 -> Forall (fun x => x = 0) shares) /\
  (0 < total -> 0 < everyone -> sumZ shares = total /\
   forall j sh n, shards !! j = Some sh -> waiting !! j = Some n -> exists x, shares !! j = Some x /\
     (if Ids.IsGreylist sh then x = 0
      else total * n / everyone <= x <= total * n / everyone + 1 /\ (n = 0 -> x = 0))).
Proof.
  intros Hlen Hw everyone Hlt shares. set (ms := zip_with eligible shards waiting) in *.
  assert (Hml : length ms = length shards) by (unfold ms; rewrite length_zip_with; lia).
  pose proof (eligible_nonneg shards waiting Hw) as Hms. fold ms in Hms.
  pose proof (sumZ_nonneg ms Hms). subst shares. rewrite weights_eligible. fold ms.
  pose proof (apportion_none total ms Hms) as Hnone.
  split; [|split].
  - destruct (decide (total <= 0 \/ everyone = 0)) as [Hno|Hyes]; [rewrite Hnone by done; by rewrite length_replicate|].
    destruct (apportion_quotas total ms) as (-> & _); [lia|done|unfold everyone in *; lia|done|done].
  - intros Hno. rewrite Hnone by done. by apply Forall_replicate.
  - intros Ht He. destruct (apportion_quotas total ms Ht Hms He Hlt) as (_ & Hs & Hx). split; [done|]. intros j sh n Hj Hn.
    destruct (Hx j (eligible sh n)) as (x & Hxj & Hq & Hz); [unfold ms; by rewrite lookup_zip_with, Hj, Hn|]. exists x. split; [done|].
    unfold eligible in *. destruct (Ids.IsGreylist sh); [by apply Hz|]. split; [exact Hq|exact Hz].
Qed.

(** Seven seats for three shards and a greylist one; and a shard of one person, next to a
    crowd, which gets none of ten: what a cycle rounds away is not carried to the next. *)
Example seven_seats :
  apportion 7 (weights ["s0000"; "s0001"; "s0002"; "g0000"] [10; 5; 1; 40]) = [4; 2; 1; 0] /\
  apportion 10 (weights ["s0000"; "s0001"] [1000; 1]) = [10; 0].
Proof. vm_compute. done. Qed.
