(* ===== verification/Metrics.v ===== *)
(** * Metrics and log levels

    [internal/obs]: the log level of a text, the table of [NewMetrics] and what the services
    record in it.  The Prometheus client is not part of the repository; of it the development
    states what makes the program panic: registering two collectors of one name, a label
    named twice or like a constant label, buckets out of order, a recording with another
    number of label values than the collector has labels, a counter that is decreased.
    [metrics_never_panic] shows that none of these happens. *)

From Stdlib Require Import Floats.SpecFloat.
From S2P Require Import Prelude.
From S2P Require Import Go.
From S2P Require Import Float.
From S2P Require Import Rounding.
From S2P Require Import QueueStore.
From S2P Require Import Admission.
Local Open Scope string_scope.
Local Open Scope Z_scope.
Local Open Scope list_scope.

Module Obs.

(** ** [log.go] *)

Inductive Level := LevelDebug | LevelInfo | LevelWarn | LevelError.

Definition ascii_lower (c : ascii) : ascii :=
  if byte_between "A" "Z" c then ascii_of_nat (nat_of_ascii c + 32) else c.

(** [strings.ToLower], on ASCII. *)
Fixpoint ToLower (s : string) : string :=
  match s with EmptyString => EmptyString | String c s' => String (ascii_lower c) (ToLower s') end.

Definition ParseLevel (s : string) : Level :=
  let t := ToLower (TrimSpace s) in
  if decide (t = "debug") then LevelDebug
  else if decide (t = "warn" \/ t = "warning") then LevelWarn
  else if decide (t = "error") then LevelError
  else LevelInfo.

(** A JSON logger on the standard output: the level below which it is silent, and what every
    line carries. *)
Record Logger := MkLogger { minimum : Level; attrs : list (string * string) }.

Definition NewLogger (level service : string) : Logger := MkLogger (ParseLevel level) [("service", service)].

(** ** The collectors ([Metrics]) *)

Inductive metric :=
  | HTTPRequests | HTTPDuration | HTTPInFlight
  | Enqueued | QueueSize | Evicted
  | AdmitAttempts | AdmitBudget | AdmitRate | Redeemed | WaitSeconds
  | ChallengeIssued | ChallengeVerified | PoWDifficulty | PoWSolveSeconds | Rechallenge
  | TokenRejected
  | TelemetryEvents | TelemetryErrors | ScorerLagSeconds | ScoreValue | Actions | SignalScore
  | Orders.

Inductive kind := Counter | Gauge | Histogram (buckets : list float64).

Record desc := MkDesc { name : string; sort_ : kind; labels : list string; constant : list string }.

Definition namespace : string := "shardgate".

(** A decimal constant [n / 10^k] of a bucket list. *)
Definition dec (n k : Z) : float64 := f64_div (f64_of_Z n) (f64_of_Z (10 ^ k)).

Definition durationBuckets : list float64 :=
  [dec 1 3; dec 5 3; dec 1 2; dec 25 3; dec 5 2; dec 1 1; dec 25 2; dec 5 1; dec 1 0; dec 25 1; dec 5 0; dec 10 0].
Definition waitBuckets : list float64 := f64_of_Z <$> [1; 5; 10; 30; 60; 120; 300; 600; 1200; 1800; 3600].
Definition scoreBuckets : list float64 := f64_of_Z <$> [0; 10; 20; 30; 40; 50; 60; 70; 80; 90; 100].
Definition solveBuckets : list float64 :=
  [dec 1 2; dec 5 2; dec 1 1; dec 25 2; dec 5 1; dec 1 0; dec 2 0; dec 5 0; dec 10 0; dec 30 0].

(** [prometheus.LinearBuckets]. *)
Fixpoint LinearBuckets (start width : float64) (count : nat) : list float64 :=
  match count with
  | O => []
  | Datatypes.S n => start :: LinearBuckets (f64_add start width) width n
  end.

(** The helpers [counterVec], [gaugeVec], [gauge] and [histogramVec]: the namespace and the
    constant label of the service are added. *)
Definition opts (n : string) (k : kind) (ls : list string) : desc :=
  MkDesc (namespace +:+ "_" +:+ n) k ls ["service"].

Definition counterVec (n : string) (ls : list string) : desc := opts n Counter ls.
Definition gaugeVec (n : string) (ls : list string) : desc := opts n Gauge ls.
Definition gauge (n : string) : desc := opts n Gauge [].
Definition histogramVec (n : string) (buckets : list float64) (ls : list string) : desc := opts n (Histogram buckets) ls.

(** The collectors of [NewMetrics], in its order. *)
Definition all_metrics : list metric :=
  [HTTPRequests; HTTPDuration; HTTPInFlight; Enqueued; QueueSize; Evicted; AdmitAttempts; AdmitBudget; AdmitRate;
   Redeemed; WaitSeconds; ChallengeIssued; ChallengeVerified; PoWDifficulty; PoWSolveSeconds; Rechallenge;
   TokenRejected; TelemetryEvents; TelemetryErrors; ScorerLagSeconds; ScoreValue; Actions; SignalScore; Orders].

Definition describe (m : metric) : desc :=
  match m with
  | HTTPRequests => counterVec "http_requests_total" ["route"; "method"; "code"]
  | HTTPDuration => histogramVec "http_request_duration_seconds" durationBuckets ["route"; "method"]
  | HTTPInFlight => gauge "http_in_flight_requests"
  | Enqueued => counterVec "queue_enqueued_total" ["event"; "segment"]
  | QueueSize => gaugeVec "queue_size" ["event"; "shard"]
  | Evicted => counterVec "queue_evicted_total" ["event"; "reason"]
  | AdmitAttempts => counterVec "admission_attempts_total" ["event"; "result"]
  | AdmitBudget => gaugeVec "admission_budget" ["event"; "shard"]
  | AdmitRate => gauge "admission_effective_rate_per_min"
  | Redeemed => counterVec "admission_redeem_total" ["event"; "result"]
  | WaitSeconds => histogramVec "admission_wait_seconds" waitBuckets ["event"]
  | ChallengeIssued => counterVec "challenge_issued_total" ["event"]
  | ChallengeVerified => counterVec "challenge_verified_total" ["event"; "result"]
  | PoWDifficulty => histogramVec "challenge_difficulty_bits" (LinearBuckets (f64_of_Z 8) (f64_of_Z 2) 12) ["event"]
  | PoWSolveSeconds => histogramVec "challenge_solve_seconds" solveBuckets ["event"]
  | Rechallenge => counterVec "rechallenge_total" ["event"; "outcome"]
  | TokenRejected => counterVec "token_rejected_total" ["kind"; "reason"]
  | TelemetryEvents => counterVec "telemetry_events_total" ["type"; "direction"]
  | TelemetryErrors => counterVec "telemetry_errors_total" ["stage"]
  | ScorerLagSeconds => gauge "scorer_lag_seconds"
  | ScoreValue => histogramVec "botscore_value" scoreBuckets ["event"]
  | Actions => counterVec "botscore_actions_total" ["event"; "action"]
  | SignalScore => histogramVec "botscore_signal" scoreBuckets ["signal"]
  | Orders => counterVec "orders_total" ["result"]
  end.

(** ** Registering: [None] is a panic *)

Fixpoint increasing (bs : list float64) : bool :=
  match bs with
  | a :: (b :: _) as rest => f64_ltb a b && increasing rest
  | _ => true
  end.

(** A description the client accepts: labels distinct from each other and from the constant
    ones, no "le" on a histogram, whose buckets increase. *)
Definition accepted (d : desc) : bool :=
  bool_decide (NoDup (labels d ++ constant d)) &&
  match sort_ d with
  | Histogram bs => increasing bs && negb (bool_decide ("le" ∈ labels d ++ constant d))
  | _ => true
  end.

(** ** Recording *)

Inductive change := Inc | Dec | Add (x : float64) | Set_ (x : float64) | Observe (x : float64).

(** [m.WithLabelValues(values...)] and a call on the result; for a collector without labels,
    the call itself. *)
Record sample := Sample { of_ : metric; values : list string; what : change }.

(** The call exists on the collector, has a value for each label, and decreases no counter. *)
Definition legal (x : sample) : bool :=
  let d := describe (of_ x) in
  (length (values x) =? length (labels d))%nat &&
  match sort_ d, what x with
  | Counter, Inc | Gauge, Inc | Gauge, Dec | Gauge, Set_ _ | Histogram _, Observe _ => true
  | Counter, Add v => f64_leb f64_0 v
  | _, _ => false
  end.

(** ** The client

    What the program asks of it, [None] being a panic, and what its documentation says: a
    collector it accepts, under a name that is not taken, is registered; a recording that fits
    its collector is taken. *)

Class Prometheus := {
  registry : Type;
  NewRegistry : registry;
  MustRegister : desc -> registry -> option registry;
  record : sample -> option unit
}.

Class PrometheusLaws `{Prometheus} := {
  registered : registry -> list string;
  registered_new : registered NewRegistry = [];
  register_fresh d r : accepted d = true -> name d ∉ registered r ->
    exists r', MustRegister d r = Some r' /\ registered r' = name d :: registered r;
  record_legal x : legal x = true -> record x = Some tt
}.

Fixpoint register_all `{Prometheus} (ds : list desc) (reg : registry) : option registry :=
  match ds with
  | [] => Some reg
  | d :: ds => reg ← MustRegister d reg; register_all ds reg
  end.

(** [NewMetrics]; [runtime] are the descriptions of the two collectors of the client. *)
Definition NewMetrics `{Prometheus} (runtime : list desc) : option registry :=
  reg ← register_all (describe <$> all_metrics) NewRegistry; register_all runtime reg.

(** [queue.Store]. *)
Definition Enqueue_samples (ev shard : string) (t : Queue.Ticket) : list sample :=
  (if decide (Queue.tStatus t = "created") then [Sample Enqueued [ev; Queue.tSegment t] Inc] else []) ++
  [Sample QueueSize [ev; shard] (Set_ (f64_of_Z (Queue.tSize t)))].

Definition Position_samples (ev shard : string) (x : Queue.Snapshot) : list sample :=
  [Sample QueueSize [ev; shard] (Set_ (f64_of_Z (Queue.Size x)))].

Definition Sweep_samples (ev shard : string) (r : Queue.SweepResult) : list sample :=
  (if 0 <? Queue.Removed r then [Sample Evicted [ev; "heartbeat_timeout"] (Add (f64_of_Z (Queue.Removed r)))] else []) ++
  (if 0 <? Queue.Ghosts r then [Sample Evicted [ev; "ghost"] (Add (f64_of_Z (Queue.Ghosts r)))] else []) ++
  [Sample QueueSize [ev; shard] (Set_ (f64_of_Z (Queue.sSize r)))].

(** [admission.Store] and the controller. *)
Definition Refill_samples (ev shard : string) (b : Admission.Budget) : list sample :=
  [Sample AdmitBudget [ev; shard] (Set_ (f64_of_Z (Admission.bBudget b)))].

Definition Admit_samples (ev shard : string) (r : Admission.Result) : list sample :=
  [Sample AdmitAttempts [ev; Admission.Status r] Inc; Sample AdmitBudget [ev; shard] (Set_ (f64_of_Z (Admission.rBudget r)))] ++
  (if bool_decide (Admission.Status r = "admitted") && (0 <? Admission.Waited r)
   then [Sample WaitSeconds [ev] (Observe (Seconds (Admission.Waited r)))] else []).

Definition Burn_samples (ev st : string) : list sample := [Sample Redeemed [ev; st] Inc].

Definition gated_samples : list sample := [Sample AdmitRate [] (Set_ f64_0)].

Definition Cycle_samples (cfg : Admission.Config) (factor : float64) : list sample :=
  [Sample AdmitRate [] (Set_ (f64_mul (f64_of_Z (Admission.RatePerMin cfg)) factor))].

(** The handlers. *)
Definition rejected_samples (kind reason : string) : list sample := [Sample TokenRejected [kind; reason] Inc].

Definition enter_samples (ev : string) (difficulty : Z) : list sample :=
  [Sample ChallengeIssued [ev] Inc; Sample PoWDifficulty [ev] (Observe (f64_of_Z difficulty))].

Definition reissue_samples (ev : string) (difficulty : Z) : list sample :=
  enter_samples ev difficulty ++ [Sample Rechallenge [ev; "issued"] Inc].

Definition verify_failed_samples (ev reason : string) : list sample := [Sample ChallengeVerified [ev; reason] Inc].

Definition solved_samples (ev : string) (solveMS : Z) : list sample :=
  [Sample ChallengeVerified [ev; "ok"] Inc] ++
  (if 0 <? solveMS then [Sample PoWSolveSeconds [ev] (Observe (f64_div (f64_of_Z solveMS) (f64_of_Z 1000)))] else []).

Definition stale_samples (ev : string) : list sample := [Sample Rechallenge [ev; "too_easy"] Inc].

Definition reverify_failed_samples (ev reason : string) : list sample :=
  verify_failed_samples ev reason ++ [Sample Rechallenge [ev; "failed"] Inc].

Definition outcome_samples (ev outcome : string) : list sample := [Sample Rechallenge [ev; outcome] Inc].

Definition count (result : string) : list sample := [Sample Orders [result] Inc].

(** [httpx.Observe]: before the handler, after it, and when it is left. *)
Definition http_samples (route method : string) (code : Z) (elapsed : Z) : list sample :=
  let route := if decide (route = emp) then "unmatched" else route in
  [Sample HTTPInFlight [] Inc; Sample HTTPRequests [route; method; itoa code] Inc;
   Sample HTTPDuration [route; method] (Observe (Seconds elapsed)); Sample HTTPInFlight [] Dec].

(** The telemetry pipeline and the scorer. *)
Definition Publish_samples (kind : string) (buffered : bool) : list sample :=
  if buffered then [Sample TelemetryEvents [kind; "out"] Inc] else [Sample TelemetryErrors ["buffer_full"] Inc].

Definition batch_lost_samples (n : nat) : list sample := [Sample TelemetryErrors ["write"] (Add (f64_of_Z (Z.of_nat n)))].

Definition encode_failed_samples : list sample := [Sample TelemetryErrors ["encode"] Inc].

(** One turn of the reading loop. *)
Inductive reading := ReadFailed | DecodeFailed | Consumed (at_ now : time).

Definition Consumer_samples (x : reading) : list sample :=
  match x with
  | ReadFailed => [Sample TelemetryErrors ["read"] Inc]
  | DecodeFailed => [Sample TelemetryErrors ["decode"] Inc]
  | Consumed at_ now => if IsZero at_ then [] else [Sample ScorerLagSeconds [] (Set_ (Seconds (time_sub now at_)))]
  end.

Definition Observe_samples (kind : string) : list sample := [Sample TelemetryEvents [kind; "in"] Inc].

Definition decide_samples (ev : string) (score : float64) (signals : list (string * float64)) : list sample :=
  Sample ScoreValue [ev] (Observe score) ::
  ((fun s => Sample SignalScore [s.1] (Observe (f64_mul s.2 (f64_of_Z 100)))) <$> signals).

Definition Apply_samples (ev applied : string) : list sample := [Sample Actions [ev; applied] Inc].

(** Everything the services record. *)
Inductive recorded : list sample -> Prop :=
  | r_enqueue ev sh t : recorded (Enqueue_samples ev sh t)
  | r_position ev sh x : recorded (Position_samples ev sh x)
  | r_sweep ev sh r : recorded (Sweep_samples ev sh r)
  | r_refill ev sh b : recorded (Refill_samples ev sh b)
  | r_admit ev sh r : recorded (Admit_samples ev sh r)
  | r_burn ev st : recorded (Burn_samples ev st)
  | r_gated : recorded gated_samples
  | r_cycle cfg f : recorded (Cycle_samples cfg f)
  | r_rejected k r : recorded (rejected_samples k r)
  | r_enter ev d : recorded (enter_samples ev d)
  | r_reissue ev d : recorded (reissue_samples ev d)
  | r_verify_failed ev r : recorded (verify_failed_samples ev r)
  | r_solved ev ms : recorded (solved_samples ev ms)
  | r_stale ev : recorded (stale_samples ev)
  | r_reverify_failed ev r : recorded (reverify_failed_samples ev r)
  | r_outcome ev o : recorded (outcome_samples ev o)
  | r_count r : recorded (count r)
  | r_http route m c e : recorded (http_samples route m c e)
  | r_publish k b : recorded (Publish_samples k b)
  | r_batch n : Z.of_nat n < two63 -> recorded (batch_lost_samples n)
  | r_encode : recorded encode_failed_samples
  | r_consumer x : recorded (Consumer_samples x)
  | r_observe k : recorded (Observe_samples k)
  | r_decide ev sc ss : recorded (decide_samples ev sc ss)
  | r_apply ev a : recorded (Apply_samples ev a).

(** ** Lemmas *)

Lemma register_names `{PrometheusLaws} ds reg :
  forallb accepted ds = true -> NoDup (name <$> ds) -> (forall d, d ∈ ds -> name d ∉ registered reg) ->
  exists reg', register_all ds reg = Some reg' /\ registered reg' ≡ₚ (name <$> ds) ++ registered reg.
Proof.
  revert reg. induction ds as [|d ds IH]; intros reg; [by exists reg|]. cbn [forallb]. rewrite fmap_cons.
  intros [Ha Has]%andb_true_iff [Hd Hnd]%list.NoDup_cons Hfresh. cbn [register_all].
  destruct (register_fresh d reg Ha) as (r1 & -> & E1); [apply Hfresh; left|]. cbn [mbind option_bind].
  destruct (IH r1 Has Hnd) as (reg' & Hreg & Hp).
  - intros d' Hd'. rewrite E1, not_elem_of_cons. split; [|apply Hfresh; by right]. intros E. apply Hd. rewrite <- E. by apply list_elem_of_fmap_2.
  - exists reg'. split; [done|]. rewrite Hp, E1. cbn [app]. by rewrite Permutation_middle.
Qed.

#[export] Instance metric_eq_dec : EqDecision metric.
Proof. solve_decision. Defined.

Lemma all_metrics_all m : m ∈ all_metrics.
Proof. apply (bool_decide_unpack (m ∈ all_metrics)). by destruct m. Qed.

Lemma recorded_legal l : recorded l -> forallb legal l = true.
Proof.
  destruct 1; unfold Enqueue_samples, Position_samples, Sweep_samples, Refill_samples, Admit_samples, Burn_samples, solved_samples,
    Publish_samples, Consumer_samples, decide_samples; repeat case_match; try reflexivity; cbn [app forallb legal of_ values what describe];
    bool_to_prop; cbn; rewrite ?f64_of_Z_nonneg by lia; try reflexivity.
  induction ss as [|s ss IH]; [done|]. exact IH.
Qed.

(** C39: the metrics never panic.  [NewMetrics] registers all its collectors and those of the
    client (of other names, each accepted and no two alike), every name once.  And whatever
    the services record, with whatever values, goes to a collector of the right kind, with a
    value for each of its labels, and no counter is decreased. *)
Theorem metrics_never_panic `{PrometheusLaws} runtime :
  forallb accepted runtime = true -> NoDup (name <$> runtime) ->
  Forall (fun d => String.prefix "shardgate_" (name d) = false) runtime ->
  (exists reg, NewMetrics runtime = Some reg /\ registered reg ≡ₚ (name <$> runtime) ++ (name <$> (describe <$> all_metrics)) /\ NoDup (registered reg)) /\
  (forall m, m ∈ all_metrics) /\
  (forall l, recorded l -> Forall (fun x => legal x = true /\ record x = Some tt) l).
Proof.
  intros Ha Hnd Hf.
  assert (Hown : NoDup (name <$> (describe <$> all_metrics))) by
    (apply (bool_decide_unpack (NoDup (name <$> (describe <$> all_metrics)))); vm_compute; exact I).
  assert (Hpre : forall n, n ∈ name <$> (describe <$> all_metrics) -> String.prefix "shardgate_" n = true).
  { intros n Hn. assert (Hall : forallb (String.prefix "shardgate_") (name <$> (describe <$> all_metrics)) = true) by (vm_compute; reflexivity).
    rewrite forallb_forall in Hall. apply Hall. by apply list_elem_of_In. }
  rewrite list.Forall_forall in Hf. split_and!; [|exact all_metrics_all|].
  - destruct (register_names (describe <$> all_metrics) NewRegistry) as (reg1 & E1 & P1).
    + vm_compute. reflexivity.
    + done.
    + intros d _. rewrite registered_new. apply not_elem_of_nil.
    + rewrite registered_new, app_nil_r in P1. destruct (register_names runtime reg1 Ha Hnd) as (reg2 & E2 & P2).
      { intros d Hd. rewrite P1. intros Hn%Hpre. by rewrite (Hf d Hd) in Hn. }
      exists reg2. unfold NewMetrics. rewrite E1. cbn [mbind option_bind]. rewrite P1 in P2. split_and!; [done|done|].
      rewrite P2. apply list.NoDup_app. split_and!; [done| |done].
      intros n Hn Hn'%Hpre. apply list_elem_of_fmap in Hn as (d & -> & Hd). by rewrite (Hf d Hd) in Hn'.
  - intros l Hl%recorded_legal. rewrite forallb_forall in Hl. apply list.Forall_forall. intros x Hx%list_elem_of_In.
    split; [by apply Hl|by apply record_legal, Hl].
Qed.

(** A client that keeps the descriptions, and two collectors in place of its own. *)
Definition listing : Prometheus :=
  {| registry := list desc; NewRegistry := [];
     MustRegister d reg := if accepted d && negb (bool_decide (name d ∈ name <$> reg)) then Some (d :: reg) else None;
     record x := if legal x then Some tt else None |}.

Lemma listing_laws : @PrometheusLaws listing.
Proof.
  refine {| registered := fun reg : @registry listing => name <$> (reg : list desc) |}; [reflexivity| |].
  - intros d reg Ha Hn. exists (d :: reg). cbn. by rewrite Ha, bool_decide_eq_false_2 by done.
  - intros x Hx. cbn. by rewrite Hx.
Defined.

Definition two_collectors : list desc :=
  [MkDesc "go_goroutines" Gauge [] []; MkDesc "process_cpu_seconds_total" Counter [] []].

Lemma metrics_never_panic_witness :
  (exists reg, @NewMetrics listing two_collectors = Some reg) /\
  Forall (fun x => legal x = true /\ @record listing x = Some tt) (solved_samples "concert" 1500).
Proof.
  destruct (@metrics_never_panic listing listing_laws two_collectors) as ((reg & H1 & _) & _ & H2).
  - vm_compute. reflexivity.
  - apply (bool_decide_unpack (NoDup (name <$> two_collectors))). vm_compute. exact I.
  - repeat constructor.
  - split; [exists reg; exact H1|]. apply H2. constructor.
Defined.

End Obs.
