(* ===== verification/Refine.v ===== *)
(** * The Go stores implement the operations of a slot

    Each method of the queue and admission stores is, on the store of Redis, one operation of
    [Ladder.op] on the slot of its shard, executed as often as the client library attempts it:
    the keys it builds are the slot's, the arguments it formats are read back unchanged, the
    reply always has the length it expects, a reloaded script is not executed twice, and an
    answer is that of the last execution. *)

From S2P Require Import Prelude.
From S2P Require Import Go.
From S2P Require Import Redis.
From S2P Require Import Keys.
From S2P Require Import Shard.
From S2P Require Import Scripts.
From S2P Require Import Slot.
From S2P Require Import Ladder.
From S2P Require Import Runs.
From S2P Require Import Conn.
From S2P Require Import Again.
From S2P Require Import QueueStore.
From S2P Require Import Admission.
Local Open Scope string_scope.
Local Open Scope Z_scope.

Lemma arg_itoa z : arg (itoa z) = z.
Proof. unfold arg. by rewrite parse_itoa. Qed.

(** ** The replies have the lengths the callers check *)

Section Lengths.
Context {S : Type} {R : Redis S} {RL : RedisLaws S} {SL : Slot}.

Definition reply_length (o : op) : nat :=
  match o with
  | OEnqueue _ _ _ _ _ _ _ _ _ | OHeartbeat _ _ _ | OAdmit _ _ _ _ _ _ _
  | ORechallenge _ _ _ _ _ _ _ => 5
  | OPosition _ => 12
  | OEvict _ _ _ _ _ _ => 6
  | ORedeem _ _ _ | ORefill _ _ _ => 2
  | OAction _ _ _ _ _ | OMove _ _ _ _ _ | ORestore _ _ _ _ => 3
  | _ => 0
  end.

Lemma run_op_length o s : length (run_op o s).2 = reply_length o.
Proof.
  destruct o; cbn [run_op reply_length]; scripts; prep; branches;
    try reflexivity; repeat case_match; try reflexivity.
Qed.

End Lengths.

(** ** Valid identifiers make a slot *)

Lemma validID_plain s : Queue.validID s = true -> plain s = true.
Proof.
  unfold Queue.validID. destruct (_ || _); [done|]. apply forall_chars_impl.
  intros c. unfold Queue.id_char, plain_char. intros Hc. apply negb_true_iff, not_true_is_false. intros Hp.
  rewrite !orb_true_iff, !bool_decide_eq_true in Hp. destruct Hp as [[-> | ->]| ->]; by vm_compute in Hc.
Qed.

Lemma Validate_digits c rest : Ids.Validate (String c rest) = Ok tt ->
  (c = Ids.normalPrefix \/ c = Ids.greylistPrefix) /\ rest <> EmptyString /\ plain rest = true.
Proof.
  unfold Ids.Validate. destruct (_ || _) eqn:Hl; [done|]. bool_to_prop. destruct (negb _ && negb _) eqn:Hc; [done|].
  destruct (forall_chars Ids.is_digit rest) eqn:Hd; [|done]. intros _. split_and!.
  - apply andb_false_iff in Hc as [Hc|Hc]; bool_to_prop; auto.
  - intros ->. done.
  - revert Hd. apply forall_chars_impl. intros x. unfold Ids.is_digit, plain_char. intros Hx.
    apply negb_true_iff, not_true_is_false. intros Hp.
    rewrite !orb_true_iff, !bool_decide_eq_true in Hp. destruct Hp as [[-> | ->]| ->]; by vm_compute in Hx.
Qed.

Lemma Validate_origin sh : Ids.Validate sh = Ok tt -> head_char sh = Some Ids.normalPrefix -> origin_shard sh.
Proof.
  intros Hv Hh. destruct sh as [|c rest]; [done|]. injection Hh as ->.
  destruct (Validate_digits _ _ Hv) as (_ & Hne & Hp). by exists rest.
Qed.

(** The slot of a valid identifier, greylist or not, is that of an origin shard. *)
Lemma Validate_slotOf sh : Ids.Validate sh = Ok tt -> origin_shard (Keys.slotOf sh).
Proof.
  intros Hv. destruct sh as [|c rest]; [done|]. destruct (Validate_digits _ _ Hv) as (Hc & Hne & Hp).
  exists rest. split; [|done]. destruct rest as [|d rest]; [done|]. simpl.
  destruct Hc as [->| ->]; by case_decide.
Qed.

(** ** The methods *)

Section Methods.
Context {S : Type} {R : Redis S} {RL : RedisLaws S} {L : Lua S} {LL : LuaLaws S}.
Context (ev sh : string) (He : plain ev = true) (Ho : origin_shard sh) (Hv : Ids.Validate sh = Ok tt).

#[local] Instance the_slot : Slot := keys_slot ev sh He Ho.

(** A script call whose keys and arguments spell the operation [o]. *)
Lemma op_call {B} name K A o sentinel (dec : reply -> B) w : ready w ->
  (forall s, lua_eval (lua_read name) K A s = run_op o s) ->
  let m := (res ← Redisx.Run name K A; vals ← lift (check_len sentinel res (reply_length o)); mret (dec vals)) w in
  let f s := let r := run_op o s in (r.1, dec r.2) in
  ready m.1 /\ same_process w m.1 /\ wire m.1 `suffix_of` wire w /\ executed f w m /\
  (wire w = [] -> wire m.1 = [] /\ m.2 = Ok (f (db w)).2 /\ db m.1 = (f (db w)).1).
Proof.
  intros Hw Heq. destruct (Run_decode name K A sentinel (reply_length o) dec w Hw) as (H1 & H2 & H3 & H4 & H5).
  { intros s. rewrite Heq. apply run_op_length. }
  cbv zeta in *. split_and!; [done|apply H2..|done| |].
  - destruct H4 as (k & Hk & Hd & Hr). exists k.
    assert (Hag : forall j s, again (fun s => ((lua_eval (lua_read name) K A s).1, dec (lua_eval (lua_read name) K A s).2)) j s =
      again (fun s => ((run_op o s).1, dec (run_op o s).2)) j s).
    { intros j s. unfold again. induction j as [|j IH]; [done|]. rewrite !Nat.iter_succ, IH. cbn [fst]. by rewrite Heq. }
    rewrite <- Hag. split_and!; [done|done|]. intros a Ha. destruct (Hr a Ha) as (j & -> & ->). exists j. rewrite <- Hag. cbn [snd]. by rewrite Heq.
  - intros Hwi. destruct (H5 Hwi) as (? & E & D). cbn [fst snd] in *. rewrite Heq in E, D. done.
Qed.

(** The conclusion shared by the methods: after reading the clock, the operation, as often as
    it was attempted; an answer is that of the last execution. *)
Definition runs_op {B} (o : op) (dec : reply -> B) (w : world S) (m : world S * result B) : Prop :=
  ready m.1 /\ wire m.1 `suffix_of` wire w /\
  (exists k, (k <= times w)%nat /\ db m.1 = repeat_op o k (db w) /\
     (forall b, m.2 = Ok b -> exists j, k = Datatypes.S j /\ b = dec (run_op o (repeat_op o j (db w))).2)) /\
  (wire w = [] -> wire m.1 = [] /\ m.2 = Ok (dec (run_op o (db w)).2) /\ db m.1 = (run_op o (db w)).1).

Lemma runs_op_call {B} name K A o sentinel (dec : reply -> B) w w' : ready w -> db w' = db w ->
  cached w' = cached w -> wire w' = wire w ->
  (forall s, lua_eval (lua_read name) K A s = run_op o s) ->
  runs_op o dec w ((res ← Redisx.Run name K A; vals ← lift (check_len sentinel res (reply_length o)); mret (dec vals)) w').
Proof.
  intros Hw Hdb Hc Hwi Heq.
  destruct (op_call name K A o sentinel dec w' (ready_same w w' Hw Hc Hwi) Heq) as (H1 & _ & Hs & H3 & H4).
  unfold runs_op, executed, times in *. cbv zeta in *. cbn [fst snd] in *. rewrite Hdb, Hwi in *. done.
Qed.

Definition admit_op (cfg : Admission.Config) (tok jti : string) (t : time) : op :=
  OAdmit tok jti (UnixMilli t) (Milliseconds (Admission.EntryTTL cfg)) (Milliseconds (Admission.UserTTL cfg))
    (Milliseconds (Admission.MinDwell cfg)) (Admission.MinBeats cfg).

Lemma Admit_at cfg tok jti w : Admission.EventID cfg = ev -> tok <> emp -> jti <> emp -> ready w ->
  runs_op (admit_op cfg tok jti (reading w)) Admission.decode_result w (Admission.Admit cfg sh tok jti w).
Proof.
  intros Hev Ht Hj Hw. unfold Admission.Admit. cbv zeta. rewrite decide_False by naive_solver.
  rewrite (bind_lift _ _ _ tt Hv), (bind_ok _ _ _ _ _ (now_eq w)), Hev.
  destruct (ticked_same w) as (Hdb & Hc & Hwi & _). apply runs_op_call; try done.
  intros s. rewrite eval_admit. unfold Admission.admit_args, admit_op. rewrite Hev.
  cbn [admit_lua run_op]. by rewrite !arg_itoa.
Qed.

Lemma Admit_runs_op cfg tok jti w : Admission.EventID cfg = ev -> tok <> emp -> jti <> emp -> ready w ->
  exists t, runs_op (admit_op cfg tok jti t) Admission.decode_result w (Admission.Admit cfg sh tok jti w).
Proof. intros. eexists. by apply Admit_at. Qed.

Lemma Burn_runs_op cfg tok jti w : Admission.EventID cfg = ev -> tok <> emp -> jti <> emp -> ready w ->
  exists t, runs_op (ORedeem tok jti (UnixMilli t)) (fun v => Admission.asString (at_ v 0)) w
              (Admission.Burn cfg sh jti tok w).
Proof.
  intros Hev Ht Hj Hw. unfold Admission.Burn. cbv zeta. rewrite decide_False by naive_solver.
  rewrite (bind_lift _ _ _ tt Hv).
  match goal with |- context [mbind ?k now w] =>
    destruct (bind_now k w) as (t & w' & Heq & Hdb & Hc & Hwi & _) end.
  exists t. rewrite Heq, Hev.
  apply (runs_op_call "redeem.lua" _ _ (ORedeem tok jti (UnixMilli t)) _ (fun v => Admission.asString (at_ v 0))); try done.
  intros s. rewrite eval_redeem. cbn [redeem_lua run_op]. by rewrite !arg_itoa.
Qed.

Lemma Refill_runs_op cfg grant w : Admission.EventID cfg = ev -> ready w ->
  runs_op (ORefill grant (Admission.MaxBudgetPerShard cfg)
            (Milliseconds (int64_mul (Admission.Interval cfg) Admission.budgetTTLFactor)))
    (fun v => Admission.MkBudget sh (Admission.asInt64 (at_ v 0)) (Admission.asInt64 (at_ v 1))) w
    (Admission.Refill cfg sh grant w).
Proof.
  intros Hev Hw. unfold Admission.Refill. cbv zeta. rewrite (bind_lift _ _ _ tt Hv), Hev.
  match goal with |- runs_op ?o ?d _ _ => apply (runs_op_call "refill_budget.lua" _ _ o _ d) end; try done.
  intros s. rewrite eval_refill. cbn [refill_budget_lua run_op]. by rewrite !arg_itoa.
Qed.

Lemma Heartbeat_runs_op cfg tok w : Queue.EventID cfg = ev -> Queue.check sh tok = Ok tt -> ready w ->
  exists t dec, runs_op (OHeartbeat tok (UnixMilli t) (Milliseconds (Queue.UserTTL cfg))) dec w
                  (Queue.Heartbeat cfg sh tok w).
Proof.
  intros Hev Hck Hw. unfold Queue.Heartbeat. cbv zeta. rewrite (bind_lift _ _ _ tt Hck).
  match goal with |- context [mbind ?k now w] =>
    destruct (bind_now k w) as (t & w' & Heq & Hdb & Hc & Hwi & _) end.
  exists t. eexists. rewrite Heq, Hev.
  eapply (runs_op_call "heartbeat.lua" _ _ (OHeartbeat tok (UnixMilli t) (Milliseconds (Queue.UserTTL cfg)))); try done.
  intros s. rewrite eval_heartbeat. cbn [heartbeat_lua run_op]. by rewrite !arg_itoa.
Qed.

Lemma Position_runs_op cfg tok w : Queue.EventID cfg = ev -> Queue.check sh tok = Ok tt -> ready w ->
  exists dec, runs_op (OPosition tok) dec w (Queue.Position cfg sh tok w).
Proof.
  intros Hev Hck Hw. unfold Queue.Position. cbv zeta. rewrite (bind_lift _ _ _ tt Hck). eexists. rewrite Hev.
  eapply (runs_op_call "position.lua" _ _ (OPosition tok)); try done.
  intros s. rewrite eval_position. done.
Qed.

Definition pass_op (cfg : Queue.Config) (offset : Z) (t : time) : op :=
  OEvict (UnixMilli t) (Milliseconds (Queue.StaleAfter cfg)) (Milliseconds (Queue.EvictGrace cfg)) offset
    (Queue.SweepBatch cfg) (Milliseconds (Queue.EvictedRetain cfg)).

Lemma Sweep_at cfg offset w : Queue.EventID cfg = ev -> ready w ->
  let m := Queue.Sweep cfg sh offset w in
  (exists dec, runs_op (pass_op cfg offset (reading w)) dec w m) /\ clock m.1 = clock (ticked w).
Proof.
  intros Hev Hw. cbv zeta. unfold Queue.Sweep. cbv zeta. rewrite (bind_lift _ _ _ tt Hv), (bind_ok _ _ _ _ _ (now_eq w)), Hev.
  destruct (ticked_same w) as (Hdb & Hc & Hwi & _).
  assert (Hev' : forall s, lua_eval (lua_read "evict.lua") [Keys.Queue ev sh] [Keys.UserPrefix ev sh; itoa (UnixMilli (reading w));
    itoa (Milliseconds (Queue.StaleAfter cfg)); itoa (Milliseconds (Queue.EvictGrace cfg)); itoa offset; itoa (Queue.SweepBatch cfg);
    itoa (Milliseconds (Queue.EvictedRetain cfg))] s = run_op (pass_op cfg offset (reading w)) s).
  { intros s. rewrite eval_evict. cbn [evict_lua run_op pass_op]. by rewrite !arg_itoa. }
  split.
  - eexists. by apply (runs_op_call "evict.lua" _ _ (pass_op cfg offset (reading w))).
  - match goal with |- context [mbind ?f (Redisx.Run ?n ?K ?A) ?w'] =>
      destruct (op_call n K A (pass_op cfg offset (reading w)) Queue.ErrUnexpectedReply
        (fun vals => Queue.MkSweepResult (Queue.asInt64 (at_ vals 0)) (Queue.asInt64 (at_ vals 1)) (Queue.asInt64 (at_ vals 2))
           (Queue.asInt64 (at_ vals 3)) (Queue.asInt64 (at_ vals 4)) (Queue.asInt64 (at_ vals 5))) w' (ready_same w w' Hw Hc Hwi) Hev') as (_ & (E & _) & _) end.
    exact E.
Qed.

(** *** Joining: the shard is put on the index first *)

Definition index_shard (s : S) : S * unit := (SADD (Keys.Shards ev) sh s, tt).

(** The store remembers that it put the shard on the index less than a minute ago. *)
Definition lately_indexed (w : world S) : bool :=
  match registered w !! sh with Some t => time_sub (reading w) t <? Queue.reregisterAfter | None => false end.

(** What [registerShard] does: the shard is put on the index, unless it was lately. *)
Definition registers (w : world S) (m : world S * result unit) : Prop :=
  ready m.1 /\ wire m.1 `suffix_of` wire w /\ entropy m.1 = entropy w /\
  exists j, (j <= times w)%nat /\ db m.1 = again index_shard j (db w) /\
    (lately_indexed w = true -> j = 0%nat) /\
    (m.2 = Ok tt -> lately_indexed w = false -> (0 < j)%nat /\ is_Some (registered m.1 !! sh)) /\
    (wire w = [] -> wire m.1 = [] /\ m.2 = Ok tt).

Lemma add_shard_spec cfg w w' : Queue.EventID cfg = ev -> ready w -> lately_indexed w = false ->
  db w' = db w -> cached w' = cached w -> wire w' = wire w -> entropy w' = entropy w ->
  registers w (Queue.add_shard cfg sh w').
Proof.
  intros Hev Hw Hl Hd Hc Hwi Hen. assert (Hw' : ready w') by (by eapply ready_same).
  unfold Queue.add_shard, wrapping. rewrite Hev. fold index_shard.
  destruct (command_spec index_shard w') as ((k & Hk & Hdb & Hans) & Hc' & Hp & Hs & Herr & Hh). pose proof (command_ready index_shard w' Hw') as Hr.
  unfold mbind at 1, M_bind. destruct (command index_shard w') as [w1 [[]|e]] eqn:E; cbn [fst snd] in *.
  - rewrite (bind_ok _ _ _ _ _ (now_eq w1)). unfold Queue.memo_shard. destruct (ticked_same w1) as (T1 & T2 & T3 & T4 & T5).
    unfold registers. cbn [fst snd db cached wire entropy registered]. split_and!.
    + by apply (ready_same w1).
    + rewrite T3, <- Hwi. done.
    + rewrite T4, <- Hen. apply Hp.
    + exists k. unfold times in *. rewrite Hwi, Hd in *. split_and!; [done|congruence|congruence| |].
      * intros _ _. destruct (Hans tt eq_refl) as (j & -> & _). split; [lia|]. rewrite lookup_insert_eq. by eexists.
      * intros E0. destruct (Hh E0) as (? & _). split; [congruence|done].
  - unfold registers. cbn [fst snd]. split_and!; [done|by rewrite <- Hwi|rewrite <- Hen; apply Hp|].
    exists k. unfold times in *. rewrite Hwi, Hd in *. split_and!; [done|congruence|congruence|done|].
    intros E0. destruct (Hh E0) as (_ & _ & ?). done.
Qed.

Lemma registerShard_spec cfg w : Queue.EventID cfg = ev -> ready w -> registers w (Queue.registerShard cfg sh w).
Proof.
  intros Hev Hw. unfold Queue.registerShard. cbv zeta.
  destruct (registered w !! sh) as [t|] eqn:Hreg.
  2: { apply (add_shard_spec cfg w w); try done. unfold lately_indexed. by rewrite Hreg. }
  rewrite (bind_ok _ _ _ _ _ (now_eq w)). destruct (ticked_same w) as (T1 & T2 & T3 & T4 & _).
  destruct (time_sub (reading w) t <? Queue.reregisterAfter) eqn:El.
  - unfold mret, M_ret, registers. cbn [fst snd]. split_and!; [by apply (ready_same w)|by rewrite T3|done|].
    exists 0%nat. assert (lately_indexed w = true) as -> by (unfold lately_indexed; by rewrite Hreg).
    split_and!; [unfold times; case_match; lia|done|done|done|]. intros E0. split; [congruence|done].
  - apply add_shard_spec; try done. unfold lately_indexed. by rewrite Hreg.
Qed.

Definition enqueue_op (cfg : Queue.Config) (req : Queue.EnqueueRequest) (t : time) (lot : Z) : op :=
  OEnqueue (Queue.rTokenID req) (Queue.rShard req) (UnixMilli t) (Queue.milliOrZero (Queue.LotteryEnd cfg))
    lot Queue.LotteryBand (Queue.rFPHash req) (Queue.rIPPrefix req) (Milliseconds (Queue.UserTTL cfg)).

Definition decode_ticket (vals : reply) : Queue.Ticket :=
  Queue.MkTicket (Queue.asString (at_ vals 0)) sh (Queue.asInt64 (at_ vals 1)) (Queue.asInt64 (at_ vals 2))
    (Queue.asInt64 (at_ vals 3)) (Queue.asString (at_ vals 4)).

Lemma be_uint64_nonneg (b : list Z) : Forall (fun x => 0 <= x < 256) b -> 0 <= Queue.be_uint64 b.
Proof.
  intros Hb. unfold Queue.be_uint64.
  assert (forall l a, 0 <= a -> Forall (fun x => 0 <= x < 256) l -> 0 <= foldl (fun acc x => acc * 256 + x) a l) as Hf.
  { induction l as [|x l IH]; intros a Ha Hl; [done|]. cbn [foldl]. apply list.Forall_cons in Hl as [? ?].
    apply IH; [lia|done]. }
  apply Hf; [lia|]. by apply Forall_take.
Qed.

(** The random source yields bytes. *)
Definition entropy_ok (w : world S) : Prop :=
  Forall (fun e => match e with Some b => Forall (fun x => 0 <= x < 256) b | None => True end) (entropy w).

Lemma lotteryRank_range w : entropy_ok w ->
  let m := Queue.lotteryRank w in
  db m.1 = db w /\ cached m.1 = cached w /\ wire m.1 = wire w /\
  (forall lot, m.2 = Ok lot -> 0 <= lot < Queue.LotteryBand).
Proof.
  intros Hen. unfold Queue.lotteryRank, wrapping, rand_Read, mbind, M_bind, mret, M_ret, entropy_ok in *.
  destruct w as [d c wi cl [|[b|] en] re]; cbn [entropy db cached wire fst snd] in *; split_and!; try done.
  intros lot [= <-]. apply list.Forall_cons in Hen as [Hb _].
  pose proof (Z.mod_pos_bound (Queue.be_uint64 b) Queue.LotteryBand eq_refl).
  rewrite wrap64_id; [done|]. apply in64_spec. unfold Queue.LotteryBand, two63 in *. lia.
Qed.

(** [Enqueue]: the index, then the join, each as often as it was attempted. *)
Definition enqueued (cfg : Queue.Config) (req : Queue.EnqueueRequest) (w : world S) (m : world S * result Queue.Ticket) : Prop :=
  exists j t lot k, 0 <= lot < Queue.LotteryBand /\ (j <= times w)%nat /\ (k <= times w)%nat /\
  (lately_indexed w = true -> j = 0%nat) /\
  db m.1 = repeat_op (enqueue_op cfg req t lot) k (again index_shard j (db w)) /\
  (forall tk, m.2 = Ok tk -> (lately_indexed w = false -> (0 < j)%nat) /\
     exists i, k = Datatypes.S i /\
       tk = decode_ticket (run_op (enqueue_op cfg req t lot) (repeat_op (enqueue_op cfg req t lot) i (again index_shard j (db w)))).2).

Lemma Enqueue_runs_op cfg req w : Queue.EventID cfg = ev -> Queue.rShard req = sh ->
  Queue.check sh (Queue.rTokenID req) = Ok tt -> ready w -> entropy_ok w ->
  enqueued cfg req w (Queue.Enqueue cfg req w).
Proof.
  intros Hev Hsh Hck Hw Hen. unfold Queue.Enqueue. cbv zeta. rewrite Hsh, (bind_lift _ _ _ tt Hck).
  assert (H0 : 0 <= 0 < Queue.LotteryBand) by (unfold Queue.LotteryBand; lia).
  destruct (registerShard_spec cfg w Hev Hw) as (Hw1 & Hs1 & He1 & j & Hj & Hdj & Hl & Hok & _).
  destruct (Queue.registerShard cfg sh w) as [w1 [[]|e]] eqn:E1; cbn [fst snd] in *;
    [rewrite (bind_ok _ _ _ _ _ E1)|rewrite (bind_err _ _ _ _ _ E1)]; cbn [fst snd].
  2: { exists j, 0, 0, 0%nat. split_and!; try done. lia. }
  assert (Hen1 : entropy_ok w1) by (unfold entropy_ok in *; by rewrite He1).
  destruct (lotteryRank_range w1 Hen1) as (Hd2 & Hc2 & Hwi2 & Hlot).
  destruct (Queue.lotteryRank w1) as [w2 [lot|e]] eqn:E2; cbn [fst snd] in *;
    [rewrite (bind_ok _ _ _ _ _ E2)|rewrite (bind_err _ _ _ _ _ E2)]; cbn [fst snd].
  2: { exists j, 0, 0, 0%nat. split_and!; try done; [lia|]. cbn [fst]. rewrite Hd2. done. }
  match goal with |- context [mbind ?k now ?w0] =>
    destruct (bind_now k w0) as (t & w3 & Heq & Hd3 & Hc3 & Hwi3 & _) end.
  rewrite Heq.
  match goal with |- context [mbind ?kk (Redisx.Run ?n ?K ?A) w3] =>
    destruct (runs_op_call n K A (enqueue_op cfg req t lot) Queue.ErrUnexpectedReply decode_ticket w1 w3 Hw1)
      as (_ & _ & (k & Hk & Hdk & Hans) & _) end; try congruence.
  { intros s. rewrite eval_enqueue, Hev. unfold Queue.enqueue_args, enqueue_op. rewrite Hsh.
    cbn [enqueue_lua run_op]. by rewrite !arg_itoa. }
  exists j, t, lot, k. pose proof (times_suffix _ _ Hs1). rewrite Hdj in *. split_and!; [by apply Hlot..|done|lia|done|done|].
  intros tk Htk. split; [intros Hf; by apply Hok|by apply Hans].
Qed.

End Methods.
