(* ===== verification/Clients.v ===== *)
(** * What the callers of the Go stores can rely on

    Properties of [queue.Store], [admission.Store], the breaker and the controller, stated
    over the connection of [Conn]: any failure of the wire, any state of the script cache. *)

From S2P Require Import Prelude.
From S2P Require Import Go.
From S2P Require Import Redis.
From S2P Require Import Keys.
From S2P Require Import Shard.
From S2P Require Import Scripts.
From S2P Require Import Slot.
From S2P Require Import Ladder.
From S2P Require Import Runs.
From S2P Require Import Frame.
From S2P Require Import Guarantees.
From S2P Require Import Float.
From S2P Require Import Conn.
From S2P Require Import Again.
From S2P Require Import QueueStore.
From S2P Require Import Rounding.
From S2P Require Import Admission.
From S2P Require Import Shares.
From S2P Require Import Refine.
Import MemStore MemLua.
Local Open Scope string_scope.
Local Open Scope Z_scope.

(** ** Concrete processes for the witnesses *)

Definition demo_world (s : gmap string cell) (wi : list wire_event) : world (gmap string cell) :=
  World s [] wi [time_UnixMilli 300] [Some [1; 2; 3; 4; 5; 6; 7; 8]] ∅.

Lemma demo_ready s wi : forallb event_quiet wi = true -> ready (demo_world s wi).
Proof. intros Hq. split; [|exact Hq]. intros src n Hin. by apply elem_of_nil in Hin. Qed.

Definition demo_admission : Admission.Config :=
  Admission.MkConfig "show" 600 Second false zero_time 0 0 0 1000 f64_1 3 (10 * Second) (600 * Second) (3600 * Second).

Definition demo_queue : Queue.Config :=
  Queue.MkConfig "show" (time_UnixMilli 0) 100000000 (3600 * Second) (5 * Second) 3 (10 * Second) (60 * Second) 100.

(** ** Admission *)

Section Admit.
Context {S : Type} {R : Redis S} {RL : RedisLaws S} {L : Lua S} {LL : LuaLaws S}.
Context (ev sh : string) (He : plain ev = true) (Ho : origin_shard sh) (Hv : Ids.Validate sh = Ok tt).
#[local] Instance client_slot : Slot := keys_slot ev sh He Ho.

Section Call.
Context (tok j : string) (now ettl uttl dwell beats : Z) (Hettl : 0 < ettl) (Huttl : 0 < uttl).

Abbreviation admit_once := (OAdmit tok j now ettl uttl dwell beats).

(** The script gave the seat. *)
Definition gave (s s' : S) : Prop :=
  v_state (view s tok) = Some "waiting" /\
  budget_of s' = budget_of s - 1 /\ v_state (view s' tok) = Some "admitted" /\
  uhash s' tok !! "entry_jti" = Some j /\ str_of s' (skey (KEntry j)) = Some tok.

(** What one execution of the script does to the store, and what "admitted" says. *)
Lemma admit_step s : wf s ->
  let r := run_op admit_once s in
  wf r.1 /\ (r.1 = s \/ gave s r.1) /\
  (Admission.Status (Admission.decode_result r.2) = "admitted" ->
     uhash r.1 tok !! "entry_jti" = Some (Admission.JTI (Admission.decode_result r.2)) \/
     v_state (view s tok) = Some "admitted" /\ r.1 = s /\
     Admission.JTI (Admission.decode_result r.2) = default emp (uhash s tok !! "entry_jti")).
Proof.
  intros Hwf. assert (Hwf' := wf_run_op admit_once s Hwf (conj Hettl Huttl)). pose proof (nat_int_or_absent _ (wf_budget _ Hwf)) as Hb.
  pose proof (run_op_length admit_once s) as Hlen. pose proof (admit_echo tok j now ettl uttl dwell beats s) as Hecho. cbv zeta in *.
  destruct (admit_cases tok j now ettl uttl dwell beats s Hb) as [(Hmay & k & wt & Hk & Hrun)|(Hno & r & Hrun & Hs)];
    rewrite Hrun in *; cbn [fst snd reply_length] in *; (split; [done|]).
  - destruct (seated_effect tok j now _ _ s Hb Hettl Huttl) as (E1 & E2 & _ & E4 & E5 & _).
    split; [right; by split_and!; [exact (proj1 Hmay)|..]|]. intros _. left. exact E4.
  - split; [by left|]. intros Hst. right. destruct r as [|[z|a] [|b [|c [|[d|d] [|e' [|? ?]]]]]]; try done; cbn in Hst, Hecho; subst.
    + destruct (Hecho Hs eq_refl) as [_ [=]].
    + destruct (Hecho Hs eq_refl) as [? [= ->]]. done.
Qed.

(** However often it is executed, the script gives one seat at most. *)
Lemma admit_repeated k s : wf s -> wf (repeat_op admit_once k s) /\ (repeat_op admit_once k s = s \/ gave s (repeat_op admit_once k s)).
Proof.
  intros Hwf. induction k as [|k [IHw IH]]; [by split; [|left]|]. rewrite repeat_op_S.
  destruct (admit_step _ IHw) as (Hw & Hs & _). split; [done|]. destruct Hs as [->|Hg]; [done|].
  destruct IH as [E|(_ & _ & Ha & _)]; [rewrite E in *; by right|]. destruct Hg as (Hwait & _). congruence.
Qed.

End Call.

(** What one call of [Admit] can have done to the store. *)
Lemma Admit_effect cfg tok j w : Admission.EventID cfg = ev -> tok <> emp -> j <> emp ->
  0 < Milliseconds (Admission.EntryTTL cfg) -> 0 < Milliseconds (Admission.UserTTL cfg) ->
  ready w -> wf (db w) ->
  let m := Admission.Admit cfg sh tok j w in
  ready m.1 /\ wf (db m.1) /\ (db m.1 = db w \/ gave tok j (db w) (db m.1)) /\
  (forall r, m.2 = Ok r -> Admission.Status r = "admitted" ->
     uhash (db m.1) tok !! "entry_jti" = Some (Admission.JTI r) \/
     v_state (view (db w) tok) = Some "admitted" /\ db m.1 = db w /\
     Admission.JTI r = default emp (uhash (db w) tok !! "entry_jti")).
Proof.
  intros Hev Ht Hj Hettl Huttl Hr Hwf m.
  destruct (Admit_runs_op ev sh He Ho Hv cfg tok j w Hev Ht Hj Hr) as (t & Hr' & _ & (k & _ & Hdb & Hans) & _). fold m in Hr', Hdb, Hans.
  change (the_slot ev sh He Ho) with client_slot in Hdb, Hans. unfold admit_op in Hdb, Hans.
  pose proof (fun n => admit_repeated tok j (UnixMilli t) _ _ (Milliseconds (Admission.MinDwell cfg)) (Admission.MinBeats cfg) Hettl Huttl n (db w) Hwf) as Hrep.
  destruct (Hrep k) as [Hw1 Hs1]. rewrite <- Hdb in Hw1, Hs1. split_and!; [done..|].
  intros r Hok Hst. destruct (Hans r Hok) as (i & -> & ->). rewrite repeat_op_S in Hdb. destruct (Hrep i) as [Hwi Hsi].
  destruct (admit_step tok j (UnixMilli t) _ _ (Milliseconds (Admission.MinDwell cfg)) (Admission.MinBeats cfg) Hettl Huttl _ Hwi) as (_ & _ & Hadm).
  rewrite Hdb. destruct (Hadm Hst) as [?|(Ha & Hsame & Hjti)]; [by left|]. destruct Hsi as [E|(_ & _ & _ & Hj' & _)].
  - right. rewrite E in *. done.
  - left. rewrite Hsame, Hjti, Hj'. done.
Qed.

(** C14: a lost answer costs no second seat.  Two calls of [Admit] for the same token,
    whatever the wire does to either and however often the client library sends their command
    again, take at most one seat from the budget; and an answer "admitted" always carries the
    id recorded for the token. *)
Theorem admit_retry_takes_one_seat cfg tok j1 j2 w :
  Admission.EventID cfg = ev -> tok <> emp -> j1 <> emp -> j2 <> emp ->
  0 < Milliseconds (Admission.EntryTTL cfg) -> 0 < Milliseconds (Admission.UserTTL cfg) ->
  ready w -> wf (db w) ->
  let m1 := Admission.Admit cfg sh tok j1 w in
  let m2 := Admission.Admit cfg sh tok j2 m1.1 in
  budget_of (db w) - 1 <= budget_of (db m2.1) <= budget_of (db w) /\
  (forall r, m2.2 = Ok r -> Admission.Status r = "admitted" -> v_state (view (db w) tok) <> Some "admitted" ->
     uhash (db m2.1) tok !! "entry_jti" = Some (Admission.JTI r)).
Proof.
  intros Hev Ht Hj1 Hj2 Hettl Huttl Hr Hwf m1 m2.
  destruct (Admit_effect cfg tok j1 w Hev Ht Hj1 Hettl Huttl Hr Hwf) as (Hr1 & Hwf1 & H1 & _). fold m1 in Hr1, Hwf1, H1.
  destruct (Admit_effect cfg tok j2 m1.1 Hev Ht Hj2 Hettl Huttl Hr1 Hwf1) as (_ & _ & H2 & Hans). fold m2 in H2, Hans.
  split.
  - destruct H1 as [E1|(_ & E1 & Ha & _)], H2 as [E2|(Hw & E2 & _)];
      [rewrite E2, E1; lia|rewrite E2, E1; lia|rewrite E2, E1; lia|congruence].
  - intros r Hok Hst Hna. destruct (Hans r Hok Hst) as [?|(Ha & Hdb & Hj)]; [done|].
    destruct H1 as [E|(_ & _ & _ & E & _)]; [by rewrite E in Ha|]. rewrite Hdb, Hj, E. done.
Qed.

End Admit.

#[local] Lemma s0001_valid : Ids.Validate "s0001" = Ok tt.
Proof. reflexivity. Qed.

(** The first answer is lost after the seat was given; the retry returns the same id. *)
Lemma admit_retry_takes_one_seat_witness :
  let w := demo_world demo_store [WOk; WOk; WLost true "context canceled"] in
  let m1 := Admission.Admit demo_admission "s0001" "bob" "j1" w in
  let m2 := Admission.Admit demo_admission "s0001" "bob" "j2" m1.1 in
  (exists e, m1.2 = Err e) /\
  m2.2 = Ok (Admission.MkResult "admitted" (-1) 1 "j1" 0) /\
  budget_of (db w) - 1 <= budget_of (db m2.1) <= budget_of (db w).
Proof.
  split; [eexists; vm_compute; reflexivity|]. split; [vm_compute; reflexivity|].
  exact (proj1 (admit_retry_takes_one_seat "show" "s0001" eq_refl demo_origin eq_refl demo_admission "bob" "j1" "j2"
    (demo_world demo_store [WOk; WOk; WLost true "context canceled"]) eq_refl ltac:(done) ltac:(done) ltac:(done) eq_refl eq_refl
    (demo_ready demo_store [WOk; WOk; WLost true "context canceled"] eq_refl) demo_wf)).
Defined.

(** [redeem.lua] is not repeatable: a burn whose answer is lost is executed again, finds the
    ticket gone and answers "missing", so the call fails although it burned the ticket. *)
Lemma lost_answer_loses_the_ticket :
  let burn wi := Admission.Burn demo_admission "s0001" "j1" "bob" (demo_world seated_store wi) in
  (burn []).2 = Ok "burned" /\
  (burn [WOk; WOk; WLost false "i/o timeout"]).2 = Ok "missing" /\
  GET (Keys.Entry "show" "s0001" "j1") (db (burn [WOk; WOk; WLost false "i/o timeout"]).1) = None.
Proof. split_and!; vm_compute; reflexivity. Qed.

(** ** Joining *)

Section Join.
Context {S : Type} {R : Redis S} {RL : RedisLaws S} {SL : Slot}.
Context (t sh : string) (now le rnd band : Z) (fp ip : string) (ttl : Z).

Abbreviation join := (OEnqueue t sh now le rnd band fp ip ttl).

(** A ticket that says the token is queued gives its place. *)
Lemma join_reply s shard : wf s -> op_ok join s ->
  Queue.Queued (decode_ticket shard (run_op join s).2) = true ->
  v_q (view (run_op join s).1 t) = Some (Queue.tScore (decode_ticket shard (run_op join s).2)).
Proof.
  intros Hwf Hok. pose proof (proj1 Hok) as Httl. destruct (v_state (view s t)) as [st|] eqn:Est.
  2: { intros _. destruct (enqueue_created t sh now le rnd band fp ip ttl s Hwf Httl) as (-> & _ & ->); [by left|done]. }
  destruct (decide (st = "evicted")) as [->|Hne].
  { intros _. destruct (enqueue_created t sh now le rnd band fp ip ttl s Hwf Httl) as (-> & _ & ->); [by right|done]. }
  destruct (decide (st = "waiting" \/ st = "evicting")) as [Hor|Hno].
  { intros _. destruct (enqueue_exists t sh now le rnd band fp ip ttl s st Hwf Httl Est Hor) as (H1 & _ & p & Hp & ->). rewrite H1. exact Hp. }
  assert (Hd : st <> "created" /\ st <> "exists").
  { pose proof (wf_view s Hwf t) as Hv. revert Est. destruct Hv as [x ? Hx|?|? ? ?|x ? Hx|?|?|?]; intros [= <-];
      repeat match goal with H : _ \/ _ |- _ => destruct H as [->|H] end; subst; done. }
  cbn [view v_state] in Est. unfold uhash in Est. cbn [run_op]. unfold enqueue. rewrite HGET_v, Est, decide_False, decide_True by done.
  cbn. unfold Queue.Queued. cbn. rewrite !bool_decide_eq_false_2 by naive_solver. done.
Qed.

End Join.

(** *** The index *)

Section Index.
Context {S : Type} {R : Redis S} {RL : RedisLaws S} (ev sh : string).

Lemma index_cell j (s : S) x : x <> Keys.Shards ev -> cell_of (again (index_shard ev sh) j s) x = cell_of s x.
Proof.
  intros Hx. unfold again. induction j as [|j IH]; [done|]. rewrite Nat.iter_succ. cbn [index_shard fst].
  by rewrite SADD_law, upd_other by congruence.
Qed.

Lemma index_member j (s : S) : (0 < j)%nat -> sh ∈ SMEMBERS (Keys.Shards ev) (again (index_shard ev sh) j s).
Proof.
  destruct j as [|j]; [lia|]. intros _. unfold again. rewrite Nat.iter_succ. cbn [index_shard fst].
  rewrite SMEMBERS_law, SADD_law. unfold upd. rewrite decide_True by done. cbn. set_solver.
Qed.

End Index.

(** C15: joining through the Go API is one join of the slot.  Whatever the wire does and
    however often the client library sends a command again, [Enqueue] puts the shard on the
    index, unless it did so less than a minute ago, then joins with a lottery number inside
    the band, and changes nothing else.  The executions of the join leave every place and the
    sequence as the first left them.  When a ticket is answered the shard is on the index (or
    was put there lately), the ticket is what the last execution replied, and if it says that
    the token is queued, it gives the place where the token stands. *)
Theorem Enqueue_is_one_join {S} `{RedisLaws S} `{Lua S} `{!LuaLaws S} ev sh
    (He : plain ev = true) (Ho : origin_shard sh) cfg req w :
  Queue.EventID cfg = ev -> Queue.rShard req = sh -> Queue.check sh (Queue.rTokenID req) = Ok tt ->
  ready w -> entropy_ok w ->
  let SL := keys_slot ev sh He Ho in
  let m := Queue.Enqueue cfg req w in
  exists t lot j k, 0 <= lot < Queue.LotteryBand /\ (j <= times w)%nat /\ (k <= times w)%nat /\
  let s1 := again (index_shard ev sh) j (db w) in
  let o := enqueue_op cfg req t lot in
  (lately_indexed sh w = true -> j = 0%nat) /\
  db m.1 = @repeat_op S _ SL o k s1 /\
  (@wf S _ _ SL (db w) -> @op_ok S _ _ SL o (db w) -> (0 < k)%nat ->
     (forall tok, @view S _ _ SL (db m.1) tok = @view S _ _ SL (@run_op S _ SL o s1).1 tok) /\
     @seq_of S _ _ SL (db m.1) = @seq_of S _ _ SL (@run_op S _ SL o s1).1) /\
  (forall tk, m.2 = Ok tk ->
     (exists i, k = Datatypes.S i /\ tk = decode_ticket sh (@run_op S _ SL o (@repeat_op S _ SL o i s1)).2) /\
     (@wf S _ _ SL (db w) -> @op_ok S _ _ SL o (db w) ->
        (lately_indexed sh w = false -> sh ∈ SMEMBERS (Keys.Shards ev) (db m.1)) /\
        (Queue.Queued tk = true -> @v_q (@view S _ _ SL (db m.1) (Queue.rTokenID req)) = Some (Queue.tScore tk)))).
Proof.
  intros Hev Hsh Hck Hw Hen SL m.
  destruct (Enqueue_runs_op ev sh He Ho cfg req w Hev Hsh Hck Hw Hen) as (j & t & lot & k & Hlot & Hj & Hk & Hl & Hdb & Hans).
  change (the_slot ev sh He Ho) with SL in *. fold m in Hdb, Hans. exists t, lot, j, k. split; [done|]. split; [done|]. split; [done|]. cbv zeta.
  set (s1 := again (index_shard ev sh) j (db w)) in *. set (o := enqueue_op cfg req t lot) in *.
  assert (Hsame : @same_slot _ _ _ SL (db w) s1) by (intros x; apply index_cell, (index_aside ev sh He Ho x)).
  split; [done|]. split; [done|].
  assert (Hset : @wf S _ _ SL (db w) -> @op_ok S _ _ SL o (db w) -> @wf S _ _ SL s1 /\ @op_ok S _ _ SL o s1).
  { intros Hwf (? & ? & ? & Hf). split; [by eapply kept_slot_wf|]. split_and!; try done; by rewrite (same_slot_view (SL := SL) (db w) s1). }
  split; [intros Hwf Hok Hk0; destruct (Hset Hwf Hok) as [Hw1 Ho1]; rewrite Hdb; by apply (join_settles (SL := SL))|].
  intros tk Htk. destruct (Hans tk Htk) as (Hjp & i & -> & ->). split; [by eexists|]. intros Hwf Hok. destruct (Hset Hwf Hok) as [Hw1 Ho1]. rewrite Hdb. split.
  - intros Hf. pose proof (index_member ev sh j (db w) (Hjp Hf)) as Hin. fold s1 in Hin. rewrite SMEMBERS_law in Hin |- *.
    destruct (join_settles (SL := SL) _ _ _ _ _ _ _ _ _ (Datatypes.S i) s1 Hw1 Ho1) as (_ & _ & _ & Hc). unfold o, enqueue_op. rewrite Hc; [done|apply index_aside].
  - destruct (join_settles (SL := SL) _ _ _ _ _ _ _ _ _ i s1 Hw1 Ho1) as (Hwi & Hoi & _). by apply (join_reply (SL := SL)).
Qed.

(** The first answer is lost: the client library joins again, and the ticket is the place. *)
Lemma Enqueue_is_one_join_witness :
  let w := demo_world demo_store [WOk; WOk; WOk; WLost false "i/o timeout"] in
  let req := Queue.MkEnqueueRequest "s0001" "dan" "fp" "ip" in
  let m := Queue.Enqueue demo_queue req w in
  m.2 = Ok (Queue.MkTicket "exists" "s0001" 3 4 1000000002 "fifo") /\ seq_of (db m.1) = seq_of demo_store + 1 /\
  "s0001" ∈ SMEMBERS (Keys.Shards "show") (db m.1) /\ v_q (view (db m.1) "dan") = Some 1000000002.
Proof.
  split; [vm_compute; reflexivity|]. split; [vm_compute; reflexivity|].
  destruct (Enqueue_is_one_join "show" "s0001" eq_refl demo_origin demo_queue
    (Queue.MkEnqueueRequest "s0001" "dan" "fp" "ip") (demo_world demo_store [WOk; WOk; WOk; WLost false "i/o timeout"]) eq_refl eq_refl eq_refl
    (demo_ready demo_store [WOk; WOk; WOk; WLost false "i/o timeout"] eq_refl)) as (t & lot & j & k & Hlot & _ & _ & H); [repeat constructor; done|].
  cbv zeta in H. destruct H as (_ & _ & _ & Hans).
  destruct (Hans (Queue.MkTicket "exists" "s0001" 3 4 1000000002 "fifo") ltac:(vm_compute; reflexivity)) as (_ & H).
  assert (Hok : op_ok (enqueue_op demo_queue (Queue.MkEnqueueRequest "s0001" "dan" "fp" "ip") t lot) demo_store).
  { split; [reflexivity|]. split; [exact (proj1 Hlot)|]. split; [done|]. vm_compute. done. }
  destruct (H demo_wf Hok) as [H1 H2]. split; [exact (H1 eq_refl)|exact (H2 eq_refl)].
Defined.

(** ** The circuit breaker *)

(** The breaker counts failures since the last success, and is closed exactly while
    they are fewer than the threshold (at least one), whatever the order of calls and the
    clock. *)
Lemma calls_counted th cd cs :
  Z.of_nat (length cs) < two63 ->
  let b := Breaker.calls (Breaker.NewBreaker th cd) cs in
  Breaker.failures b = Breaker.consecutive cs /\
  (Breaker.state b = Breaker.BreakerClosed <-> Breaker.consecutive cs < Z.max 1 th).
Proof.
  intros Hlen b. destruct (Breaker.agrees_calls (Breaker.NewBreaker th cd) 0 cs (Breaker.New_agrees th cd) Hlen)
    as (Hf & _ & _ & Hs). fold b in Hf, Hs. split; [done|].
  unfold Breaker.consecutive. rewrite Hs. unfold b. rewrite (proj1 (Breaker.threshold_calls _ _)). cbn.
  destruct (th <=? 0) eqn:E; bool_to_prop; [rewrite Z.max_l by lia|rewrite Z.max_r by lia]; done.
Qed.

(** An open breaker stays open for its cooldown, then probes once.  Any number of reads
    before the cooldown ends answer open; the first read after it answers half-open; from
    there one success closes it and one failure opens it again from that moment. *)
Lemma open_probes b ts t t' :
  Breaker.state b = Breaker.BreakerOpen ->
  Forall (fun x => time_sub x (Breaker.openedAt b) < Breaker.cooldown b) ts ->
  Breaker.cooldown b <= time_sub t (Breaker.openedAt b) ->
  let b1 := Breaker.calls b (Breaker.CState <$> ts) in
  let b2 := (Breaker.State t b1).1 in
  b1 = b /\ (Breaker.State t b1).2 = Breaker.BreakerHalfOpen /\
  Breaker.state (Breaker.Success b2) = Breaker.BreakerClosed /\ Breaker.failures (Breaker.Success b2) = 0 /\
  Breaker.state (Breaker.Failure t' b2) = Breaker.BreakerOpen /\ Breaker.openedAt (Breaker.Failure t' b2) = t'.
Proof.
  intros Ho Hts Ht b1 b2. assert (b1 = b) as E1 by (by apply Breaker.reads_open).
  assert (Hs : Breaker.State t b = (Breaker.MkBreaker Breaker.BreakerHalfOpen (Breaker.failures b)
    (Breaker.threshold b) (Breaker.cooldown b) (Breaker.openedAt b), Breaker.BreakerHalfOpen)).
  { unfold Breaker.State. rewrite bool_decide_eq_true_2 by done. by rewrite (proj2 (Z.leb_le _ _) Ht). }
  subst b2. rewrite E1, Hs. done.
Qed.

(** C16: the circuit breaker.  After any calls in any order and at any times the breaker has
    counted the failures since the last success, and is closed exactly while they are fewer
    than the threshold (at least one).  Once open, any number of reads before the cooldown
    ends answer open and change nothing; the first read after it answers half-open; from
    there one success closes the breaker and forgets the failures, and one failure opens it
    again from that moment. *)
Theorem breaker_trips_and_probes th cd cs :
  Z.of_nat (length cs) < two63 ->
  let b := Breaker.calls (Breaker.NewBreaker th cd) cs in
  Breaker.failures b = Breaker.consecutive cs /\
  (Breaker.state b = Breaker.BreakerClosed <-> Breaker.consecutive cs < Z.max 1 th) /\
  (Breaker.state b = Breaker.BreakerOpen -> forall ts t t',
     Forall (fun x => time_sub x (Breaker.openedAt b) < Breaker.cooldown b) ts ->
     Breaker.cooldown b <= time_sub t (Breaker.openedAt b) ->
     let b1 := Breaker.calls b (Breaker.CState <$> ts) in
     let b2 := (Breaker.State t b1).1 in
     b1 = b /\ (Breaker.State t b1).2 = Breaker.BreakerHalfOpen /\
     Breaker.state (Breaker.Success b2) = Breaker.BreakerClosed /\ Breaker.failures (Breaker.Success b2) = 0 /\
     Breaker.state (Breaker.Failure t' b2) = Breaker.BreakerOpen /\ Breaker.openedAt (Breaker.Failure t' b2) = t').
Proof.
  intros Hlen b. destruct (calls_counted th cd cs Hlen) as [Hf Hs]. split; [done|]. split; [done|].
  intros Ho ts t t'. by apply open_probes.
Qed.

Lemma breaker_trips_and_probes_witness :
  let b := Breaker.calls (Breaker.NewBreaker 2 1000)
             [Breaker.CFailure 1; Breaker.CSuccess; Breaker.CFailure 2; Breaker.CFailure 3] in
  Breaker.failures b = 2 /\ (Breaker.State 2000 (Breaker.calls b (Breaker.CState <$> [10; 900]))).2 = Breaker.BreakerHalfOpen.
Proof.
  destruct (breaker_trips_and_probes 2 1000
    [Breaker.CFailure 1; Breaker.CSuccess; Breaker.CFailure 2; Breaker.CFailure 3] eq_refl) as (Hf & _ & Hp).
  split; [exact Hf|].
  exact (proj1 (proj2 (Hp eq_refl [10; 900] 2000 0 ltac:(repeat constructor; vm_compute; done) ltac:(vm_compute; done)))).
Defined.

(** ** The controller *)

(** The store, the script cache and the wire are as they were. *)
Definition same_server {S} (w w' : world S) : Prop := db w' = db w /\ cached w' = cached w /\ wire w' = wire w.

Lemma same_server_trans {S} (w w1 w2 : world S) : same_server w w1 -> same_server w1 w2 -> same_server w w2.
Proof. unfold same_server. intros (-> & -> & ->) (-> & -> & ->). done. Qed.

Lemma ticked_server {S} (w : world S) : same_server w (ticked w).
Proof. destruct (ticked_same w) as (D & C & W & _). done. Qed.

(** The breaker and the probe touch neither Redis nor the wire. *)
Lemma brk_State_quiet {S} b (w : world S) : exists w2 b2 st, Controller.brk_State b w = (w2, Ok (b2, st)) /\ same_server w w2.
Proof.
  unfold Controller.brk_State. destruct (Breaker.state b); try by (do 3 eexists).
  rewrite (bind_ok _ _ _ _ _ (now_eq w)). pose proof (ticked_server w). unfold mret, M_ret. destruct (Breaker.State _ b). by do 3 eexists.
Qed.

Lemma brk_Failure_quiet {S} b (w : world S) : exists w2 b2, Controller.brk_Failure b w = (w2, Ok b2) /\ same_server w w2.
Proof.
  unfold Controller.brk_Failure. destruct (_ || _); [|by do 2 eexists].
  rewrite (bind_ok _ _ _ _ _ (now_eq w)). pose proof (ticked_server w). unfold mret, M_ret. by do 2 eexists.
Qed.

Lemma pressure_quiet {S} cfg h p b (w : world S) : exists w2 b2 factor,
  Controller.pressure cfg h p b w = (w2, Ok (b2, factor)) /\ same_server w w2.
Proof.
  unfold Controller.pressure. destruct (brk_State_quiet b w) as (w2 & b2 & st & E & Q). rewrite (bind_ok _ _ _ _ _ E).
  destruct (decide _); [by do 3 eexists|]. destruct (Controller.Check h p) as [lat|e]; [destruct (decide _); by do 3 eexists|].
  destruct (brk_Failure_quiet b2 w2) as (w3 & b3 & E3 & Q3). rewrite (bind_ok _ _ _ _ _ E3).
  destruct (brk_State_quiet b3 w3) as (w4 & b4 & st4 & E4 & Q4). rewrite (bind_ok _ _ _ _ _ E4).
  destruct (brk_State_quiet b4 w4) as (w5 & b5 & st5 & E5 & Q5). rewrite (bind_ok _ _ _ _ _ E5).
  destruct (decide _); do 3 eexists; (split; [reflexivity|eauto using same_server_trans]).
Qed.

(** The gate reads the clock at most. *)
Lemma gate_quiet {S} cfg (w : world S) : exists wg, Controller.gateRemaining cfg w = (wg, Ok (Controller.gate_left cfg (reading w))) /\ same_server w wg.
Proof.
  unfold Controller.gateRemaining. destruct (Controller.gate_on cfg) eqn:E.
  - rewrite (bind_ok _ _ _ _ _ (now_eq w)). eexists. split; [reflexivity|apply ticked_server].
  - unfold Controller.gate_left. rewrite E. by exists w.
Qed.

(** While the lottery window is open and the gate is on, a cycle writes nothing to Redis,
    sends nothing, probes nothing downstream, and says so. *)
Lemma gated_cycle_is_silent {S} `{Redis S} `{Lua S} cfg qcfg h p b (w : world S) left :
  Controller.gate_left cfg (reading w) = Some left ->
  let m := Controller.Cycle cfg qcfg h p b w in
  db m.1 = db w /\ wire m.1 = wire w /\ left = time_sub (time_add (Admission.OpenAt cfg) (Admission.LotteryWindow cfg)) (reading w) /\
  0 < left /\ exists b' rep, m.2 = Ok (b', rep, None) /\ Controller.Gated rep = true /\ Controller.Granted rep = 0.
Proof.
  intros Hg m. assert (Hleft : left = time_sub (time_add (Admission.OpenAt cfg) (Admission.LotteryWindow cfg)) (reading w) /\ 0 < left).
  { unfold Controller.gate_left in Hg. destruct (Controller.gate_on cfg); [|done]. destruct (0 <? _) eqn:E; [|done].
    injection Hg as <-. bool_to_prop. done. }
  subst m. unfold Controller.Cycle. destruct (gate_quiet cfg w) as (wg & Eg & D1 & _ & W1). rewrite (bind_ok _ _ _ _ _ Eg), Hg.
  destruct (brk_State_quiet b wg) as (w2 & b2 & st & E & D2 & _ & W2). rewrite (bind_ok _ _ _ _ _ E).
  unfold mret, M_ret. cbn. split_and!; try naive_solver congruence.
Qed.

(** *** What a cycle reads *)

Section Cycle.
Context {S : Type} `{RL : RedisLaws S} `{L : Lua S}.
Variables (cfg : Admission.Config) (qcfg : Queue.Config) (h : Controller.HealthChecker).

(** The shards a cycle sees, and those waiting in each. *)
#[local] Existing Instance Queue.str_le_dec.
Definition seen_shards (s : S) : list string :=
  merge_sort Queue.str_le (List.filter (fun m => is_ok (Ids.Validate m)) (SMEMBERS (Keys.Shards (Queue.EventID qcfg)) s)).

Definition seen_waiting (s : S) : list Z :=
  (fun sh => ZCARD (Keys.Queue (Queue.EventID qcfg) sh) s) <$> seen_shards s.

(** A command that only reads answers from the state, if it answers. *)
Lemma reading_command {A} (f : S -> A) w : let o := command (fun s => (s, f s)) w in
  db o.1 = db w /\ (forall a, o.2 = Ok a -> a = f (db w)).
Proof.
  cbv zeta. destruct (command_spec (fun s => (s, f s)) w) as ((k & _ & Hdb & Hans) & _).
  assert (Hid : forall j s, again (fun s => (s, f s)) j s = s).
  { intros j s. unfold again. induction j as [|j IH]; [done|]. by rewrite Nat.iter_succ, IH. }
  rewrite Hid in Hdb. split; [done|]. intros a Ha. destruct (Hans a Ha) as (j & _ & ->). by rewrite Hid.
Qed.

Lemma Shards_seen w w' shards : Queue.Shards qcfg w = (w', Ok shards) -> db w' = db w /\ shards = seen_shards (db w).
Proof.
  unfold Queue.Shards, wrapping, mbind, M_bind. pose proof (reading_command (fun s => SMEMBERS (Keys.Shards (Queue.EventID qcfg)) s) w) as [D E].
  destruct (command _ w) as [w1 [ms|e]]; [|done]. cbn [fst snd] in *. intros [= <- <-]. by rewrite (E ms eq_refl).
Qed.

Lemma Sizes_seen w w' shards sizes : Queue.Sizes qcfg shards w = (w', Ok sizes) ->
  db w' = db w /\ sizes = (fun sh => ZCARD (Keys.Queue (Queue.EventID qcfg) sh) (db w)) <$> shards.
Proof.
  unfold Queue.Sizes, wrapping. destruct shards as [|sh shards]; [by intros [= <- <-]|].
  pose proof (reading_command (fun s => (fun sh => ZCARD (Keys.Queue (Queue.EventID qcfg) sh) s) <$> (sh :: shards)) w) as [D E].
  destruct (command _ w) as [w1 [ms|e]]; intros [= <- <-]. cbn [fst snd] in *. by rewrite (E ms eq_refl).
Qed.

Lemma perCycle_range factor : in64 (Controller.perCycle cfg factor) = true.
Proof. unfold Controller.perCycle. case_match; [done|]. apply int64_of_f64_range. Qed.

Lemma refill_keeps shards waiting grants rep w w' rep' :
  Controller.refill_shards cfg shards waiting grants rep w = (w', Ok rep') ->
  Controller.Gated rep' = Controller.Gated rep /\ Controller.Factor rep' = Controller.Factor rep.
Proof.
  revert waiting grants rep w. induction shards as [|sh shards IH]; intros [|n waiting] [|g grants] rep w; try by intros [= _ <-].
  cbn [Controller.refill_shards]. destruct (_ && _); [by intros [? ?]%IH|].
  destruct (Admission.Refill cfg sh g w) as [w1 [b|e]]; by intros [? ?]%IH.
Qed.

(** The refills are counted as granted when they succeed. *)
Lemma refill_granted shards waiting grants rep w w' rep' : Forall (fun g => 0 <= g) grants ->
  0 <= Controller.Granted rep -> Controller.Granted rep + sumZ grants < two63 ->
  Controller.refill_shards cfg shards waiting grants rep w = (w', Ok rep') ->
  Controller.Granted rep <= Controller.Granted rep' <= Controller.Granted rep + sumZ grants.
Proof.
  intros Hp. revert shards waiting rep w. induction Hp as [|g grants Hp Hps IH]; intros [|sh shards] [|n waiting] rep w H0 Hlt; try (intros [= _ <-]; cbn in *; lia).
  all: cbn [Controller.refill_shards sumZ foldr] in *; fold (sumZ grants) in *; pose proof (sumZ_nonneg grants Hps); try (intros [= _ <-]; lia).
  assert (Hadd : int64_add (Controller.Granted rep) g = Controller.Granted rep + g).
  { apply wrap64_id, in64_spec. unfold two63 in *. lia. }
  destruct (_ && _); [intros E; apply IH in E; cbn in *; lia|].
  destruct (Admission.Refill cfg sh g w) as [w1 [b|e]]; intros E; apply IH in E; cbn in *; rewrite ?Hadd in *; lia.
Qed.

(** A cycle that is not gated, by its parts. *)
Lemma cycle_parts p b w : Controller.gate_left cfg (reading w) = None ->
  exists wp factor st b', same_server w wp /\
    Controller.Cycle cfg qcfg h p b w =
    (let m := Controller.distribute cfg qcfg factor (Controller.MkReport 0 0 0 factor st [] 0 false) wp in
     (m.1, match m.2 with Ok (rep, err) => Ok (b', rep, err) | Err e => Err e end)).
Proof.
  intros Hg. unfold Controller.Cycle. destruct (gate_quiet cfg w) as (wg & Eg & Qg). rewrite (bind_ok _ _ _ _ _ Eg), Hg.
  destruct (pressure_quiet cfg h p b wg) as (w1 & b1 & factor & E1 & Q1). rewrite (bind_ok _ _ _ _ _ E1).
  destruct (brk_State_quiet b1 w1) as (w2 & b2 & st & E2 & Q2). rewrite (bind_ok _ _ _ _ _ E2).
  exists w2, factor, st, b2. split; [eauto using same_server_trans|].
  unfold mbind, M_bind, mret, M_ret. by destruct (Controller.distribute _ _ _ _ w2) as [w3 [[rep3 err3]|e]].
Qed.

Lemma cycle_by_parts p b w w' b' rep err :
  Controller.gate_left cfg (reading w) = None ->
  Controller.Cycle cfg qcfg h p b w = (w', Ok (b', rep, err)) ->
  exists wp factor st, db wp = db w /\ 
    Controller.distribute cfg qcfg factor (Controller.MkReport 0 0 0 factor st [] 0 false) wp = (w', Ok (rep, err)).
Proof.
  intros Hg. destruct (cycle_parts p b w Hg) as (wp & factor & st & b2 & (D & _) & ->). cbv zeta. intros Hm. exists wp, factor, st. split; [done|].
  revert Hm. destruct (Controller.distribute _ _ _ _ wp) as [w3 [[rep3 err3]|e]]; cbn [fst snd]; congruence.
Qed.

End Cycle.

(** What a cycle reports of its seats: none while the gate is closed, and otherwise, whatever
    fails on the way, no more than the rate, the interval and the factor it reports allow. *)
Lemma cycle_report_bounded {S} `{RL : RedisLaws S} `{L : Lua S} cfg qcfg h p b (w : world S) :
  let m := Controller.Cycle cfg qcfg h p b w in
  match Controller.gate_left cfg (reading w) with
  | Some togo =>
      db m.1 = db w /\ wire m.1 = wire w /\ 0 < togo /\
      exists b' rep, m.2 = Ok (b', rep, None) /\ Controller.Gated rep = true /\ Controller.Granted rep = 0
  | None =>
      forall b' rep err, m.2 = Ok (b', rep, err) ->
      let total := Controller.perCycle cfg (Controller.Factor rep) in
      let everyone := sumZ (zip_with eligible (seen_shards qcfg (db w)) (seen_waiting qcfg (db w))) in
      total * everyone < two53 ->
      Controller.Gated rep = false /\ 0 <= Controller.Granted rep <= Z.max 0 total /\
      (err <> None \/ everyone = 0 -> Controller.Granted rep = 0)
  end.
Proof.
  intros m. destruct (Controller.gate_left cfg (reading w)) as [togo|] eqn:Hg.
  { pose proof (gated_cycle_is_silent cfg qcfg h p b w togo Hg). naive_solver. }
  intros b' rep err E total everyone Hlt. subst m. destruct (Controller.Cycle cfg qcfg h p b w) as [w' r] eqn:Ec. cbn in E. subst r.
  destruct (cycle_by_parts cfg qcfg h p b w w' b' rep err Hg Ec) as (wp & factor & st & D & Hd).
  unfold Controller.distribute in Hd. destruct (Queue.Shards qcfg wp) as [w1 [shards|e]] eqn:Es.
  2: { injection Hd as _ <- <-. cbn. split_and!; [done|lia|lia|done]. }
  apply Shards_seen in Es as [D1 Es]. rewrite D in Es.
  destruct shards as [|sh0 shards0] eqn:Hsh; [injection Hd as _ <- <-; cbn; split_and!; [done|lia|lia|done]|].
  rewrite <- Hsh in *. clear Hsh. destruct (Queue.Sizes qcfg shards w1) as [w2 [waiting|e]] eqn:Ez.
  2: { injection Hd as _ <- <-. cbn. split_and!; [done|lia|lia|done]. }
  apply Sizes_seen in Ez as [D2 Ez]. rewrite D1, D in Ez. 
  unfold mbind, M_bind, mret, M_ret in Hd. destruct (Controller.refill_shards _ _ _ _ _ w2) as [w3 [rep3|e]] eqn:Er; [|done].
  injection Hd as _ -> <-. set (grants := Controller.apportion _ _) in *.
  assert (Hwait : waiting = seen_waiting qcfg (db w)) by (unfold seen_waiting; by rewrite <- Es).
  assert (Hl : length waiting = length shards) by (rewrite Ez; apply length_fmap).
  assert (Hn : Forall (fun n => 0 <= n) waiting).
  { rewrite Ez. apply Forall_fmap, list.Forall_forall. intros sh _. cbn. rewrite ZCARD_v. unfold zcard. lia. }
  pose proof (shares_bounded (Controller.perCycle cfg factor) shards waiting (eq_sym Hl) Hn) as Hb. cbv zeta in Hb. fold grants in Hb.
  replace (zip_with eligible shards waiting) with (zip_with eligible (seen_shards qcfg (db w)) (seen_waiting qcfg (db w))) in Hb by congruence.
  destruct (refill_keeps _ _ _ _ _ _ _ _ Er) as [G F]. cbn in G, F. unfold total in *. rewrite F in *.
  destruct (Hb Hlt) as (_ & Hg0 & Hgs & Hge).
  pose proof (proj1 (in64_spec _) (perCycle_range cfg factor)).
  apply refill_granted in Er; cbn in *; [|done|lia|lia]. split_and!; [done|lia|lia|]. intros [Hn0|He]; [done|]. specialize (Hge He). lia.
Qed.

Definition gated_admission : Admission.Config :=
  Admission.MkConfig "show" 600 Second true (time_UnixMilli 0) (60 * Second) 0 0 1000 f64_1 3 (10 * Second) (600 * Second) (3600 * Second).


(** Ten seats, one shard with three people. *)
Definition open_store : gmap string cell := SADD (Keys.Shards "show") "s0001" demo_store.
