(* ===== verification/Cycles.v ===== *)
(** * Cycles: the controller among the shards

    One cycle of the controller reads the shards of the event, divides the seats among them
    and refills their budgets.  On the store it is a run of refills, one for each shard that
    is due, of its share and in order, and nothing else; over a failing wire, some of them.
    From there the guarantees of the single slots hold for the whole event: [turn_comes] is
    about any interleaving of cycles and queue operations on any number of shards. *)

From S2P Require Import Prelude.
From S2P Require Import Go.
From S2P Require Import Redis.
From S2P Require Import Keys.
From S2P Require Import Shard.
From S2P Require Import Scripts.
From S2P Require Import Slot.
From S2P Require Import Ladder.
From S2P Require Import Runs.
From S2P Require Import Frame.
From S2P Require Import Guarantees.
From S2P Require Import Turns.
From S2P Require Import Float.
From S2P Require Import Conn.
From S2P Require Import Again.
From S2P Require Import QueueStore.
From S2P Require Import Rounding.
From S2P Require Import Admission.
From S2P Require Import Shares.
From S2P Require Import Refine.
From S2P Require Import Clients.
Local Open Scope string_scope.
Local Open Scope Z_scope.
Local Open Scope list_scope.

Section Cycles.
Context (ev : string) (He : plain ev = true).
Context {S : Type} {R : Redis S} {RL : RedisLaws S} {L : Lua S} {LL : LuaLaws S}.
Context (cfg : Admission.Config) (qcfg : Queue.Config) (h : Controller.HealthChecker).
Context (Hev : Admission.EventID cfg = ev).

#[local] Abbreviation at_shard := (slot_of ev He).

(** ** Runs of refills *)

Definition budget_ttl : Z := Milliseconds (int64_mul (Admission.Interval cfg) Admission.budgetTTLFactor).

Context (Httl : 0 < budget_ttl).

Definition refill_op (g : Z) : op := ORefill g (Admission.MaxBudgetPerShard cfg) budget_ttl.

Definition slots_same (s s' : S) : Prop := forall sh, @same_slot S _ _ (at_shard sh) s s'.

Lemma slots_same_wf s s' : slots_same s s' -> all_wf ev He s -> all_wf ev He s'.
Proof. intros Hs Hwf sh. by apply (kept_slot_wf (SL := at_shard sh) s), Hwf. Qed.

(** Refills of shards, and writes to keys of no slot. *)
Inductive refills : S -> list (shard * Z) -> S -> Prop :=
  | refills_nil s : refills s [] s
  | refills_aside s s1 l s' : slots_same s s1 -> refills s1 l s' -> refills s l s'
  | refills_one s a g l s' : refills (@run_op S _ (at_shard a) (refill_op g) s).1 l s' -> refills s ((a, g) :: l) s'.

(** A refill that is executed several times. *)
Lemma refills_repeat k a g s l s' : refills (@repeat_op S _ (at_shard a) (refill_op g) k s) l s' -> refills s (replicate k (a, g) ++ l) s'.
Proof.
  revert s. induction k as [|k IH]; intros s; [done|]. unfold repeat_op, again in *. rewrite Nat.iter_succ_r. intros H. by apply refills_one, IH.
Qed.

Definition named (x : shard * Z) : string * Z := (name x.1, x.2).

(** The shards that are due, with their shares. *)
Fixpoint due (shards : list string) (waiting grants : list Z) : list (string * Z) :=
  match shards, waiting, grants with
  | sh :: shards, n :: waiting, g :: grants =>
      if (n =? 0) && (g =? 0) || Ids.IsGreylist sh then due shards waiting grants
      else (sh, g) :: due shards waiting grants
  | _, _, _ => []
  end.

Lemma valid_origin sh : Ids.Validate sh = Ok tt -> Ids.IsGreylist sh = false -> origin_shard sh.
Proof.
  intros Hv Hg. apply Validate_origin; [done|]. destruct sh as [|c rest]; [done|].
  destruct (Validate_digits _ _ Hv) as [[->| ->] _]; [done|]. by cbn in Hg.
Qed.

(** The budget of a greylist shard is no slot's. *)
Lemma grey_budget_aside sh a : Ids.Validate sh = Ok tt -> Ids.IsGreylist sh = true -> @foreign (at_shard a) (Keys.Budget ev sh).
Proof.
  intros Hv Hg x Hx. destruct a as [a Ha]. cbn in Hx. change (Keys.Budget ev sh) with (key_name ev (RBudget sh)) in Hx.
  destruct (origin_plain a Ha) as (Hpa & Hga & Hsa).
  assert (Hp : plain sh = true).
  { destruct sh as [|c rest]; [done|]. destruct (Validate_digits _ _ Hv) as (Hc & _ & Hr).
    unfold plain in *. cbn. rewrite Hr. by destruct Hc as [-> | ->]. }
  apply key_name_inj in Hx as [_ Hx]; try done; [|by destruct x].
  destruct Ha as (ra & -> & _). destruct x; try discriminate Hx; cbn in Hx. injection Hx as Hx. subst sh. by cbn in Hg.
Qed.

(** ** One refill through the Go store *)

Lemma Refill_any sh g w : Ids.Validate sh = Ok tt -> ready w ->
  let m := Admission.Refill cfg sh g w in
  ready m.1 /\ wire m.1 `suffix_of` wire w /\ (wire w = [] -> wire m.1 = [] /\ exists b, m.2 = Ok b) /\
  (forall k, k <> Keys.Budget ev sh -> cell_of (db m.1) k = cell_of (db w) k).
Proof.
  intros Hv Hw. cbv zeta. unfold Admission.Refill. rewrite (bind_lift _ _ _ tt Hv), Hev. fold budget_ttl.
  match goal with |- context [mbind ?f (Redisx.Run ?n ?K ?A) w] =>
    pose proof (Run_decode n K A Admission.ErrUnexpectedReply 2 (fun v => Admission.MkBudget sh (Admission.asInt64 (at_ v 0)) (Admission.asInt64 (at_ v 1))) w Hw) as Hd end.
  destruct Hd as (Hr & _ & Hs & Ho & Hh); [intros s; by rewrite eval_refill|]. fold Admission.reply_ in Ho, Hr, Hh, Hs. cbv zeta in *.
  split; [exact Hr|]. split; [exact Hs|]. split; [intros Hwi; destruct (Hh Hwi) as (? & -> & _); eauto|]. intros k Hk.
  destruct Ho as (n & _ & Hdb & _). rewrite Hdb. unfold again. clear Hdb.
  match goal with |- cell_of (Nat.iter _ ?f _) _ = _ => assert (Hone : forall s, cell_of (f s) k = cell_of s k) end.
  { intros s. cbn [fst]. rewrite eval_refill. cbn [refill_budget_lua]. rewrite !arg_itoa. fold budget_ttl. unfold refill_budget. cbn [fst].
    apply cell_SET_PX; [done|congruence]. }
  induction n as [|n IH]; [done|]. by rewrite Nat.iter_succ, Hone.
Qed.

Lemma Refill_slots sh g w : Ids.Validate sh = Ok tt -> ready w ->
  let m := Admission.Refill cfg sh g w in
  (if Ids.IsGreylist sh then slots_same (db w) (db m.1)
   else exists a k, name a = sh /\ (k <= times w)%nat /\ db m.1 = @repeat_op S _ (at_shard a) (refill_op g) k (db w) /\
     (wire w = [] -> db m.1 = @repeat_op S _ (at_shard a) (refill_op g) 1 (db w))).
Proof.
  intros Hv Hw. cbv zeta. destruct (Ids.IsGreylist sh) eqn:Hg.
  - intros a x. apply Refill_any; [done..|]. by apply grey_budget_aside.
  - pose (a := MkShard sh (valid_origin sh Hv Hg)). exists a.
    destruct (Refill_runs_op ev sh He (is_origin a) Hv cfg g w Hev Hw) as (_ & _ & (k & Hk & Hdb & _) & Hh).
    exists k. split_and!; [done|done|exact Hdb|]. intros Hwi. by destruct (Hh Hwi) as (_ & _ & ->).
Qed.

(** ** The loop of the controller *)

Definition valid_shards (shards : list string) : Prop := Forall (fun sh => Ids.Validate sh = Ok tt) shards.

(** The refills a loop made: of the shards that are due, each as often as its command was
    executed, and no key but the budgets changed. *)
Definition refilled_due (w : world S) (s' : S) (shards : list string) (d : list (string * Z)) : Prop :=
  exists l, refills (db w) l s' /\ repeats (times w) (named <$> l) d /\ (wire w = [] -> named <$> l = d) /\
    (forall k, (forall sh, sh ∈ shards -> k <> Keys.Budget ev sh) -> cell_of s' k = cell_of (db w) k).

Lemma refilled_due_nil w shards d : (wire w = [] -> d = []) -> refilled_due w (db w) shards d.
Proof. intros Hd. exists []. split_and!; [constructor|apply repeats_none|intros E; by rewrite (Hd E)|done]. Qed.

Lemma refill_loop shards waiting grants rep w : valid_shards shards -> ready w ->
  let m := Controller.refill_shards cfg shards waiting grants rep w in
  refilled_due w (db m.1) shards (due shards waiting grants) /\ exists rep', m.2 = Ok rep'.
Proof.
  intros Hv. revert waiting grants rep w. induction Hv as [|sh shards Hsh Hv IH]; intros waiting grants rep w Hw.
  { split; [by apply refilled_due_nil|by eexists]. }
  destruct waiting as [|n waiting]; [split; [by apply refilled_due_nil|by eexists]|].
  destruct grants as [|g grants]; [split; [by apply refilled_due_nil|by eexists]|].
  cbn [Controller.refill_shards due]. destruct ((n =? 0) && (g =? 0)); cbn [orb].
  { match goal with |- context [Controller.refill_shards _ _ _ _ ?r w] => destruct (IH waiting grants r w Hw) as ((l & H1 & H2 & H3 & H5) & H4) end.
    split; [|done]. exists l. split_and!; try done. intros k Hk. apply H5. intros sh' Hin. apply Hk. by right. }
  destruct (Refill_any sh g w Hsh Hw) as (Hr & Hsuf & Hwi & Hk1). pose proof (Refill_slots sh g w Hsh Hw) as Hs.
  destruct (Admission.Refill cfg sh g w) as [w1 o]. cbn [fst snd] in *.
  assert (Hgo : forall rep1, refilled_due w (db (Controller.refill_shards cfg shards waiting grants rep1 w1).1) (sh :: shards)
      (if Ids.IsGreylist sh then due shards waiting grants else (sh, g) :: due shards waiting grants) /\
    (exists rep', (Controller.refill_shards cfg shards waiting grants rep1 w1).2 = Ok rep')).
  { intros rep1. destruct (IH waiting grants rep1 w1 Hr) as ((l & H1 & H2 & H3 & H5) & H4). split; [|done].
    assert (H6 : forall k, (forall sh', sh' ∈ sh :: shards -> k <> Keys.Budget ev sh') ->
      cell_of (db (Controller.refill_shards cfg shards waiting grants rep1 w1).1) k = cell_of (db w) k).
    { intros k Hk. rewrite H5, Hk1; [done| |]; [apply Hk; by left|intros sh' Hin; apply Hk; by right]. }
    apply (repeats_mono _ _ _ _ (times_suffix w w1 Hsuf)) in H2.
    destruct (Ids.IsGreylist sh).
    - exists l. split_and!; try done; [by eapply refills_aside|]. intros E. by apply H3, Hwi.
    - destruct Hs as (a & k & <- & Hk & Hs & Hok). destruct (decide (wire w = [])) as [E|E].
      + rewrite (Hok E) in H1. exists (replicate 1 (a, g) ++ l). rewrite fmap_app, fmap_replicate. split_and!; [by apply refills_repeat| | |done].
        * constructor; [|done]. unfold times. by rewrite E.
        * intros _. cbn. unfold named at 1. cbn [fst snd]. f_equal. by apply H3, Hwi.
      + rewrite Hs in H1. exists (replicate k (a, g) ++ l). rewrite fmap_app, fmap_replicate. split_and!; [by apply refills_repeat| |done|done].
        by constructor. }
  destruct o as [b|e]; apply Hgo.
Qed.

(** ** The cycle *)

Lemma valid_seen s : valid_shards (seen_shards qcfg s).
Proof.
  unfold valid_shards, seen_shards. rewrite merge_sort_Permutation. apply list.Forall_forall. intros sh Hin.
  apply list_elem_of_In, List.filter_In in Hin as [_ Hv]. by destruct (Ids.Validate sh) as [[]|].
Qed.

(** A command that only reads. *)
Lemma read_ready {A} (f : S -> A) w : ready w ->
  let m := command (fun s => (s, f s)) w in
  ready m.1 /\ db m.1 = db w /\ wire m.1 `suffix_of` wire w /\ (wire w = [] -> wire m.1 = [] /\ m.2 = Ok (f (db w))).
Proof.
  intros Hw. destruct (reading_command f w) as [Hd _]. destruct (command_spec (fun s => (s, f s)) w) as (_ & _ & _ & Hs & _ & Hh).
  split_and!; [by apply command_ready|done|done|]. intros E. by destruct (Hh E) as (? & _ & ?).
Qed.

Lemma Shards_ready w : ready w ->
  let m := Queue.Shards qcfg w in
  ready m.1 /\ db m.1 = db w /\ wire m.1 `suffix_of` wire w /\ (forall shards, m.2 = Ok shards -> shards = seen_shards qcfg (db w)) /\
  (wire w = [] -> wire m.1 = [] /\ m.2 = Ok (seen_shards qcfg (db w))).
Proof.
  intros Hw. pose proof (fun w' shards => Shards_seen qcfg w w' shards) as Hs.
  unfold Queue.Shards, wrapping, mbind, M_bind, mret, M_ret in *.
  destruct (read_ready (fun s => SMEMBERS (Keys.Shards (Queue.EventID qcfg)) s) w Hw) as (Hr & Hd & Hsf & Hwi).
  destruct (command _ w) as [w1 [ms|e]]; cbn [fst snd] in *; split_and!; try done.
  - intros shards E. by destruct (Hs w1 shards); [f_equal|].
  - intros E. destruct (Hwi E) as [? [= ->]]. done.
  - intros E. by destruct (Hwi E).
Qed.

Lemma Sizes_ready w shards : ready w -> 
  let m := Queue.Sizes qcfg shards w in
  ready m.1 /\ db m.1 = db w /\ wire m.1 `suffix_of` wire w /\
  (forall sizes, m.2 = Ok sizes -> sizes = (fun sh => ZCARD (Keys.Queue (Queue.EventID qcfg) sh) (db w)) <$> shards) /\
  (wire w = [] -> wire m.1 = [] /\ exists sizes, m.2 = Ok sizes).
Proof.
  intros Hw. pose proof (fun w' sizes => Sizes_seen qcfg w w' shards sizes) as Hs. unfold Queue.Sizes, wrapping in *.
  destruct shards as [|sh shards]; [cbn; split_and!; try done; [by intros ? [= <-]|by eauto]|].
  destruct (read_ready (fun s => (fun sh => ZCARD (Keys.Queue (Queue.EventID qcfg) sh) s) <$> (sh :: shards)) w Hw) as (Hr & Hd & Hsf & Hwi).
  destruct (command _ w) as [w1 [ms|e]]; cbn [fst snd] in *; split_and!; try done.
  - intros sizes E. by destruct (Hs w1 sizes); [f_equal|].
  - intros E. destruct (Hwi E) as [? _]. eauto.
  - intros E. by destruct (Hwi E).
Qed.

(** The shares of a cycle that reports the factor [f]. *)
Definition cycle_shares (f : float64) (s : S) : list Z :=
  Controller.apportion (Controller.perCycle cfg f) (Controller.weights (seen_shards qcfg s) (seen_waiting qcfg s)).

(** The shards that a cycle with this report refills. *)
Definition due_shards (rep : Controller.CycleReport) (s : S) : list (string * Z) :=
  if Controller.Gated rep then [] else due (seen_shards qcfg s) (seen_waiting qcfg s) (cycle_shares (Controller.Factor rep) s).

(** What a cycle that may refill did to the store, by its report and error. *)
Definition refilled (w : world S) (s' : S) (rep : Controller.CycleReport) (err : option error) : Prop :=
  refilled_due w s' (seen_shards qcfg (db w)) (due_shards rep (db w)) /\ (wire w = [] -> err = None).

Lemma refilled_none w s' rep err : s' = db w -> (wire w = [] -> err = None /\ due_shards rep (db w) = []) -> refilled w s' rep err.
Proof. intros -> Hok. split; [apply refilled_due_nil|]; intros E; by destruct (Hok E). Qed.

Lemma refilled_due_from w w1 s' shards d : db w1 = db w -> wire w1 `suffix_of` wire w -> refilled_due w1 s' shards d -> refilled_due w s' shards d.
Proof.
  intros Hd Hs (l & H1 & H2 & H3 & H4). exists l. rewrite Hd in *. split_and!; [done| | |done].
  - eapply repeats_mono; [by apply times_suffix|done].
  - intros E. apply H3. by eapply suffix_nil_wire.
Qed.

Lemma distribute_refills factor rep0 w : ready w -> Controller.Gated rep0 = false -> Controller.Factor rep0 = factor ->
  let m := Controller.distribute cfg qcfg factor rep0 w in
  exists rep err, m.2 = Ok (rep, err) /\ refilled w (db m.1) rep err.
Proof.
  intros Hw Hg0 Hf0. cbv zeta. unfold Controller.distribute.
  destruct (Shards_ready w Hw) as (Hr1 & Hd1 & Hf1 & Hs1 & Hok1). destruct (Queue.Shards qcfg w) as [w1 [shards|e]]; cbn [fst snd] in *.
  2: { do 2 eexists. split; [done|]. apply refilled_none; [done|]. intros E. by destruct (Hok1 E). }
  pose proof (Hs1 shards eq_refl) as Hsh. destruct shards as [|sh0 shards0] eqn:Hs0.
  { do 2 eexists. split; [done|]. apply refilled_none; [done|]. intros _. unfold due_shards. rewrite <- Hsh. by case_match. }
  rewrite <- Hs0 in *. clear Hs0. destruct (Sizes_ready w1 shards Hr1) as (Hr2 & Hd2 & Hf2 & Hs2 & Hok2).
  destruct (Queue.Sizes qcfg shards w1) as [w2 [waiting|e]]; cbn [fst snd] in *.
  2: { do 2 eexists. split; [done|]. apply refilled_none; [congruence|]. intros E. destruct (Hok1 E) as [E1 _]. by destruct (Hok2 E1) as [_ [? ?]]. }
  pose proof (Hs2 waiting eq_refl) as Hwt. rewrite Hd1 in Hwt. unfold mbind, M_bind, mret, M_ret.
  set (grants := Controller.apportion _ _). set (rep1 := Controller.MkReport _ _ _ _ _ _ _ _).
  assert (Hv : valid_shards shards) by (rewrite Hsh; apply valid_seen).
  destruct (refill_loop shards waiting grants rep1 w2 Hv Hr2) as (Hdue & rep' & Hrep').
  pose proof (fun w' => refill_keeps cfg shards waiting grants rep1 w2 w' rep') as Hk.
  destruct (Controller.refill_shards cfg shards waiting grants rep1 w2) as [w3 o]. cbn [fst snd] in *. subst o.
  destruct (Hk w3 eq_refl) as [Hgt Hft]. cbn in Hgt, Hft. exists rep', None. split; [done|]. split; [|done].
  assert (E : due_shards rep' (db w) = due shards waiting grants).
  { unfold due_shards, cycle_shares, grants. rewrite Hgt, Hg0, Hft, Hf0, Hwt. unfold seen_waiting. by rewrite <- Hsh. }
  rewrite E, <- Hsh. apply (refilled_due_from w w2); [congruence|by etrans|done].
Qed.

Lemma cycle_refills p b w : ready w ->
  let m := Controller.Cycle cfg qcfg h p b w in
  exists b' rep err, m.2 = Ok (b', rep, err) /\ refilled w (db m.1) rep err.
Proof.
  intros Hw. cbv zeta. destruct (Controller.gate_left cfg (reading w)) as [togo|] eqn:Hg.
  - destruct (gated_cycle_is_silent cfg qcfg h p b w togo Hg) as (Hd & _ & _ & _ & b' & rep & E & G & _).
    exists b', rep, None. split; [done|]. apply refilled_none; [done|]. unfold due_shards. by rewrite G.
  - destruct (cycle_parts cfg qcfg h p b w Hg) as (wp & factor & st & b' & (D & C & W) & ->). cbv zeta. cbn [fst snd].
    destruct (distribute_refills factor (Controller.MkReport 0 0 0 factor st [] 0 false) wp) as (rep & err & -> & Hr & Herr); [by eapply ready_same|done..|].
    exists b', rep, err. split; [done|]. rewrite D, W in *. split; [|done]. apply (refilled_due_from w wp); [done|by rewrite W|done].
Qed.

(** ** Who gets the seats *)

Definition everyone (s : S) : Z := sumZ (zip_with eligible (seen_shards qcfg s) (seen_waiting qcfg s)).

Lemma seen_lengths s : length (seen_shards qcfg s) = length (seen_waiting qcfg s).
Proof. unfold seen_waiting. by rewrite length_fmap. Qed.

Lemma seen_nonneg s : Forall (fun n => 0 <= n) (seen_waiting qcfg s).
Proof. unfold seen_waiting. apply Forall_fmap, list.Forall_forall. intros sh _. cbn. rewrite ZCARD_v. unfold zcard. lia. Qed.

(** The shares that are due are not negative. *)
Lemma due_nonneg shards waiting grants : Forall (fun g => 0 <= g) grants -> Forall (fun x => 0 <= x.2) (due shards waiting grants).
Proof.
  intros Hg. revert shards waiting. induction Hg as [|g grants H0 Hg IH]; intros [|sh shards] [|n waiting]; cbn [due]; try constructor.
  case_match; [apply IH|]. by constructor.
Qed.

Lemma due_shards_nonneg s rep : Controller.perCycle cfg (Controller.Factor rep) * everyone s < two53 -> Forall (fun x => 0 <= x.2) (due_shards rep s).
Proof.
  intros Hlt. unfold due_shards. case_match; [constructor|]. apply due_nonneg. by apply shares_bounded; [apply seen_lengths|apply seen_nonneg|].
Qed.

Lemma refilled_nonneg n s rep l : Controller.perCycle cfg (Controller.Factor rep) * everyone s < two53 ->
  repeats n (named <$> l) (due_shards rep s) -> Forall (fun x => 0 <= x.2) l.
Proof.
  intros Hlt Hs. pose proof (due_shards_nonneg s rep Hlt) as Hd.
  rewrite list.Forall_forall in Hd. apply list.Forall_forall. intros x Hx. apply (Hd (named x)). eapply repeats_elem; [exact Hs|]. by apply list_elem_of_fmap_2.
Qed.

(** Together the refills of a cycle grant no more than its rate allows. *)
Definition cycle_total (rep : Controller.CycleReport) : Z :=
  if Controller.Gated rep then 0 else Z.max 0 (Controller.perCycle cfg (Controller.Factor rep)).

Lemma due_sum shards waiting grants : Forall (fun g => 0 <= g) grants -> sumZ (snd <$> due shards waiting grants) <= sumZ grants.
Proof.
  intros Hg. revert shards waiting. induction Hg as [|g grants H0 Hg IH]; intros [|sh shards] [|n waiting]; cbn [due]; try done.
  all: change (sumZ (g :: grants)) with (g + sumZ grants); pose proof (sumZ_nonneg grants Hg).
  1-3: cbn; lia.
  specialize (IH shards waiting). case_match; [lia|]. rewrite fmap_cons.
  change (g + sumZ (snd <$> due shards waiting grants) <= g + sumZ grants). lia.
Qed.

Lemma due_total s rep : Controller.perCycle cfg (Controller.Factor rep) * everyone s < two53 -> sumZ (snd <$> due_shards rep s) <= cycle_total rep.
Proof.
  intros Hlt. destruct (shares_bounded _ _ _ (seen_lengths s) (seen_nonneg s) Hlt) as (_ & Hg & Hsum & _).
  change (Controller.apportion _ _) with (cycle_shares (Controller.Factor rep) s) in Hg, Hsum.
  unfold due_shards, cycle_total in *. destruct (Controller.Gated rep); [done|]. pose proof (due_sum (seen_shards qcfg s) (seen_waiting qcfg s) _ Hg). lia.
Qed.

Lemma refilled_total n s rep l : Controller.perCycle cfg (Controller.Factor rep) * everyone s < two53 ->
  repeats n (named <$> l) (due_shards rep s) -> sumZ (snd <$> l) <= Z.of_nat n * cycle_total rep.
Proof.
  intros Hlt Hs. pose proof (repeats_sum snd n _ _ (due_shards_nonneg s rep Hlt) Hs) as Hle. pose proof (due_total s rep Hlt).
  replace (snd <$> l) with (snd <$> (named <$> l)) by (by rewrite <- list_fmap_compose). nia.
Qed.

(** ** What the budgets of shards add up to *)

Definition budgets (shs : list shard) (s : S) : Z := sumZ ((fun sh => @budget_of S _ _ (at_shard sh) s) <$> shs).

Lemma budgets_op shs a o s d : NoDup (name <$> shs) -> all_wf ev He s -> @op_ok S _ _ (at_shard a) o s ->
  @seats S _ (at_shard a) o s = d -> name a ∈ name <$> shs \/ d <= granted o ->
  budgets shs (@run_op S _ (at_shard a) o s).1 + d <= budgets shs s + granted o.
Proof.
  intros Hnd Hwf Hok <- Ha. apply sumZ_one_changes with name (name a); [done..| |]; intros b _ Hb.
  - by apply (other_budget ev He a b).
  - rewrite <- !(budget_same_cells (at_shard a) (at_shard b) _ _ (fun x => f_equal _ (skey_name ev He a b x (eq_sym Hb)))).
    by apply (budget_step (SL := at_shard a)).
Qed.

Lemma budgets_same shs s s' : slots_same s s' -> budgets shs s' = budgets shs s.
Proof. intros Hs. unfold budgets. f_equal. apply list_fmap_ext. intros i sh _. apply (same_slot_budget (SL := at_shard sh)), Hs. Qed.

Lemma budgets_refills shs s l s' : NoDup (name <$> shs) -> refills s l s' -> Forall (fun x => 0 <= x.2) l -> all_wf ev He s ->
  budgets shs s' <= budgets shs s + sumZ (snd <$> l).
Proof.
  intros Hnd. induction 1 as [s|s s1 l s' Hs _ IH|s a g l s' _ IH]; intros Hp Hwf; [cbn; lia| |].
  - rewrite <- (budgets_same shs s s1 Hs). by apply IH; [|eapply slots_same_wf].
  - apply list.Forall_cons in Hp as [Hg Hp]. cbn [snd] in Hg.
    assert (Ho : @op_ok S _ _ (at_shard a) (refill_op g) s) by exact Httl.
    specialize (IH Hp (all_wf_op ev He a _ s Hwf Ho)).
    pose proof (budgets_op shs a (refill_op g) s 0 Hnd Hwf Ho eq_refl ltac:(right; cbn; lia)) as Hb. cbn [granted refill_op] in Hb.
    rewrite fmap_cons. unfold sumZ in *. cbn [foldr snd]. lia.
Qed.

(** ** The history of one event *)

(** An operation of any shard, a write to keys of no slot, or a cycle of some controller, with
    its connection and clock, its breaker, and what its probe finds. *)
Inductive happening :=
  | Script (sh : shard) (o : op)
  | Aside (s' : S)
  | Round (p : Controller.probe) (b : Breaker.Breaker) (w : world S).

Definition with_db (w : world S) (s : S) : world S := World s (cached w) (wire w) (clock w) (entropy w) (registered w).

Definition round (p : Controller.probe) (b : Breaker.Breaker) (w : world S) (s : S) := Controller.Cycle cfg qcfg h p b (with_db w s).

Definition happen1 (e : happening) (s : S) : S :=
  match e with
  | Script sh o => (@run_op S _ (at_shard sh) o s).1
  | Aside s' => s'
  | Round p b w => db (round p b w s).1
  end.

(** What a cycle reports about itself. *)
Definition reports {A B} (m : A * result (B * Controller.CycleReport * option error)) (P : Controller.CycleReport -> Prop) : Prop :=
  match m.2 with Ok (_, rep, _) => P rep | Err _ => True end.

Definition happen_ok1 (e : happening) (s : S) : Prop :=
  match e with
  | Script sh o => @op_ok S _ _ (at_shard sh) o s
  | Aside s' => slots_same s s'
  | Round p b w => ready w /\ reports (round p b w s) (fun rep => Controller.perCycle cfg (Controller.Factor rep) * everyone s < two53)
  end.

Fixpoint happen (es : list happening) (s : S) : S :=
  match es with [] => s | e :: es => happen es (happen1 e s) end.

Fixpoint happen_ok (es : list happening) (s : S) : Prop :=
  match es with [] => True | e :: es => happen_ok1 e s /\ happen_ok es (happen1 e s) end.

(** The seats that come to a shard: those of its own refills, and its share in the cycles whose
    wire is healthy. *)
Definition share_of (sh : string) (l : list (string * Z)) : Z := sumZ ((fun x => if decide (x.1 = sh) then x.2 else 0) <$> l).

Definition fed1 (a : shard) (e : happening) (s : S) : Z :=
  match e with
  | Script sh o => if decide (name sh = name a) then granted o else 0
  | Aside _ => 0
  | Round p b w =>
      match wire w, (round p b w s).2 with
      | [], Ok (_, rep, _) => share_of (name a) (due_shards rep s)
      | _, _ => 0
      end
  end.

Fixpoint fed (a : shard) (es : list happening) (s : S) : Z :=
  match es with [] => 0 | e :: es => fed1 a e s + fed a es (happen1 e s) end.

(** Nothing that happens to the shard puts anybody before the token. *)
Definition calm_for (a : shard) (t : string) (k band : Z) (e : happening) : bool :=
  match e with
  | Script sh o => negb (bool_decide (name sh = name a)) || calm t k band o
  | _ => true
  end.

(** *** From the event to one of its slots *)

Section OneSlot.
Context (a : shard) (t : string) (k band : Z) (Hcap : k < Admission.MaxBudgetPerShard cfg).

#[local] Abbreviation calm_stretch := (@calmly S _ _ (at_shard a) t k band).

Lemma same_name_op (b : shard) o s : name b = name a -> @run_op S _ (at_shard b) o s = @run_op S _ (at_shard a) o s.
Proof. destruct a as [na Ha], b as [nb Hb]. cbn. by intros ->. Qed.

Lemma op_elsewhere (b : shard) o s : all_wf ev He s -> @op_ok S _ _ (at_shard b) o s -> name b <> name a ->
  @same_slot S _ _ (at_shard a) s (@run_op S _ (at_shard b) o s).1.
Proof. intros Hwf Ho Hne x. apply (run_op_frame (SL := at_shard b)); [apply Hwf|done|by apply slots_apart]. Qed.

Lemma refills_calmly s l s' : refills s l s' -> Forall (fun x => 0 <= x.2) l -> all_wf ev He s ->
  calm_stretch s (share_of (name a) (named <$> l)) s' /\ all_wf ev He s'.
Proof.
  induction 1 as [s|s s1 l s' Hs _ IH|s b g l s' _ IH]; intros Hp Hwf; [by split; [constructor|]| |].
  - destruct (IH Hp (slots_same_wf s s1 Hs Hwf)) as [H1 H2]. split; [|done]. by eapply calmly_same.
  - apply list.Forall_cons in Hp as [Hg Hp]. cbn [snd] in Hg.
    assert (Ho : @op_ok S _ _ (at_shard b) (refill_op g) s) by exact Httl.
    destruct (IH Hp (all_wf_op ev He b _ s Hwf Ho)) as [H1 H2]. split; [|done].
    rewrite fmap_cons. unfold share_of. rewrite fmap_cons. cbn [sumZ foldr named fst snd]. fold (share_of (name a) (named <$> l)).
    destruct (decide (name b = name a)) as [E|E].
    + rewrite (same_name_op b _ s E) in H1. replace g with (granted (refill_op g)) at 1 by (cbn; lia). apply calmly_op; [done| |done].
      cbn. apply andb_true_iff. split; [by apply Z.leb_le|by apply Z.ltb_lt].
    + eapply calmly_same; [|exact H1]. by apply op_elsewhere.
Qed.

Lemma happen1_calmly e s : happen_ok1 e s -> calm_for a t k band e = true -> all_wf ev He s ->
  exists n, fed1 a e s <= n /\ calm_stretch s n (happen1 e s) /\ all_wf ev He (happen1 e s).
Proof.
  intros Hok Hc Hwf. destruct e as [b o|s'|p b w]; cbn [happen1 happen_ok1 fed1 calm_for] in *.
  - pose proof (all_wf_op ev He b o s Hwf Hok) as Hwf'. destruct (decide (name b = name a)) as [E|E].
    + rewrite bool_decide_eq_true_2 in Hc by done. cbn in Hc. exists (granted o + 0). split_and!; [lia| |done].
      rewrite (same_name_op b o s E). apply calmly_op; [|done|constructor].
      revert Hok. destruct a as [na Ha], b as [nb Hb]. cbn in E. by subst nb.
    + exists 0. split_and!; [done| |done]. eapply calmly_same; [by apply op_elsewhere|constructor].
  - exists 0. split_and!; [done| |by eapply slots_same_wf]. eapply calmly_same; [apply Hok|constructor].
  - destruct Hok as [Hw Hlt]. unfold round in *. assert (Hw' : ready (with_db w s)) by (by eapply ready_same).
    destruct (cycle_refills p b (with_db w s) Hw') as (b' & rep & err & E & (l & H1 & H2 & H3 & _) & _).
    unfold reports in Hlt. rewrite E in *. cbn [db wire with_db] in *.
    pose proof (refilled_nonneg _ s rep l Hlt H2) as Hl. destruct (refills_calmly _ l _ H1 Hl Hwf) as [H4 H5].
    exists (share_of (name a) (named <$> l)). split_and!; [|done|done].
    destruct (wire w); [by rewrite (H3 eq_refl)|]. unfold share_of. rewrite <- list_fmap_compose.
    apply sumZ_nonneg, Forall_fmap. eapply list.Forall_impl; [exact Hl|]. intros x Hx. cbn. by case_decide.
Qed.

Lemma happen_calmly es s : happen_ok es s -> forallb (calm_for a t k band) es = true -> all_wf ev He s ->
  exists n, fed a es s <= n /\ calm_stretch s n (happen es s) /\ all_wf ev He (happen es s).
Proof.
  revert s. induction es as [|e es IH]; intros s; cbn [happen happen_ok fed forallb]; [intros _ _ Hwf; exists 0; split_and!; [done|constructor|done]|].
  intros [Ho Hos] [Hc Hcs]%andb_true_iff Hwf. destruct (happen1_calmly e s Ho Hc Hwf) as (n1 & F1 & C1 & W1).
  destruct (IH _ Hos Hcs W1) as (n2 & F2 & C2 & W2). exists (n1 + n2). split_and!; [lia| |done]. by eapply calmly_app.
Qed.

End OneSlot.

(** *** At the door *)

Section Door.
Context (a : shard) (Hv : Ids.Validate (name a) = Ok tt).
#[local] Instance door_slot : Slot := at_shard a.

(** Whoever may enter, and asks over a healthy connection, enters. *)
Lemma Admit_gives_seat t jti w s : t <> emp -> jti <> emp ->
  0 < Milliseconds (Admission.EntryTTL cfg) -> 0 < Milliseconds (Admission.UserTTL cfg) -> wf s -> ready w -> wire w = [] ->
  may_enter s t (UnixMilli (reading w)) (Milliseconds (Admission.MinDwell cfg)) (Admission.MinBeats cfg) ->
  let m := Admission.Admit cfg (name a) t jti (with_db w s) in
  exists res, m.2 = Ok res /\ Admission.Status res = "admitted" /\ Admission.JTI res = jti /\
    v_state (view (db m.1) t) = Some "admitted" /\ str_of (db m.1) (skey (KEntry jti)) = Some t.
Proof.
  intros Ht Hj Hent Huser Hwf Hw Hwi Hmay m. assert (Hw' : ready (with_db w s)) by (by eapply ready_same).
  destruct (Admit_at ev (name a) He (is_origin a) Hv cfg t jti (with_db w s) Hev Ht Hj Hw') as (_ & _ & _ & Hh).
  destruct (Hh Hwi) as (_ & E & D). fold m in E, D. cbn [db with_db] in E, D. unfold admit_op in E, D.
  change (reading (with_db w s)) with (reading w) in E, D. change (the_slot ev (name a) He (is_origin a)) with door_slot in E, D.
  pose proof (nat_int_or_absent _ (wf_budget s Hwf)) as Hb.
  destruct (admit_cases t jti (UnixMilli (reading w)) (Milliseconds (Admission.EntryTTL cfg)) (Milliseconds (Admission.UserTTL cfg))
    (Milliseconds (Admission.MinDwell cfg)) (Admission.MinBeats cfg) s Hb) as [(_ & x & wt & _ & Hr)|[Hno _]]; [|done].
  rewrite Hr in E, D. cbn [fst snd] in E, D. rewrite E, D.
  destruct (seated_effect t jti (UnixMilli (reading w)) _ _ s Hb Hent Huser) as (_ & ? & _ & _ & ? & _). by eexists.
Qed.

(** C10: everybody's turn comes.  Take any number of shards and let anything happen in any
    order: queue operations of any shard, cycles of any controllers over any connection,
    whatever their breakers and probes, writes to other keys.  Let a token stand at rank [k]
    of its shard, below the cap of the budget and no later than the sequence of places has
    come, and let nobody return to that shard's queue, or join it in the lottery window, nor
    its budget's key expire.  If its shard is given as many seats, by its share in the cycles
    or otherwise, as the token was short of, and the token still stands, waits and has been
    observed enough, then asking over a healthy connection gives it a seat, whether those
    before it took theirs, left, or did nothing. *)
Theorem turn_comes es s t r k band jti w :
  k < Admission.MaxBudgetPerShard cfg -> t <> emp -> jti <> emp ->
  0 < Milliseconds (Admission.EntryTTL cfg) -> 0 < Milliseconds (Admission.UserTTL cfg) ->
  all_wf ev He s -> happen_ok es s -> forallb (calm_for a t k band) es = true ->
  v_q (view s t) = Some r -> r <= band + seq_of s -> zrank (zset_of s (skey KQueue)) t = Some k ->
  k + 1 - budget_of s <= fed a es s ->
  let s' := happen es s in
  v_q (view s' t) = Some r -> v_state (view s' t) = Some "waiting" ->
  observed_enough s' t (UnixMilli (reading w)) (Milliseconds (Admission.MinDwell cfg)) (Admission.MinBeats cfg) ->
  ready w -> wire w = [] ->
  let m := Admission.Admit cfg (name a) t jti (with_db w s') in
  exists res, m.2 = Ok res /\ Admission.Status res = "admitted" /\ Admission.JTI res = jti /\
    v_state (view (db m.1) t) = Some "admitted" /\ str_of (db m.1) (skey (KEntry jti)) = Some t.
Proof.
  intros Hcap Ht Hj Hent Huser Hwf Hok Hc Hr Hrb Hk Hg s' Hr' Hst Hob Hw Hwi.
  destruct (happen_calmly a t k band Hcap es s Hok Hc Hwf) as (n & Hn & Hcalm & Hwf').
  apply Admit_gives_seat; try done; [apply Hwf'|].
  by apply (calmly_may_enter t k band s n (happen es s) r); [done|apply Hwf|..|lia|done|done|done].
Qed.

End Door.

(** C17: the seats of a cycle.  Whatever the wire does, a cycle is a run of refills of the
    shards it saw and changes no key but their budgets: over a healthy connection it refills
    every shard that is due, once and with its share; otherwise some of those, each as often as
    its command was executed.  As long as the seats times everybody waiting is below [2^53], and there are seats and somebody waits
    outside greylist, the shares add up to the seats exactly, and each shard's is its
    proportional part, rounded down or up; a greylist shard, and one where nobody waits, has
    none.  Without seats, or with nobody waiting outside greylist, every share is 0. *)
Theorem seats_follow_the_queue p b w : ready w ->
  let m := Controller.Cycle cfg qcfg h p b w in
  exists b' rep err, m.2 = Ok (b', rep, err) /\ refilled w (db m.1) rep err /\
  let total := Controller.perCycle cfg (Controller.Factor rep) in
  let shares := cycle_shares (Controller.Factor rep) (db w) in
  let n := everyone (db w) in
  (total * n < two53 ->
   (total <= 0 \/ n = 0 -> Forall (fun x => x = 0) shares) /\
   (0 < total -> 0 < n -> sumZ shares = total /\
    forall j sh m, seen_shards qcfg (db w) !! j = Some sh -> seen_waiting qcfg (db w) !! j = Some m ->
    exists x, shares !! j = Some x /\
      (if Ids.IsGreylist sh then x = 0 else total * m / n <= x <= total * m / n + 1 /\ (m = 0 -> x = 0)))).
Proof.
  intros Hw m. destruct (cycle_refills p b w Hw) as (b' & rep & err & E & Hr). exists b', rep, err. split; [done|]. split; [done|].
  cbv zeta. intros Hlt. pose proof (shares_proportional (Controller.perCycle cfg (Controller.Factor rep)) _ _ (seen_lengths (db w)) (seen_nonneg (db w)) Hlt) as (_ & H).
  exact H.
Qed.

(** C18: the gate and the rate, in Redis and in the report.  While the lottery window is open
    and the gate is on, a cycle writes nothing to Redis, sends nothing, probes nothing
    downstream, and says so, whatever the breaker.  Otherwise, whatever fails on the way, the
    budgets of any shards grow together by no more than the rate, the interval and the factor
    it reports allow, once if the wire loses no answer and otherwise once for each attempt the
    client library may make; and it reports that it granted no more than they allow, and
    nothing if it failed before the shares or its shards are empty.  The shares are exact as
    long as the seats times everybody waiting is below [2^53]. *)
Theorem cycle_respects_gate_and_rate p b w shs : ready w -> all_wf ev He (db w) -> NoDup (name <$> shs) ->
  let m := Controller.Cycle cfg qcfg h p b w in
  match Controller.gate_left cfg (reading w) with
  | Some togo =>
      db m.1 = db w /\ wire m.1 = wire w /\ 0 < togo /\
      exists b' rep, m.2 = Ok (b', rep, None) /\ Controller.Gated rep = true /\ Controller.Granted rep = 0
  | None =>
      exists b' rep err, m.2 = Ok (b', rep, err) /\
      let total := Controller.perCycle cfg (Controller.Factor rep) in
      (total * everyone (db w) < two53 ->
       budgets shs (db m.1) <= budgets shs (db w) + Z.of_nat (times w) * Z.max 0 total /\
       Controller.Gated rep = false /\ 0 <= Controller.Granted rep <= Z.max 0 total /\
       (err <> None \/ everyone (db w) = 0 -> Controller.Granted rep = 0))
  end.
Proof.
  intros Hw Hwf Hnd m. pose proof (cycle_report_bounded cfg qcfg h p b w) as Hrep. fold m in Hrep. cbv zeta in Hrep.
  destruct (Controller.gate_left cfg (reading w)) as [togo|] eqn:Hg; [exact Hrep|].
  destruct (cycle_refills p b w Hw) as (b' & rep & err & E & (l & Hl & Hs & _) & _). fold m in E, Hl.
  exists b', rep, err. split; [done|]. cbv zeta. intros Hlt. destruct (Hrep b' rep err E Hlt) as (Hgated & Hgr & Hz). split; [|done].
  pose proof (budgets_refills shs _ l _ Hnd Hl (refilled_nonneg _ _ rep l Hlt Hs) Hwf).
  pose proof (refilled_total _ _ rep l Hlt Hs) as Ht. unfold cycle_total in Ht. rewrite Hgated in Ht. lia.
Qed.

End Cycles.

(** ** A concrete history

    "cat" stands third, with two seats before it; nobody asks for those; another joins behind
    it, two cycles of one seat each go by, and it enters. *)

Import MemStore MemLua.

Definition slow_admission : Admission.Config :=
  Admission.MkConfig "show" 60 Second false zero_time 0 0 0 1000 f64_1 3 (10 * Second) (600 * Second) (3600 * Second).

Definition s0001 : shard := MkShard "s0001" demo_origin.

Definition a_cycle : @happening (gmap string cell) :=
  Round Controller.PFailed (Breaker.NewBreaker 3 1000) (demo_world ∅ []).

Definition patience : list (@happening (gmap string cell)) :=
  [Script s0001 (OEnqueue "dan" "s0001" 250 100 1 1000 "fp" "ip" 5000); Script s0001 (OHeartbeat "cat" 260 5000); a_cycle;
   Script s0001 (OEvict 270 1000 1000 0 10 5000); a_cycle].

#[local] Abbreviation lived := (happen "show" eq_refl slow_admission demo_queue Controller.NoopHealth patience open_store).

Lemma open_wf : all_wf "show" eq_refl open_store.
Proof.
  assert (Hrun : forall ops s, run_ok ops s -> all_wf "show" eq_refl s -> all_wf "show" eq_refl (run ops s)).
  { induction ops as [|o ops IH]; intros s; [done|]. intros [Ho Hos] Hwf. apply IH; [done|]. by apply (all_wf_op "show" eq_refl s0001). }
  apply (slots_same_wf "show" eq_refl demo_store).
  - intros sh x. cbn [cell_of mem_redis_laws]. unfold open_store. cbn [SADD mem_redis]. rewrite look_modify. unfold upd.
    rewrite decide_False; [done|]. intros E. by apply (index_foreign "show" eq_refl sh x).
  - apply Hrun; [apply demo_ok|]. intros sh. apply empty_slot_wf. intros k. reflexivity.
Qed.

Lemma turn_comes_witness :
  exists res, (Admission.Admit slow_admission "s0001" "cat" "j" (with_db (demo_world ∅ []) lived)).2 = Ok res /\ Admission.Status res = "admitted".
Proof.
  assert (Hok : happen_ok "show" eq_refl slow_admission demo_queue Controller.NoopHealth patience open_store).
  { repeat (split; [vm_compute; intuition (congruence || done)|]). exact I. }
  assert (Hc : forallb (calm_for s0001 "cat" 2 1000) patience = true) by (vm_compute; reflexivity).
  assert (Hr : v_q (view open_store "cat") = Some 1001) by (vm_compute; reflexivity).
  assert (Hb : 1001 <= 1000 + seq_of open_store) by (vm_compute; congruence).
  assert (Hk : zrank (zset_of open_store (skey KQueue)) "cat" = Some 2) by (vm_compute; reflexivity).
  assert (Hg : 2 + 1 - budget_of open_store <= fed "show" eq_refl slow_admission demo_queue Controller.NoopHealth s0001 patience open_store) by (vm_compute; congruence).
  assert (Hr' : v_q (view lived "cat") = Some 1001) by (vm_compute; reflexivity).
  assert (Hst : v_state (view lived "cat") = Some "waiting") by (vm_compute; reflexivity).
  assert (Hob : observed_enough lived "cat" 300 0 0) by (split; left; apply Z.le_refl).
  destruct (turn_comes "show" eq_refl slow_admission demo_queue Controller.NoopHealth eq_refl eq_refl s0001 eq_refl
    patience open_store "cat" 1001 2 1000 "j" (demo_world ∅ []) eq_refl ltac:(done) ltac:(done) eq_refl eq_refl open_wf Hok Hc Hr Hb Hk Hg
    Hr' Hst Hob (demo_ready ∅ [] eq_refl) eq_refl) as (res & E & H & _).
  exists res. exact (conj E H).
Defined.

(** Ten seats for a cycle, three people: all of them to the one shard. *)
Lemma seats_follow_the_queue_witness :
  exists w' b' rep err, Controller.Cycle demo_admission demo_queue Controller.NoopHealth Controller.PFailed (Breaker.NewBreaker 3 1000) (demo_world open_store [])
    = (w', Ok (b', rep, err)) /\ sumZ (cycle_shares demo_admission demo_queue (Controller.Factor rep) open_store) = 10.
Proof.
  destruct (seats_follow_the_queue "show" eq_refl demo_admission demo_queue Controller.NoopHealth eq_refl eq_refl
    Controller.PFailed (Breaker.NewBreaker 3 1000) (demo_world open_store []) (demo_ready open_store [] eq_refl)) as (b' & rep & err & E & _ & H).
  pose (m := Controller.Cycle demo_admission demo_queue Controller.NoopHealth Controller.PFailed (Breaker.NewBreaker 3 1000) (demo_world open_store [])).
  exists m.1, b', rep, err. split; [rewrite <- E; exact (surjective_pairing m)|].
  assert (F : Controller.Factor rep = f64_1) by (revert E; vm_compute; intros [= _ <- _]; reflexivity). rewrite F in *.
  destruct (H ltac:(vm_compute; reflexivity)) as [_ H']. destruct (H' ltac:(vm_compute; reflexivity) ltac:(vm_compute; reflexivity)) as [Hs _].
  exact (eq_trans Hs ltac:(vm_compute; reflexivity)).
Defined.

Definition gated_admission : Admission.Config :=
  Admission.MkConfig "show" 600 Second true (time_UnixMilli 0) (60 * Second) 0 0 1000 f64_1 3 (10 * Second) (600 * Second) (3600 * Second).

(** Ten seats, one shard with three people.  The first answer of the refill is lost and it is
    executed again: the budget may grow by twice the ten seats. *)
Lemma cycle_respects_gate_and_rate_witness :
  (let m := Controller.Cycle gated_admission demo_queue Controller.NoopHealth Controller.PFailed
     (Breaker.NewBreaker 3 1000) (demo_world open_store []) in db m.1 = open_store) /\
  let w := demo_world open_store [WOk; WOk; WOk; WOk; WLost false "EOF"] in
  exists b' rep err, (Controller.Cycle demo_admission demo_queue Controller.NoopHealth Controller.PFailed (Breaker.NewBreaker 3 1000) w).2
    = Ok (b', rep, err) /\ 0 <= Controller.Granted rep <= 10.
Proof.
  assert (Hnd : NoDup (name <$> [s0001])) by (repeat constructor; apply not_elem_of_nil).
  split.
  - exact (proj1 (cycle_respects_gate_and_rate "show" eq_refl gated_admission demo_queue Controller.NoopHealth eq_refl eq_refl Controller.PFailed
      (Breaker.NewBreaker 3 1000) (demo_world open_store []) [s0001] (demo_ready open_store [] eq_refl) open_wf Hnd)).
  - pose (w := demo_world open_store [WOk; WOk; WOk; WOk; WLost false "EOF"]).
    pose proof (cycle_respects_gate_and_rate "show" eq_refl demo_admission demo_queue Controller.NoopHealth eq_refl eq_refl Controller.PFailed
      (Breaker.NewBreaker 3 1000) w [s0001] (demo_ready open_store [WOk; WOk; WOk; WOk; WLost false "EOF"] eq_refl) open_wf Hnd) as H.
    assert (Hg : Controller.gate_left demo_admission (reading w) = None) by (vm_compute; reflexivity).
    cbv zeta in H. rewrite Hg in H. destruct H as (b' & rep & err & E & H). exists b', rep, err. split; [exact E|].
    assert (F : Controller.Factor rep = f64_1) by (revert E; vm_compute; intros [= _ <- _]; reflexivity). rewrite F in *.
    exact (proj1 (proj2 (proj2 (H ltac:(vm_compute; reflexivity))))).
Defined.

(** [redisx.New] leaves the retries of the client library at its default, and
    [refill_budget.lua] adds what it is told to each time it runs: a cycle of one seat whose
    answer is lost refills two, and reports one. *)
Lemma lost_answer_refills_twice :
  let queued : gmap string cell := SADD (Keys.Shards "show") "s0001" (run (take 3 demo_ops) (∅ : gmap string cell)) in
  let cycle wi := Controller.Cycle slow_admission demo_queue Controller.NoopHealth Controller.PFailed (Breaker.NewBreaker 3 1000) (demo_world queued wi) in
  let granted m := match m with (w, Ok (_, rep, err)) => (budget_of (db w), Controller.Granted rep, err) | _ => (0, 0, None) end in
  granted (cycle []) = (1, 1, None) /\ granted (cycle [WOk; WOk; WOk; WOk; WLost false "EOF"]) = (2, 1, None).
Proof. vm_compute. done. Qed.
