(* ===== verification/Rounds.v ===== *)
(** * Rounds: the sweeper among the shards

    One tick of the sweeper lists the shards of the event and makes one pass over each, at
    the cursor it keeps for the shard.  For one shard, over a healthy connection, that is one
    pass at the time the tick reaches it; the passes over the others, cycles of controllers
    and operations on other shards leave its tokens alone.  So the queue nobody in which is
    heard from is drained by the ticks, whatever else happens in the event. *)

From S2P Require Import Prelude.
From S2P Require Import Go.
From S2P Require Import Redis.
From S2P Require Import Keys.
From S2P Require Import Shard.
From S2P Require Import Scripts.
From S2P Require Import Slot.
From S2P Require Import Ladder.
From S2P Require Import Runs.
From S2P Require Import Frame.
From S2P Require Import Guarantees.
From S2P Require Import Sweeping.
From S2P Require Import Turns.
From S2P Require Import Conn.
From S2P Require Import Again.
From S2P Require Import QueueStore.
From S2P Require Import Admission.
From S2P Require Import Refine.
From S2P Require Import Clients.
From S2P Require Import Cycles.
Local Open Scope string_scope.
Local Open Scope Z_scope.
Local Open Scope list_scope.

(** The place of a name in a list. *)
Fixpoint index_of (x : string) (l : list string) : nat :=
  match l with
  | [] => O
  | y :: l => if decide (y = x) then O else Datatypes.S (index_of x l)
  end.

(** The reading of the clock after [n] others. *)
Definition reading_after {S} (n : nat) (w : world S) : time := reading (Nat.iter n ticked w).

Lemma clock_ticked {S} (w1 w2 : world S) : clock w1 = clock w2 -> clock (ticked w1) = clock (ticked w2).
Proof. unfold ticked, now. destruct w1 as [? ? ? cl], w2. cbn. intros <-. by destruct cl as [|t [|t' rest]]. Qed.

Lemma clock_iter {S} n (w1 w2 : world S) : clock w1 = clock w2 -> clock (Nat.iter n ticked w1) = clock (Nat.iter n ticked w2).
Proof. intros E. induction n as [|n IH]; [done|]. cbn. by apply clock_ticked. Qed.

Lemma reading_after_next {S} n (w w1 : world S) : clock w1 = clock (ticked w) -> reading_after n w1 = reading_after (Datatypes.S n) w.
Proof. intros E. unfold reading_after. rewrite Nat.iter_succ_r. unfold reading. by rewrite (clock_iter n w1 (ticked w) E). Qed.

Section Rounds.
Context (ev : string) (He : plain ev = true).
Context {S : Type} {R : Redis S} {RL : RedisLaws S} {L : Lua S} {LL : LuaLaws S}.
Context (cfg : Admission.Config) (qcfg : Queue.Config) (h : Controller.HealthChecker).
Context (Hev : Admission.EventID cfg = ev) (Httl : 0 < budget_ttl cfg).
Context (Hqev : Queue.EventID qcfg = ev) (Hbatch : 0 < Queue.SweepBatch qcfg) (Hretain : 0 < Milliseconds (Queue.EvictedRetain qcfg)).

#[local] Abbreviation at_shard := (slot_of ev He).
#[local] Abbreviation stale := (Milliseconds (Queue.StaleAfter qcfg)).
#[local] Abbreviation grace := (Milliseconds (Queue.EvictGrace qcfg)).
#[local] Abbreviation batch := (Queue.SweepBatch qcfg).
#[local] Abbreviation retain := (Milliseconds (Queue.EvictedRetain qcfg)).

(** ** One pass through the Go store *)

Lemma pass_ok sh off t s : @op_ok S _ _ (at_shard sh) (pass_op qcfg off t) s.
Proof. done. Qed.

Lemma Sweep_slots sh off w : Ids.Validate sh = Ok tt -> Ids.IsGreylist sh = false -> ready w ->
  let m := Queue.Sweep qcfg sh off w in
  exists b k, name b = sh /\ ready m.1 /\ clock m.1 = clock (ticked w) /\
    db m.1 = @repeat_op S _ (at_shard b) (pass_op qcfg off (reading w)) k (db w) /\
    (wire w = [] -> wire m.1 = [] /\ (exists r, m.2 = Ok r) /\ db m.1 = (@run_op S _ (at_shard b) (pass_op qcfg off (reading w)) (db w)).1).
Proof.
  intros Hv Hg Hw. cbv zeta. pose (b := MkShard sh (valid_origin sh Hv Hg)).
  destruct (Sweep_at ev sh He (is_origin b) Hv qcfg off w Hqev Hw) as ((dec & Hr & _ & (k & _ & Hdb & _) & Hh) & Hc). exists b, k. split_and!; try done.
  intros Hwi. destruct (Hh Hwi) as (H1 & H2 & H3). eauto.
Qed.

(** Passes over one shard, however many, leave the slots of the others alone. *)
Lemma passes_wf b o k s : (forall s', @op_ok S _ _ (at_shard b) o s') -> all_wf ev He s ->
  all_wf ev He (@repeat_op S _ (at_shard b) o k s) /\
  forall a, name b <> name a -> @same_slot _ _ _ (at_shard a) s (@repeat_op S _ (at_shard b) o k s).
Proof.
  intros Ho Hwf. induction k as [|k [IHw IHs]]; [done|]. rewrite repeat_op_S. split; [by apply all_wf_op|].
  intros a Hne x. rewrite (op_elsewhere ev He a b _ _ IHw (Ho _) Hne x). by apply IHs.
Qed.

(** ** What leaves the tokens of a shard alone *)

Section OneShard.
Context (a : shard).
#[local] Instance my_slot : Slot := at_shard a.

#[local] Abbreviation swept_here := (@swept S _ _ my_slot stale grace batch retain).

Lemma same_slot_tokens s s' : same_slot s s' -> same_tokens s s'.
Proof. intros Hs t. unfold view, uhash, hash_of, zset_of. by rewrite !Hs. Qed.

Lemma swept_same s s' : same_slot s s' -> swept_here s [] s'.
Proof. intros Hs. eapply swept_aside; [by apply same_slot_tokens|constructor]. Qed.

(** A refill changes the budget only. *)
Lemma refill_tokens g s : same_tokens s (run_op (refill_op cfg g) s).1.
Proof.
  assert (Hc : forall x, x <> KBudget -> cell_of (run_op (refill_op cfg g) s).1 (skey x) = cell_of s (skey x)).
  { intros x Hx. cbn [run_op refill_op]. unfold refill_budget. cbn [fst]. apply cell_SET_PX; [done|]. intros E. by apply (inj skey) in E. }
  intros t. unfold view, uhash, hash_of, zset_of. by rewrite !Hc by done.
Qed.

Lemma refills_swept s l s' : refills ev He cfg s l s' -> all_wf ev He s -> swept_here s [] s' /\ all_wf ev He s'.
Proof.
  induction 1 as [s|s s1 l s' Hs _ IH|s b g l s' _ IH]; intros Hwf; [by split; [constructor|]| |].
  - destruct (IH (slots_same_wf ev He s s1 Hs Hwf)) as [H1 H2]. split; [|done]. eapply swept_aside; [|exact H1]. apply same_slot_tokens, Hs.
  - assert (Ho : @op_ok S _ _ (at_shard b) (refill_op cfg g) s) by exact Httl.
    destruct (IH (all_wf_op ev He b _ s Hwf Ho)) as [H1 H2]. split; [|done]. eapply swept_aside; [|exact H1].
    destruct (decide (name b = name a)) as [E|E]; [rewrite (same_name_op ev He a b _ s E); apply refill_tokens|].
    by apply same_slot_tokens, (op_elsewhere ev He a b).
Qed.

(** ** One tick *)

Lemma sweep_loop shards c w : valid_shards shards -> Forall (fun sh => Ids.IsGreylist sh = false) shards -> NoDup shards ->
  ready w -> all_wf ev He (db w) ->
  let m := Queue.sweep_shards qcfg shards c w in
  all_wf ev He (db m.1) /\ (name a ∉ shards -> swept_here (db w) [] (db m.1)) /\
  (wire w = [] -> name a ∈ shards -> swept_here (db w) [UnixMilli (reading_after (index_of (name a) shards) w)] (db m.1)).
Proof.
  intros Hv. revert c w. induction Hv as [|sh shards Hsh Hv IH]; intros c w Hg Hnd Hw Hwf.
  { cbn. split_and!; [done|constructor|]. by intros _ ?%elem_of_nil. }
  apply list.Forall_cons in Hg as [Hg1 Hg]. apply list.NoDup_cons in Hnd as [Hni Hnd]. cbn [Queue.sweep_shards].
  destruct (Sweep_slots sh (default 0 (c !! sh)) w Hsh Hg1 Hw) as (b & k & Hb & Hr & Hc & Hdb & Hwi).
  destruct (Queue.Sweep qcfg sh (default 0 (c !! sh)) w) as [w1 o]. cbn [fst snd] in *.
  destruct (passes_wf b (pass_op qcfg (default 0 (c !! sh)) (reading w)) k (db w) ltac:(intros; apply pass_ok) Hwf) as [Hwf1 Hothers].
  rewrite <- Hdb in Hwf1, Hothers.
  assert (Hgo : forall c1, let m := Queue.sweep_shards qcfg shards c1 w1 in
    all_wf ev He (db m.1) /\ (name a ∉ sh :: shards -> swept_here (db w) [] (db m.1)) /\
    (wire w = [] -> name a ∈ sh :: shards -> swept_here (db w) [UnixMilli (reading_after (index_of (name a) (sh :: shards)) w)] (db m.1))).
  { intros c1. destruct (IH c1 w1 Hg Hnd Hr Hwf1) as (I1 & I2 & I3). cbv zeta in *. split; [done|].
    assert (Haside : sh <> name a -> same_tokens (db w) (db w1)).
    { intros Hne. apply same_slot_tokens, Hothers. congruence. }
    split.
    - intros [Hne Hn]%not_elem_of_cons. eapply swept_aside; [by apply Haside, not_eq_sym|]. by apply I2.
    - intros E Hin. destruct (Hwi E) as (E1 & _ & Hd). cbn [index_of]. destruct (decide (sh = name a)) as [Hs|Hs].
      + rewrite Hd, <- Hs in *. specialize (I2 Hni). rewrite (same_name_op ev He a b _ _ ltac:(congruence)) in I2.
        eapply swept_pass. exact I2.
      + apply elem_of_cons in Hin as [?|Hin]; [congruence|]. specialize (I3 E1 Hin). rewrite (reading_after_next _ w w1 Hc) in I3.
        eapply swept_aside; [by apply Haside|exact I3]. }
  destruct o as [r|e]; apply Hgo.
Qed.

End OneShard.

(** ** The history *)

(** A tick of some sweeper, with its cursors, connection and clock; or anything else. *)
Inductive tick_event :=
  | Tick (c : gmap string Z) (w : world S)
  | Meanwhile (e : @happening S).

Definition tick1 (e : tick_event) (s : S) : S :=
  match e with
  | Tick c w => db (Queue.once qcfg c (with_db w s)).1
  | Meanwhile e => happen1 ev He cfg qcfg h e s
  end.

(** Ticks go through, and see the shard and no greylist; what happens meanwhile is not an
    operation on the shard. *)
Definition tick_ok1 (a : shard) (e : tick_event) (s : S) : Prop :=
  match e with
  | Tick _ w => ready w /\ wire w = [] /\ name a ∈ seen_shards qcfg s /\ Forall (fun sh => Ids.IsGreylist sh = false) (seen_shards qcfg s)
  | Meanwhile e => happen_ok1 ev He cfg qcfg h e s /\ match e with Script b _ => name b <> name a | _ => True end
  end.

(** The time at which a tick reaches the shard. *)
Definition pass_time1 (a : shard) (e : tick_event) (s : S) : list Z :=
  match e with
  | Tick _ w => [UnixMilli (reading_after (index_of (name a) (seen_shards qcfg s)) w)]
  | Meanwhile _ => []
  end.

Fixpoint ticks_run (es : list tick_event) (s : S) : S :=
  match es with [] => s | e :: es => ticks_run es (tick1 e s) end.

Fixpoint ticks_ok (a : shard) (es : list tick_event) (s : S) : Prop :=
  match es with [] => True | e :: es => tick_ok1 a e s /\ ticks_ok a es (tick1 e s) end.

Fixpoint pass_times (a : shard) (es : list tick_event) (s : S) : list Z :=
  match es with [] => [] | e :: es => pass_time1 a e s ++ pass_times a es (tick1 e s) end.

Lemma seen_NoDup s : NoDup (seen_shards qcfg s).
Proof.
  unfold seen_shards. rewrite merge_sort_Permutation. assert (H := SMEMBERS_nodup (Keys.Shards (Queue.EventID qcfg)) s).
  apply NoDup_ListNoDup, List.NoDup_filter. by apply NoDup_ListNoDup.
Qed.

Lemma Shards_clock w : clock (Queue.Shards qcfg w).1 = clock w.
Proof.
  unfold Queue.Shards, wrapping, mbind, M_bind, mret, M_ret.
  destruct (command_spec (fun s => (s, SMEMBERS (Keys.Shards (Queue.EventID qcfg)) s)) w) as (_ & _ & (Hc & _) & _).
  by destruct (command _ w) as [w1 [ms|e]].
Qed.

Section Drain.
Context (a : shard).
#[local] Instance drained_slot : Slot := at_shard a.

Lemma tick_swept e s : tick_ok1 a e s -> all_wf ev He s ->
  swept stale grace batch retain s (pass_time1 a e s) (tick1 e s) /\ all_wf ev He (tick1 e s).
Proof.
  intros Hok Hwf. destruct e as [c w|e]; cbn [tick_ok1 tick1 pass_time1] in *.
  - destruct Hok as (Hw & Hwi & Hin & Hg). assert (Hw' : ready (with_db w s)) by (by eapply ready_same).
    unfold Queue.once. destruct (Shards_ready qcfg (with_db w s) Hw') as (Hr & Hd & _ & _ & Hok). destruct (Hok Hwi) as [Hwi1 E].
    pose proof (Shards_clock (with_db w s)) as Hc. destruct (Queue.Shards qcfg (with_db w s)) as [w1 o]. cbn [fst snd db with_db] in *. subst o.
    destruct (sweep_loop a (seen_shards qcfg s) c w1 (valid_seen qcfg s) Hg (seen_NoDup s) Hr) as (H1 & _ & H3); [by rewrite Hd|].
    split; [|done]. specialize (H3 Hwi1 Hin). rewrite Hd in H3. unfold reading_after, reading in *. rewrite (clock_iter _ w1 w Hc) in H3. exact H3.
  - destruct Hok as [Hok Hne]. destruct e as [b o|s'|p b w]; cbn [happen1 happen_ok1] in *.
    + split; [|by apply all_wf_op]. by apply swept_same, (op_elsewhere ev He a b).
    + split; [|by eapply slots_same_wf]. apply swept_same, Hok.
    + destruct Hok as [Hw _]. assert (Hw' : ready (with_db w s)) by (by eapply ready_same).
      destruct (cycle_refills ev He cfg qcfg h Hev Httl p b (with_db w s) Hw') as (b' & rep & err & _ & (l & H1 & _) & _). by apply (refills_swept a s l).
Qed.

Lemma ticks_swept es s : ticks_ok a es s -> all_wf ev He s ->
  swept stale grace batch retain s (pass_times a es s) (ticks_run es s).
Proof.
  revert s. induction es as [|e es IH]; intros s; cbn [ticks_run ticks_ok pass_times]; [constructor|].
  intros [Ho Hos] Hwf. destruct (tick_swept e s Ho Hwf) as [H1 H2]. by eapply swept_app, IH.
Qed.

(** C9: a silent queue is drained.  Let the sweeper tick, and anything else happen in the
    event: cycles of controllers, operations on other shards, writes to other keys.  Let
    nobody in the queue of a shard have been heard from for longer than the limit when the
    ticks begin, and the marked ones' deadlines end by the [m]-th tick; let [m] ticks span the
    grace.  Then twice [m] ticks for each token, over a healthy connection and with the shard
    on the index, leave the queue empty, from any cursors and with any positive batch,
    although the cursor the passes hand on skips tokens; and each token that had a record is
    evicted. *)
Theorem silent_queue_is_drained m h0 d es s :
  (0 < m)%nat -> all_wf ev He s -> ticks_ok a es s -> (forall t, silent stale h0 d s t) ->
  let ts := pass_times a es s in
  Forall (Z.le h0) ts -> paced grace m ts -> (forall x, ts !! (m - 1)%nat = Some x -> d <= x) ->
  2 * ZCARD (skey KQueue) s * Z.of_nat m <= Z.of_nat (length ts) ->
  let s' := ticks_run es s in
  ZCARD (skey KQueue) s' = 0 /\
  forall t, is_Some (v_q (view s t)) -> v_state (view s t) <> None -> v_state (view s' t) = Some "evicted".
Proof.
  intros Hm Hwf Hok Hs ts Hh Hp Hd Hlen s'. apply (silent_queue_drains stale grace batch retain s m ts h0 d s'); try done. by apply ticks_swept.
Qed.

End Drain.

End Rounds.

(** ** A concrete history: three silent people, ticks of one token each every 50 ms, two to a
    grace, a cycle in between *)

Import MemStore MemLua.

Lemma waiting_silent seen t : v_state (view open_store t) = Some "waiting" ->
  tonumber (uhash open_store t !! "last_seen") = Some seen -> 200 < 900 - seen -> silent 200 900 0 open_store t.
Proof. intros Hst Hseen Hlt _. rewrite Hst. left. split; [reflexivity|]. exists seen. by split. Qed.

Lemma demo_silent t : silent 200 900 0 open_store t.
Proof.
  intros Hq. generalize Hq. apply zsorted_elem in Hq.
  assert (E : zsorted (zset_of open_store (skey KQueue)) = ["bob"; "ann"; "cat"]) by (vm_compute; reflexivity). rewrite E in Hq.
  apply elem_of_cons in Hq as [->|Hq]; [apply (waiting_silent 20); vm_compute; reflexivity|].
  apply elem_of_cons in Hq as [->|Hq]; [apply (waiting_silent 10); vm_compute; reflexivity|].
  apply elem_of_cons in Hq as [->|Hq]; [apply (waiting_silent 200); vm_compute; reflexivity|apply elem_of_nil in Hq; destruct Hq].
Defined.


Definition impatient_queue : Queue.Config :=
  Queue.MkConfig "show" (time_UnixMilli 0) 100000000 (3600 * Second) (200 * Millisecond) 1 (100 * Millisecond) (5 * Second) 1.

Definition tick_at (i : nat) : @tick_event (gmap string cell) :=
  Tick {[ "s0001" := 7 ]} (World ∅ [] [] [time_UnixMilli (900 + 50 * Z.of_nat i)] [] ∅).

Definition twelve_ticks : list (@tick_event (gmap string cell)) :=
  (tick_at <$> seq 0 6) ++ [Meanwhile a_cycle] ++ (tick_at <$> seq 6 6).

Lemma demo_tick_ok i s : seen_shards impatient_queue s = ["s0001"] ->
  tick_ok1 "show" eq_refl demo_admission impatient_queue Controller.NoopHealth s0001 (tick_at i) s.
Proof.
  intros E. cbn [tick_ok1 tick_at]. rewrite E. split_and!; [|done|by left|by repeat constructor].
  split; [|done]. intros src n Hin. by apply elem_of_nil in Hin.
Qed.

#[local] Abbreviation left_alone := (ticks_run "show" eq_refl demo_admission impatient_queue Controller.NoopHealth twelve_ticks open_store).

Lemma silent_queue_is_drained_witness :
  ZCARD (skey KQueue) left_alone = 0 /\ v_state (view left_alone "ann") = Some "evicted".
Proof.
  assert (Hok : ticks_ok "show" eq_refl demo_admission impatient_queue Controller.NoopHealth s0001 twelve_ticks open_store).
  { unfold twelve_ticks. cbn [seq fmap list_fmap app ticks_ok].
    repeat (split; [first [apply demo_tick_ok; vm_compute; reflexivity|vm_compute; intuition (congruence || done)]|]). exact I. }
  assert (Hts : pass_times "show" eq_refl demo_admission impatient_queue Controller.NoopHealth s0001 twelve_ticks open_store = ticks 900 50 12) by (vm_compute; reflexivity).
  destruct (silent_queue_is_drained "show" eq_refl demo_admission impatient_queue Controller.NoopHealth eq_refl eq_refl eq_refl eq_refl eq_refl
    s0001 2 900 0 twelve_ticks open_store) as [H1 H2].
  - lia.
  - exact open_wf.
  - exact Hok.
  - exact demo_silent.
  - rewrite Hts. repeat constructor; vm_compute; discriminate.
  - rewrite Hts. apply ticks_paced; vm_compute; congruence.
  - rewrite Hts. intros a ->%ticks_lookup. lia.
  - rewrite Hts. vm_compute. discriminate.
  - split; [exact H1|]. apply H2; [vm_compute; by eexists|vm_compute; discriminate].
Defined.
