(* ===== verification/Window.v ===== *)
(** * Telemetry events and the scorer's observation windows

    [internal/telemetry/event.go] and [internal/botscore/window.go]: the signals a process
    receives and, per shard and token, the bounded record of what was seen of them. *)

From S2P Require Import Prelude.
From S2P Require Import Go.
From S2P Require Import Float.
Local Open Scope string_scope.
Local Open Scope Z_scope.
Local Open Scope list_scope.

Module Telemetry.

Definition KindHeartbeat : string := "heartbeat".
Definition KindEnter : string := "enter".
Definition KindChallenge : string := "challenge".
Definition KindAdmit : string := "admit".
Definition KindRechallenge : string := "rechallenge".

Record Event := MkEvent {
  Kind : string;
  EventID : string;
  Shard : string;
  TokenID : string;
  At : time;
  FPHash : string;
  IPPrefix : string;
  IntervalMS : Z;
  SolveMS : Z;
  Difficulty : Z;
  PointerEntropy : float64;
  Visible : bool;
  WaitedMS : Z
}.

Definition Valid (e : Event) : bool :=
  negb (bool_decide (Kind e = emp)) && negb (bool_decide (EventID e = emp))
  && negb (bool_decide (Shard e = emp)) && negb (bool_decide (TokenID e = emp)).

End Telemetry.
Import Telemetry.

Module Window.

Definition maxSamplesPerToken : nat := 64.

(** ** One token *)

Record observation := MkObservation {
  tokenID : string;
  fpHash : string;
  ipPrefix : string;
  intervals : list float64;
  beats : list Z;
  powCost : float64;
  hasPoW : bool;
  lastSeen : time
}.

Definition appendCapped {T} (s : list T) (v : T) : list T :=
  if bool_decide (maxSamplesPerToken <= length s)%nat then tail s ++ [v] else s ++ [v].

Definition exp2 (n : Z) : float64 := Nat.iter (Z.to_nat n) (fun v => f64_mul v (f64_of_Z 2)) f64_1.

(** The first part of [observation.add]: when and from where. *)
Definition identify (e : Event) (o : observation) : observation :=
  MkObservation (tokenID o)
    (if bool_decide (FPHash e = emp) then fpHash o else FPHash e)
    (if bool_decide (IPPrefix e = emp) then ipPrefix o else IPPrefix e)
    (intervals o) (beats o) (powCost o) (hasPoW o) (At e).

Definition add (e : Event) (o0 : observation) : observation :=
  let o := identify e o0 in
  if decide (Kind e = KindHeartbeat) then
    MkObservation (tokenID o) (fpHash o) (ipPrefix o)
      (if 0 <? IntervalMS e then appendCapped (intervals o) (f64_of_Z (IntervalMS e)) else intervals o)
      (appendCapped (beats o) (UnixMilli (At e))) (powCost o) (hasPoW o) (lastSeen o)
  else if decide (Kind e = KindChallenge) then
    if (0 <? SolveMS e) && (0 <? Difficulty e) then
      MkObservation (tokenID o) (fpHash o) (ipPrefix o) (intervals o) (beats o)
        (f64_div (f64_of_Z (SolveMS e)) (exp2 (Difficulty e))) true (lastSeen o)
    else o
  else o.

Definition samples (o : observation) : Z := Z.of_nat (length (beats o)) + Z.of_nat (length (intervals o)).

(** [&observation{tokenID: e.TokenID}]. *)
Definition fresh (tok : string) : observation := MkObservation tok emp emp [] [] f64_0 false zero_time.

(** ** One shard *)

Abbreviation shardWindow := (gmap string observation).

Definition newShardWindow : shardWindow := ∅.

Definition shard_observe (e : Event) (w : shardWindow) : shardWindow :=
  <[TokenID e := add e (default (fresh (TokenID e)) (w !! TokenID e))]> w.

Definition expire (before : time) (w : shardWindow) : shardWindow :=
  filter (fun p => Before (lastSeen p.2) before = false) w.

(** ** All shards of a process *)

Abbreviation windows := (gmap string shardWindow).

Definition newWindows : windows := ∅.

Definition observe (e : Event) (ws : windows) : windows :=
  <[Shard e := shard_observe e (default newShardWindow (ws !! Shard e))]> ws.

(** [snapshot] returns copies; shards and tokens come in the order of [range]. *)
Definition snapshot `{Ranging} (before : time) (ws : windows) : windows * gmap string (list observation) :=
  let live := filter (fun p => p.2 <> ∅) (expire before <$> ws) in
  (live, (fun w => (map_range w).*2) <$> live).

(** ** What a window remembers *)

Definition lastn {A} (n : nat) (l : list A) : list A := drop (length l - n) l.

Lemma lastn_length {A} n (l : list A) : (length (lastn n l) <= n)%nat.
Proof. unfold lastn. rewrite length_drop. lia. Qed.

Lemma appendCapped_lastn {T} (l : list T) v :
  appendCapped (lastn maxSamplesPerToken l) v = lastn maxSamplesPerToken (l ++ [v]).
Proof.
  unfold appendCapped, lastn. rewrite length_drop, length_app. cbn [length].
  case_bool_decide as Hn.
  - destruct (drop (length l - maxSamplesPerToken) l) as [|x xs] eqn:E.
    { apply (f_equal length) in E. rewrite length_drop in E. unfold maxSamplesPerToken in *. simpl in E. lia. }
    cbn [tail]. replace (length l + 1 - maxSamplesPerToken)%nat with (1 + (length l - maxSamplesPerToken))%nat
      by (unfold maxSamplesPerToken in *; lia).
    rewrite <- skipn_skipn, drop_app_le by lia. rewrite E. done.
  - replace (length l + 1 - maxSamplesPerToken)%nat with 0%nat by lia.
    replace (length l - maxSamplesPerToken)%nat with 0%nat by lia. done.
Qed.

(** The events of one token, oldest first. *)
Definition of_token (sh tok : string) (es : list Event) : list Event :=
  List.filter (fun e => bool_decide (Shard e = sh) && bool_decide (TokenID e = tok)) es.

Definition last_nonempty (xs : list string) : string :=
  foldl (fun acc x => if bool_decide (x = emp) then acc else x) emp xs.

Definition heartbeats (es : list Event) : list Event :=
  List.filter (fun e => bool_decide (Kind e = KindHeartbeat)) es.

Definition solved (es : list Event) : list Event :=
  List.filter (fun e => bool_decide (Kind e = KindChallenge) && (0 <? SolveMS e) && (0 <? Difficulty e)) es.

(** The record a sequence of events of one token should leave. *)
Definition remembered (tok : string) (es : list Event) : observation :=
  MkObservation tok (last_nonempty (FPHash <$> es)) (last_nonempty (IPPrefix <$> es))
    (lastn maxSamplesPerToken
       ((fun e => f64_of_Z (IntervalMS e)) <$> List.filter (fun e => 0 <? IntervalMS e) (heartbeats es)))
    (lastn maxSamplesPerToken ((fun e => UnixMilli (At e)) <$> heartbeats es))
    (default f64_0 ((fun e => f64_div (f64_of_Z (SolveMS e)) (exp2 (Difficulty e))) <$> list.last (solved es)))
    (bool_decide (solved es <> []))
    (default zero_time (At <$> list.last es)).

Lemma last_nonempty_snoc xs x :
  last_nonempty (xs ++ [x]) = if bool_decide (x = emp) then last_nonempty xs else x.
Proof. unfold last_nonempty. by rewrite foldl_app. Qed.

Lemma filter_snoc {A} (p : A -> bool) l x :
  List.filter p (l ++ [x]) = if p x then List.filter p l ++ [x] else List.filter p l.
Proof. rewrite List.filter_app. cbn. destruct (p x); [done|]. by rewrite app_nil_r. Qed.

Lemma fmap_snoc {A B} (f : A -> B) l x : f <$> (l ++ [x]) = (f <$> l) ++ [f x].
Proof. by rewrite fmap_app. Qed.

Lemma remembered_snoc tok es e : add e (remembered tok es) = remembered tok (es ++ [e]).
Proof.
  assert (Hlast : default zero_time (At <$> list.last (es ++ [e])) = At e) by (by rewrite last_snoc).
  unfold add, identify, remembered. cbn [tokenID fpHash ipPrefix intervals beats powCost hasPoW lastSeen].
  rewrite Hlast, !fmap_snoc, !last_nonempty_snoc.
  unfold heartbeats, solved. rewrite !filter_snoc.
  destruct (decide (Kind e = KindHeartbeat)) as [Hk|Hk].
  - rewrite (bool_decide_eq_true_2 (Kind e = KindHeartbeat)), (bool_decide_eq_false_2 (Kind e = KindChallenge)) by (rewrite ?Hk; done).
    cbn [andb]. rewrite filter_snoc, fmap_snoc, <- appendCapped_lastn. destruct (0 <? IntervalMS e); [|done].
    by rewrite fmap_snoc, <- appendCapped_lastn.
  - rewrite (bool_decide_eq_false_2 (Kind e = KindHeartbeat)) by done.
    destruct (decide (Kind e = KindChallenge)) as [Hc|Hc].
    + rewrite (bool_decide_eq_true_2 (Kind e = KindChallenge)) by done. cbn [andb].
      destruct ((0 <? SolveMS e) && (0 <? Difficulty e)); [|done].
      rewrite last_snoc, (bool_decide_eq_true_2 (_ ++ [e] <> [])); [done|]. by destruct (List.filter _ es).
    + by rewrite (bool_decide_eq_false_2 (Kind e = KindChallenge)).
Qed.

Definition watch (es : list Event) : windows := foldl (fun ws e => observe e ws) newWindows es.

Lemma watch_lookup es sh tok :
  (w ← watch es !! sh; w !! tok) =
  if bool_decide (of_token sh tok es = []) then None else Some (remembered tok (of_token sh tok es)).
Proof.
  unfold watch. induction es as [|e es IH] using rev_ind; [done|].
  rewrite foldl_app. cbn [foldl]. set (ws := foldl _ newWindows es) in *. unfold observe.
  unfold of_token in *. rewrite filter_snoc.
  destruct (decide (Shard e = sh)) as [<-|Hsh].
  2: { rewrite lookup_insert_ne, (bool_decide_eq_false_2 (Shard e = sh)) by done. cbn [andb]. apply IH. }
  rewrite lookup_insert_eq, (bool_decide_eq_true_2 (Shard e = Shard e)) by done. cbn [mbind option_bind andb].
  unfold shard_observe. destruct (decide (TokenID e = tok)) as [<-|Htok].
  - rewrite lookup_insert_eq, (bool_decide_eq_true_2 (TokenID e = TokenID e)) by done.
    rewrite (bool_decide_eq_false_2 (_ ++ [e] = [])) by (by destruct (List.filter _ es)).
    f_equal. rewrite <- remembered_snoc. f_equal.
    assert (default newShardWindow (ws !! Shard e) !! TokenID e = (w ← ws !! Shard e; w !! TokenID e)) as ->.
    { by destruct (ws !! Shard e). }
    rewrite IH. case_bool_decide as Hn; [|done]. by rewrite Hn.
  - rewrite lookup_insert_ne, (bool_decide_eq_false_2 (TokenID e = tok)) by done.
    rewrite <- IH. by destruct (ws !! Shard e).
Qed.

Lemma expire_lookup before w tok :
  expire before w !! tok = match w !! tok with
                           | Some o => if Before (lastSeen o) before then None else Some o
                           | None => None
                           end.
Proof.
  unfold expire. rewrite map_lookup_filter. destruct (w !! tok) as [o|]; [|done]. cbn.
  unfold guard. destruct (decide _) as [Hd|Hd]; cbn; destruct (Before (lastSeen o) before); done.
Qed.

(** What a snapshot lists: the tokens seen since the cutoff, each once. *)
Lemma snapshot_elem `{Ranging} before ws sh tok o :
  (forall sh w tok o, ws !! sh = Some w -> w !! tok = Some o -> tokenID o = tok) ->
  (exists obs, (snapshot before ws).2 !! sh = Some obs /\ o ∈ obs /\ tokenID o = tok) <->
  (exists w, ws !! sh = Some w /\ w !! tok = Some o /\ Before (lastSeen o) before = false).
Proof.
  intros Hkeys. unfold snapshot. cbn [snd]. split.
  - intros (obs & Hobs & Hin & Ht). rewrite lookup_fmap in Hobs.
    apply fmap_Some in Hobs as (w' & Hw' & ->). apply map_lookup_filter_Some in Hw' as [Hw' _].
    rewrite lookup_fmap in Hw'. apply fmap_Some in Hw' as (w & Hw & ->).
    apply list_elem_of_fmap in Hin as ([k o'] & -> & Hin). apply map_range_elem in Hin.
    rewrite expire_lookup in Hin. destruct (w !! k) as [o1|] eqn:Hk; [|done].
    destruct (Before _ _) eqn:Hb; [done|]. injection Hin as ->. cbn in Ht |- *.
    assert (k = tok) as -> by (rewrite <- Ht; symmetry; by eapply Hkeys). by exists w.
  - intros (w & Hw & Hk & Hb).
    assert (He : expire before w !! tok = Some o) by (rewrite expire_lookup, Hk, Hb; done).
    exists (map_range (expire before w)).*2. split_and!.
    + rewrite lookup_fmap. apply fmap_Some. exists (expire before w). split; [|done].
      apply map_lookup_filter_Some. split; [by rewrite lookup_fmap, Hw|]. intros H0. cbn in H0. by rewrite H0 in He.
    + apply list_elem_of_fmap. exists (tok, o). split; [done|]. by apply map_range_elem.
    + by eapply Hkeys.
Qed.

End Window.
