(* ===== verification/Signals.v ===== *)
(** * The five bot signals

    [internal/botscore/signals.go]: the distribution of a shard's observations and, for one
    token, how far it deviates from it.  Integer division by a zero bin width is a run-time
    panic, which is [None] here. *)

From S2P Require Import Prelude.
From S2P Require Import Go.
From S2P Require Import Float.
From S2P Require Import Config.
From S2P Require Import Window.
Import Window.
Local Open Scope string_scope.
Local Open Scope Z_scope.
Local Open Scope list_scope.

Module Signals.

Abbreviation BotScore := Cfg.BotScore.t.

Definition SignalHeartbeat : string := "heartbeat".
Definition SignalCorrelation : string := "correlation".
Definition SignalFingerprint : string := "fingerprint".
Definition SignalIPPrefix : string := "ip_prefix".
Definition SignalPoW : string := "pow".

(** [Signals]: a map from the name of a signal to its value. *)
Abbreviation signals := (gmap string float64).

(** ** Statistics *)

Definition flen {A} (xs : list A) : float64 := f64_of_Z (Z.of_nat (length xs)).

Definition fsum (xs : list float64) : float64 := foldl f64_add f64_0 xs.

Definition meanStd (xs : list float64) : float64 * float64 :=
  if bool_decide (xs = []) then (f64_0, f64_0)
  else
    let mean := f64_div (fsum xs) (flen xs) in
    if bool_decide (length xs < 2)%nat then (mean, f64_0)
    else
      let std := foldl (fun acc x => let d := f64_sub x mean in f64_add acc (f64_mul d d)) f64_0 xs in
      (mean, f64_sqrt (f64_div std (f64_of_Z (Z.of_nat (length xs) - 1)))).

Definition medianOf (xs0 : list float64) : float64 :=
  let xs := slices_Sort xs0 in
  let n := length xs in
  if bool_decide (n = 0)%nat then f64_0
  else if Nat.odd n then default f64_0 (xs !! (n / 2)%nat)
  else f64_div (f64_add (default f64_0 (xs !! (n / 2 - 1)%nat)) (default f64_0 (xs !! (n / 2)%nat))) (f64_of_Z 2).

(** The constant 1.4826. *)
Definition mad_scale : float64 := Cfg.f64_dec 14826 4.

Definition medianMAD (xs : list float64) : float64 * float64 :=
  if bool_decide (xs = []) then (f64_0, f64_0)
  else
    let mid := medianOf xs in
    if bool_decide (length xs < 2)%nat then (mid, f64_0)
    else (mid, f64_mul mad_scale (medianOf ((fun x => f64_abs (f64_sub x mid)) <$> xs))).

Definition center (xs : list float64) (cfg : BotScore) : float64 * float64 :=
  if Cfg.BotScore.RobustBaseline cfg then medianMAD xs else meanStd xs.

Definition coefficientOfVariation (xs : list float64) : option float64 :=
  if bool_decide (length xs < 2)%nat then None
  else let '(mean, std) := meanStd xs in
       if f64_leb mean f64_0 then None else Some (f64_div std mean).

Definition clamp01 (v : float64) : float64 :=
  if f64_ltb v f64_0 || f64_isNaN v then f64_0
  else if f64_ltb f64_1 v then f64_1
  else v.

(** ** The distribution of one shard *)

Record shardStats := MkShardStats {
  tokens : Z;
  cvMean : float64;
  cvStd : float64;
  powMean : float64;
  powStd : float64;
  fpGroups : gmap string Z;
  ipGroups : gmap string Z;
  binCounts : gmap Z Z;
  binTotal : Z
}.

(** [m[k]++]. *)
Definition bump {K} `{Countable K} (k : K) (m : gmap K Z) : gmap K Z := <[k := default 0 (m !! k) + 1]> m.

Definition group (names : list string) : gmap string Z :=
  foldl (fun m x => if bool_decide (x = emp) then m else bump x m) ∅ names.

(** [b / binMS]. *)
Definition bin_of (binMS b : Z) : option Z := if binMS =? 0 then None else Some (int64_quo b binMS).

(** The first occurrences, in order: the loops over [o.beats] with [seen]. *)
Definition distinct (bs : list Z) : list Z :=
  foldl (fun acc b => if decide (b ∈ acc) then acc else acc ++ [b]) [] bs.

Definition token_bins (binMS : Z) (o : observation) : option (list Z) :=
  distinct <$> mapM (bin_of binMS) (beats o).

Definition count_bins (bins : list (list Z)) : gmap Z Z := foldl (fun m b => bump b m) ∅ (concat bins).

Definition analyze (obs : list observation) (cfg : BotScore) : option shardStats :=
  let binMS := Milliseconds (Cfg.BotScore.SyncBin cfg) in
  bins ← mapM (token_bins binMS) obs;
  let cvs := omap (fun o => coefficientOfVariation (intervals o)) obs in
  let pows := omap (fun o => if hasPoW o then Some (powCost o) else None) obs in
  let '(cm, cs) := center cvs cfg in
  let '(pm, ps) := center pows cfg in
  Some (MkShardStats (Z.of_nat (length obs)) cm cs pm ps (group (fpHash <$> obs)) (group (ipPrefix <$> obs))
          (count_bins bins) (Z.of_nat (length (concat bins)))).

(** ** The signals of one token *)

Definition heartbeatSignal (o : observation) (st : shardStats) (cfg : BotScore) : option float64 :=
  cv ← coefficientOfVariation (intervals o);
  let floor := Cfg.BotScore.HeartbeatCVFloor cfg in
  let absolute := if f64_ltb cv floor then f64_sub f64_1 (f64_div cv floor) else f64_0 in
  let relative :=
    if f64_ltb f64_0 (cvStd st) then
      clamp01 (f64_div (f64_div (f64_sub (cvMean st) cv) (cvStd st)) (Cfg.BotScore.SignalZSpan cfg))
    else f64_0 in
  Some (math_Max absolute relative).

(** One bin of the loop of [correlationSignal]. *)
Definition correlate (st : shardStats) (expected : float64) (acc : float64 * Z) (bin : Z) : float64 * Z :=
  let '(total, n) := acc in
  let together := f64_of_Z (default 0 (binCounts st !! bin)) in
  let headroom := f64_sub (f64_of_Z (tokens st)) expected in
  if f64_leb headroom f64_0 then (total, n)
  else (f64_add total (clamp01 (f64_div (f64_sub together expected) headroom)), n + 1).

Definition correlationSignal (o : observation) (st : shardStats) (cfg : BotScore) : option (option float64) :=
  if bool_decide (beats o = []) || (tokens st <? 2) || (binTotal st =? 0) then Some None
  else
    let expected := f64_div (f64_of_Z (binTotal st)) (f64_of_Z (Z.of_nat (size (binCounts st)))) in
    bins ← token_bins (Milliseconds (Cfg.BotScore.SyncBin cfg)) o;
    let '(total, n) := foldl (correlate st expected) (f64_0, 0) bins in
    Some (if n =? 0 then None else Some (f64_div total (f64_of_Z n))).

Definition groupSignal (group cap : Z) (present : bool) : option float64 :=
  if negb present || (group <=? 1) || (cap <=? 1) then
    if present && (0 <? group) then Some f64_0 else None
  else Some (clamp01 (f64_div (f64_of_Z (group - 1)) (f64_of_Z (cap - 1)))).

Definition powSignal (o : observation) (st : shardStats) (cfg : BotScore) : option float64 :=
  if negb (hasPoW o) || f64_leb (powStd st) f64_0 then None
  else Some (clamp01 (f64_div (f64_div (f64_sub (powMean st) (powCost o)) (powStd st)) (Cfg.BotScore.SignalZSpan cfg))).

(** [if v, ok := ...; ok { s[name] = v }]. *)
Definition put (name : string) (v : option float64) (s : signals) : signals :=
  match v with Some x => <[name := x]> s | None => s end.

Definition evaluate (o : observation) (st : shardStats) (cfg : BotScore) : option signals :=
  corr ← correlationSignal o st cfg;
  Some (put SignalPoW (powSignal o st cfg)
       (put SignalIPPrefix (groupSignal (default 0 (ipGroups st !! ipPrefix o)) (Cfg.BotScore.IPGroupCap cfg)
                              (negb (bool_decide (ipPrefix o = emp))))
       (put SignalFingerprint (groupSignal (default 0 (fpGroups st !! fpHash o)) (Cfg.BotScore.FPGroupCap cfg)
                                 (negb (bool_decide (fpHash o = emp))))
       (put SignalCorrelation corr
       (put SignalHeartbeat (heartbeatSignal o st cfg) ∅))))).

(** ** Lemmas *)

(** [0 <= x <= 1], which excludes NaN. *)
Definition unit_float (x : float64) : Prop := f64_leb f64_0 x = true /\ f64_leb x f64_1 = true.

Lemma unit_0 : unit_float f64_0. Proof. done. Qed.
Lemma unit_1 : unit_float f64_1. Proof. done. Qed.

Lemma clamp01_unit v : unit_float (clamp01 v).
Proof.
  unfold clamp01. destruct (f64_ltb v f64_0) eqn:H0; [apply unit_0|].
  destruct (f64_isNaN v) eqn:Hn; [apply unit_0|]. cbn [orb].
  apply f64_not_NaN in Hn. destruct (f64_ltb f64_1 v) eqn:H1; [apply unit_1|].
  rewrite f64_ltb_ge in H0, H1 by done. apply negb_false_iff in H0, H1. done.
Qed.

Lemma groupSignal_unit g cap p v : groupSignal g cap p = Some v -> unit_float v.
Proof.
  unfold groupSignal. destruct (_ || _); [destruct (_ && _)|]; intros [= <-]; [apply unit_0|apply clamp01_unit].
Qed.

Lemma powSignal_unit o st cfg v : powSignal o st cfg = Some v -> unit_float v.
Proof. unfold powSignal. destruct (_ || _); intros [= <-]. apply clamp01_unit. Qed.

Lemma mapM_bins binMS bs : binMS <> 0 -> mapM (bin_of binMS) bs = Some ((fun b => int64_quo b binMS) <$> bs).
Proof.
  intros Hb. apply mapM_Some_2. induction bs as [|b bs IH]; constructor; [|done].
  unfold bin_of. by rewrite (proj2 (Z.eqb_neq _ _) Hb).
Qed.

Lemma distinct_spec bs : NoDup (distinct bs) /\ forall b, b ∈ distinct bs <-> b ∈ bs.
Proof.
  unfold distinct. induction bs as [|b bs [Hn Hm]] using rev_ind; [by split; [constructor|]|].
  rewrite foldl_app. cbn [foldl]. destruct (decide _) as [Hin|Hin].
  - split; [done|]. intros x. rewrite elem_of_app, list_elem_of_singleton, Hm.
    split; [by left|]. intros [Hx|Hx]; [done|subst x; by apply Hm].
  - split.
    + apply list.NoDup_app. split; [done|]. split; [|apply list.NoDup_singleton].
      intros x Hx ->%list_elem_of_singleton. done.
    + intros x. by rewrite !elem_of_app, Hm.
Qed.

End Signals.
