(* ===== verification/Scorer.v ===== *)
(** * The scorer

    [internal/botscore/scorer.go]: accumulated scores, the rung each token stands on, and the
    decisions of one flush. *)

From S2P Require Import Prelude.
From S2P Require Import Go.
From S2P Require Import Float.
From S2P Require Import Config.
From S2P Require Import Window.
From S2P Require Import Signals.
Import Telemetry Window Signals.
Local Open Scope string_scope.
Local Open Scope Z_scope.
Local Open Scope list_scope.

Module Scorer.

Inductive Action := ActionObserve | ActionGreylist | ActionHold | ActionBlock | ActionRestore.

#[export] Instance Action_eq_dec : EqDecision Action.
Proof. solve_decision. Defined.

(** The text of an action. *)
Definition action_name (a : Action) : string :=
  match a with
  | ActionObserve => "observe" | ActionGreylist => "greylist" | ActionHold => "hold"
  | ActionBlock => "block" | ActionRestore => "restore"
  end.

Record Decision := MkDecision {
  dShard : string;
  dTokenID : string;
  Score : float64;
  dAction : Action;
  dSignals : signals;
  Contributing : Z;
  CappedFrom : option Action   (** the empty action is [None] *)
}.

Record Scorer := MkScorer {
  cfg : BotScore;
  win : windows;
  scores : gmap string float64;
  states : gmap string Action
}.

Definition NewScorer (c : BotScore) : Scorer := MkScorer c newWindows ∅ ∅.

Definition score_of (s : Scorer) (tok : string) : float64 := default f64_0 (scores s !! tok).

Definition Clamp (tok : string) (s : Scorer) : Scorer :=
  let limit := f64_of_Z (Cfg.BotScore.RechallengePassScore (cfg s)) in
  MkScorer (cfg s) (win s)
    (if f64_ltb limit (score_of s tok) then <[tok := limit]> (scores s) else scores s)
    (delete tok (states s)).

Definition Observe (e : Event) (s : Scorer) : Scorer :=
  if negb (Valid e) then s
  else if decide (Kind e = KindRechallenge) then Clamp (TokenID e) s
  else MkScorer (cfg s) (observe e (win s)) (scores s) (states s).

(** ** One token's verdict *)

Definition weight (w : Cfg.Weights.t) (name : string) : float64 :=
  if decide (name = SignalHeartbeat) then Cfg.Weights.Heartbeat w
  else if decide (name = SignalCorrelation) then Cfg.Weights.Correlation w
  else if decide (name = SignalFingerprint) then Cfg.Weights.Fingerprint w
  else if decide (name = SignalIPPrefix) then Cfg.Weights.IPPrefix w
  else if decide (name = SignalPoW) then Cfg.Weights.PoW w
  else f64_0.

Definition combine_one (c : BotScore) (acc : float64 * Z) (p : string * float64) : float64 * Z :=
  (f64_add acc.1 (f64_mul (weight (Cfg.BotScore.Weights c) p.1) p.2),
   if f64_leb (Cfg.BotScore.SignalMinContrib c) p.2 then acc.2 + 1 else acc.2).

Definition combine `{Ranging} (c : BotScore) (sig : signals) : float64 * Z :=
  let r := foldl (combine_one c) (f64_0, 0) (map_range sig) in
  (f64_mul (clamp01 r.1) (f64_of_Z 100), r.2).

Definition accumulate (tok : string) (raw : float64) (s : Scorer) : Scorer * float64 :=
  let score := f64_add (f64_mul (score_of s tok) (Cfg.BotScore.Decay (cfg s)))
                       (f64_mul raw (f64_sub f64_1 (Cfg.BotScore.Decay (cfg s)))) in
  (MkScorer (cfg s) (win s) (<[tok := score]> (scores s)) (states s), score).

(** The [switch] of [Scorer.action]: the next action and what it was capped from. *)
Definition next_action (c : BotScore) (prev : option Action) (score : float64) (contributing : Z) :
    Action * option Action :=
  if f64_leb (f64_of_Z (Cfg.BotScore.Block c)) score then
    if contributing <? Cfg.BotScore.MinSignalsToBlock c then (ActionHold, Some ActionBlock)
    else (ActionBlock, None)
  else if f64_leb (f64_of_Z (Cfg.BotScore.Hold c)) score then (ActionHold, None)
  else if f64_leb (f64_of_Z (Cfg.BotScore.Greylist c)) score then (ActionGreylist, None)
  else if bool_decide (prev = Some ActionGreylist \/ prev = Some ActionHold) then (ActionRestore, None)
  else (ActionObserve, None).

Definition set_state (tok : string) (next : Action) (m : gmap string Action) : gmap string Action :=
  match next with
  | ActionRestore => delete tok m
  | ActionObserve => m
  | _ => <[tok := next]> m
  end.

Definition action (tok : string) (score : float64) (contributing : Z) (s : Scorer) :
    Scorer * (Action * option Action) :=
  let '(next, capped) := next_action (cfg s) (states s !! tok) score contributing in
  (MkScorer (cfg s) (win s) (scores s) (set_state tok next (states s)), (next, capped)).

Definition decide_ `{Ranging} (shard : string) (o : observation) (st : shardStats) (s : Scorer) :
    option (Scorer * Decision) :=
  sig ← evaluate o st (cfg s);
  let '(raw, contributing) := combine (cfg s) sig in
  let '(s1, score) := accumulate (tokenID o) raw s in
  let '(s2, (next, capped)) := action (tokenID o) score contributing s1 in
  Some (s2, MkDecision shard (tokenID o) score next sig contributing capped).

(** ** One flush *)

Fixpoint judge_tokens `{Ranging} (shard : string) (st : shardStats) (obs : list observation) (s : Scorer) :
    option (Scorer * list Decision) :=
  match obs with
  | [] => Some (s, [])
  | o :: obs' =>
      if samples o <? Cfg.BotScore.MinSamples (cfg s) then judge_tokens shard st obs' s
      else
        '(s1, d) ← decide_ shard o st s;
        '(s2, ds) ← judge_tokens shard st obs' s1;
        Some (s2, d :: ds)
  end.

Fixpoint judge_shards `{Ranging} (shards : list (string * list observation)) (s : Scorer) :
    option (Scorer * list Decision) :=
  match shards with
  | [] => Some (s, [])
  | (shard, obs) :: rest =>
      st ← analyze obs (cfg s);
      '(s1, ds) ← judge_tokens shard st obs s;
      '(s2, ds') ← judge_shards rest s1;
      Some (s2, ds ++ ds')
  end.

(** The comparison of [sort.Slice]. *)
Definition decision_less (a b : Decision) : bool :=
  if decide (dShard a = dShard b) then String.ltb (dTokenID a) (dTokenID b)
  else String.ltb (dShard a) (dShard b).

Fixpoint insert_decision (d : Decision) (l : list Decision) : list Decision :=
  match l with
  | [] => [d]
  | x :: l' => if decision_less x d then x :: insert_decision d l' else d :: l
  end.

Definition sort_decisions (l : list Decision) : list Decision := foldr insert_decision [] l.

(** [Flush] at the instant [t]; [None] is a run-time panic. *)
Definition Flush `{Ranging} (t : time) (s : Scorer) : option (Scorer * list Decision) :=
  let cutoff := time_add t (- Cfg.BotScore.Window (cfg s)) in
  let '(live, shards) := snapshot cutoff (win s) in
  '(s1, ds) ← judge_shards (map_range shards) (MkScorer (cfg s) live (scores s) (states s));
  Some (s1, sort_decisions ds).

Definition Forget (tok : string) (s : Scorer) : Scorer :=
  MkScorer (cfg s) (win s) (delete tok (scores s)) (delete tok (states s)).

(** ** Lemmas *)

Lemma insert_decision_perm d l : insert_decision d l ≡ₚ d :: l.
Proof.
  induction l as [|x l IH]; [done|]. cbn. destruct (decision_less x d); [|done].
  rewrite IH. apply Permutation_swap.
Qed.

Lemma sort_decisions_perm l : sort_decisions l ≡ₚ l.
Proof. unfold sort_decisions. induction l as [|d l IH]; [done|]. cbn [foldr]. by rewrite insert_decision_perm, IH. Qed.

(** The signals counted by [combine]: those of at least [SignalMinContrib]. *)
Definition pointing (c : BotScore) (sig : signals) : gmap string float64 :=
  filter (fun p => f64_leb (Cfg.BotScore.SignalMinContrib c) p.2 = true) sig.

Lemma combine_count c l acc :
  (foldl (combine_one c) acc l).2 =
  acc.2 + Z.of_nat (length (List.filter (fun p => f64_leb (Cfg.BotScore.SignalMinContrib c) p.2) l)).
Proof.
  revert acc. induction l as [|p l IH]; intros acc; cbn [foldl List.filter length]; [lia|].
  rewrite IH. unfold combine_one. cbn [snd]. destruct (f64_leb _ p.2); cbn [length]; lia.
Qed.

Lemma filter_bool {A} (p : A -> bool) l : List.filter p l = filter (fun x => p x = true) l.
Proof.
  induction l as [|x l IH]; [done|]. cbn [List.filter]. rewrite filter_cons.
  destruct (p x) eqn:E; [rewrite decide_True by done|rewrite decide_False by congruence]; by rewrite IH.
Qed.

Lemma map_to_list_filter_perm {A} (P : string * A -> Prop) `{!forall x, base.Decision (P x)} (m : gmap string A) :
  map_to_list (filter P m) ≡ₚ filter P (map_to_list m).
Proof.
  apply list.NoDup_Permutation; [apply NoDup_map_to_list|apply list.NoDup_filter, NoDup_map_to_list|].
  intros [k x]. rewrite list_elem_of_filter, !elem_of_map_to_list, map_lookup_filter_Some. tauto.
Qed.

(** Whatever the order of [range], the count is the number of pointing signals. *)
Lemma combine_contributing `{Ranging} c sig : (combine c sig).2 = Z.of_nat (size (pointing c sig)).
Proof.
  unfold combine. cbn [snd]. rewrite combine_count, filter_bool. cbn [snd]. rewrite Z.add_0_l. f_equal.
  unfold pointing. rewrite <- (length_map_to_list (filter _ sig)), map_to_list_filter_perm.
  by rewrite map_range_perm.
Qed.

Definition lookup_state (s : Scorer) (tok : string) : option Action := states s !! tok.

(** What one verdict depends on and changes. *)
Lemma decide_spec `{Ranging} shard o st s s' d : decide_ shard o st s = Some (s', d) ->
  exists sig, evaluate o st (cfg s) = Some sig /\
  let raw := (combine (cfg s) sig).1 in
  let score := (accumulate (tokenID o) raw s).2 in
  let contributing := Z.of_nat (size (pointing (cfg s) sig)) in
  let next := next_action (cfg s) (states s !! tokenID o) score contributing in
  d = MkDecision shard (tokenID o) score next.1 sig contributing next.2 /\
  s' = MkScorer (cfg s) (win s) (<[tokenID o := score]> (scores s)) (set_state (tokenID o) next.1 (states s)).
Proof.
  unfold decide_. destruct (evaluate o st (cfg s)) as [sig|]; [|done]. cbn [mbind option_bind].
  intros H0. exists sig. split; [done|]. cbv zeta. rewrite <- combine_contributing.
  destruct (combine (cfg s) sig) as [raw n]. unfold accumulate, action in *. cbn [cfg win scores states fst snd] in *.
  destruct (next_action _ _ _ _) as [next capped]. cbn [fst snd].
  apply (inj Some), pair_equal_spec in H0 as [<- <-]. done.
Qed.

Lemma decide_cfg `{Ranging} shard o st s s' d : decide_ shard o st s = Some (s', d) -> cfg s' = cfg s /\ win s' = win s.
Proof. intros (sig & _ & _ & ->)%decide_spec. done. Qed.

Lemma judge_tokens_cfg `{Ranging} shard st obs s s' ds :
  judge_tokens shard st obs s = Some (s', ds) -> cfg s' = cfg s /\ win s' = win s.
Proof.
  revert s ds. induction obs as [|o obs IH]; intros s ds; cbn [judge_tokens]; [by intros [= <- <-]|].
  destruct (_ <? _); [apply IH|].
  destruct (decide_ shard o st s) as [[s1 d]|] eqn:Hd; [|done]. cbn [mbind option_bind].
  destruct (judge_tokens shard st obs s1) as [[s2 ds']|] eqn:Hj; [|done]. intros [= <- <-].
  apply decide_cfg in Hd as [Hc Hw]. apply IH in Hj as [Hc' Hw']. by rewrite Hc', Hc, Hw', Hw.
Qed.

Lemma judge_shards_cfg `{Ranging} shards s s' ds :
  judge_shards shards s = Some (s', ds) -> cfg s' = cfg s /\ win s' = win s.
Proof.
  revert s ds. induction shards as [|[sh obs] shards IH]; intros s ds; cbn [judge_shards]; [by intros [= <- <-]|].
  destruct (analyze obs (cfg s)) as [st|]; [|done]. cbn [mbind option_bind].
  destruct (judge_tokens sh st obs s) as [[s1 d]|] eqn:Hd; [|done]. cbn [mbind option_bind].
  destruct (judge_shards shards s1) as [[s2 ds']|] eqn:Hj; [|done]. intros [= <- <-].
  apply judge_tokens_cfg in Hd as [Hc Hw]. apply IH in Hj as [Hc' Hw']. by rewrite Hc', Hc, Hw', Hw.
Qed.

(** Every decision was taken by [decide_] on an observation with enough samples. *)
Definition decided `{Ranging} (c : BotScore) (shards : list (string * list observation)) (d : Decision) : Prop :=
  exists obs o st s s', (dShard d, obs) ∈ shards /\ o ∈ obs /\ analyze obs c = Some st /\ cfg s = c /\
    Cfg.BotScore.MinSamples c <= samples o /\ decide_ (dShard d) o st s = Some (s', d).

Lemma decide_shard `{Ranging} shard o st s s' d : decide_ shard o st s = Some (s', d) ->
  dShard d = shard /\ dTokenID d = tokenID o.
Proof. by intros (sig & _ & -> & _)%decide_spec. Qed.

Lemma judge_tokens_decided `{Ranging} c shard st all obs s s' ds :
  cfg s = c -> analyze all c = Some st -> (forall o, o ∈ obs -> o ∈ all) ->
  judge_tokens shard st obs s = Some (s', ds) ->
  (forall d, d ∈ ds -> decided c [(shard, all)] d) /\
  dTokenID <$> ds = tokenID <$> List.filter (fun o => negb (samples o <? Cfg.BotScore.MinSamples c)) obs.
Proof.
  intros Hc Ha. revert s Hc ds. induction obs as [|o obs IH]; intros s Hc ds Hall; cbn [judge_tokens List.filter].
  { intros [= <- <-]. split; [by intros d ?%elem_of_nil|done]. }
  rewrite Hc. destruct (samples o <? _) eqn:Hs; cbn [negb].
  { apply IH; [done|]. intros x Hx. apply Hall. by right. }
  destruct (decide_ shard o st s) as [[s1 d]|] eqn:Hd; [|done]. cbn [mbind option_bind].
  destruct (judge_tokens shard st obs s1) as [[s2 ds']|] eqn:Hj; [|done]. intros [= <- <-].
  destruct (decide_cfg _ _ _ _ _ _ Hd) as [Hc1 _]. destruct (decide_shard _ _ _ _ _ _ Hd) as [Hsh Htok].
  destruct (IH s1 ltac:(congruence) ds' ltac:(intros x Hx; apply Hall; by right) Hj) as [IHd IHt]. split.
  - intros d' [->|Hin]%elem_of_cons; [|by apply IHd]. bool_to_prop.
    exists all, o, st, s, s1. rewrite Hsh. split_and!; try done; [by left|apply Hall; by left].
  - rewrite !fmap_cons, IHt, Htok. done.
Qed.

Lemma decided_mono `{Ranging} c l l' d : (forall x, x ∈ l -> x ∈ l') -> decided c l d -> decided c l' d.
Proof. intros Hs (obs & o & st & s & s' & Hin & ?). exists obs, o, st, s, s'. split; [by apply Hs|done]. Qed.

(** The tokens that get a verdict. *)
Definition enough (c : BotScore) (shards : list (string * list observation)) : list (string * string) :=
  concat ((fun p => (fun o => (p.1, tokenID o)) <$>
             List.filter (fun o => negb (samples o <? Cfg.BotScore.MinSamples c)) p.2) <$> shards).

Lemma judge_tokens_shard `{Ranging} shard st obs s s' ds :
  judge_tokens shard st obs s = Some (s', ds) -> Forall (fun d => dShard d = shard) ds.
Proof.
  revert s ds. induction obs as [|o obs IH]; intros s ds; cbn [judge_tokens]; [intros [= <- <-]; constructor|].
  destruct (_ <? _); [apply IH|].
  destruct (decide_ shard o st s) as [[s1 d]|] eqn:Hd; [|done]. cbn [mbind option_bind].
  destruct (judge_tokens shard st obs s1) as [[s2 ds']|] eqn:Hj; [|done]. intros [= <- <-].
  constructor; [by eapply decide_shard|by eapply IH].
Qed.

Lemma pair_fmap shard (ds : list Decision) (toks : list string) :
  Forall (fun d => dShard d = shard) ds -> dTokenID <$> ds = toks ->
  (fun d => (dShard d, dTokenID d)) <$> ds = (fun t => (shard, t)) <$> toks.
Proof.
  intros Hf <-. induction Hf as [|d ds Hd _ IH]; [done|]. rewrite !fmap_cons. by rewrite IH, Hd.
Qed.

Lemma judge_shards_decided `{Ranging} c shards s s' ds :
  cfg s = c -> judge_shards shards s = Some (s', ds) ->
  (forall d, d ∈ ds -> decided c shards d) /\
  (fun d => (dShard d, dTokenID d)) <$> ds = enough c shards.
Proof.
  revert s ds. induction shards as [|[sh obs] shards IH]; intros s ds Hc; cbn [judge_shards].
  { intros [= <- <-]. split; [by intros d ?%elem_of_nil|done]. }
  rewrite Hc. destruct (analyze obs c) as [st|] eqn:Ha; [|done]. cbn [mbind option_bind].
  destruct (judge_tokens sh st obs s) as [[s1 ds1]|] eqn:Hd; [|done]. cbn [mbind option_bind].
  destruct (judge_shards shards s1) as [[s2 ds2]|] eqn:Hj; [|done]. intros [= <- <-].
  destruct (judge_tokens_cfg _ _ _ _ _ _ Hd) as [Hc1 _].
  destruct (judge_tokens_decided c sh st obs obs s s1 ds1 Hc Ha ltac:(done) Hd) as [H1 H1t].
  destruct (IH s1 ds2 ltac:(congruence) Hj) as [H2 H2t]. split.
  - intros d [Hin|Hin]%elem_of_app.
    + eapply decided_mono; [|by apply H1]. intros x ->%list_elem_of_singleton. by left.
    + eapply decided_mono; [|by apply H2]. intros x Hx. by right.
  - rewrite fmap_app, H2t, (pair_fmap sh ds1 _ (judge_tokens_shard _ _ _ _ _ _ Hd) H1t).
    unfold enough. cbn [fmap list_fmap concat fst snd]. f_equal. by rewrite <- list_fmap_compose.
Qed.

(** ** Scorers that a process can have *)

Inductive reach `{Ranging} (c : BotScore) : Scorer -> Prop :=
  | r_new : reach c (NewScorer c)
  | r_observe s e : reach c s -> reach c (Observe e s)
  | r_clamp s tok : reach c s -> reach c (Clamp tok s)
  | r_flush s t s' ds : reach c s -> Flush t s = Some (s', ds) -> reach c s'
  | r_forget s tok : reach c s -> reach c (Forget tok s).

(** A window is keyed by its tokens and bounded. *)
Definition obs_ok (tok : string) (o : observation) : Prop :=
  tokenID o = tok /\ (length (beats o) <= maxSamplesPerToken)%nat /\ (length (intervals o) <= maxSamplesPerToken)%nat.

Definition win_ok (ws : windows) : Prop :=
  forall sh w, ws !! sh = Some w -> w <> ∅ /\ map_Forall obs_ok w.

Lemma appendCapped_bound {T} (l : list T) v : (length l <= maxSamplesPerToken)%nat ->
  (length (appendCapped l v) <= maxSamplesPerToken)%nat.
Proof.
  unfold appendCapped. intros Hl. case_bool_decide as Hb; rewrite length_app; cbn [length]; [|lia].
  destruct l; cbn [tail length] in *; [unfold maxSamplesPerToken in *|]; lia.
Qed.

Lemma add_ok tok e o : obs_ok tok o -> obs_ok tok (add e o).
Proof.
  intros (Ht & Hb & Hi). unfold add, identify, obs_ok. cbn [tokenID beats intervals fpHash ipPrefix powCost hasPoW lastSeen].
  repeat (case_decide || case_match); cbn [tokenID beats intervals]; auto using appendCapped_bound.
Qed.

Lemma observe_ok e ws : win_ok ws -> win_ok (observe e ws).
Proof.
  intros Hws sh w. unfold observe, shard_observe. destruct (decide (Shard e = sh)) as [<-|Hne].
  2: { rewrite lookup_insert_ne by done. apply Hws. }
  rewrite lookup_insert_eq. intros [= <-]. split; [apply insert_non_empty|].
  assert (Hold : map_Forall obs_ok (default newShardWindow (ws !! Shard e))).
  { destruct (ws !! Shard e) as [w|] eqn:E; [by apply Hws in E as [_ E]|apply map_Forall_empty]. }
  apply map_Forall_insert_2; [|done]. apply add_ok.
  destruct (default newShardWindow (ws !! Shard e) !! TokenID e) as [o|] eqn:E; [by apply Hold in E|].
  split_and!; [done|cbn; lia..].
Qed.

Lemma snapshot_ok `{Ranging} before ws : win_ok ws -> win_ok (snapshot before ws).1.
Proof.
  intros Hws sh w. unfold snapshot. cbn [fst]. rewrite map_lookup_filter_Some. intros [Hl Hne]. split; [done|].
  rewrite lookup_fmap in Hl. apply fmap_Some in Hl as (w0 & Hw0 & ->). intros tok o Ho.
  rewrite expire_lookup in Ho. destruct (w0 !! tok) as [o'|] eqn:E; [|done].
  destruct (Before _ _); [done|]. injection Ho as <-. apply (proj2 (Hws _ _ Hw0)), E.
Qed.

Lemma Flush_inv `{Ranging} t s s' ds : Flush t s = Some (s', ds) ->
  let snap := snapshot (time_add t (- Cfg.BotScore.Window (cfg s))) (win s) in
  exists ds0, ds = sort_decisions ds0 /\ win s' = snap.1 /\ cfg s' = cfg s /\
  judge_shards (map_range snap.2) (MkScorer (cfg s) snap.1 (scores s) (states s)) = Some (s', ds0).
Proof.
  unfold Flush. cbv zeta. destruct (snapshot _ (win s)) as [live shards]. cbn [fst snd].
  destruct (judge_shards _ _) as [[s1 ds0]|] eqn:Hj; [|done]. cbn [mbind option_bind]. intros [= <- <-].
  exists ds0. destruct (judge_shards_cfg _ _ _ _ Hj) as [Hc Hw]. done.
Qed.

Lemma reach_ok `{Ranging} c s : reach c s -> cfg s = c /\ win_ok (win s).
Proof.
  induction 1 as [|s e _ [Hc Hw]|s tok _ [Hc Hw]|s t s' ds _ [Hc Hw] Hf|s tok _ [Hc Hw]]; cbn.
  - split; [done|]. intros sh w. unfold newWindows. by rewrite lookup_empty.
  - unfold Observe. destruct (negb _); [done|]. destruct (decide _); [done|]. split; [done|]. by apply observe_ok.
  - done.
  - destruct (Flush_inv _ _ _ _ Hf) as (ds0 & _ & -> & -> & _). split; [done|]. by apply snapshot_ok.
  - done.
Qed.

End Scorer.
