(* ===== verification/Actuator.v ===== *)
(** * From decisions to the queue, and the difficulty they lead to

    [internal/botscore/actuator.go] applies a decision with one script and tells the audit
    sink; [internal/botscore/difficulty.go] turns the suspicion of a fingerprint or network
    into a proof-of-work difficulty.  The calls to the sink are returned as a list. *)

From S2P Require Import Prelude.
From S2P Require Import Go.
From S2P Require Import Redis.
From S2P Require Import Keys.
From S2P Require Import Shard.
From S2P Require Import Float.
From S2P Require Import Config.
From S2P Require Import Scripts.
From S2P Require Import Conn.
From S2P Require Import Window.
From S2P Require Import Signals.
From S2P Require Import Scorer.
Import Scorer.
Local Open Scope string_scope.
Local Open Scope Z_scope.
Local Open Scope list_scope.

(** Commands of the client this package uses: HMGET on two fields, INCR, EXPIRE (whole
    seconds, at least one), GET. *)
Section Commands.
Context {S : Type} {R : Redis S} {L : Lua S}.

Definition HMGet2 (key f1 f2 : string) : M S (option string * option string) :=
  command (fun s => (s, (HGET key f1 s, HGET key f2 s))).

Definition Incr (key : string) : M S Z := command (INCR key).

Definition Expire (key : string) (d : Z) : M S unit :=
  command (fun s => (PEXPIRE key (1000 * Z.max 1 (Z.quot d Second)) s, tt)).

Definition Get (key : string) : M S (option string) := command (fun s => (s, GET key s)).

End Commands.

(** [if err := ...; err != nil { handler }]: the error becomes a value. *)
Definition try {S A} (m : M S A) : M S (result A) := fun w => let r := m w in (r.1, Ok r.2).

Module Actuator.

Definition ErrUnexpectedReply : string := "botscore: unexpected lua reply".

(** The [Reason] of an audit record, a map with two optional entries. *)
Record Reason := MkReason {
  signals_ : Signals.signals;
  contributing : Z;
  capped_from : option string;
  min_signals_to_block : option Z
}.

Record AuditRecord := MkAuditRecord {
  aEventID : string; aTokenID : string; aShard : string; aAction : string;
  aScore : float64; aReason : Reason; aAt : time
}.

Record BlockRecord := MkBlockRecord {
  bEventID : string; bTokenID : string; bFPHash : string;
  bScore : float64; Evidence : Reason; bAt : time
}.

(** One call of [Sink]. *)
Inductive sink_call := Audit (rec : AuditRecord) | Block (rec : BlockRecord).

Record Actuator := MkActuator {
  cfg : Cfg.BotScore.t;
  userTTL : Z;
  eventID : string;
  has_sink : bool
}.

Definition NewActuator (eventID : string) (cfg : Cfg.BotScore.t) (userTTL : Z) (sink : bool) : Actuator :=
  MkActuator cfg userTTL eventID sink.

Section Methods.
Context {S : Type} {R : Redis S} {L : Lua S}.
Context (a : Actuator).

(** A reply whose first element is not a string is an error. *)
Definition firstString (v : reply) : result string :=
  match v with
  | RStr s :: _ => Ok s
  | _ => Err (ErrWrap "firstString" (ErrNew ErrUnexpectedReply))
  end.

Definition runApply (d : Decision) (action : string) : M S string :=
  let ev := eventID a in
  grey ← lift (Ids.Greylist (dShard d));
  t ← now;
  res ← Redisx.Run "apply_action.lua"
    [Keys.Queue ev (dShard d); Keys.Hold ev (dShard d); Keys.Score ev (dShard d);
     Keys.User ev (dShard d) (dTokenID d); Keys.Queue ev grey]
    [dTokenID d; itoa (int64_of_f64 (Scorer.Score d)); action; itoa (UnixMilli t); itoa (Milliseconds (userTTL a))];
  lift (firstString res).

Definition subjects (d : Decision) : M S (list string) := fun w =>
  match HMGet2 (Keys.User (eventID a) (dShard d) (dTokenID d)) "fp_hash" "ip_prefix" w with
  | (w', Err _) => (w', Ok [])
  | (w', Ok (fp, ip)) =>
      (w', Ok (List.filter (fun s => negb (bool_decide (s = emp))) (omap id [fp; ip])))
  end.

(** The body of the loop of [raiseSuspicion]. *)
Definition raise_one (subject : string) : M S unit :=
  if decide (subject = emp) then mret tt
  else
    let key := Keys.Suspicion (eventID a) subject in
    r ← try (Incr key);
    match r with
    | Err _ => mret tt
    | Ok _ => _ ← try (Expire key (Cfg.BotScore.SuspicionTTL (cfg a))); mret tt
    end.

Fixpoint raise_all (subs : list string) : M S unit :=
  match subs with
  | [] => mret tt
  | s :: rest => _ ← raise_one s; raise_all rest
  end.

Definition raiseSuspicion (d : Decision) : M S unit := subs ← subjects d; raise_all subs.

Definition move (d : Decision) : M S string :=
  let ev := eventID a in
  grey ← lift (Ids.Greylist (dShard d));
  if Ids.IsGreylist (dShard d) then runApply d "observe"
  else
    t ← now;
    res ← Redisx.Run "move_shard.lua"
      [Keys.Queue ev (dShard d); Keys.Queue ev grey; Keys.Score ev (dShard d);
       Keys.User ev (dShard d) (dTokenID d)]
      [dTokenID d; grey; itoa (int64_of_f64 (Scorer.Score d)); itoa (UnixMilli t); itoa (Milliseconds (userTTL a))];
    applied ← lift (firstString res);
    _ ← (if decide (applied = "greylist") then raiseSuspicion d else mret tt);
    mret applied.

Definition restore (d : Decision) : M S string :=
  let ev := eventID a in
  origin ← lift (Ids.Origin (dShard d));
  grey ← lift (Ids.Greylist (dShard d));
  t ← now;
  res ← Redisx.Run "restore_shard.lua"
    [Keys.Queue ev origin; Keys.Queue ev grey; Keys.Hold ev (dShard d);
     Keys.User ev (dShard d) (dTokenID d)]
    [dTokenID d; origin; itoa (UnixMilli t); itoa (Milliseconds (userTTL a))];
  lift (firstString res).

Definition reason_of (d : Decision) : Reason :=
  MkReason (dSignals d) (Contributing d) (action_name <$> CappedFrom d)
    (match CappedFrom d with Some _ => Some (Cfg.BotScore.MinSignalsToBlock (cfg a)) | None => None end).

Definition record (d : Decision) (applied : string) : M S (list sink_call) :=
  if negb (has_sink a) then mret []
  else
    t ← now;
    let audit := Audit (MkAuditRecord (eventID a) (dTokenID d) (dShard d) applied (Scorer.Score d) (reason_of d) t) in
    if decide (applied = "block") then
      subs ← subjects d;
      mret [audit; Block (MkBlockRecord (eventID a) (dTokenID d) (default emp (head subs))
                            (Scorer.Score d) (reason_of d) t)]
    else mret [audit].

Definition applyOne (d : Decision) : M S (list sink_call) :=
  _ ← lift (Ids.Validate (dShard d));
  applied ← (match dAction d with
             | ActionObserve => runApply d "observe"
             | ActionHold => runApply d "hold"
             | ActionBlock => runApply d "block"
             | ActionGreylist => move d
             | ActionRestore => restore d
             end);
  if negb (bool_decide (applied = "observe")) && negb (bool_decide (applied = "noop"))
  then record d applied else mret [].

(** [Apply]: one failure does not stop the rest. *)
Fixpoint Apply (ds : list Decision) : M S (list sink_call) :=
  match ds with
  | [] => mret []
  | d :: rest =>
      r ← try (applyOne d);
      calls ← Apply rest;
      mret (match r with Ok c => c | Err _ => [] end ++ calls)
  end.

End Methods.
End Actuator.

Module Difficulty.

Record Difficulty := MkDifficulty { eventID : string; base : Z; bump : Z }.

(** [challenge.Subject]. *)
Record Subject := MkSubject { FPHash : string; IPPrefix : string; Attempt : Z }.

Definition NewDifficulty (ev : string) (chal : Cfg.Challenge.t) (score : Cfg.BotScore.t) : Difficulty :=
  MkDifficulty ev (Cfg.Challenge.BaseDifficulty chal) (Cfg.BotScore.GreylistDifficulty score).

Section Methods.
Context {S : Type} {R : Redis S} {L : Lua S}.

(** [strconv.Atoi], through [StringCmd.Int]. *)
Definition reply_int (v : option string) : option Z := s ← v; Ids.Atoi s.

(** One subject of the loop. *)
Definition worse (d : Difficulty) (worst : Z) (subject : string) : M S Z :=
  if decide (subject = emp) then mret worst
  else
    r ← try (Get (Keys.Suspicion (eventID d) subject));
    mret (match r with
          | Ok v => match reply_int v with
                    | Some n => if worst <? n then n else worst
                    | None => worst
                    end
          | Err _ => worst
          end).

Definition Difficulty_ (d : Difficulty) (s : Subject) : M S Z :=
  w1 ← worse d 0 (FPHash s);
  worst ← worse d w1 (IPPrefix s);
  let rounds := if worst <? Attempt s then Attempt s else worst in
  mret (int64_add (base d) (int64_mul rounds (bump d))).

End Methods.
End Difficulty.
