(* ===== verification/Botscore.v ===== *)
(** * What bot detection can and cannot do

    Properties of the observation windows, the scorer, the actuator and the difficulty
    provider. *)

From S2P Require Import Prelude.
From S2P Require Import Go.
From S2P Require Import Redis.
From S2P Require Import Keys.
From S2P Require Import Shard.
From S2P Require Import Scripts.
From S2P Require Import Slot.
From S2P Require Import Ladder.
From S2P Require Import Guarantees.
From S2P Require Import Float.
From S2P Require Import Config.
From S2P Require Import Conn.
From S2P Require Import Refine.
From S2P Require Import Clients.
From S2P Require Import Again.
From S2P Require Import Window.
From S2P Require Import Signals.
From S2P Require Import Scorer.
From S2P Require Import Actuator.
Import Telemetry Window Signals Scorer.
Import MemStore MemLua.
Local Open Scope string_scope.
Local Open Scope Z_scope.
Local Open Scope list_scope.

(** ** Commands that leave a slot alone *)

Section Aside.
Context {S : Type} {R : Redis S} {RL : RedisLaws S} {L : Lua S} {SL : Slot}.

Definition slot_same (s s' : S) : Prop := forall k, cell_of s' (skey k) = cell_of s (skey k).

#[export] Instance slot_same_refl : Reflexive slot_same.
Proof. done. Qed.

#[export] Instance slot_same_trans : Transitive slot_same.
Proof. intros a b c Hab Hbc k. by rewrite Hbc. Qed.

Lemma slot_same_view s s' t : slot_same s s' -> view s' t = view s t.
Proof. intros H. rewrite !view_eq. unfold hash_of, zset_of. by rewrite !H. Qed.

(** A computation that leaves the slot alone, whatever the wire does. *)
Definition aside {A} (m : M S A) : Prop := forall w, slot_same (db w) (db (m w).1).

Lemma aside_ret {A} (x : A) : aside (mret x).
Proof. done. Qed.

Lemma aside_bind {A B} (m : M S A) (f : A -> M S B) : aside m -> (forall x, aside (f x)) -> aside (mbind f m).
Proof.
  intros Hm Hf w. unfold mbind, M_bind. specialize (Hm w). destruct (m w) as [w1 [x|e]]; [|done].
  etransitivity; [apply Hm|apply Hf].
Qed.

Lemma aside_now : aside now.
Proof. intros w. unfold now. by destruct w as [d c wi [|t [|t' cl]] en re]. Qed.

Lemma aside_command {A} (f : S -> S * A) : (forall s, slot_same s (f s).1) -> aside (command f).
Proof.
  intros Hf w. destruct (command_spec f w) as ((k & _ & Hdb & _) & _). rewrite Hdb. unfold again. clear Hdb.
  induction k as [|k IH]; [done|]. rewrite Nat.iter_succ. etransitivity; [exact IH|apply Hf].
Qed.

Lemma aside_try {A} (m : M S A) : aside m -> aside (try m).
Proof. intros Hm w. apply Hm. Qed.

End Aside.

#[export] Hint Resolve aside_ret aside_now aside_try : sg.

(** ** A decision is one step of the ladder *)

Section Actuation.
Context {S : Type} {R : Redis S} {RL : RedisLaws S} {L : Lua S} {LL : LuaLaws S}.
Context (ev sh : string) (He : plain ev = true) (Ho : origin_shard sh) (Hv : Ids.Validate sh = Ok tt).
#[local] Instance act_slot : Slot := keys_slot ev sh He Ho.
Context (a : Actuator.Actuator) (Hev : Actuator.eventID a = ev).

Lemma suspicion_aside subject k : Keys.Suspicion ev subject <> skey k.
Proof. apply suspicion_apart. Qed.

Lemma raise_aside subject : aside (Actuator.raise_one a subject).
Proof.
  unfold Actuator.raise_one. destruct (decide _); [apply aside_ret|]. cbv zeta. rewrite Hev.
  apply aside_bind; [apply aside_try, aside_command|].
  - intros s k. apply INCRBY_frame, suspicion_aside.
  - intros [n0|e]; [|apply aside_ret]. apply aside_bind; [apply aside_try, aside_command|intros x; apply aside_ret].
    intros s k. cbn [fst]. rewrite PEXPIRE_law by lia. unfold upd. rewrite decide_False; [done|]. apply suspicion_aside.
Qed.

Lemma subjects_aside d : aside (Actuator.subjects a d).
Proof.
  intros w. unfold Actuator.subjects.
  pose proof (aside_command (fun s => (s, (HGET (Keys.User (Actuator.eventID a) (dShard d) (dTokenID d)) "fp_hash" s,
    HGET (Keys.User (Actuator.eventID a) (dShard d) (dTokenID d)) "ip_prefix" s))) ltac:(done) w) as H.
  unfold HMGet2 in *. by destruct (command _ w) as [w1 [[fp ip]|e]].
Qed.

Lemma raiseSuspicion_aside d : aside (Actuator.raiseSuspicion a d).
Proof.
  apply aside_bind; [apply subjects_aside|]. intros subs.
  induction subs as [|x subs IH]; [apply aside_ret|]. apply aside_bind; [apply raise_aside|intros; exact IH].
Qed.

Lemma record_aside d applied : aside (Actuator.record a d applied).
Proof.
  unfold Actuator.record. destruct (Actuator.has_sink a); cbn [negb]; [|apply aside_ret].
  apply aside_bind; [apply aside_now|]. intros t. cbv zeta. destruct (decide _); [|apply aside_ret].
  apply aside_bind; [apply subjects_aside|]. intros; apply aside_ret.
Qed.

(** The operation of a decision, and the word its script answers. *)
Definition action_op (d : Decision) (t : time) : op :=
  let sc := int64_of_f64 (Score d) in
  let ttl := Milliseconds (Actuator.userTTL a) in
  match dAction d with
  | ActionObserve => OAction (dTokenID d) sc "observe" (UnixMilli t) ttl
  | ActionHold => OAction (dTokenID d) sc "hold" (UnixMilli t) ttl
  | ActionBlock => OAction (dTokenID d) sc "block" (UnixMilli t) ttl
  | ActionGreylist => OMove (dTokenID d) (grey_of sh) sc (UnixMilli t) ttl
  | ActionRestore => ORestore (dTokenID d) sh (UnixMilli t) ttl
  end.

Lemma action_word d t s : Actuator.firstString (run_op (action_op d t) s).2 = Ok (word (run_op (action_op d t) s).2).
Proof.
  unfold action_op. cbv zeta. destruct (dAction d); cbn [run_op]; scripts; prep; branches; try reflexivity;
    repeat case_match; reflexivity.
Qed.

(** A call that executed an operation some number of times, and answered the word of the last
    execution. *)
Definition runs_word (o : op) (w : world S) (m : world S * result string) : Prop :=
  exists k, (k <= times w)%nat /\ db m.1 = repeat_op o k (db w) /\
    (forall x, m.2 = Ok x -> exists j, k = Datatypes.S j /\ x = word (run_op o (repeat_op o j (db w))).2).

Lemma run_word name K A o w w' : ready w -> db w' = db w -> cached w' = cached w -> wire w' = wire w ->
  (forall s, lua_eval (lua_read name) K A s = run_op o s) ->
  (forall s, Actuator.firstString (run_op o s).2 = Ok (word (run_op o s).2)) ->
  runs_word o w ((res ← Redisx.Run name K A; lift (Actuator.firstString res)) w').
Proof.
  intros Hw Hdb Hc Hwi Heq Hword. destruct (Run_spec name K A w' (ready_same w w' Hw Hc Hwi)) as (_ & _ & _ & (k & Hk & Hd & Hr) & _).
  assert (Hag : forall j s, again (lua_eval (lua_read name) K A) j s = repeat_op o j s).
  { intros j s. unfold repeat_op, again. induction j as [|j IH]; [done|]. by rewrite !Nat.iter_succ, IH, Heq. }
  exists k. unfold times in *. rewrite Hdb, Hwi, Hag in *. unfold mbind, M_bind, lift.
  destruct (Redisx.Run name K A w') as [w1 [r|e]]; cbn [fst snd] in *; (split; [done|]); (split; [done|]); [|done].
  intros x Hx. destruct (Hr r eq_refl) as (j & -> & ->). exists j. split; [done|]. rewrite Hag, Heq, Hword in Hx. congruence.
Qed.

Ltac script_word w :=
  match goal with |- context [mbind ?k now w] =>
    let t := fresh "t" in let w' := fresh "w'" in
    destruct (bind_now k w) as (t & w' & -> & ? & ? & ? & _); exists t end.

Definition one_word (d : Decision) (t : time) (w : world S) (m : world S * result string) : Prop :=
  runs_word (action_op d t) w m.

Lemma grey_ok : Ids.Greylist sh = Ok (grey_of sh).
Proof. unfold Ids.Greylist. by rewrite Hv. Qed.

Lemma origin_ok : Ids.Origin sh = Ok sh.
Proof. unfold Ids.Origin. rewrite Hv. by destruct Ho as (rest & -> & _). Qed.

Lemma runApply_one d act w : dShard d = sh -> ready w ->
  (forall t, action_op d t = OAction (dTokenID d) (int64_of_f64 (Score d)) act (UnixMilli t) (Milliseconds (Actuator.userTTL a))) ->
  exists t, one_word d t w (Actuator.runApply a d act w).
Proof.
  intros Hsh Hw Hop. unfold Actuator.runApply. cbv zeta. rewrite Hsh, (bind_lift _ _ _ _ grey_ok).
  script_word w. apply run_word; try done; [|apply action_word].
  intros s. rewrite Hop, eval_action, Hev. cbn [apply_action_lua run_op]. by rewrite !arg_itoa.
Qed.

Lemma restore_one d w : dShard d = sh -> dAction d = ActionRestore -> ready w ->
  exists t, one_word d t w (Actuator.restore a d w).
Proof.
  intros Hsh Hact Hw. unfold Actuator.restore. cbv zeta. rewrite Hsh, (bind_lift _ _ _ _ origin_ok), (bind_lift _ _ _ _ grey_ok).
  script_word w. apply run_word; try done; [|apply action_word].
  intros s. unfold action_op. rewrite Hact, eval_restore, Hev. cbn [restore_shard_lua run_op]. by rewrite !arg_itoa.
Qed.

(** What follows the script leaves the slot alone. *)
Definition one_step (d : Decision) (t : time) (w : world S) (m : world S * result string) : Prop :=
  exists w1, slot_same (db w1) (db m.1) /\ runs_word (action_op d t) w (w1, m.2).

Lemma one_word_step d t w m : one_word d t w m -> one_step d t w m.
Proof. intros H. by exists m.1. Qed.

Lemma runs_word_err o w w1 r e : runs_word o w (w1, r) -> runs_word o w (w1, Err e).
Proof. intros (k & Hk & Hd & _). by exists k. Qed.

Lemma move_one d w : dShard d = sh -> dAction d = ActionGreylist -> ready w ->
  exists t, one_step d t w (Actuator.move a d w).
Proof.
  intros Hsh Hact Hw. unfold Actuator.move. cbv zeta. rewrite Hsh, (bind_lift _ _ _ _ grey_ok).
  assert (Ids.IsGreylist sh = false) as -> by (by destruct Ho as (rest & -> & _)).
  script_word w.
  match goal with |- context [mbind ?k (Redisx.Run ?n ?K ?A) w'] =>
    assert (Hone : one_word d t w (mbind (fun res => lift (Actuator.firstString res)) (Redisx.Run n K A) w')) end.
  { apply run_word; try done; [|apply action_word]. intros s. unfold action_op.
    rewrite Hact, eval_move, Hev. cbn [move_shard_lua run_op]. by rewrite !arg_itoa. }
  unfold one_word, one_step in *. unfold mbind, M_bind, lift, mret, M_ret in *.
  destruct (Redisx.Run _ _ _ w') as [w1 [r|e]]; cbn [fst snd] in *; [|by exists w1].
  destruct (Actuator.firstString r) as [x|e]; cbn [fst snd] in *; [|by exists w1].
  destruct (decide _) as [Hx|Hx]; [|by exists w1].
  pose proof (raiseSuspicion_aside d w1) as Has. destruct (Actuator.raiseSuspicion a d w1) as [w2 [[]|e]]; cbn [fst snd] in *;
    exists w1; (split; [exact Has|]); [done|by eapply runs_word_err].
Qed.

Lemma dispatch_one d w : dShard d = sh -> ready w ->
  exists t, one_step d t w
    (match dAction d with
     | ActionObserve => Actuator.runApply a d "observe"
     | ActionHold => Actuator.runApply a d "hold"
     | ActionBlock => Actuator.runApply a d "block"
     | ActionGreylist => Actuator.move a d
     | ActionRestore => Actuator.restore a d
     end w).
Proof.
  intros Hsh Hw. destruct (dAction d) eqn:Hact.
  2: by apply move_one.
  4: destruct (restore_one d w Hsh Hact Hw) as [t Ht]; exists t; by apply one_word_step.
  all: match goal with |- context [Actuator.runApply _ _ ?x] =>
    destruct (runApply_one d x w Hsh Hw) as [t Ht];
      [intros t; unfold action_op; rewrite Hact; reflexivity|exists t; by apply one_word_step] end.
Qed.

(** The calls [record] makes to the sink. *)
Lemma record_calls d applied w calls : (Actuator.record a d applied w).2 = Ok calls ->
  (forall r, Actuator.Audit r ∈ calls -> Actuator.aAction r = applied /\ Actuator.aTokenID r = dTokenID d) /\
  (forall r, Actuator.Block r ∈ calls -> applied = "block" /\ Actuator.bTokenID r = dTokenID d).
Proof.
  unfold Actuator.record. destruct (Actuator.has_sink a); cbn [negb].
  2: { intros [= <-]. split; intros r Hr%elem_of_nil; done. }
  match goal with |- context [mbind ?k now w] => destruct (bind_now k w) as (t & w' & -> & _) end. cbv zeta.
  destruct (decide (applied = "block")) as [->|Hb].
  - unfold mbind at 1, M_bind. destruct (Actuator.subjects a d w') as [w2 [subs|e]]; [|done]. intros [= <-].
    split; intros r Hr; repeat (apply elem_of_cons in Hr as [Hr|Hr]; [try discriminate Hr; by injection Hr as ->|]);
      by apply elem_of_nil in Hr.
  - intros [= <-]. split; intros r Hr; apply elem_of_cons in Hr as [Hr|Hr%elem_of_nil]; try done. by injection Hr as ->.
Qed.


End Actuation.

(** ** A concrete configuration: the defaults *)

Definition default_botscore : Cfg.BotScore.t := Cfg.default_botscore.

Definition config_with (score : Cfg.BotScore.t) : Cfg.Config := Cfg.config_with "scorer" ":8080" score.

Definition default_config : Cfg.Config := config_with default_botscore.

Lemma default_valid : Cfg.Validate default_config = Ok tt.
Proof. vm_compute. reflexivity. Qed.

(** ** Blocking *)

Lemma two_entries {A} (m : gmap string A) : (2 <= size m)%nat ->
  exists k1 k2 x1 x2, k1 <> k2 /\ m !! k1 = Some x1 /\ m !! k2 = Some x2.
Proof.
  intros Hs. rewrite <- length_map_to_list in Hs. pose proof (NoDup_fst_map_to_list m) as Hn.
  destruct (map_to_list m) as [|[k1 x1] [|[k2 x2] l]] eqn:E; cbn [length] in Hs; try lia.
  exists k1, k2, x1, x2. split_and!.
  - intros ->. cbn in Hn. apply list.NoDup_cons in Hn as [Hn _]. apply Hn. by left.
  - apply elem_of_map_to_list. rewrite E. by left.
  - apply elem_of_map_to_list. rewrite E. right. by left.
Qed.

Lemma pointing_lookup c sig n v : pointing c sig !! n = Some v ->
  sig !! n = Some v /\ f64_leb (Cfg.BotScore.SignalMinContrib c) v = true.
Proof. unfold pointing. by rewrite map_lookup_filter_Some. Qed.

(** C22: no single signal blocks.  With a configuration that passed validation, every flush
    that blocks a token saw at least two different signals of that token, each of at least
    the (positive) minimal contribution, on a score at or above the block line; a score that
    high with fewer signals is a hold, and the decision records that it was capped. *)
Theorem no_single_signal_blocks `{Ranging} c t s s' ds d :
  Cfg.Validate c = Ok tt -> cfg s = Cfg.botscore c -> Flush t s = Some (s', ds) -> d ∈ ds ->
  let b := Cfg.botscore c in
  (dAction d = ActionBlock ->
     f64_leb (f64_of_Z (Cfg.BotScore.Block b)) (Score d) = true /\
     exists n1 n2 v1 v2, n1 <> n2 /\ dSignals d !! n1 = Some v1 /\ dSignals d !! n2 = Some v2 /\
       f64_leb (Cfg.BotScore.SignalMinContrib b) v1 = true /\ f64_leb (Cfg.BotScore.SignalMinContrib b) v2 = true /\
       f64_ltb f64_0 (Cfg.BotScore.SignalMinContrib b) = true) /\
  (f64_leb (f64_of_Z (Cfg.BotScore.Block b)) (Score d) = true -> dAction d <> ActionBlock ->
     dAction d = ActionHold /\ CappedFrom d = Some ActionBlock /\
     Z.of_nat (size (pointing b (dSignals d))) < Cfg.BotScore.MinSignalsToBlock b).
Proof.
  intros Hv Hc Hf Hin b. destruct (Cfg.Validate_score c Hv) as (_ & _ & _ & _ & Hmin & _ & Hpos & _). fold b in Hmin, Hpos, Hc.
  destruct (Flush_inv _ _ _ _ Hf) as (ds0 & -> & _ & _ & Hj). rewrite sort_decisions_perm in Hin.
  pose proof (fun h => judge_shards_decided b _ _ _ _ h Hj) as Hjd. destruct (Hjd Hc) as [Hd _].
  destruct (Hd d Hin) as (obs & o & st & s1 & s2 & _ & _ & _ & Hc1 & _ & Hdec).
  apply decide_spec in Hdec as (sig & _ & -> & _). cbn [dAction Score dSignals CappedFrom]. rewrite Hc1.
  unfold next_action. destruct (f64_leb (f64_of_Z (Cfg.BotScore.Block b)) _) eqn:Hb; cbn [fst snd].
  2: { split; [|done]. repeat case_match; done. }
  destruct (_ <? _) eqn:Hn; bool_to_prop; cbn [fst snd]; (split; [|done]); [done|]. intros _. split; [done|].
  destruct (two_entries (pointing b sig)) as (n1 & n2 & v1 & v2 & Hne & H1 & H2); [lia|].
  apply pointing_lookup in H1 as [? ?], H2 as [? ?]. by exists n1, n2, v1, v2.
Qed.

(** Three tokens of one fingerprint and one network; the first has a score of 100. *)
Definition demo_beat (tok : string) (ms iv : Z) : Event :=
  MkEvent KindHeartbeat "e" "s0001" tok (time_UnixMilli ms) "fp" "10.0.0.0/24" iv 0 0 f64_0 true 0.

Definition demo_events : list Event :=
  concat ((fun tok => [demo_beat tok 1000 1000; demo_beat tok 2000 1000; demo_beat tok 3000 1000]) <$> ["t1"; "t2"; "t3"]).

Definition demo_scorer : Scorer.Scorer :=
  let s := foldl (fun s e => Observe e s) (NewScorer default_botscore) demo_events in
  MkScorer (cfg s) (win s) {["t1" := f64_of_Z 100]} ∅.

Definition demo_flush : option (Scorer.Scorer * list Decision) := @Flush some_order (time_UnixMilli 4000) demo_scorer.

Lemma first_block (o : option (Scorer.Scorer * list Decision)) :
  match o with Some (_, d :: _) => dAction d = ActionBlock | _ => False end ->
  exists s' d rest, o = Some (s', d :: rest) /\ dAction d = ActionBlock.
Proof. destruct o as [[s' [|d rest]]|]; [done| |done]. intros H. by exists s', d, rest. Qed.

Lemma demo_flush_blocks : exists s' d rest, demo_flush = Some (s', d :: rest) /\ dAction d = ActionBlock.
Proof. apply first_block. vm_compute. exact eq_refl. Qed.

Lemma no_single_signal_blocks_witness :
  exists s' ds d, demo_flush = Some (s', ds) /\ d ∈ ds /\ dAction d = ActionBlock /\
  f64_leb (f64_of_Z (Cfg.BotScore.Block default_botscore)) (Score d) = true.
Proof.
  destruct demo_flush_blocks as (s' & d & rest & Hf & Ha). exists s', (d :: rest), d.
  refine (conj Hf (conj (list_elem_of_here d rest) (conj Ha _))).
  exact (proj1 (proj1 (@no_single_signal_blocks some_order default_config (time_UnixMilli 4000) demo_scorer s' (d :: rest) d
    default_valid eq_refl Hf (list_elem_of_here d rest)) Ha)).
Defined.

(** ** What is remembered *)

Definition noticed (es : list Event) : list Event :=
  List.filter (fun e => Valid e && negb (bool_decide (Kind e = KindRechallenge))) es.

Lemma observe_all c es : win (foldl (fun s e => Observe e s) (NewScorer c) es) = watch (noticed es).
Proof.
  unfold watch, noticed. induction es as [|e es IH] using rev_ind; [done|].
  rewrite foldl_app, filter_snoc. cbn [foldl]. set (s := foldl _ (NewScorer c) es) in *.
  unfold Observe. destruct (Valid e); cbn [negb andb]; [|done].
  destruct (decide _) as [Hk|Hk].
  - rewrite bool_decide_eq_true_2 by done. done.
  - rewrite bool_decide_eq_false_2 by done. cbn [negb]. rewrite foldl_app. cbn [foldl win]. by rewrite <- IH.
Qed.

(** C23: the window of a token is a function of its last 64 signals.  After any sequence of
    events, the record of a token holds its last 64 heartbeat times and last 64 intervals,
    its last non-empty fingerprint and network, its last solved puzzle normalised by the
    difficulty, and the instant of its last event; invalid events and re-challenge notices
    leave no trace; a token never mentioned has no record. *)
Theorem window_remembers_the_last_64 c es sh tok :
  let s := foldl (fun s e => Observe e s) (NewScorer c) es in
  let mine := of_token sh tok (noticed es) in
  (w ← win s !! sh; w !! tok) = (if bool_decide (mine = []) then None else Some (remembered tok mine)) /\
  (length (beats (remembered tok mine)) <= 64)%nat /\ (length (intervals (remembered tok mine)) <= 64)%nat /\
  lastSeen (remembered tok mine) = default zero_time (At <$> list.last mine).
Proof.
  cbv zeta. rewrite observe_all. split; [apply watch_lookup|]. split; [apply lastn_length|]. split; [apply lastn_length|done].
Qed.

(** ** Who gets a verdict *)

(** Dividing by an empty bin is the only way to fail. *)
Definition no_division (c : BotScore) (obs : list observation) : Prop :=
  Milliseconds (Cfg.BotScore.SyncBin c) <> 0 \/ Forall (fun o => beats o = []) obs.

Lemma token_bins_ok c o : no_division c [o] -> exists bins, token_bins (Milliseconds (Cfg.BotScore.SyncBin c)) o = Some bins.
Proof.
  unfold token_bins. intros [Hb|Ho]; [rewrite mapM_bins by done; by eexists|].
  apply list.Forall_cons in Ho as [-> _]. by eexists.
Qed.

Lemma analyze_ok c obs : no_division c obs <-> exists st, analyze obs c = Some st.
Proof.
  unfold analyze. split.
  - intros Hn. assert (exists bins, mapM (token_bins (Milliseconds (Cfg.BotScore.SyncBin c))) obs = Some bins) as [bins ->].
    { apply mapM_is_Some_2, list.Forall_forall. intros o Ho. apply (token_bins_ok c o).
      destruct Hn as [?|Hn]; [by left|right]. rewrite list.Forall_forall in Hn. constructor; [by apply Hn|constructor]. }
    cbn [mbind option_bind]. destruct (center _ c), (center _ c). by eexists.
  - intros [st Hst]. destruct (decide (Milliseconds (Cfg.BotScore.SyncBin c) = 0)) as [E|E]; [right|by left].
    destruct (mapM _ obs) as [bins|] eqn:Hm; [|done]. clear Hst. rewrite E in Hm. apply mapM_Some_1 in Hm.
    induction Hm as [|o x obs bins Hx _ IH]; constructor; [|done].
    destruct (beats o) as [|b bs] eqn:Eb; [done|]. unfold token_bins in Hx. by rewrite Eb in Hx.
Qed.

Lemma evaluate_ok c o st : no_division c [o] -> exists sig, evaluate o st c = Some sig.
Proof.
  intros Hn. unfold evaluate, correlationSignal. destruct (_ || _); [by eexists|].
  destruct (token_bins_ok c o Hn) as [bins ->]. cbn [mbind option_bind]. destruct (foldl _ _ _). by eexists.
Qed.

Lemma judge_tokens_ok `{Ranging} sh st obs s : no_division (cfg s) obs -> exists r, judge_tokens sh st obs s = Some r.
Proof.
  revert s. induction obs as [|o obs IH]; intros s Hn; cbn [judge_tokens]; [by eexists|].
  assert (Hn1 : no_division (cfg s) [o] /\ no_division (cfg s) obs).
  { unfold no_division in *. destruct Hn as [Hb|[Ho Hn]%list.Forall_cons]; [by auto|].
    split; right; [by constructor|done]. }
  destruct (_ <? _); [apply IH, Hn1|]. destruct (decide_ sh o st s) as [[s1 d]|] eqn:Hd; cbn [mbind option_bind].
  - destruct (IH s1) as [[s2 ds] ->]; [rewrite (proj1 (decide_cfg _ _ _ _ _ _ Hd)); apply Hn1|]. by eexists.
  - exfalso. revert Hd. unfold decide_. destruct (evaluate_ok (cfg s) o st (proj1 Hn1)) as [sig ->]. cbn [mbind option_bind].
    destruct (combine _ _), (accumulate _ _ _), (action _ _ _ _) as [? [? ?]]. done.
Qed.

Lemma judge_shards_ok `{Ranging} shards s :
  Forall (fun x => no_division (cfg s) x.2) shards <-> exists r, judge_shards shards s = Some r.
Proof.
  revert s. induction shards as [|[sh obs] shards IH]; intros s; cbn [judge_shards]; [split; [by eexists|constructor]|].
  rewrite list.Forall_cons, analyze_ok. cbn [snd]. split.
  - intros [[st Hst] Hs]. rewrite Hst. cbn [mbind option_bind].
    destruct (judge_tokens_ok sh st obs s) as [[s1 ds] Hj]; [apply analyze_ok; by exists st|]. rewrite Hj. cbn [mbind option_bind].
    destruct (proj1 (IH s1)) as [[s2 ds'] ->]; [by rewrite (proj1 (judge_tokens_cfg _ _ _ _ _ _ Hj))|]. by eexists.
  - destruct (analyze obs (cfg s)) as [st|]; cbn [mbind option_bind]; [|by intros [? ?]].
    destruct (judge_tokens sh st obs s) as [[s1 ds]|] eqn:Hj; cbn [mbind option_bind]; [|by intros [? ?]].
    destruct (judge_shards shards s1) as [r|] eqn:Hs; cbn [mbind option_bind]; [|by intros [? ?]]. intros _.
    split; [by eexists|]. rewrite <- (proj1 (judge_tokens_cfg _ _ _ _ _ _ Hj)). apply IH. by eexists.
Qed.

Lemma enough_elem c shards sh tok : (sh, tok) ∈ enough c shards <->
  exists obs o, (sh, obs) ∈ shards /\ o ∈ obs /\ tokenID o = tok /\ Cfg.BotScore.MinSamples c <= samples o.
Proof.
  unfold enough. rewrite list_elem_of_In, List.in_concat. setoid_rewrite <- list_elem_of_In. split.
  - intros (l & Hl & Hin). apply list_elem_of_fmap in Hl as ([sh' obs] & -> & Hs). cbn [fst snd] in Hin.
    apply list_elem_of_fmap in Hin as (o & [= -> ->] & Ho). rewrite filter_bool in Ho.
    apply list_elem_of_filter in Ho as [Hn Ho]. bool_to_prop. by exists obs, o.
  - intros (obs & o & Hs & Ho & <- & Hm). eexists. split; [apply list_elem_of_fmap; by exists (sh, obs)|].
    apply list_elem_of_fmap. exists o. split; [done|]. rewrite filter_bool. apply list_elem_of_filter. split; [|done].
    cbn. apply negb_true_iff, Z.ltb_ge. done.
Qed.

Lemma enough_nodup c shards : NoDup shards.*1 -> (forall sh obs, (sh, obs) ∈ shards -> NoDup (tokenID <$> obs)) ->
  NoDup (enough c shards).
Proof.
  induction shards as [|[sh obs] shards IH]; intros Hn Ht; [constructor|].
  cbn in Hn. apply list.NoDup_cons in Hn as [Hsh Hn].
  unfold enough. cbn [fmap list_fmap concat fst snd]. apply list.NoDup_app. split_and!.
  - specialize (Ht sh obs ltac:(by left)). clear - Ht. induction obs as [|o obs IH]; [constructor|].
    cbn in Ht. apply list.NoDup_cons in Ht as [Ho Ht]. cbn [List.filter]. destruct (negb _); [|by apply IH].
    rewrite fmap_cons. apply list.NoDup_cons. split; [|by apply IH].
    intros (o' & [= Heq] & Hin)%list_elem_of_fmap. apply Ho, list_elem_of_fmap. exists o'. split; [done|].
    rewrite filter_bool in Hin. by apply list_elem_of_filter in Hin as [_ ?].
  - intros [sh' tok] Hin Hin'. apply list_elem_of_fmap in Hin as (o & [= -> _] & _).
    change (concat _) with (enough c shards) in Hin'. apply enough_elem in Hin' as (obs' & o' & Hs & _).
    apply Hsh, list_elem_of_fmap. by exists (sh, obs').
  - apply IH; [done|]. intros sh' obs' Hin. apply (Ht sh' obs'). by right.
Qed.

Lemma snapshot_tokens `{Ranging} before ws sh obs : win_ok ws -> (snapshot before ws).2 !! sh = Some obs ->
  exists w, (snapshot before ws).1 !! sh = Some w /\ obs = (map_range w).*2 /\ tokenID <$> obs = (map_range w).*1.
Proof.
  intros Hws Hs. pose proof (snapshot_ok before ws Hws) as Hok. unfold snapshot in *. cbn [fst snd] in *.
  rewrite lookup_fmap in Hs. apply fmap_Some in Hs as (w & Hw & ->). exists w. split; [done|]. split; [done|].
  destruct (Hok _ _ Hw) as [_ Hobs]. rewrite <- list_fmap_compose. apply list_fmap_ext. intros i [k o] Hi. cbn.
  apply list_elem_of_lookup_2, map_range_elem in Hi. by apply Hobs in Hi as (? & _).
Qed.

Definition cutoff (s : Scorer.Scorer) (t : time) : time := time_add t (- Cfg.BotScore.Window (cfg s)).

(** Some token seen inside the window has a heartbeat on record. *)
Definition heard (s : Scorer.Scorer) (t : time) : Prop :=
  exists sh w tok o, win s !! sh = Some w /\ w !! tok = Some o /\ Before (lastSeen o) (cutoff s t) = false /\ beats o <> [].

(** C24: who gets a verdict.  A flush gives one verdict to exactly the tokens that were seen
    inside the window and observed often enough; a token with fewer samples, or not seen
    since the cutoff, gets none.  A flush fails in one case only: the synchronisation bin is
    shorter than a millisecond, and a token seen inside the window has a heartbeat on record;
    then it panics. *)
Theorem verdict_iff_enough_samples `{Ranging} c s t : reach c s ->
  (Flush t s = None <-> Milliseconds (Cfg.BotScore.SyncBin c) = 0 /\ heard s t) /\
  forall s' ds, Flush t s = Some (s', ds) ->
  NoDup ((fun d => (dShard d, dTokenID d)) <$> ds) /\
  forall sh tok,
    (exists d, d ∈ ds /\ dShard d = sh /\ dTokenID d = tok) <->
    (exists w o, win s !! sh = Some w /\ w !! tok = Some o /\ Before (lastSeen o) (cutoff s t) = false /\
       Cfg.BotScore.MinSamples c <= samples o).
Proof.
  intros Hr. destruct (reach_ok c s Hr) as [Hc Hw].
  assert (Hkeys : forall sh w tok o, win s !! sh = Some w -> w !! tok = Some o -> tokenID o = tok).
  { intros sh w tok o Hsh Htok. by destruct (proj2 (Hw _ _ Hsh) _ _ Htok). }
  assert (Hobs : forall sh o, (exists obs, (sh, obs) ∈ map_range (snapshot (cutoff s t) (win s)).2 /\ o ∈ obs) <->
    exists w tok, win s !! sh = Some w /\ w !! tok = Some o /\ Before (lastSeen o) (cutoff s t) = false).
  { intros sh o. split.
    - intros (obs & Hin%map_range_elem & Ho).
      destruct (proj1 (snapshot_elem (cutoff s t) (win s) sh (tokenID o) o Hkeys)) as (w & ? & ? & ?); [by exists obs|]. by exists w, (tokenID o).
    - intros (w & tok & Hsh & Htok & Hbf).
      destruct (proj2 (snapshot_elem (cutoff s t) (win s) sh tok o Hkeys)) as (obs & Hobs & Ho & Ht); [by exists w|].
      exists obs. split; [by apply map_range_elem|done]. }
  split.
  - unfold Flush. cbv zeta. fold (cutoff s t). destruct (snapshot (cutoff s t) (win s)) as [live shards] eqn:Es. cbn [snd] in Hobs.
    pose proof (judge_shards_ok (map_range shards) (MkScorer (cfg s) live (scores s) (states s))) as Hj. cbn [cfg] in Hj. rewrite Hc in *. split.
    + intros Hnone. destruct (judge_shards _ _) as [[s1 ds]|] eqn:Ej; [done|].
      destruct (decide (Milliseconds (Cfg.BotScore.SyncBin c) = 0)) as [E|E].
      2: { destruct (proj1 Hj) as [r Hr']; [|done]. apply list.Forall_forall. intros x _. by left. }
      split; [done|]. destruct (decide (Forall (fun x => Forall (fun o => beats o = []) x.2) (map_range shards))) as [Hf|Hf].
      { destruct (proj1 Hj) as [r Hr']; [|done]. revert Hf. apply Forall_impl. intros x Hx. by right. }
      apply (not_Forall_Exists _) in Hf. apply list.Exists_exists in Hf as ([sh obs] & Hin & Hf). cbn [snd] in Hf.
      apply (not_Forall_Exists _) in Hf. apply list.Exists_exists in Hf as (o & Ho & Hb).
      destruct (proj1 (Hobs sh o)) as (w & tok & ? & ? & ?); [by exists obs|]. by exists sh, w, tok, o.
    + intros [E (sh & w & tok & o & Hsh & Htok & Hbf & Hb)].
      destruct (judge_shards _ _) as [r|]; [|done]. exfalso.
      destruct (proj2 (Hobs sh o)) as (obs & Hin & Ho); [by exists w, tok|].
      pose proof (proj2 Hj (ex_intro _ r eq_refl)) as Hf. rewrite list.Forall_forall in Hf. destruct (Hf _ Hin) as [?|Hf']; [done|].
      rewrite list.Forall_forall in Hf'. by apply Hb, Hf'.
  - intros s' ds Hf. destruct (Flush_inv _ _ _ _ Hf) as (ds0 & -> & _ & _ & Hj).
    fold (cutoff s t) in Hj. pose proof (fun h => judge_shards_decided c _ _ _ _ h Hj) as Hjd. destruct (Hjd Hc) as [_ Heq]. split.
    + rewrite sort_decisions_perm, Heq. apply enough_nodup; [apply map_range_nodup|].
      intros sh obs Hin%map_range_elem. destruct (snapshot_tokens _ _ _ _ Hw Hin) as (w & _ & _ & ->). apply map_range_nodup.
    + intros sh tok. transitivity ((sh, tok) ∈ enough c (map_range (snapshot (cutoff s t) (win s)).2)).
      * rewrite <- Heq. setoid_rewrite sort_decisions_perm. rewrite list_elem_of_fmap. naive_solver.
      * rewrite enough_elem. split.
        -- intros (obs & o & Hin & Ho & <- & Hm). destruct (proj1 (Hobs sh o)) as (w & tok & ? & Htok & ?); [by exists obs|].
           assert (tokenID o = tok) as -> by by eapply Hkeys. by exists w, o.
        -- intros (w & o & Hsh & Htok & Hbf & Hm). destruct (proj2 (Hobs sh o)) as (obs & Hin & Ho); [by exists w, tok|].
           exists obs, o. split_and!; try done. by eapply Hkeys.
Qed.

Lemma verdict_iff_enough_samples_witness :
  let s := foldl (fun s e => Observe e s) (NewScorer default_botscore) demo_events in
  exists s' ds d, @Flush some_order (time_UnixMilli 4000) s = Some (s', ds) /\ d ∈ ds /\ dTokenID d = "t2".
Proof.
  assert (Hr : forall es, @reach some_order default_botscore (foldl (fun s e => Observe e s) (NewScorer default_botscore) es)).
  { induction es as [|e es IH] using rev_ind; [constructor|]. rewrite foldl_app. by constructor. }
  intros s. destruct (@verdict_iff_enough_samples some_order default_botscore s (time_UnixMilli 4000) (Hr demo_events)) as [Hn Hd].
  destruct (@Flush some_order (time_UnixMilli 4000) s) as [[s' ds]|]; [|by destruct (proj1 Hn eq_refl)].
  destruct (Hd s' ds eq_refl) as [_ Hd']. destruct (proj2 (Hd' "s0001" "t2")) as (d & Hin & _ & Ht).
  { eexists _, _. split; [vm_compute; reflexivity|]. split; [vm_compute; reflexivity|].
    split; [vm_compute; reflexivity|]. vm_compute. discriminate. }
  exists s', ds, d. exact (conj eq_refl (conj Hin Ht)).
Defined.

(** ** Passing a re-challenge *)

(** Scores and thresholds are small integers: their order survives the conversion. *)
Lemma percent_leb a b : 0 <= a <= 100 -> 0 <= b <= 100 -> f64_leb (f64_of_Z a) (f64_of_Z b) = (a <=? b).
Proof.
  intros Ha Hb.
  assert (Ht : forallb (fun x => forallb (fun y => Bool.eqb (f64_leb (f64_of_Z x) (f64_of_Z y)) (x <=? y))
    (Z.of_nat <$> seq 0 101)) (Z.of_nat <$> seq 0 101) = true) by (vm_compute; reflexivity).
  assert (Hin : forall z, 0 <= z <= 100 -> In z (Z.of_nat <$> seq 0 101)).
  { intros z Hz. apply list_elem_of_In, list_elem_of_fmap. exists (Z.to_nat z). split; [lia|]. apply elem_of_seq. lia. }
  rewrite forallb_forall in Ht. specialize (Ht a (Hin a Ha)). rewrite forallb_forall in Ht.
  by apply Bool.eqb_prop, Ht, Hin.
Qed.

Lemma below_greylist c x prev n : Cfg.Validate c = Ok tt ->
  let b := Cfg.botscore c in
  (f64_leb x (f64_of_Z (Cfg.BotScore.RechallengePassScore b)) = true \/ x = f64_NaN) ->
  prev <> Some ActionGreylist -> prev <> Some ActionHold -> next_action b prev x n = (ActionObserve, None).
Proof.
  intros Hv b Hx Hp1 Hp2. destruct (Cfg.Validate_score c Hv) as (Hg & Hgh & Hhb & Hmax & _ & _ & _ & Hp & Hpg & _).
  fold b in Hg, Hgh, Hhb, Hmax, Hp, Hpg. unfold Cfg.scoreMax in Hmax.
  assert (Hno : forall z, Cfg.BotScore.Greylist b <= z <= 100 -> f64_leb (f64_of_Z z) x = false).
  { intros z Hz. destruct Hx as [Hx| ->]; [|by destruct (f64_of_Z z) as [[]|[]| |[] m e]].
    apply not_true_is_false. intros Hle. pose proof (f64_leb_trans _ _ _ Hle Hx) as Hc.
    rewrite percent_leb in Hc by lia. apply Z.leb_le in Hc. lia. }
  unfold next_action. rewrite !Hno by lia. rewrite bool_decide_eq_false_2; [done|]. naive_solver.
Qed.

(** C25: passing a re-challenge lowers, forgets nothing else, and sticks.  The notice leaves
    the window alone; the score becomes the pass score if it was above it and is never
    raised; the rung is cleared; no other token is touched; and, in a validated
    configuration, the score it leaves is below every rung, so the next verdict on that
    score is neither a confinement nor a second restore. *)
Theorem pass_lowers_and_sticks c s e :
  Cfg.Validate c = Ok tt -> cfg s = Cfg.botscore c -> Valid e = true -> Kind e = KindRechallenge ->
  score_of s (TokenID e) <> f64_NaN ->
  let s' := Observe e s in
  let limit := f64_of_Z (Cfg.BotScore.RechallengePassScore (cfg s)) in
  win s' = win s /\ states s' !! TokenID e = None /\
  score_of s' (TokenID e) = (if f64_ltb limit (score_of s (TokenID e)) then limit else score_of s (TokenID e)) /\
  f64_leb (score_of s' (TokenID e)) (score_of s (TokenID e)) = true /\
  (forall tok, tok <> TokenID e -> score_of s' tok = score_of s tok /\ states s' !! tok = states s !! tok) /\
  (forall n, next_action (cfg s') (states s' !! TokenID e) (score_of s' (TokenID e)) n = (ActionObserve, None)).
Proof.
  intros Hv Hc He Hk Hnan s' limit. subst s'. unfold Observe. rewrite He. cbn [negb]. rewrite decide_True by done.
  assert (Hl : limit <> f64_NaN).
  { subst limit. destruct (Cfg.Validate_score c Hv) as (Hg & Hgh & Hhb & Hmax & _ & _ & _ & Hp & Hpg & _).
    rewrite Hc. unfold Cfg.scoreMax in Hmax. apply (f64_leb_defined _ (f64_of_Z 100)). rewrite percent_leb by lia. apply Z.leb_le. lia. }
  assert (Hsc : score_of (Clamp (TokenID e) s) (TokenID e) =
    (if f64_ltb limit (score_of s (TokenID e)) then limit else score_of s (TokenID e))).
  { unfold Clamp, score_of at 1. cbn [scores]. fold limit. destruct (f64_ltb _ _); [by rewrite lookup_insert_eq|done]. }
  split_and!; [done|apply lookup_delete_eq|done| | |].
  - rewrite Hsc. destruct (f64_ltb limit _) eqn:Hlt; [|by apply f64_leb_refl].
    rewrite f64_ltb_ge in Hlt by done. rewrite <- (f64_ltb_ge _ _ Hl Hnan) in Hlt.
    unfold f64_ltb, SpecFloat.SFltb, f64_leb, SpecFloat.SFleb in *. by destruct (SpecFloat.SFcompare _ _) as [[]|].
  - intros tok Hne. split; [|by apply lookup_delete_ne]. unfold Clamp, score_of. cbn [scores].
    destruct (f64_ltb _ _); [by rewrite lookup_insert_ne|done].
  - intros n. rewrite Hsc. unfold Clamp. cbn [cfg states]. rewrite lookup_delete_eq.
    assert (Hle : f64_leb (if f64_ltb limit (score_of s (TokenID e)) then limit else score_of s (TokenID e)) limit = true).
    { destruct (f64_ltb limit _) eqn:Hlt; [by apply f64_leb_refl|].
      rewrite f64_ltb_ge in Hlt by done. by apply negb_false_iff in Hlt. }
    rewrite Hc. apply below_greylist; [done| |done|done]. left. rewrite <- Hc. exact Hle.
Qed.

Definition demo_pass : Event := MkEvent KindRechallenge "e" "s0001" "t1" (time_UnixMilli 3500) emp emp 0 0 0 f64_0 true 0.

Lemma pass_lowers_and_sticks_witness :
  score_of (Observe demo_pass demo_scorer) "t1" = f64_of_Z 35 /\ win (Observe demo_pass demo_scorer) = win demo_scorer.
Proof.
  destruct (pass_lowers_and_sticks default_config demo_scorer demo_pass default_valid eq_refl eq_refl eq_refl
    ltac:(vm_compute; done)) as (Hw & _ & Hs & _). split; [|exact Hw].
  etransitivity; [exact Hs|]. vm_compute. reflexivity.
Defined.

(** ** Restoring *)

(** What a history of a scorer says of its tokens, oldest first: the verdicts of its flushes,
    in the order in which they are given, and the tokens that passed a re-challenge or were
    forgotten. *)
Inductive entry := Said (tok : string) (a : Action) | Cleared (tok : string).

Definition about (tok : string) (e : entry) : bool := match e with Said tok' _ | Cleared tok' => bool_decide (tok' = tok) end.

Definition noted (e : Event) : list entry :=
  if Valid e && bool_decide (Kind e = KindRechallenge) then [Cleared (TokenID e)] else [].

Definition said (ds : list Decision) : list entry := (fun d => Said (dTokenID d) (dAction d)) <$> ds.

(** The verdicts of a flush, before they are sorted. *)
Definition judged `{Ranging} (t : time) (s : Scorer.Scorer) : option (Scorer.Scorer * list Decision) :=
  let snap := snapshot (cutoff s t) (win s) in judge_shards (map_range snap.2) (MkScorer (cfg s) snap.1 (scores s) (states s)).

Lemma Flush_judged `{Ranging} t s : Flush t s = (fun r => (r.1, sort_decisions r.2)) <$> judged t s.
Proof.
  unfold Flush, judged. fold (cutoff s t). cbv zeta. destruct (snapshot _ _) as [live shards]. cbn [fst snd].
  by destruct (judge_shards _ _) as [[s1 ds]|].
Qed.

Inductive history `{Ranging} (c : BotScore) : list entry -> Scorer.Scorer -> Prop :=
  | h_new : history c [] (NewScorer c)
  | h_observe h s e : history c h s -> history c (h ++ noted e) (Observe e s)
  | h_clamp h s tok : history c h s -> history c (h ++ [Cleared tok]) (Clamp tok s)
  | h_flush h s t s' ds : history c h s -> judged t s = Some (s', ds) -> history c (h ++ said ds) s'
  | h_forget h s tok : history c h s -> history c (h ++ [Cleared tok]) (Forget tok s).

(** What [Scorer.states] remembers of a token after an action. *)
Definition after (prev : option Action) (next : Action) : option Action :=
  match next with ActionRestore => None | ActionObserve => prev | _ => Some next end.

Definition rung_step (tok : string) (prev : option Action) (e : entry) : option Action :=
  match e with
  | Said tok' a => if decide (tok' = tok) then after prev a else prev
  | Cleared tok' => if decide (tok' = tok) then None else prev
  end.

Definition rung (tok : string) (h : list entry) : option Action := foldl (rung_step tok) None h.

Lemma set_state_after tok next m : set_state tok next m !! tok = after (m !! tok) next.
Proof. destruct next; cbn; rewrite ?lookup_insert_eq, ?lookup_delete_eq; done. Qed.

Lemma decide_rung `{Ranging} shard o st s s' d : decide_ shard o st s = Some (s', d) ->
  (exists score n, dAction d = (next_action (cfg s) (states s !! dTokenID d) score n).1) /\
  forall tok, states s' !! tok = rung_step tok (states s !! tok) (Said (dTokenID d) (dAction d)).
Proof.
  intros (sig & _ & -> & ->)%decide_spec. cbn [dAction dTokenID states]. split; [by do 2 eexists|].
  intros tok. cbn [rung_step]. case_decide as Ht; [subst; apply set_state_after|]. unfold set_state.
  destruct (next_action _ _ _ _).1; rewrite ?lookup_insert_ne, ?lookup_delete_ne by done; done.
Qed.

Lemma next_restore c prev score n : (next_action c prev score n).1 = ActionRestore ->
  prev = Some ActionGreylist \/ prev = Some ActionHold.
Proof. unfold next_action. repeat case_match; cbn; try done. intros _. by bool_to_prop. Qed.

Lemma next_observe c prev score n : (next_action c prev score n).1 = ActionObserve ->
  prev <> Some ActionGreylist /\ prev <> Some ActionHold.
Proof. unfold next_action. repeat case_match; cbn; try done. intros _. bool_to_prop. naive_solver. Qed.

(** Every verdict is the next action of what the history left of its token, and the rungs of a
    scorer are those of its history. *)
Definition follows (c : BotScore) (h : list entry) : Prop :=
  forall pre tok a post, h = pre ++ Said tok a :: post -> exists score n, a = (next_action c (rung tok pre) score n).1.

Definition tracked (c : BotScore) (h : list entry) (s : Scorer.Scorer) : Prop :=
  cfg s = c /\ (forall tok, states s !! tok = rung tok h) /\ follows c h.

Lemma follows_snoc c h e : follows c h ->
  (forall tok a, e = Said tok a -> exists score n, a = (next_action c (rung tok h) score n).1) -> follows c (h ++ [e]).
Proof.
  intros Hf He pre tok a post Heq. destruct post as [|x post] using rev_ind.
  - apply app_inj_tail in Heq as [-> ->]. by apply He.
  - clear IHpost. rewrite app_comm_cons, app_assoc in Heq. apply app_inj_tail in Heq as [-> _]. by eapply Hf.
Qed.

Lemma tracked_cleared c h s s' tok : tracked c h s -> cfg s' = cfg s -> states s' = delete tok (states s) ->
  tracked c (h ++ [Cleared tok]) s'.
Proof.
  intros (Hc & Hs & Hf) Hc' Hs'. split_and!; [congruence| |by apply follows_snoc].
  intros tok'. unfold rung. rewrite foldl_app. cbn [foldl rung_step]. rewrite Hs'. case_decide as Ht.
  - subst. by rewrite lookup_delete_eq.
  - rewrite lookup_delete_ne by done. apply Hs.
Qed.

Lemma tracked_said `{Ranging} c h shard o st s s' d : tracked c h s -> decide_ shard o st s = Some (s', d) ->
  tracked c (h ++ [Said (dTokenID d) (dAction d)]) s'.
Proof.
  intros (Hc & Hs & Hf) Hd. destruct (decide_rung _ _ _ _ _ _ Hd) as [(score & n & Ha) Hr]. split_and!.
  - by rewrite (proj1 (decide_cfg _ _ _ _ _ _ Hd)).
  - intros tok. unfold rung. rewrite foldl_app. cbn [foldl]. fold (rung tok h). rewrite <- Hs. apply Hr.
  - apply follows_snoc; [done|]. intros tok a [= <- <-]. exists score, n. by rewrite <- Hs, <- Hc.
Qed.

Lemma tracked_tokens `{Ranging} c h shard st obs s s' ds : tracked c h s -> judge_tokens shard st obs s = Some (s', ds) ->
  tracked c (h ++ said ds) s'.
Proof.
  revert h s ds. induction obs as [|o obs IH]; intros h s ds Ht; cbn [judge_tokens]; [intros [= <- <-]; by rewrite app_nil_r|].
  destruct (_ <? _); [by apply IH|]. destruct (decide_ shard o st s) as [[s1 d]|] eqn:Hd; [|done]. cbn [mbind option_bind].
  destruct (judge_tokens shard st obs s1) as [[s2 ds']|] eqn:Hj; [|done]. intros [= <- <-].
  specialize (IH _ _ _ (tracked_said c h shard o st s s1 d Ht Hd) Hj). by rewrite <- app_assoc in IH.
Qed.

Lemma tracked_shards `{Ranging} c h shards s s' ds : tracked c h s -> judge_shards shards s = Some (s', ds) ->
  tracked c (h ++ said ds) s'.
Proof.
  revert h s ds. induction shards as [|[sh obs] shards IH]; intros h s ds Ht; cbn [judge_shards]; [intros [= <- <-]; by rewrite app_nil_r|].
  destruct (analyze obs (cfg s)) as [st|]; [|done]. cbn [mbind option_bind].
  destruct (judge_tokens sh st obs s) as [[s1 ds1]|] eqn:Hd; [|done]. cbn [mbind option_bind].
  destruct (judge_shards shards s1) as [[s2 ds2]|] eqn:Hj; [|done]. intros [= <- <-].
  unfold said. rewrite fmap_app, app_assoc. exact (IH _ _ _ (tracked_tokens c h sh st obs s s1 ds1 Ht Hd) Hj).
Qed.

Lemma history_tracked `{Ranging} c h s : history c h s -> tracked c h s.
Proof.
  induction 1 as [|h s e _ IH|h s tok _ IH|h s t s' ds _ IH Hj|h s tok _ IH].
  - split_and!; [done..|]. intros pre tok a post E. by destruct pre.
  - unfold noted, Observe. destruct (Valid e); cbn [negb andb]; [|by rewrite app_nil_r].
    case_decide as Hk; [rewrite bool_decide_eq_true_2 by done; by eapply tracked_cleared|].
    rewrite bool_decide_eq_false_2 by done. rewrite app_nil_r. exact IH.
  - by eapply tracked_cleared.
  - eapply tracked_shards; [|exact Hj]. exact IH.
  - by eapply tracked_cleared.
Qed.

(** The last word on a token that is confined. *)
Lemma confined_since c tok h : follows c h -> rung tok h = Some ActionGreylist \/ rung tok h = Some ActionHold ->
  exists h1 a h2, h = h1 ++ Said tok a :: h2 /\ (a = ActionGreylist \/ a = ActionHold) /\ Forall (fun e => about tok e = false) h2.
Proof.
  induction h as [|e h IH] using rev_ind; [by intros _ [?|?]|]. intros Hf. unfold rung. rewrite foldl_app. cbn [foldl]. fold (rung tok h).
  assert (Hf' : follows c h) by (intros pre tok' a post ->; apply (Hf pre tok' a (post ++ [e])); by rewrite <- app_assoc).
  assert (Hskip : about tok e = false -> rung tok h = Some ActionGreylist \/ rung tok h = Some ActionHold ->
    exists h1 a h2, h ++ [e] = h1 ++ Said tok a :: h2 /\ (a = ActionGreylist \/ a = ActionHold) /\ Forall (fun e => about tok e = false) h2).
  { intros He Hr. destruct (IH Hf' Hr) as (h1 & a & h2 & -> & Ha & Hn). exists h1, a, (h2 ++ [e]). rewrite <- app_assoc.
    split_and!; [done|done|]. apply Forall_app. split; [done|by constructor]. }
  destruct e as [tok' a|tok']; cbn [rung_step about] in *; case_decide as Ht.
  2, 4: apply Hskip; by apply bool_decide_eq_false_2.
  2: by intros [?|?].
  subst tok'. intros Ha. exists h, a, []. split_and!; [done| |constructor]. destruct a; cbn [after] in Ha; try naive_solver.
  destruct (Hf h tok ActionObserve [] eq_refl) as (score & n & Hn). symmetry in Hn. apply next_observe in Hn. naive_solver.
Qed.

(** C26: a restore undoes one confinement, once.  In any history of a scorer, of events,
    passed re-challenges, flushes and forgotten tokens, when a flush says that a token is to be
    restored, the last thing the history says of that token is that an earlier verdict put it
    on the greylist or on hold: nothing was said of it since, neither a restore nor a block
    nor an observation, and it passed no re-challenge and was not forgotten.  The verdicts of
    a flush are those it returns. *)
Theorem restore_follows_confinement `{Ranging} c h s t s' ds ds1 d ds2 :
  history c h s -> judged t s = Some (s', ds) -> ds = ds1 ++ d :: ds2 -> dAction d = ActionRestore ->
  Flush t s = Some (s', sort_decisions ds) /\ sort_decisions ds ≡ₚ ds /\
  exists h1 a h2, h ++ said ds1 = h1 ++ Said (dTokenID d) a :: h2 /\ (a = ActionGreylist \/ a = ActionHold) /\
    Forall (fun e => about (dTokenID d) e = false) h2.
Proof.
  intros Hh Hj -> Hd. split; [by rewrite Flush_judged, Hj|]. split; [apply sort_decisions_perm|].
  pose proof (history_tracked c _ _ (h_flush c h s t s' _ Hh Hj)) as (_ & _ & Hf).
  assert (Heq : h ++ said (ds1 ++ d :: ds2) = (h ++ said ds1) ++ Said (dTokenID d) ActionRestore :: said ds2)
    by (unfold said; rewrite fmap_app, fmap_cons, Hd, app_assoc; done).
  destruct (Hf _ _ _ _ Heq) as (score & n & Hn). symmetry in Hn. apply next_restore in Hn.
  apply (confined_since c); [|done]. intros pre tok a post E. apply (Hf pre tok a (post ++ Said (dTokenID d) ActionRestore :: said ds2)).
  by rewrite Heq, E, <- app_assoc.
Qed.

(** A scorer without memory ([Decay] 0): three tokens alike are put on the greylist, and the
    one that goes on, irregularly and alone, is restored. *)
Definition swift : BotScore := let c := default_botscore in
  Cfg.BotScore.mk (Cfg.BotScore.Greylist c) (Cfg.BotScore.Hold c) (Cfg.BotScore.Block c) (Cfg.BotScore.Window c) (Cfg.BotScore.FlushEvery c)
    (Cfg.BotScore.MinSamples c) f64_0 (Cfg.BotScore.Weights c) (Cfg.BotScore.HeartbeatCVFloor c) (Cfg.BotScore.SignalZSpan c)
    (Cfg.BotScore.SyncBin c) (Cfg.BotScore.FPGroupCap c) (Cfg.BotScore.IPGroupCap c) (Cfg.BotScore.RobustBaseline c)
    (Cfg.BotScore.MinSignalsToBlock c) (Cfg.BotScore.SignalMinContrib c) (Cfg.BotScore.SuspicionTTL c) (Cfg.BotScore.GreylistDifficulty c)
    (Cfg.BotScore.RechallengePassScore c) (Cfg.BotScore.RechallengeMaxAttempts c).

Lemma history_observe `{Ranging} c h s es : history c h s -> noted <$> es = (fun _ => []) <$> es ->
  history c h (foldl (fun s e => Observe e s) s es).
Proof.
  revert s. induction es as [|e es IH]; intros s Hh; [done|]. rewrite !fmap_cons. intros [= E Hes]. cbn [foldl].
  apply IH; [|done]. rewrite <- (app_nil_r h), <- E. by constructor.
Qed.

Definition judged_at (ms : Z) (s : Scorer.Scorer) : Scorer.Scorer * list Decision :=
  default (s, []) (@judged some_order (time_UnixMilli ms) s).

Definition first_flush := judged_at 4000 (foldl (fun s e => Observe e s) (NewScorer swift) demo_events).

Definition alone : Scorer.Scorer := foldl (fun s e => Observe e s) first_flush.1 [demo_beat "t1" 100000 7000; demo_beat "t1" 111000 11000].

Definition second_flush := judged_at 112000 alone.

Lemma judged_at_some ms s : is_Some (@judged some_order (time_UnixMilli ms) s) -> @judged some_order (time_UnixMilli ms) s = Some (judged_at ms s).
Proof. unfold judged_at. by intros [r ->]. Qed.

Lemma alone_history : @history some_order swift ([] ++ said first_flush.2) alone.
Proof.
  apply history_observe; [|reflexivity]. apply (@h_flush some_order swift [] (foldl (fun s e => Observe e s) (NewScorer swift) demo_events) (time_UnixMilli 4000));
    [apply history_observe; [apply h_new|reflexivity]|].
  rewrite <- surjective_pairing. apply judged_at_some. vm_compute. by eexists.
Qed.

Lemma restored_alone : exists d, second_flush.2 = [d] /\ dAction d = ActionRestore /\ dTokenID d = "t1".
Proof.
  assert (H : match second_flush.2 with [d] => dAction d = ActionRestore /\ dTokenID d = "t1" | _ => False end) by (vm_compute; done).
  destruct second_flush.2 as [|d [|]]; [done| |done]. by exists d.
Qed.

Lemma restore_follows_confinement_witness : exists s' d h1 a h2,
  @Flush some_order (time_UnixMilli 112000) alone = Some (s', [d]) /\ dAction d = ActionRestore /\
  said first_flush.2 = h1 ++ Said "t1" a :: h2 /\ (a = ActionGreylist \/ a = ActionHold).
Proof.
  destruct restored_alone as (d & Hd & Ha & Ht).
  assert (E : @judged some_order (time_UnixMilli 112000) alone = Some (second_flush.1, [d])).
  { rewrite <- Hd, <- surjective_pairing. apply judged_at_some. vm_compute. by eexists. }
  destruct (@restore_follows_confinement some_order swift ([] ++ said first_flush.2) alone _ _ [d] [] d [] alone_history E eq_refl Ha)
    as (Hf & _ & h1 & a & h2 & Hh & Hor & _).
  exists second_flush.1, d, h1, a, h2. rewrite <- Ht. rewrite app_nil_r in Hh. exact (conj Hf (conj Ha (conj Hh Hor))).
Defined.

(** ** Applying a decision *)

Section Applying.
Context {S : Type} {R : Redis S} {RL : RedisLaws S} {L : Lua S} {LL : LuaLaws S}.
Context (ev sh : string) (He : plain ev = true) (Ho : origin_shard sh) (Hv : Ids.Validate sh = Ok tt).
#[local] Instance apply_slot : Slot := keys_slot ev sh He Ho.

Lemma block_word a d t s : 0 < Milliseconds (Actuator.userTTL a) ->
  word (run_op (action_op sh a d t) s).2 = "block" ->
  v_state (view (run_op (action_op sh a d t) s).1 (dTokenID d)) = Some "blocked".
Proof.
  intros Httl. unfold action_op. cbv zeta. rewrite view_eq. cbn [v_state].
  destruct (dAction d); cbn [run_op]; scripts; prep; branches; try discriminate; intros _; by observe0.
Qed.

(** C27: a decision is at most one step of the ladder, and the audit log tells the truth.
    Whatever the wire does and however often the client library sends the command again,
    applying a decision leaves every token's standing in its shard as it was or as one
    execution of the script of that decision leaves it (suspicion counters and audit are kept
    elsewhere); if it succeeds, that script ran, and each audit record carries the word its
    first execution answered; a block record is only made for a token that is now blocked. *)
Theorem decision_is_one_step a d w :
  Actuator.eventID a = ev -> dShard d = sh -> 0 < Milliseconds (Actuator.userTTL a) -> ready w ->
  let m := Actuator.applyOne a d w in
  exists t s1, (forall tok, view (db m.1) tok = view s1 tok) /\
  (s1 = db w \/ s1 = (run_op (action_op sh a d t) (db w)).1) /\
  forall calls, m.2 = Ok calls ->
    s1 = (run_op (action_op sh a d t) (db w)).1 /\
    (forall r, Actuator.Audit r ∈ calls ->
       Actuator.aAction r = word (run_op (action_op sh a d t) (db w)).2 /\ Actuator.aTokenID r = dTokenID d) /\
    (forall r, Actuator.Block r ∈ calls ->
       Actuator.bTokenID r = dTokenID d /\ v_state (view (db m.1) (dTokenID d)) = Some "blocked").
Proof.
  intros Hev Hsh Httl Hw m. subst m. unfold Actuator.applyOne. rewrite Hsh, (bind_lift _ _ _ tt Hv).
  destruct (dispatch_one ev sh He Ho Hv a Hev d w Hsh Hw) as (t & ws & Hsame & k & _ & Hk & Hans).
  change (act_slot ev sh He Ho) with apply_slot in *. set (o := action_op sh a d t) in *. cbn [fst snd] in *.
  assert (Hrep : forall j, (forall tok, view (repeat_op o (Datatypes.S j) (db w)) tok = view (run_op o (db w)).1 tok) /\
    (word (run_op o (repeat_op o j (db w))).2 = word (run_op o (db w)).2 \/
     word (run_op o (repeat_op o j (db w))).2 = "noop" \/ word (run_op o (repeat_op o j (db w))).2 = "observe")).
  { intros j. apply decided_repeats; unfold o, action_op; by destruct (dAction d). }
  exists t. match goal with |- context [mbind ?k ?f w] => destruct (f w) as [w1 [x|e]] eqn:E; cbn [fst snd] in *;
    [rewrite (bind_ok _ _ _ _ _ E)|rewrite (bind_err _ _ _ _ _ E)] end.
  2: { destruct k as [|k]; [exists (db w)|exists (run_op o (db w)).1]; (split; [|split; [by (left + right)|done]]);
       intros tok; rewrite (slot_same_view _ _ _ Hsame), Hk; [done|apply Hrep]. }
  destruct (Hans x eq_refl) as (i & -> & Hx). destruct (Hrep i) as [Hview Hword]. rewrite <- Hx in Hword. rewrite <- Hk in Hview.
  exists (run_op o (db w)).1. destruct (negb _ && negb _) eqn:Hacted.
  2: { split; [intros tok; by rewrite (slot_same_view _ _ _ Hsame), Hview|]. split; [by right|]. intros calls [= <-]. split; [done|].
       split; intros r Hr%elem_of_nil; done. }
  pose proof (record_aside ev sh He Ho a d x w1) as Hrec. pose proof (record_calls a d x w1) as Hcalls.
  assert (Hall : slot_same (db ws) (db (Actuator.record a d x w1).1)) by (etransitivity; eassumption).
  assert (Hv' : forall tok, view (db (Actuator.record a d x w1).1) tok = view (run_op o (db w)).1 tok)
    by (intros tok; by rewrite (slot_same_view _ _ _ Hall), Hview).
  assert (Hfirst : x = word (run_op o (db w)).2) by (bool_to_prop; naive_solver).
  split; [done|]. split; [by right|]. intros calls Hok. split; [done|].
  destruct (Hcalls calls Hok) as [Ha Hb]. split.
  - intros r Hr. by destruct (Ha r Hr) as [-> ->].
  - intros r Hr. destruct (Hb r Hr) as [Hx' ->]. split; [done|]. rewrite Hv'. apply block_word; [done|]. fold o. congruence.
Qed.

End Applying.

Definition demo_actuator : Actuator.Actuator := Actuator.MkActuator default_botscore (5 * Second) "show" true.

Definition demo_block : Decision := MkDecision "s0001" "bob" (f64_of_Z 95) ActionBlock ∅ 2 None.

(** The script is reloaded, blocks "bob", and both records are written. *)
Lemma decision_is_one_step_witness :
  let w := demo_world demo_store [] in
  let m := Actuator.applyOne demo_actuator demo_block w in
  (exists r b, m.2 = Ok [Actuator.Audit r; Actuator.Block b] /\ Actuator.aAction r = "block") /\
  exists s1 : gmap string cell, forall tok, view (db m.1) tok = view s1 tok.
Proof.
  split; [eexists _, _; split; vm_compute; reflexivity|].
  destruct (decision_is_one_step "show" "s0001" eq_refl demo_origin eq_refl demo_actuator demo_block (demo_world demo_store [])
    eq_refl eq_refl eq_refl (demo_ready demo_store [] eq_refl)) as (t & s1 & Hview & _). exists s1. exact Hview.
Defined.

(** A block whose first answer is lost is executed again and answers "noop", so the token is
    blocked and no record of it is made. *)
Lemma lost_answer_leaves_no_record :
  let m := Actuator.applyOne demo_actuator demo_block (demo_world demo_store [WOk; WOk; WLost false "i/o timeout"]) in
  m.2 = Ok [] /\ v_state (view (db m.1) "bob") = Some "blocked".
Proof. split; vm_compute; reflexivity. Qed.

(** ** Difficulty *)

Section Difficulty.
Context {S : Type} {R : Redis S} {L : Lua S}.

(** The suspicion recorded for a subject; an absent or unreadable one counts for nothing. *)
Definition suspicion_of (ev subject : string) (s : S) : Z :=
  if decide (subject = emp) then 0
  else default 0 (Difficulty.reply_int (GET (Keys.Suspicion ev subject) s)).

Lemma worse_spec d worst subject w : 0 <= worst ->
  let m := Difficulty.worse d worst subject w in
  let full := Z.max worst (suspicion_of (Difficulty.eventID d) subject (db w)) in
  db m.1 = db w /\ (wire w = [] -> wire m.1 = []) /\
  exists v, m.2 = Ok v /\ worst <= v <= full /\ (wire w = [] -> v = full).
Proof.
  intros Hw m full. subst m full. unfold Difficulty.worse, suspicion_of.
  destruct (decide (subject = emp)); [cbn; split_and!; eauto; exists worst; split_and!; done || lia|].
  unfold try, Get, mbind, M_bind, mret, M_ret.
  assert (Hmax : forall v, (match Difficulty.reply_int v with Some n => if worst <? n then n else worst | None => worst end) =
    Z.max worst (default 0 (Difficulty.reply_int v))).
  { intros v. destruct (Difficulty.reply_int v) as [k|]; cbn [default]; [|unfold default, id; lia].
    unfold default, id. destruct (worst <? k) eqn:E; bool_to_prop; lia. }
  pose proof (reading_command (fun s => GET (Keys.Suspicion (Difficulty.eventID d) subject) s) w) as [Hd Ha].
  destruct (command_spec (fun s => (s, GET (Keys.Suspicion (Difficulty.eventID d) subject) s)) w) as (_ & _ & _ & _ & _ & Hh).
  destruct (command _ w) as [w1 [v|e]]; cbn [fst snd] in *; rewrite ?Hmax; (split; [done|]).
  - rewrite (Ha v eq_refl). split; [intros E; by destruct (Hh E)|]. eexists. split; [reflexivity|]. split; [lia|done].
  - split; [intros E; by destruct (Hh E)|]. eexists. split; [reflexivity|]. split; [lia|]. intros E. by destruct (Hh E) as (_ & _ & ?).
Qed.

(** The difficulty of a puzzle.  It is never refused: the base plus one bump per round,
    where the rounds are the worst of the requester's own attempts and of the suspicion of
    its fingerprint and of its network (the two are not added); when Redis fails, what could
    not be read counts for nothing.  Nothing is written. *)
Theorem difficulty_is_the_worst (d : Difficulty.Difficulty) sub (w : world S) :
  let m := Difficulty.Difficulty_ d sub w in
  let fp := suspicion_of (Difficulty.eventID d) (Difficulty.FPHash sub) (db w) in
  let ip := suspicion_of (Difficulty.eventID d) (Difficulty.IPPrefix sub) (db w) in
  let most := Z.max (Z.max 0 (Z.max fp ip)) (Difficulty.Attempt sub) in
  db m.1 = db w /\
  exists rounds, m.2 = Ok (int64_add (Difficulty.base d) (int64_mul rounds (Difficulty.bump d))) /\
    Z.max 0 (Difficulty.Attempt sub) <= rounds <= most /\ (wire w = [] -> rounds = most).
Proof.
  intros m fp ip most. subst m. unfold Difficulty.Difficulty_.
  destruct (worse_spec d 0 (Difficulty.FPHash sub) w ltac:(lia)) as (Hd1 & Hw1 & v1 & E1 & Hv1 & Hf1).
  destruct (Difficulty.worse d 0 (Difficulty.FPHash sub) w) as [w1 r1] eqn:Ew1. cbn [fst snd] in *. subst r1.
  rewrite (bind_ok _ _ _ _ _ Ew1).
  destruct (worse_spec d v1 (Difficulty.IPPrefix sub) w1 ltac:(lia)) as (Hd2 & _ & v2 & E2 & Hv2 & Hf2).
  destruct (Difficulty.worse d v1 (Difficulty.IPPrefix sub) w1) as [w2 r2] eqn:Ew2. cbn [fst snd] in *. subst r2.
  rewrite (bind_ok _ _ _ _ _ Ew2). unfold mret, M_ret. cbn [fst snd]. split; [congruence|].
  rewrite Hd1 in Hv2, Hf2. fold fp in Hv1, Hf1. fold ip in Hv2, Hf2. eexists. split; [reflexivity|].
  destruct (v2 <? Difficulty.Attempt sub) eqn:E; bool_to_prop; (split; [lia|]); intros Hwi;
    specialize (Hf1 Hwi); specialize (Hf2 (Hw1 Hwi)); lia.
Qed.

End Difficulty.

(** ** Findings *)

(** The defaults with another bin width and other weights. *)
Definition tampered (bin : Z) (w : Cfg.Weights.t) : Cfg.BotScore.t :=
  Cfg.BotScore.mk 40 70 90 Cfg.DefaultScoreWindow Cfg.DefaultScoreFlush 5 Cfg.DefaultScoreDecay w
    Cfg.DefaultHeartbeatCVFloor Cfg.DefaultSignalZSpan bin 5 8 true 2 Cfg.DefaultSignalMinContrib Cfg.DefaultSuspicionTTL 4 35 2.

Definition tiny_bins : Cfg.BotScore.t := tampered 500000 (Cfg.BotScore.Weights default_botscore).

Definition nan_weights : Cfg.BotScore.t :=
  tampered Cfg.DefaultSyncBin (Cfg.Weights.mk f64_NaN f64_NaN f64_NaN f64_NaN f64_NaN).

(** Two configurations that pass validation and break the scorer.  With a bin width of
    half a millisecond the first flush that sees a heartbeat divides by zero; with weights
    that are not numbers every window scores zero, whatever the signal. *)
Theorem validation_gaps `{Ranging} sig :
  (Cfg.Validate (config_with tiny_bins) = Ok tt /\
   Flush (time_UnixMilli 4000) (Observe (demo_beat "t1" 1000 0) (NewScorer tiny_bins)) = None) /\
  (Cfg.Validate (config_with nan_weights) = Ok tt /\
   (combine nan_weights {[SignalHeartbeat := sig]}).1 = f64_0).
Proof.
  assert (Hsingle : forall {A} (k : string) (x : A), map_range ({[k := x]} : gmap string A) = [(k, x)]).
  { intros A k x. apply Permutation_singleton_r. by rewrite map_range_perm, map_to_list_singleton. }
  split; split; [vm_compute; reflexivity| |vm_compute; reflexivity|].
  - set (o := add (demo_beat "t1" 1000 0) (fresh "t1")).
    unfold Flush, snapshot. cbv zeta.
    assert (Hlive : filter (fun p : string * shardWindow => p.2 <> ∅)
      (expire (time_add (time_UnixMilli 4000) (- Cfg.BotScore.Window (cfg (Observe (demo_beat "t1" 1000 0) (NewScorer tiny_bins)))))
        <$> win (Observe (demo_beat "t1" 1000 0) (NewScorer tiny_bins))) = {["s0001" := {["t1" := o]}]}) by (vm_compute; reflexivity).
    rewrite Hlive, map_fmap_singleton, !Hsingle. vm_compute. reflexivity.
  - unfold combine. rewrite Hsingle. cbn [foldl fst]. unfold combine_one. cbn [fst snd]. vm_compute. reflexivity.
Qed.

(** A token with no fingerprint: the block record files its network under the fingerprint. *)
Definition nofp_store : gmap string cell :=
  HSET (skey (KUser "bob")) [("fp_hash", emp); ("ip_prefix", "10.1.2.0/24")] demo_store.

Lemma block_record_mislabels_network :
  exists r b, (Actuator.applyOne demo_actuator demo_block (demo_world nofp_store [])).2 = Ok [Actuator.Audit r; Actuator.Block b] /\
  Actuator.bFPHash b = "10.1.2.0/24".
Proof. eexists _, _. split; vm_compute; reflexivity. Qed.
