(* ===== verification/Transport.v ===== *)
(** * The asynchronous paths: telemetry and audit records

    [internal/telemetry/producer.go], [internal/telemetry/consumer.go] and
    [internal/store/pg/audit.go].  Producer and audit store are the same machine: callers
    put records on a bounded channel without ever waiting, one goroutine takes them off,
    groups them and writes each group once.  Module [Buffered] is that machine, as a step
    relation over which any number of callers and the goroutine interleave; modules
    [Producer] and [Audit] are its two instances.  Module [Consumer] is the reading loop.
    Kafka, PostgreSQL and the JSON text of an event are not modelled: a write succeeds or
    fails as the step says, and [Codec] is what the code relies on of [encoding/json]. *)

From S2P Require Import Prelude.
From S2P Require Import Go.
From S2P Require Import Float.
From S2P Require Import Config.
From S2P Require Import Window.
From S2P Require Import Scorer.
From S2P Require Import Actuator.
Local Open Scope string_scope.
Local Open Scope Z_scope.
Local Open Scope list_scope.

Module Buffered.
Section Machine.
Context {E M : Type} (capacity batch_size : nat) (valid : E -> bool) (encode : E -> option M).

Record state := MkState {
  ch : list E;              (** the channel, oldest first *)
  closed : bool;
  batch : list M;
  flushes : list (bool * list M); (** the groups written, oldest first, and whether the write succeeded *)
  refused : Z;              (** records dropped because the channel was full *)
  unencoded : Z;
  done : bool;              (** the goroutine has returned *)
  taken : list E            (** every record put on the channel, oldest first *)
}.

Definition init : state := MkState [] false [] [] 0 0 false [].

(** [Publish] and [enqueue]: [None] is a panic (a send on a closed channel). *)
Definition publish (e : E) (s : state) : option state :=
  if negb (valid e) then Some s
  else if closed s then None
  else if (length (ch s) <? capacity)%nat then
    Some (MkState (ch s ++ [e]) (closed s) (batch s) (flushes s) (refused s) (unencoded s) (done s) (taken s ++ [e]))
  else Some (MkState (ch s) (closed s) (batch s) (flushes s) (refused s + 1) (unencoded s) (done s) (taken s)).

(** [flush]; [ok] is the outcome of the write. *)
Definition flush (ok : bool) (s : state) : state :=
  match batch s with
  | [] => s
  | _ => MkState (ch s) (closed s) [] (flushes s ++ [(ok, batch s)]) (refused s) (unencoded s) (done s) (taken s)
  end.

(** One receive of the loop; [None] when there is nothing to receive. *)
Definition receive (ok : bool) (s : state) : option state :=
  match ch s with
  | [] =>
      if closed s then
        let s := flush ok s in
        Some (MkState (ch s) (closed s) (batch s) (flushes s) (refused s) (unencoded s) true (taken s))
      else None
  | e :: rest =>
      match encode e with
      | None => Some (MkState rest (closed s) (batch s) (flushes s) (refused s) (unencoded s + 1) (done s) (taken s))
      | Some m =>
          let s := MkState rest (closed s) (batch s ++ [m]) (flushes s) (refused s) (unencoded s) (done s) (taken s) in
          Some (if (batch_size <=? length (batch s))%nat then flush ok s else s)
      end
  end.

(** [Close], the first time. *)
Definition close (s : state) : state :=
  MkState (ch s) true (batch s) (flushes s) (refused s) (unencoded s) (done s) (taken s).

(** Callers, the goroutine's receive, its ticker, and [Close], in any order. *)
Inductive step : state -> state -> Prop :=
  | step_publish e s s' : publish e s = Some s' -> step s s'
  | step_receive ok s s' : done s = false -> receive ok s = Some s' -> step s s'
  | step_tick ok s : done s = false -> step s (flush ok s)
  | step_close s : step s (close s).

Definition reachable (s : state) : Prop := rtc step init s.

(** The groups the far side accepted, and all groups, as one list of messages. *)
Definition written (s : state) : list M := concat (omap (fun f => if f.1 : bool then Some f.2 else None) (flushes s)).
Definition attempted (s : state) : list M := concat (snd <$> flushes s).

Record inv (s : state) : Prop := {
  inv_channel : (length (ch s) <= capacity)%nat;
  inv_batch : (length (batch s) < batch_size)%nat;
  inv_groups : Forall (fun f => 0 < length f.2 <= batch_size)%nat (flushes s);
  inv_fifo : omap encode (taken s) = attempted s ++ batch s ++ omap encode (ch s);
  inv_done : done s = true -> closed s = true /\ ch s = [] /\ batch s = [];
  inv_valid : Forall (fun e => valid e = true) (taken s)
}.

Hypothesis Hsize : (0 < batch_size)%nat.

Lemma attempted_snoc s l b : attempted (MkState (ch s) (closed s) l (flushes s ++ [b]) (refused s) (unencoded s) (done s) (taken s))
  = attempted s ++ b.2.
Proof. unfold attempted. cbn [flushes]. rewrite fmap_app, concat_app. cbn. by rewrite app_nil_r. Qed.

Lemma flush_inv ok s : inv s -> done s = false -> inv (flush ok s) /\ batch (flush ok s) = [].
Proof.
  intros Hi Hd. unfold flush. destruct (batch s) as [|m l] eqn:Eb; [done|]. destruct Hi as [H1 H2 H3 H4 H5 H6].
  rewrite Eb in H2, H4. split; [|done]. split; cbn [ch batch flushes done taken closed]; try done.
  - apply list.Forall_app. split; [done|]. constructor; [|constructor]. cbn in *. lia.
  - rewrite attempted_snoc. cbn. rewrite H4, <- app_assoc. done.
  - by rewrite Hd.
Qed.

(** Receiving one message, before the group is flushed if it is full. *)
Lemma flush_same ok s : ch (flush ok s) = ch s /\ closed (flush ok s) = closed s /\ taken (flush ok s) = taken s /\ done (flush ok s) = done s.
Proof. unfold flush. by destruct (batch s). Qed.

Lemma buffered_inv_step s s' : inv s -> step s s' -> inv s'.
Proof.
  intros Hi Hs. destruct Hs as [e s s' Hp|ok s s' Hd Hr|ok s Hd|s].
  - destruct Hi as [H1 H2 H3 H4 H5 H6]. revert Hp. unfold publish. destruct (valid e) eqn:Hv; cbn [negb]; [|by intros [= <-]].
    destruct (closed s) eqn:Hc; [done|]. destruct (length (ch s) <? capacity)%nat eqn:El; intros [= <-]; [|by split].
    apply Nat.ltb_lt in El. split; cbn [ch batch flushes done taken closed]; try done.
    + rewrite length_app. cbn. lia.
    + rewrite !omap_app, H4. unfold attempted. cbn. by rewrite <- !app_assoc.
    + intros Hd. destruct (H5 Hd) as [? _]. done.
    + apply list.Forall_app. split; [done|by repeat constructor].
  - revert Hr. unfold receive. destruct (ch s) as [|e rest] eqn:Ec.
    + destruct (closed s) eqn:Hc; [|done]. cbv zeta. destruct (flush_inv ok s Hi Hd) as [[G1 G2 G3 G4 G5 G6] Hb].
      destruct (flush_same ok s) as (F1 & F2 & F3 & F4). intros [= <-].
      split; cbn [ch batch flushes done taken closed]; try done. intros _. by rewrite F1, F2.
    + destruct Hi as [H1 H2 H3 H4 H5 H6]. rewrite Ec in H1, H4. cbn in H1, H4.
      destruct (encode e) as [m|] eqn:Ee.
      * set (s1 := MkState rest (closed s) (batch s ++ [m]) (flushes s) (refused s) (unencoded s) (done s) (taken s)).
        assert (Hlen : length (batch s ++ [m]) = (length (batch s) + 1)%nat) by (rewrite length_app; done).
        cbv zeta. destruct (batch_size <=? length (batch s1))%nat eqn:El; intros [= <-].
        -- apply Nat.leb_le in El. cbn [s1 batch] in El. unfold flush. cbn [s1 batch].
           destruct (batch s ++ [m]) as [|x l] eqn:Eb; [by destruct (batch s)|].
           split; cbn [s1 ch batch flushes done taken closed]; try done; try lia.
           ++ apply list.Forall_app. split; [done|]. constructor; [|constructor]. cbn [snd]. lia.
           ++ change (omap encode (taken s) = attempted (MkState (ch s1) (closed s1) [] (flushes s1 ++ [(ok, x :: l)]) (refused s1) (unencoded s1) (done s1) (taken s1)) ++ [] ++ omap encode rest).
              rewrite attempted_snoc. cbn [snd]. rewrite H4, <- Eb. unfold attempted. cbn [s1 flushes]. by rewrite <- !app_assoc.
           ++ by rewrite Hd.
        -- apply Nat.leb_gt in El. split; cbn [s1 ch batch flushes done taken closed] in *; try done; try lia.
           ++ unfold attempted. cbn [flushes]. rewrite H4. unfold attempted. by rewrite <- !app_assoc.
           ++ by rewrite Hd.
      * intros [= <-]. split; cbn [ch batch flushes done taken closed]; try done; try lia. by rewrite Hd.
  - by apply flush_inv.
  - destruct Hi as [H1 H2 H3 H4 H5 H6]. split; cbn [close ch batch flushes done taken closed]; try done.
    intros Hd. destruct (H5 Hd) as (_ & ? & ?). done.
Qed.

Lemma reachable_inv s : reachable s -> inv s.
Proof.
  intros Hr. assert (Hi : inv init -> inv s) by (induction Hr; eauto using buffered_inv_step). apply Hi.
  split; cbn; try done; try lia; constructor.
Qed.

(** What was written is part of what was taken, in the same order. *)
Lemma written_sublist s : written s `sublist_of` attempted s.
Proof.
  unfold written, attempted. induction (flushes s) as [|[[|] l] fs IH]; cbn; [done| |].
  - by apply sublist_app.
  - by apply sublist_inserts_l.
Qed.

(** Receiving until the channel is empty and the goroutine returns. *)
Fixpoint drain (ok : bool) (n : nat) (s : state) : state :=
  match n with
  | O => s
  | Datatypes.S n' => drain ok n' (default s (receive ok s))
  end.

Lemma receive_shrinks ok s s' : receive ok s = Some s' -> closed s' = closed s /\ taken s' = taken s /\
  (ch s = [] -> done s' = true) /\ (ch s <> [] -> length (ch s) = Datatypes.S (length (ch s')) /\ done s' = done s).
Proof.
  unfold receive. destruct (ch s) as [|e rest] eqn:Ec.
  - destruct (closed s) eqn:Hc; [|done]. cbv zeta. destruct (flush_same ok s) as (F1 & F2 & F3 & _). intros [= <-]. cbn. by rewrite F2, F3.
  - destruct (encode e); cbv zeta; [|by intros [= <-]].
    destruct (_ <=? _)%nat; intros [= <-]; [|done].
    match goal with |- context [flush ok ?x] => destruct (flush_same ok x) as (F1 & F2 & F3 & F4) end.
    rewrite F1, F2, F3, F4. done.
Qed.

Lemma receive_some ok s : ch s <> [] \/ closed s = true -> is_Some (receive ok s).
Proof.
  unfold receive. destruct (ch s) as [|e rest]; [intros [?| ->]; [done|eauto]|]. intros _. destruct (encode e); eauto.
Qed.

Lemma drain_done ok s n : closed s = true -> done s = false -> length (ch s) = n ->
  let s' := drain ok (Datatypes.S n) s in rtc step s s' /\ done s' = true /\ taken s' = taken s.
Proof.
  revert s. induction n as [|n IH]; intros s Hc Hd Hn; cbv zeta.
  - destruct (ch s) as [|] eqn:Ec; [|done]. destruct (receive_some ok s (or_intror Hc)) as [s1 Hs1].
    cbn [drain]. rewrite Hs1. cbn [default from_option id]. destruct (receive_shrinks ok s s1 Hs1) as (_ & Ht & He & _).
    split_and!; [by apply rtc_once, (step_receive ok)|by apply He|done].
  - destruct (receive_some ok s (or_intror Hc)) as [s1 Hs1]. destruct (receive_shrinks ok s s1 Hs1) as (Hc1 & Ht & _ & Hl).
    destruct Hl as [Hl Hd1]; [by intros Hnil; rewrite Hnil in Hn|].
    change (drain ok (Datatypes.S (Datatypes.S n)) s) with (drain ok (Datatypes.S n) (default s (receive ok s))).
    rewrite Hs1. cbn [default from_option id]. destruct (IH s1) as (Hr & Hdone & Htk); [congruence|congruence|lia|].
    split_and!; [by eapply rtc_l; [apply (step_receive ok)|]|done|congruence].
Qed.

End Machine.
Arguments state : clear implicits.
End Buffered.

(** ** Events on their way to Kafka *)

Import Telemetry.

(** [json.Marshal] and [json.Unmarshal] on an event. *)
Class Codec := {
  marshal : Event -> option string;
  unmarshal : string -> option Event
}.

(** An event whose strings JSON carries unchanged and whose entropy is a number. *)
Definition portable_event (e : Event) : bool :=
  forallb (forall_chars (fun c => byte_of c <? 128)) [Kind e; EventID e; Shard e; TokenID e; FPHash e; IPPrefix e]
  && negb (f64_isNaN (PointerEntropy e)).

Class CodecLaws `{Codec} := {
  unmarshal_marshal e p : portable_event e = true -> marshal e = Some p -> unmarshal p = Some e
}.

Record Message := MkMessage { Key : string; Value : string; Time : time }.

Module Producer.

Definition bufferSize : nat := 8192.
Definition batchSize : nat := 256.

(** [NewProducer]: whether there is a producer at all, or [Discard]. *)
Definition enabled (on : bool) (brokers : list string) : bool := on && negb (bool_decide (brokers = [])).

(** The writer of [NewProducer]: synchronous, one acknowledgement, and a partition by the
    hash of the key.  The rest of its settings do not reach the program. *)
Record Writer := MkWriter {
  wAddr : list string; wTopic : string; wHashKeys : bool;
  wBatchSize : nat; wBatchTimeout : Z; wWriteTimeout : Z; wAsync : bool }.

Definition batchWait : Z := 200 * Millisecond.
Definition writeTimeout : Z := 5 * Second.

(** [None] is [Discard]. *)
Definition NewProducer (cfg : Cfg.Kafka.t) : option Writer :=
  if enabled (Cfg.Kafka.Enabled cfg) (Cfg.Kafka.Brokers cfg)
  then Some (MkWriter (Cfg.Kafka.Brokers cfg) (Cfg.Kafka.Topic cfg) true batchSize batchWait writeTimeout false)
  else None.

Section Producer.
Context `{Codec}.

Definition encode (e : Event) : option Message :=
  (fun payload => MkMessage (Shard e) payload (At e)) <$> marshal e.

Definition Publish (e : Event) (s : Buffered.state Event Message) : option (Buffered.state Event Message) :=
  Buffered.publish bufferSize Valid e s.

Definition loop_receive (ok : bool) (s : Buffered.state Event Message) : option (Buffered.state Event Message) :=
  Buffered.receive batchSize encode ok s.

Definition Close (s : Buffered.state Event Message) : Buffered.state Event Message := Buffered.close s.

Definition reachable (s : Buffered.state Event Message) : Prop := Buffered.reachable bufferSize batchSize Valid encode s.

(** [Publisher], as [NewProducer] makes it: the producer, or [Discard]. *)
Inductive Publisher := Discard | Producing (w : Writer) (s : Buffered.state Event Message).

Definition NewPublisher (cfg : Cfg.Kafka.t) : Publisher :=
  match NewProducer cfg with Some w => Producing w Buffered.init | None => Discard end.

Definition publish_to (p : Publisher) (e : Event) : option Publisher :=
  match p with Discard => Some Discard | Producing w s => Producing w <$> Publish e s end.

Definition close_publisher (p : Publisher) : Publisher :=
  match p with Discard => Discard | Producing w s => Producing w (Close s) end.

(** A disabled producer takes everything, even after it is closed. *)
Lemma discard_takes_all cfg e : Cfg.Kafka.Enabled cfg = false ->
  publish_to (NewPublisher cfg) e = Some (NewPublisher cfg) /\
  publish_to (close_publisher (NewPublisher cfg)) e = Some (NewPublisher cfg).
Proof. intros Hoff. unfold NewPublisher, NewProducer, enabled. by rewrite Hoff. Qed.

End Producer.
End Producer.

(** ** Events on their way to the scorer *)

Module Consumer.

(** The reader of [NewConsumer]. *)
Record Reader := MkReader {
  rBrokers : list string; rTopic : string; rGroupID : string;
  rMinBytes : Z; rMaxBytes : Z; rCommitInterval : Z }.

Definition fetchMinBytes : Z := 1.
Definition fetchMaxBytes : Z := 10 * 2 ^ 20.
Definition commitEvery : Z := Second.

Definition NewConsumer (cfg : Cfg.Kafka.t) : Reader :=
  MkReader (Cfg.Kafka.Brokers cfg) (Cfg.Kafka.Topic cfg) (Cfg.Kafka.GroupID cfg) fetchMinBytes fetchMaxBytes commitEvery.

Section Consumer.
Context `{Codec}.

Definition Decode (payload : string) : result Event :=
  match unmarshal payload with
  | None => Err (ErrWrap "telemetry: decode" (ErrNew "json"))
  | Some e => if negb (Valid e) then Err (ErrNew "telemetry: incomplete event") else Ok e
  end.

(** What one read delivers: a message, a failure, or the end (the context is done, or the
    reader is closed). *)
Inductive fetched := FMessage (m : Message) | FFailed | FEnded.

(** The loop of [Run]: the events handed to the scorer. *)
Fixpoint Run (fs : list fetched) : list Event :=
  match fs with
  | [] | FEnded :: _ => []
  | FFailed :: rest => Run rest
  | FMessage m :: rest =>
      match Decode (Value m) with
      | Err _ => Run rest
      | Ok e => e :: Run rest
      end
  end.

(** One poll of [partitionCount]; [PCancelled] is the end of the context between polls. *)
Inductive poll := PCount (n : Z) | PFailed | PCancelled.

(** [partitionCount] of the two answers of the broker: the connection, the partitions of the
    topic. *)
Definition partitionCount (dial : result unit) (parts : result (list Z)) : poll :=
  match dial with
  | Err _ => PFailed
  | Ok _ => match parts with Err _ => PFailed | Ok l => PCount (Z.of_nat (length l)) end
  end.

(** [waitForTopic]: [None] while it still waits. *)
Fixpoint waitForTopic (brokers : list string) (ps : list poll) : option (result unit) :=
  if decide (brokers = []) then Some (Err (ErrNew "telemetry: no kafka brokers configured"))
  else match ps with
       | [] => None
       | PCancelled :: _ => Some (Ok tt)
       | PFailed :: rest => waitForTopic brokers rest
       | PCount n :: rest => if 0 <? n then Some (Ok tt) else waitForTopic brokers rest
       end.

End Consumer.
End Consumer.

(** ** Audit records on their way to PostgreSQL *)

Module Audit.
Import Actuator.Actuator.

Definition auditBuffer : nat := 4096.
Definition auditBatch : nat := 200.

(** [json.Marshal] on the reason of a decision. *)
Class ReasonText := { marshal_reason : Reason -> option string }.

(** *** The two tables, as the schema declares them *)

Inductive pgval := PText (t : string) | PNull | PInt (n : Z) | PJson (t : string) | PTime (t : time).

Record column := MkColumn { cName : string; cNotNull : bool; cDefault : bool; cCheck : pgval -> bool }.

Definition text (name : string) : column := MkColumn name true false (fun _ => true).
Definition defaulted (name : string) : column := MkColumn name true true (fun _ => true).

(** [CHECK (score BETWEEN 0 AND 100)]. *)
Definition score_column : column :=
  MkColumn "score" true false (fun v => match v with PInt n => (0 <=? n) && (n <=? 100) | _ => false end).

Definition queue_audit : list column :=
  [defaulted "id"; text "event_id"; text "token_id"; text "shard_id"; text "action"; score_column;
   defaulted "reason_json"; defaulted "created_at"].

Definition blocks : list column :=
  [defaulted "id"; text "event_id"; text "token_id"; text "shard_id"; text "fp_hash"; score_column;
   defaulted "evidence_json"; defaulted "created_at"].

(** [INSERT INTO t (columns) VALUES (values)]. *)
Record insert := MkInsert { into : list column; named : list string; given : list pgval }.

(** A column that is not named gets its default, or NULL. *)
Definition column_allows (vals : list (string * pgval)) (c : column) : bool :=
  match List.find (fun p => bool_decide (p.1 = cName c)) vals with
  | None => cDefault c || negb (cNotNull c)
  | Some (_, PNull) => negb (cNotNull c)
  | Some (_, v) => cCheck c v
  end.

Definition row_allowed (r : insert) : bool := forallb (column_allows (zip (named r) (given r))) (into r).

Section Audit.
Context `{ReasonText}.

Definition nullable (s : string) : pgval := if decide (s = emp) then PNull else PText s.

(** [mustJSON]: a reason that cannot be encoded (a signal that is not a number) leaves a
    note in its place, so that the record is kept. *)
Definition dquote : string := String (Ascii.ascii_of_nat 34) EmptyString.

Definition reason_lost : string :=
  "{" +:+ dquote +:+ "error" +:+ dquote +:+ ":" +:+ dquote +:+ "reason could not be encoded" +:+ dquote +:+ "}".

Definition mustJSON (v : option Reason) : string :=
  match v with
  | None => "{}"
  | Some r => default reason_lost (marshal_reason r)
  end.

(** The two inserts, and their arguments. *)
Definition insertAudit : list string := ["event_id"; "token_id"; "shard_id"; "action"; "score"; "reason_json"; "created_at"].
Definition insertBlock : list string := ["event_id"; "token_id"; "fp_hash"; "score"; "evidence_json"; "created_at"].

Definition row_of (rec : sink_call) : insert :=
  match rec with
  | Audit r => MkInsert queue_audit insertAudit
      [PText (aEventID r); PText (aTokenID r); PText (aShard r); PText (aAction r); PInt (int64_of_f64 (aScore r));
       PJson (mustJSON (Some (aReason r))); PTime (aAt r)]
  | Block r => MkInsert blocks insertBlock
      [PText (bEventID r); PText (bTokenID r); nullable (bFPHash r); PInt (int64_of_f64 (bScore r));
       PJson (mustJSON (Some (Evidence r))); PTime (bAt r)]
  end.

(** [write]: the batch is one transaction; [server_ok] is whether the server can be reached and
    finds no other fault. *)
Definition write (server_ok : bool) (batch : list sink_call) : result (list insert) :=
  let rows := row_of <$> batch in
  if server_ok && forallb row_allowed rows then Ok rows else Err (ErrNew "pg: batch failed").

(** [NewAudit]: an empty channel, and the loop. *)
Definition NewAudit : Buffered.state sink_call sink_call := Buffered.init.

Definition enqueue (rec : sink_call) (s : Buffered.state sink_call sink_call) : option (Buffered.state sink_call sink_call) :=
  Buffered.publish auditBuffer (fun _ => true) rec s.

(** The two methods of the actuator's [Sink]. *)
Definition Audit_ (rec : AuditRecord) (s : Buffered.state sink_call sink_call) : option (Buffered.state sink_call sink_call) := enqueue (Audit rec) s.
Definition Block_ (rec : BlockRecord) (s : Buffered.state sink_call sink_call) : option (Buffered.state sink_call sink_call) := enqueue (Block rec) s.

Definition loop_receive (server_ok : bool) (s : Buffered.state sink_call sink_call) : option (Buffered.state sink_call sink_call) :=
  Buffered.receive auditBatch Some (is_ok (write server_ok (Buffered.batch s ++ take 1 (Buffered.ch s)))) s.

Definition Close (s : Buffered.state sink_call sink_call) : Buffered.state sink_call sink_call := Buffered.close s.

(** [Dropped]: refused by the channel, or in a group that was not written. *)
Definition Dropped (s : Buffered.state sink_call sink_call) : Z :=
  Buffered.refused s + sumZ ((fun f => if f.1 : bool then 0 else Z.of_nat (length f.2)) <$> Buffered.flushes s).

(** The callers, the loop and its ticker, and [Close], in any order; what becomes of a group is
    what [write] makes of it. *)
Inductive step : Buffered.state sink_call sink_call -> Buffered.state sink_call sink_call -> Prop :=
  | step_enqueue rec s s' : enqueue rec s = Some s' -> step s s'
  | step_receive server_ok s s' : Buffered.done s = false -> loop_receive server_ok s = Some s' -> step s s'
  | step_tick server_ok s : Buffered.done s = false -> step s (Buffered.flush (is_ok (write server_ok (Buffered.batch s))) s)
  | step_close s : step s (Close s).

Definition reachable (s : Buffered.state sink_call sink_call) : Prop := rtc step NewAudit s.

Lemma reachable_buffered s : reachable s -> Buffered.reachable auditBuffer auditBatch (fun _ => true) Some s.
Proof.
  unfold reachable, Buffered.reachable, NewAudit. generalize (@Buffered.init sink_call sink_call) as s0. intros s0.
  induction 1 as [|s0 s1 s2 Hs _ IH]; [done|]. eapply rtc_l; [|exact IH]. clear IH.
  destruct Hs; [by eapply Buffered.step_publish|by eapply Buffered.step_receive|by apply Buffered.step_tick|apply Buffered.step_close].
Qed.

(** Every group went through [write]. *)
Definition written_by_write (s : Buffered.state sink_call sink_call) : Prop :=
  Forall (fun f => exists server_ok, f.1 = is_ok (write server_ok f.2)) (Buffered.flushes s).

Lemma flush_written ok server_ok s : written_by_write s -> ok = is_ok (write server_ok (Buffered.batch s)) -> written_by_write (Buffered.flush ok s).
Proof.
  unfold written_by_write, Buffered.flush. intros Hw ->. destruct (Buffered.batch s) as [|m l]; [done|]. cbn [Buffered.flushes].
  apply list.Forall_app. split; [done|]. constructor; [|constructor]. by exists server_ok.
Qed.

Lemma reachable_written s : reachable s -> written_by_write s.
Proof.
  intros Hr. assert (Hstep : forall s s', step s s' -> written_by_write s -> written_by_write s').
  2: { assert (H0 : written_by_write NewAudit) by constructor. revert H0. unfold reachable in Hr. induction Hr; eauto. }
  clear. intros s s' [rec s1 s2 He|ok s1 s2 Hd He|ok s1 Hd|s1] Hw.
  - revert He. unfold enqueue, Buffered.publish. cbn [negb]. destruct (Buffered.closed s1); [done|]. case_match; by intros [= <-].
  - revert He. unfold loop_receive, Buffered.receive. destruct (Buffered.ch s1) as [|e rest] eqn:Ec.
    + destruct (Buffered.closed s1); [|done]. cbv zeta. rewrite app_nil_r. intros [= <-]. exact (flush_written _ ok s1 Hw eq_refl).
    + cbv zeta. cbn [take]. case_match; intros [= <-]; [|exact Hw]. by apply (flush_written _ ok).
  - exact (flush_written _ ok s1 Hw eq_refl).
  - exact Hw.
Qed.

(** What the schema says of a row. *)
Lemma audit_allowed a : row_allowed (row_of (Audit a)) = true <-> 0 <= int64_of_f64 (aScore a) <= 100.
Proof.
  assert (row_allowed (row_of (Audit a)) = (0 <=? int64_of_f64 (aScore a)) && (int64_of_f64 (aScore a) <=? 100)) as ->.
  { unfold row_allowed, row_of. cbn -[Z.leb int64_of_f64]. by rewrite andb_true_r. }
  by rewrite andb_true_iff, !Z.leb_le.
Qed.

Lemma block_refused b : row_allowed (row_of (Block b)) = false.
Proof. done. Qed.

(** What it takes for a group to be written. *)
Lemma write_ok ok batch : is_ok (write ok batch) = true <->
  ok = true /\ forall r, r ∈ batch -> exists a, r = Audit a /\ 0 <= int64_of_f64 (aScore a) <= 100.
Proof.
  unfold write. cbv zeta. assert (Hall : forallb row_allowed (row_of <$> batch) = true <->
    forall r, r ∈ batch -> exists a, r = Audit a /\ 0 <= int64_of_f64 (aScore a) <= 100).
  { rewrite forallb_forall. split.
    - intros Hx r Hr. specialize (Hx (row_of r)). rewrite <- list_elem_of_In, list_elem_of_fmap in Hx. specialize (Hx (ex_intro _ r (conj eq_refl Hr))).
      destruct r as [a|b]; [|by rewrite block_refused in Hx]. exists a. by rewrite audit_allowed in Hx.
    - intros Hx x Hin. apply list_elem_of_In, list_elem_of_fmap in Hin as (r & -> & Hr). destruct (Hx r Hr) as (a & -> & Hs). by apply audit_allowed. }
  destruct ok; cbn [andb]; [|split; [done|by intros [? _]]]. rewrite <- Hall.
  destruct (forallb row_allowed (row_of <$> batch)); cbn [is_ok]; [done|]. split; [done|by intros [_ ?]].
Qed.

End Audit.
End Audit.

(** ** What arrives *)

Section Arrival.
Context {Co : Codec} {CL : CodecLaws}.

Lemma encode_decode e m : portable_event e = true -> Valid e = true -> Producer.encode e = Some m -> Consumer.Decode (Value m) = Ok e.
Proof.
  intros Hp Hv. unfold Producer.encode. destruct (marshal e) as [p|] eqn:Em; [|done]. intros [= <-]. cbn.
  unfold Consumer.Decode. rewrite (unmarshal_marshal e p Hp Em). by rewrite Hv.
Qed.

End Arrival.

(** ** A codec that knows two events, and a run *)

#[export] Instance event_eq_dec : EqDecision Event.
Proof. solve_decision. Defined.

Definition demo_enter : Event := MkEvent KindEnter "show" "s0001" "ann" 1000 emp emp 0 0 0 f64_0 false 0.
Definition demo_beat : Event := MkEvent KindHeartbeat "show" "s0001" "ann" 6000 emp emp 5000 0 0 f64_1 true 0.

#[export] Instance demo_codec : Codec := {|
  marshal e := if decide (e = demo_enter) then Some "enter" else if decide (e = demo_beat) then Some "beat" else None;
  unmarshal p := if decide (p = "enter") then Some demo_enter else if decide (p = "beat") then Some demo_beat else None
|}.

#[export] Instance demo_codec_laws : CodecLaws.
Proof.
  split. intros e p _. cbn -[decide]. case_decide as H1; [intros [= <-]; by subst|].
  case_decide as H2; [intros [= <-]; by subst|done].
Qed.

(** Two events are published, the first is received, the ticker fires, the producer closes. *)
Definition demo_run : Buffered.state Event Message :=
  Buffered.close (Buffered.flush true (default (Buffered.init) (
    s1 ← Producer.Publish demo_enter Buffered.init; s2 ← Producer.Publish demo_beat s1; Producer.loop_receive true s2))).

Lemma demo_run_reachable : Producer.reachable demo_run.
Proof.
  unfold demo_run.
  eapply rtc_r; [eapply rtc_r; [eapply rtc_r; [eapply rtc_r; [eapply rtc_once|]|]|]|apply Buffered.step_close].
  - by apply (Buffered.step_publish _ _ _ _ demo_enter).
  - by apply (Buffered.step_publish _ _ _ _ demo_beat).
  - by apply (Buffered.step_receive _ _ _ _ true).
  - by apply (Buffered.step_tick _ _ _ _ true).
Qed.

(** ** What becomes of an audit record *)

Lemma omap_Some {A} (l : list A) : omap Some l = l.
Proof. induction l as [|x l IH]; cbn; [done|by rewrite IH]. Qed.

Lemma attempted_length (fs : list (bool * list Actuator.sink_call)) :
  Z.of_nat (length (concat (snd <$> fs))) =
  Z.of_nat (length (concat (omap (fun f => if f.1 : bool then Some f.2 else None) fs)))
  + sumZ ((fun f => if f.1 : bool then 0 else Z.of_nat (length f.2)) <$> fs).
Proof.
  induction fs as [|[[|] l] fs IH]; [done| |]; rewrite !fmap_cons; cbn [omap list_omap concat sumZ foldr fst snd];
    rewrite ?length_app, ?Nat2Z.inj_add; unfold sumZ in *; lia.
Qed.

(** C29: no audit record disappears uncounted.  However the callers, the writer, its ticker
    and the shutdown interleave, and whatever the server does: a caller never waits; every
    record given is in the tables, counted by [Dropped], or still in the buffer.  What is in
    the tables are audit records with a score of 0 to 100, and never a block: the table demands
    the shard of a block, the insert does not name it, and so the group of a block is refused
    as a whole, audit records included, and counted as dropped.  A group is written exactly
    when the server can and all its records are such audit records.  A record given after
    [Close] is a send on a closed channel. *)
Theorem audit_records_are_accounted `{Audit.ReasonText} s rec : Audit.reachable s ->
  (Buffered.closed s = false -> is_Some (Audit.enqueue rec s)) /\
  (length (Buffered.ch s) <= Audit.auditBuffer)%nat /\
  Z.of_nat (length (Buffered.taken s)) + Buffered.refused s =
    Z.of_nat (length (Buffered.written s)) + Audit.Dropped s
    + Z.of_nat (length (Buffered.batch s)) + Z.of_nat (length (Buffered.ch s)) /\
  (forall r, r ∈ Buffered.written s -> exists a, r = Actuator.Audit a /\ 0 <= int64_of_f64 (Actuator.aScore a) <= 100) /\
  (forall f, f ∈ Buffered.flushes s -> exists server_ok, f.1 = is_ok (Audit.write server_ok f.2)) /\
  (forall ok rows, is_ok (Audit.write ok rows) = true <->
     ok = true /\ forall r, r ∈ rows -> exists a, r = Actuator.Audit a /\ 0 <= int64_of_f64 (Actuator.aScore a) <= 100) /\
  Audit.enqueue rec (Audit.Close s) = None.
Proof.
  intros Hr. assert (Hsz : (0 < Audit.auditBatch)%nat) by (unfold Audit.auditBatch; lia).
  pose proof (Buffered.reachable_inv _ _ _ _ Hsz s (Audit.reachable_buffered s Hr)) as [H1 H2 H3 H4 H5 H6].
  pose proof (Audit.reachable_written s Hr) as Hw. unfold Audit.written_by_write in Hw. rewrite list.Forall_forall in Hw. split_and!; try done.
  - intros Hc. unfold Audit.enqueue, Buffered.publish. rewrite Hc. cbn [negb]. destruct (_ <? _)%nat; eauto.
  - rewrite !omap_Some in H4. rewrite H4, !length_app, !Nat2Z.inj_add. unfold Audit.Dropped, Buffered.written, Buffered.attempted.
    rewrite attempted_length. lia.
  - intros r Hin. unfold Buffered.written in Hin. apply list_elem_of_In, List.in_concat in Hin as (l & Hl & Hin).
    apply list_elem_of_In, list_elem_of_omap in Hl as (f & Hf & Hl). destruct f.1 eqn:E; [injection Hl as <-|done].
    destruct (Hw f Hf) as [ok Hok]. rewrite E in Hok. symmetry in Hok. apply Audit.write_ok in Hok as [_ Hall].
    by apply Hall, list_elem_of_In.
  - apply Audit.write_ok.
Qed.

#[export] Instance demo_reason : Audit.ReasonText := {| Audit.marshal_reason _ := None |}.

(** A group of one audit record and one block. *)
Definition demo_audit : Actuator.sink_call :=
  Actuator.Audit (Actuator.MkAuditRecord "show" "ann" "s0001" "hold" (f64_of_Z 75) (Actuator.MkReason ∅ 1 None None) 0).
Definition demo_block : Actuator.sink_call :=
  Actuator.Block (Actuator.MkBlockRecord "show" "bob" "fp1" (f64_of_Z 95) (Actuator.MkReason ∅ 2 None None) 0).

(** The two are put on the channel and taken off it; the server is well. *)
Definition demo_audit_run : Buffered.state Actuator.sink_call Actuator.sink_call :=
  let s := default Audit.NewAudit (
    s1 ← Audit.enqueue demo_audit Audit.NewAudit; s2 ← Audit.enqueue demo_block s1;
    s3 ← Audit.loop_receive true s2; Audit.loop_receive true s3) in
  Buffered.flush (is_ok (Audit.write true (Buffered.batch s))) s.

Lemma demo_audit_reachable : Audit.reachable demo_audit_run.
Proof.
  unfold demo_audit_run.
  eapply rtc_r; [eapply rtc_r; [eapply rtc_r; [eapply rtc_r; [eapply rtc_once|]|]|]|].
  - by apply (Audit.step_enqueue demo_audit).
  - by apply (Audit.step_enqueue demo_block).
  - by apply (Audit.step_receive true).
  - by apply (Audit.step_receive true).
  - by apply (Audit.step_tick true).
Qed.

Lemma audit_records_are_accounted_witness :
  Z.of_nat (length (Buffered.taken demo_audit_run)) + Buffered.refused demo_audit_run = 0 + Audit.Dropped demo_audit_run + 0 + 0 /\
  Audit.Dropped demo_audit_run = 2 /\ (forall ok, is_ok (Audit.write ok [demo_audit; demo_block]) = true -> exists a, demo_block = Actuator.Audit a).
Proof.
  destruct (audit_records_are_accounted demo_audit_run demo_audit demo_audit_reachable) as (_ & _ & Hc & _ & _ & Hw & _).
  split; [exact Hc|]. split; [vm_compute; reflexivity|].
  intros ok Hok. apply Hw in Hok as [_ Hall]. destruct (Hall demo_block) as (a & Ha & _); [right; left|]. by exists a.
Defined.
