(* ===== verification/Delivery.v ===== *)
(** * Delivery: what the scorer hears of what the handlers publish

    Between the producer and the consumer of [Transport] stands Kafka, which promises less
    than a queue.  The writer of the client library sends the messages of a group to the
    partitions of their keys, and repeats what was not acknowledged: each partition gets
    pieces of the group, in order, each appended some number of times, at least once if the
    write succeeds.  The consumer group commits the offset it has read once a second, and
    after a restart or a rebalance reads on from the last commit: what one process reads of a
    partition are stretches of its log, and the stretches of different partitions interleave.
    [log_of] and [consumes] say so; the assignment of keys to partitions is a parameter. *)

From S2P Require Import Prelude.
From S2P Require Import Go.
From S2P Require Import Float.
From S2P Require Import Window.
From S2P Require Import Transport.
Import Telemetry.
Local Open Scope string_scope.
Local Open Scope list_scope.

(** ** First occurrences *)

Definition add_new (seen : list nat) (j : nat) : list nat := if decide (j ∈ seen) then seen else seen ++ [j].

Definition firsts (l : list nat) : list nat := foldl add_new [] l.

Lemma add_seen seen l : Forall (fun j => j ∈ seen) l -> foldl add_new seen l = seen.
Proof. induction 1 as [|j l Hj _ IH]; [done|]. cbn. unfold add_new at 2. by rewrite decide_True. Qed.

Lemma add_fresh seen l : NoDup l -> (forall j, j ∈ l -> j ∉ seen) -> foldl add_new seen l = seen ++ l.
Proof.
  intros Hn. revert seen. induction Hn as [|j l Hj Hn IH]; intros seen Hf; cbn; [by rewrite app_nil_r|].
  unfold add_new at 2. rewrite decide_False by (apply Hf; by left). rewrite IH, <- app_assoc; [done|].
  intros i Hi [Hs| ->%list_elem_of_singleton]%elem_of_app; [|done]. by apply (Hf i); [right|].
Qed.

Lemma add_elem seen l j : j ∈ foldl add_new seen l <-> j ∈ seen \/ j ∈ l.
Proof.
  revert seen. induction l as [|x l IH]; intros seen; cbn; [split; [by left|by intros [?|?%elem_of_nil]]|].
  rewrite IH, elem_of_cons. unfold add_new. case_decide; [naive_solver|]. rewrite elem_of_app, list_elem_of_singleton. tauto.
Qed.

Lemma add_prefix seen l : seen `prefix_of` foldl add_new seen l.
Proof.
  revert seen. induction l as [|j l IH]; intros seen; [done|]. cbn. etrans; [|apply IH]. unfold add_new. case_decide; [done|]. by apply prefix_app_r.
Qed.

Lemma firsts_elem l j : j ∈ firsts l <-> j ∈ l.
Proof. unfold firsts. rewrite add_elem, elem_of_nil. tauto. Qed.

Lemma firsts_app l l' : firsts (l ++ l') = foldl add_new (firsts l) l'.
Proof. apply foldl_app. Qed.

Lemma sorted_prefix (l l' : list nat) : l `prefix_of` l' -> StronglySorted lt l' -> StronglySorted lt l.
Proof. intros [x ->] Hs. by apply StronglySorted_app in Hs as (_ & ? & _). Qed.

(** ** The log of a partition *)

Section Kafka.
Context (partition : string -> nat).

(** The messages of a group that go to a partition, by their place in the sequence of all
    messages handed to the writer; the group begins at [n]. *)
Definition positions (p n : nat) (g : list Message) : list nat :=
  omap (fun x => if decide (partition (Key x.2) = p) then Some x.1 else None) (zip (seq n (length g)) g).

(** What the attempts at one write append to a partition: piece by piece, each some number of
    times, and at least once if the write succeeds. *)
Inductive appended (ok : bool) : list nat -> list nat -> Prop :=
  | appended_nil : appended ok [] []
  | appended_piece k piece rest out : (ok = true -> (1 <= k)%nat) -> appended ok rest out ->
      appended ok (piece ++ rest) (concat (replicate k piece) ++ out).

(** The log of partition [p] after the groups [fs] were written, the first of which begins
    at [n]. *)
Inductive log_of (p : nat) : nat -> list (bool * list Message) -> list nat -> Prop :=
  | log_nil n : log_of p n [] []
  | log_group n ok g fs out rest : appended ok (positions p n g) out -> log_of p (n + length g) fs rest ->
      log_of p n ((ok, g) :: fs) (out ++ rest).

(** Stretches of a log, each from an offset on. *)
Definition stretches (log : list nat) (ss : list (nat * nat)) : list nat := concat ((fun x => take x.2 (drop x.1 log)) <$> ss).

(** How far a reader got, and that it left no gap: each stretch begins where it has been. *)
Fixpoint furthest (f : nat) (ss : list (nat * nat)) : nat :=
  match ss with [] => f | (start, len) :: rest => furthest (Nat.max f (start + len)) rest end.

Fixpoint gapless (f : nat) (ss : list (nat * nat)) : Prop :=
  match ss with [] => True | (start, len) :: rest => (start <= f)%nat /\ gapless (Nat.max f (start + len)) rest end.

(** What a process reads, in order: messages of partitions, and failures. *)
Inductive item := IRead (p j : nat) | IFailed.

Definition heard (items : list item) : list nat := omap (fun i => match i with IRead _ j => Some j | IFailed => None end) items.

Definition heard_of (p : nat) (items : list item) : list nat :=
  omap (fun i => match i with IRead p' j => if decide (p' = p) then Some j else None | IFailed => None end) items.

(** The reads of partition [p] are the stretches [ss] of the log of [p]. *)
Definition consumes (fs : list (bool * list Message)) (items : list item) (p : nat) (log : list nat) (ss : list (nat * nat)) : Prop :=
  log_of p 0 fs log /\ heard_of p items = stretches log ss.

Definition deliver (ms : list Message) (i : item) : Consumer.fetched :=
  match i with
  | IRead _ j => match ms !! j with Some m => Consumer.FMessage m | None => Consumer.FFailed end
  | IFailed => Consumer.FFailed
  end.

(** *** Positions and pieces *)

Lemma positions_elem p n g j : j ∈ positions p n g <->
  exists m, g !! (j - n)%nat = Some m /\ (n <= j)%nat /\ partition (Key m) = p.
Proof.
  unfold positions. rewrite list_elem_of_omap. split.
  - intros ([i m] & Hin & Hp). cbn in Hp. case_decide; [|done]. injection Hp as <-.
    apply list_elem_of_lookup in Hin as [x Hx]. apply lookup_zip_Some in Hx as [Hi Hm]. apply lookup_seq in Hi as [-> _].
    exists m. split_and!; [by replace (n + x - n)%nat with x by lia|lia|done].
  - intros (m & Hm & Hn & Hp). exists (j, m). cbn. rewrite decide_True by done. split; [|done].
    apply list_elem_of_lookup. exists (j - n)%nat. apply lookup_zip_Some. split; [|done].
    apply lookup_seq. apply lookup_lt_Some in Hm. lia.
Qed.

Lemma positions_sorted p n g : StronglySorted lt (positions p n g).
Proof.
  unfold positions. revert n. induction g as [|m g IH]; intros n; cbn; [constructor|]. specialize (IH (Datatypes.S n)).
  case_decide; [|done]. constructor; [done|]. apply list.Forall_forall. intros j Hj.
  apply (positions_elem p (Datatypes.S n) g) in Hj as (_ & _ & ? & _). lia.
Qed.

Lemma sorted_nodup (l : list nat) : StronglySorted lt l -> NoDup l.
Proof.
  induction 1 as [|j l _ IH Hj]; constructor; [|done]. intros Hin. rewrite list.Forall_forall in Hj. specialize (Hj _ Hin). lia.
Qed.

Lemma add_pieces seen k piece : NoDup piece -> (forall j, j ∈ piece -> j ∉ seen) ->
  foldl add_new seen (concat (replicate k piece)) = seen ++ (if decide (k = 0)%nat then [] else piece).
Proof.
  intros Hn Hf. destruct k as [|k]; [by rewrite app_nil_r|]. cbn [replicate concat]. rewrite foldl_app, (add_fresh seen piece Hn Hf).
  apply add_seen. rewrite decide_False by done. induction k as [|k IH]; [constructor|]. cbn. apply Forall_app. split; [|done].
  apply list.Forall_forall. intros j Hj. apply elem_of_app. by right.
Qed.

Lemma appended_elem ok l out : appended ok l out -> (forall j, j ∈ out -> j ∈ l) /\ (ok = true -> forall j, j ∈ l -> j ∈ out).
Proof.
  induction 1 as [|k piece rest out Hk _ [IH1 IH2]]; [done|]. split.
  - intros j. rewrite !elem_of_app. intros [Hj|Hj]; [left|right; by apply IH1].
    apply list_elem_of_In, List.in_concat in Hj as (x & Hx & Hj). apply list_elem_of_In, elem_of_replicate in Hx as [-> _]. by apply list_elem_of_In.
  - intros Hok j. rewrite !elem_of_app. intros [Hj|Hj]; [left|right; by apply IH2].
    destruct k as [|k]; [specialize (Hk Hok); lia|]. cbn. apply elem_of_app. by left.
Qed.

Lemma appended_firsts ok l out seen : appended ok l out -> StronglySorted lt l -> StronglySorted lt seen ->
  (forall i j, i ∈ seen -> j ∈ l -> (i < j)%nat) -> StronglySorted lt (foldl add_new seen out).
Proof.
  intros Ha. revert seen. induction Ha as [|k piece rest out _ _ IH]; intros seen Hl Hs Hlt; [done|].
  apply StronglySorted_app in Hl as (Hpr & Hp & Hr).
  rewrite foldl_app, add_pieces; [|by apply sorted_nodup|].
  2: { intros j Hj Hsj. specialize (Hlt j j Hsj). rewrite elem_of_app in Hlt. specialize (Hlt (or_introl Hj)). lia. }
  apply IH; [done| |].
  - case_decide; [by rewrite app_nil_r|]. apply StronglySorted_app. split_and!; [|done..]. intros i j Hi Hj. apply Hlt; [done|]. apply elem_of_app. by left.
  - intros i j [Hi|Hi]%elem_of_app Hj; [apply Hlt; [done|]; apply elem_of_app; by right|].
    case_decide; [by apply elem_of_nil in Hi|]. by apply Hpr.
Qed.

(** *** What a log holds *)

Lemma log_elem p n fs log j : log_of p n fs log -> j ∈ log ->
  exists m, concat (snd <$> fs) !! (j - n)%nat = Some m /\ (n <= j)%nat /\ partition (Key m) = p.
Proof.
  induction 1 as [|n ok g fs out rest Ha _ IH]; [by intros ?%elem_of_nil|]. intros [Hj|Hj]%elem_of_app; cbn.
  - apply (proj1 (appended_elem _ _ _ Ha)), positions_elem in Hj as (m & Hm & Hn & Hp). exists m.
    split_and!; [by apply lookup_app_l_Some|done|done].
  - destruct (IH Hj) as (m & Hm & Hn & Hp). exists m. split_and!; [|lia|done].
    rewrite lookup_app_r by lia. by replace (j - n - length g)%nat with (j - (n + length g))%nat by lia.
Qed.

Lemma log_firsts p n fs log seen : log_of p n fs log -> StronglySorted lt seen -> (forall i, i ∈ seen -> (i < n)%nat) ->
  StronglySorted lt (foldl add_new seen log).
Proof.
  intros Hl. revert seen. induction Hl as [|n ok g fs out rest Ha _ IH]; intros seen Hs Hlt; [done|]. rewrite foldl_app. apply IH.
  - eapply appended_firsts; [exact Ha|apply positions_sorted|done|]. intros i j Hi Hj.
    apply positions_elem in Hj as (_ & _ & ? & _). specialize (Hlt i Hi). lia.
  - intros i [Hi|Hi]%add_elem; [specialize (Hlt i Hi); lia|].
    apply (proj1 (appended_elem _ _ _ Ha)), positions_elem in Hi as (m & Hm & Hn & _). apply lookup_lt_Some in Hm. lia.
Qed.

(** The messages of the groups whose write succeeded. *)
Fixpoint accepted (n : nat) (fs : list (bool * list Message)) : list nat :=
  match fs with
  | [] => []
  | (ok, g) :: rest => (if ok : bool then seq n (length g) else []) ++ accepted (n + length g) rest
  end.

Lemma accepted_range n fs j : j ∈ accepted n fs -> (n <= j < n + length (concat (snd <$> fs)))%nat.
Proof.
  revert n. induction fs as [|[ok g] fs IH]; intros n; cbn; [by intros ?%elem_of_nil|]. rewrite length_app.
  intros [Hj|Hj]%elem_of_app; [destruct ok; [apply elem_of_seq in Hj; lia|by apply elem_of_nil in Hj]|]. apply IH in Hj. lia.
Qed.

Lemma log_accepted p n fs log j m : log_of p n fs log -> j ∈ accepted n fs ->
  concat (snd <$> fs) !! (j - n)%nat = Some m -> partition (Key m) = p -> j ∈ log.
Proof.
  induction 1 as [|n ok g fs out rest Ha _ IH]; cbn; [by intros ?%elem_of_nil|].
  intros [Hj|Hj]%elem_of_app Hm Hp; apply elem_of_app.
  - left. destruct ok; [|by apply elem_of_nil in Hj]. apply elem_of_seq in Hj. apply (proj2 (appended_elem _ _ _ Ha) eq_refl).
    apply positions_elem. exists m. rewrite lookup_app_l in Hm by lia. split_and!; [done|lia|done].
  - right. pose proof (accepted_range _ _ _ Hj) as [Hn _].
    apply IH; [done| |done]. rewrite lookup_app_r in Hm by lia. by replace (j - (n + length g))%nat with (j - n - length g)%nat by lia.
Qed.

(** *** Reading in stretches *)

Lemma gapless_firsts log f acc ss : firsts acc = firsts (take f log) -> gapless f ss ->
  firsts (acc ++ stretches log ss) = firsts (take (furthest f ss) log).
Proof.
  revert f acc. induction ss as [|[st len] ss IH]; intros f acc Hacc; cbn [furthest gapless]; [intros _; cbn; by rewrite app_nil_r|].
  intros [Hst Hg]. unfold stretches. cbn [fmap list_fmap concat fst snd]. rewrite app_assoc. apply IH; [|done].
  rewrite firsts_app, Hacc. destruct (Nat.le_gt_cases (st + len) f) as [Hle|Hgt].
  - replace (Nat.max f (st + len)) with f by lia. apply add_seen, list.Forall_forall. intros j Hj. apply firsts_elem.
    apply list_elem_of_lookup in Hj as [i Hi]. apply lookup_take_Some in Hi as [Hi Hlt]. rewrite lookup_drop in Hi.
    apply list_elem_of_lookup. exists (st + i)%nat. apply lookup_take_Some. split; [done|lia].
  - replace (Nat.max f (st + len)) with (st + len)%nat by lia.
    assert (E : take len (drop st log) = take (f - st) (drop st log) ++ take (st + len - f) (drop f log)).
    { replace len with ((f - st) + (st + len - f))%nat at 1 by lia. rewrite <- take_take_drop, drop_drop. by replace (st + (f - st))%nat with f by lia. }
    rewrite E, foldl_app, (add_seen (firsts (take f log)) (take (f - st) (drop st log))).
    + rewrite <- firsts_app. rewrite take_take_drop. do 2 f_equal. lia.
    + apply list.Forall_forall. intros j Hj. apply firsts_elem.
      apply list_elem_of_lookup in Hj as [i Hi]. apply lookup_take_Some in Hi as [Hi Hlt]. rewrite lookup_drop in Hi.
      apply list_elem_of_lookup. exists (st + i)%nat. apply lookup_take_Some. split; [done|lia].
Qed.

Lemma stretches_elem log ss j : j ∈ stretches log ss -> j ∈ log.
Proof.
  intros Hj. apply list_elem_of_In, List.in_concat in Hj as (x & Hx & Hj). apply list_elem_of_In, list_elem_of_fmap in Hx as ([st len] & -> & _).
  apply list_elem_of_In, list_elem_of_lookup in Hj as [i Hi]. apply lookup_take_Some in Hi as [Hi _]. rewrite lookup_drop in Hi.
  apply list_elem_of_lookup. eauto.
Qed.

End Kafka.

(** ** From the handlers to the scorer *)

Section Hearing.
Context {Co : Codec} {CL : CodecLaws}.

(** The events that were encoded, in the order of publication. *)
Definition sent (es : list Event) : list Event := List.filter (fun e => bool_decide (is_Some (Producer.encode e))) es.

Lemma sent_lookup es j m : omap Producer.encode es !! j = Some m -> exists e, sent es !! j = Some e /\ e ∈ es /\ Producer.encode e = Some m.
Proof.
  revert j. induction es as [|e es IH]; intros j; [done|]. cbn [omap list_omap]. unfold sent. cbn [List.filter]. fold (sent es).
  destruct (Producer.encode e) as [m0|] eqn:Ee.
  - rewrite bool_decide_eq_true_2 by done. destruct j as [|j]; cbn.
    + intros [= <-]. exists e. split_and!; [done|by left|done].
    + intros Hj. destruct (IH j Hj) as (e' & ? & ? & ?). exists e'. split_and!; [done|by right|done].
  - rewrite bool_decide_eq_false_2 by (by intros []). intros Hj. destruct (IH j Hj) as (e' & ? & ? & ?). exists e'. split_and!; [done|by right|done].
Qed.

Lemma Run_delivered es ms items : Forall (fun e => Valid e = true /\ portable_event e = true) es ->
  ms `prefix_of` omap Producer.encode es -> Forall (fun j => (j < length ms)%nat) (heard items) ->
  Consumer.Run (deliver ms <$> items) = omap (fun j => sent es !! j) (heard items).
Proof.
  intros Hes [tl Hms] Hb. rewrite list.Forall_forall in Hes. unfold heard in *. induction items as [|[p j|] items IH]; [done| |].
  - cbn [omap list_omap] in Hb |- *. apply list.Forall_cons in Hb as [Hj Hb]. rewrite fmap_cons. cbn [deliver].
    destruct (lookup_lt_is_Some_2 ms j Hj) as [m Hm]. rewrite Hm.
    destruct (sent_lookup es j m) as (e & He & Hin & Henc); [by rewrite Hms; apply lookup_app_l_Some|].
    destruct (Hes e Hin) as [Hv Hp]. cbn [Consumer.Run]. rewrite (encode_decode e m Hp Hv Henc), He. f_equal. by apply IH.
  - rewrite fmap_cons. cbn [deliver omap list_omap Consumer.Run] in *. by apply IH.
Qed.

Lemma heard_of_heard p items j : j ∈ heard_of p items -> j ∈ heard items.
Proof.
  unfold heard_of, heard. rewrite !list_elem_of_omap. intros ([p' j'|] & Hi & Hj); [|done]. case_decide; [|done]. by exists (IRead p' j').
Qed.

Lemma heard_somewhere items j : j ∈ heard items -> exists p, j ∈ heard_of p items.
Proof.
  unfold heard_of, heard. rewrite list_elem_of_omap. intros ([p j'|] & Hi & Hj); [|done]. exists p. apply list_elem_of_omap.
  exists (IRead p j'). by rewrite decide_True.
Qed.

(** Once closed, the goroutine empties the channel and returns. *)
Lemma closed_drains s ok : Producer.reachable s -> Buffered.closed s = true -> Buffered.done s = false ->
  let s' := Buffered.drain Producer.batchSize Producer.encode ok (Datatypes.S (length (Buffered.ch s))) s in
  Producer.reachable s' /\ Buffered.done s' = true /\ Buffered.taken s' = Buffered.taken s /\
  omap Producer.encode (Buffered.taken s) = Buffered.attempted s'.
Proof.
  intros Hr Hc Hd. cbv zeta. assert (Hsz : (0 < Producer.batchSize)%nat) by (unfold Producer.batchSize; lia).
  destruct (Buffered.drain_done Producer.bufferSize Producer.batchSize Valid Producer.encode Hsz ok s _ Hc Hd eq_refl) as (Hrtc & Hdone & Htk).
  assert (Hr' : Producer.reachable (Buffered.drain Producer.batchSize Producer.encode ok (Datatypes.S (length (Buffered.ch s))) s))
    by (unfold Producer.reachable, Buffered.reachable in *; by etrans).
  split_and!; try done. pose proof (Buffered.reachable_inv _ _ _ _ Hsz _ Hr') as [G1 G2 G3 G4 G5 G6].
  destruct (G5 Hdone) as (_ & Hch & Hb). rewrite Htk, Hb, Hch in G4. by rewrite !app_nil_r in G4.
Qed.

(** C28: what the scorer hears is what the handlers said.  However callers, the goroutine,
    its ticker and the shutdown interleave: a caller is never made to wait and never fails
    while the producer is open; the channel and the groups stay within their bounds; every
    event taken is in the channel, in the current group or in a group already handed to the
    client, in the order of publication and exactly once; and once closed, the goroutine
    empties the channel and returns after one receive per waiting event and one more.

    Kafka then delivers at least once, and in order only within a partition: the client
    library may repeat what it writes, a write may fail in part, and a consumer may read a
    stretch again.  Whatever of this happens, each event the scorer handles is one of the
    published ones, and all events of a shard come by one partition.  A scorer that has read a
    partition from its start without a gap hears the events of that partition for the first
    time in the order of their publication; and if it has read to the end, it heard every one
    whose write succeeded. *)
Theorem heard_as_published s : Producer.reachable s ->
  (forall e, Buffered.closed s = false -> is_Some (Producer.Publish e s)) /\
  (length (Buffered.ch s) <= Producer.bufferSize)%nat /\
  Forall (fun f => 0 < length f.2 <= Producer.batchSize)%nat (Buffered.flushes s) /\
  omap Producer.encode (Buffered.taken s) =
    Buffered.attempted s ++ Buffered.batch s ++ omap Producer.encode (Buffered.ch s) /\
  (Buffered.closed s = true -> Buffered.done s = false -> forall ok,
   let s' := Buffered.drain Producer.batchSize Producer.encode ok (Datatypes.S (length (Buffered.ch s))) s in
   Producer.reachable s' /\ Buffered.done s' = true /\ Buffered.taken s' = Buffered.taken s /\
   omap Producer.encode (Buffered.taken s) = Buffered.attempted s') /\
  forall partition items log ss, Forall (fun e => portable_event e = true) (Buffered.taken s) ->
  (forall p, consumes partition (Buffered.flushes s) items p (log p) (ss p)) ->
  let told := sent (Buffered.taken s) in
  Consumer.Run (deliver (Buffered.attempted s) <$> items) = omap (fun j => told !! j) (heard items) /\
  Forall (fun j => (j < length told)%nat) (heard items) /\
  (forall p j e, j ∈ heard_of p items -> told !! j = Some e -> partition (Shard e) = p) /\
  forall p, gapless 0 (ss p) ->
    StronglySorted lt (firsts (heard_of p items)) /\
    ((length (log p) <= furthest 0 (ss p))%nat -> forall j e, j ∈ accepted 0 (Buffered.flushes s) ->
     told !! j = Some e -> partition (Shard e) = p -> j ∈ heard_of p items).
Proof.
  intros Hr. assert (Hsz : (0 < Producer.batchSize)%nat) by (unfold Producer.batchSize; lia).
  pose proof (Buffered.reachable_inv _ _ _ _ Hsz s Hr) as [H1 H2 H3 H4 H5 H6]. split_and!; try done.
  - intros e Hc. unfold Producer.Publish, Buffered.publish. rewrite Hc. destruct (negb _); [eauto|]. destruct (_ <? _)%nat; eauto.
  - intros Hc Hd ok. by apply closed_drains.
  - intros partition items log ss Hp Hcons told.
    assert (Hmsg : forall p j, j ∈ heard_of p items -> exists m, Buffered.attempted s !! j = Some m /\ partition (Key m) = p).
    { intros p j Hj. destruct (Hcons p) as [Hl Hs]. rewrite Hs in Hj. apply stretches_elem in Hj.
      destruct (log_elem _ _ _ _ _ _ Hl Hj) as (m & Hm & _ & Hk). rewrite Nat.sub_0_r in Hm. by exists m. }
    assert (Hsent : forall j m, Buffered.attempted s !! j = Some m -> exists e, told !! j = Some e /\ Producer.encode e = Some m).
    { intros j m Hm. destruct (sent_lookup (Buffered.taken s) j m) as (e & ? & _ & ?); [rewrite H4; by apply lookup_app_l_Some|]. by exists e. }
    assert (Hkey : forall e m, Producer.encode e = Some m -> Key m = Shard e).
    { intros e m. unfold Producer.encode. destruct (marshal e); [|done]. by intros [= <-]. }
    split_and!.
    + apply Run_delivered; [|rewrite H4; by apply prefix_app_r|].
      * apply list.Forall_forall. intros e He. rewrite list.Forall_forall in H6, Hp. auto.
      * apply list.Forall_forall. intros j Hj. destruct (heard_somewhere items j Hj) as [p Hjp].
        destruct (Hmsg p j Hjp) as (m & Hm & _). by apply lookup_lt_Some in Hm.
    + apply list.Forall_forall. intros j Hj. destruct (heard_somewhere items j Hj) as [p Hjp].
      destruct (Hmsg p j Hjp) as (m & Hm & _). destruct (Hsent j m Hm) as (e & He & _). by apply lookup_lt_Some in He.
    + intros p j e Hj He. destruct (Hmsg p j Hj) as (m & Hm & <-). destruct (Hsent j m Hm) as (e' & He' & Henc).
      rewrite (Hkey e' m Henc). congruence.
    + intros p Hg. destruct (Hcons p) as [Hl Hs]. rewrite Hs.
      pose proof (gapless_firsts (log p) 0 [] (ss p) eq_refl Hg) as Hf. cbn [app] in Hf. split.
      * rewrite Hf. eapply sorted_prefix; [|apply (log_firsts partition p 0 _ _ [] Hl); [constructor|by intros i ?%elem_of_nil]].
        rewrite <- (take_drop (furthest 0 (ss p)) (log p)) at 2. rewrite foldl_app. apply add_prefix.
      * intros Hall j e Hj He Hk. apply firsts_elem. rewrite Hf, take_ge by done. apply firsts_elem.
        destruct (lookup_lt_is_Some_2 (Buffered.attempted s) j) as [m Hm]; [by apply (accepted_range 0)|].
        destruct (Hsent j m Hm) as (e' & He' & Henc).
        apply (log_accepted partition p 0 (Buffered.flushes s) (log p) j m Hl Hj); [by rewrite Nat.sub_0_r|]. rewrite (Hkey e' m Henc). congruence.
Qed.

End Hearing.

(** ** A run: two events, one group, appended twice, read with a rewind *)

Lemma heard_as_published_witness :
  Consumer.Run (deliver (Buffered.attempted demo_run) <$> [IRead 0 0; IFailed; IRead 0 0]) = [demo_enter; demo_enter] /\
  StronglySorted lt (firsts [0%nat; 0%nat]) /\
  Buffered.done (Buffered.drain Producer.batchSize Producer.encode true 2 demo_run) = true.
Proof.
  destruct (heard_as_published demo_run demo_run_reachable) as (_ & _ & _ & _ & Hdrain & Hdel).
  assert (Hlog : log_of (fun _ => 0%nat) 0 0 (Buffered.flushes demo_run) [0%nat; 0%nat]).
  { apply (log_group _ 0 0 true [_] [] [0; 0]%nat []); [|constructor].
    apply (appended_piece true 2 [0%nat] [] []); [intros _; lia|constructor]. }
  pose (items := [IRead 0 0; IFailed; IRead 0 0]).
  pose (log := fun p : nat => if decide (p = 0)%nat then [0%nat; 0%nat] else []).
  pose (ss := fun p : nat => if decide (p = 0)%nat then [(0, 1); (1, 1)]%nat else []).
  assert (Hc : forall p, consumes (fun _ => 0%nat) (Buffered.flushes demo_run) items p (log p) (ss p)).
  { intros p. unfold log, ss, consumes. destruct (decide (p = 0)%nat) as [->|Hp]; [by split|]. split.
    - rewrite <- (app_nil_r []). apply (log_group _ p 0 true [_] [] [] []); [|constructor]. cbn.
      rewrite decide_False by congruence. constructor.
    - unfold items. cbn. by rewrite !decide_False by congruence. }
  destruct (Hdel (fun _ => 0%nat) items log ss ltac:(repeat constructor) Hc) as (Hrun & _ & _ & Hfirst).
  split; [exact Hrun|]. split.
  - exact (proj1 (Hfirst 0%nat ltac:(vm_compute; repeat split; repeat constructor))).
  - apply (Hdrain eq_refl eq_refl true).
Defined.
