(* ===== verification/Crypto.v ===== *)
(** * SHA-256, HMAC and base64url

    What [internal/challenge] uses of Go's [crypto/sha256], [crypto/hmac],
    [encoding/base64] and [math/bits].  Bytes are integers between 0 and 255; the functions
    compute, so that puzzles are solved and checked on concrete inputs. *)

From Stdlib Require Import DecimalString.
From S2P Require Import Prelude.
Local Open Scope string_scope.
Local Open Scope Z_scope.
Local Open Scope list_scope.

(** ** Bytes of a string *)

Fixpoint bytes_of (s : string) : list Z :=
  match s with EmptyString => [] | String c s' => byte_of c :: bytes_of s' end.

Fixpoint string_of (bs : list Z) : string :=
  match bs with [] => EmptyString | b :: bs' => String (ascii_of_nat (Z.to_nat b)) (string_of bs') end.

(** ** SHA-256 (FIPS 180-4) *)

Module Sha256.

Definition w32 (z : Z) : Z := z mod 4294967296.
Definition add32 (a b : Z) : Z := w32 (a + b).
Definition shr (n x : Z) : Z := Z.shiftr x n.
Definition rotr (n x : Z) : Z := Z.lor (Z.shiftr x n) (w32 (Z.shiftl x (32 - n))).

Definition K : list Z := [
  1116352408; 1899447441; 3049323471; 3921009573; 961987163; 1508970993; 2453635748; 2870763221;
  3624381080; 310598401; 607225278; 1426881987; 1925078388; 2162078206; 2614888103; 3248222580;
  3835390401; 4022224774; 264347078; 604807628; 770255983; 1249150122; 1555081692; 1996064986;
  2554220882; 2821834349; 2952996808; 3210313671; 3336571891; 3584528711; 113926993; 338241895;
  666307205; 773529912; 1294757372; 1396182291; 1695183700; 1986661051; 2177026350; 2456956037;
  2730485921; 2820302411; 3259730800; 3345764771; 3516065817; 3600352804; 4094571909; 275423344;
  430227734; 506948616; 659060556; 883997877; 958139571; 1322822218; 1537002063; 1747873779;
  1955562222; 2024104815; 2227730452; 2361852424; 2428436474; 2756734187; 3204031479; 3329325298].

Definition H0 : list Z := [
  1779033703; 3144134277; 1013904242; 2773480762; 1359893119; 2600822924; 528734635; 1541459225].

Definition big_sigma0 (x : Z) : Z := Z.lxor (rotr 2 x) (Z.lxor (rotr 13 x) (rotr 22 x)).
Definition big_sigma1 (x : Z) : Z := Z.lxor (rotr 6 x) (Z.lxor (rotr 11 x) (rotr 25 x)).
Definition sigma0 (x : Z) : Z := Z.lxor (rotr 7 x) (Z.lxor (rotr 18 x) (shr 3 x)).
Definition sigma1 (x : Z) : Z := Z.lxor (rotr 17 x) (Z.lxor (rotr 19 x) (shr 10 x)).
Definition ch (x y z : Z) : Z := Z.lxor (Z.land x y) (Z.land (4294967295 - x) z).
Definition maj (x y z : Z) : Z := Z.lxor (Z.land x y) (Z.lxor (Z.land x z) (Z.land y z)).

(** The message schedule, kept newest first. *)
Definition extend (ws : list Z) : list Z :=
  let g i := default 0 (ws !! i) in
  add32 (add32 (sigma1 (g 1%nat)) (g 6%nat)) (add32 (sigma0 (g 14%nat)) (g 15%nat)) :: ws.

Definition schedule (block : list Z) : list Z := rev (Nat.iter 48 extend (rev block)).

Definition round (h : list Z) (kw : Z * Z) : list Z :=
  match h with
  | [a; b; c; d; e; f; g; hh] =>
      let t1 := add32 (add32 hh (big_sigma1 e)) (add32 (ch e f g) (add32 kw.1 kw.2)) in
      let t2 := add32 (big_sigma0 a) (maj a b c) in
      [add32 t1 t2; a; b; c; add32 d t1; e; f; g]
  | _ => h
  end.

Definition compress (h block : list Z) : list Z :=
  zip_with add32 h (foldl round h (zip K (schedule block))).

Fixpoint be_bytes (n : nat) (z : Z) : list Z :=
  match n with O => [] | S n' => be_bytes n' (Z.shiftr z 8) ++ [z mod 256] end.

Fixpoint words (bs : list Z) : list Z :=
  match bs with
  | a :: b :: c :: d :: rest => ((a * 256 + b) * 256 + c) * 256 + d :: words rest
  | _ => []
  end.

Definition pad (msg : list Z) : list Z :=
  let n := length msg in
  msg ++ 128 :: replicate ((119 - n mod 64) mod 64) 0 ++ be_bytes 8 (8 * Z.of_nat n).

(** Blocks of sixteen words; [fuel] is the number of bytes, more than enough. *)
Fixpoint blocks (fuel : nat) (ws : list Z) : list (list Z) :=
  match fuel, ws with
  | S fuel', _ :: _ => take 16 ws :: blocks fuel' (drop 16 ws)
  | _, _ => []
  end.

Definition sum (msg : list Z) : list Z :=
  let p := pad msg in
  concat (be_bytes 4 <$> foldl compress H0 (blocks (length p) (words p))).

End Sha256.

(** ** HMAC-SHA-256 (RFC 2104) *)

Definition hmac_key (key : list Z) : list Z :=
  let k := if bool_decide (64 < length key)%nat then Sha256.sum key else key in
  k ++ replicate (64 - length k) 0.

Definition hmac_sha256 (key msg : list Z) : list Z :=
  let k := hmac_key key in
  Sha256.sum ((Z.lxor 92 <$> k) ++ Sha256.sum ((Z.lxor 54 <$> k) ++ msg)).

(** ** [base64.RawURLEncoding] *)

Definition b64_char (z : Z) : ascii :=
  ascii_of_nat (Z.to_nat (if z <? 26 then 65 + z else if z <? 52 then 71 + z
    else if z <? 62 then z - 4 else if z =? 62 then 45 else 95)).

Fixpoint b64_encode (bs : list Z) : string :=
  match bs with
  | a :: b :: c :: rest =>
      String (b64_char (Z.shiftr a 2))
        (String (b64_char (Z.lor (Z.shiftl (Z.land a 3) 4) (Z.shiftr b 4)))
          (String (b64_char (Z.lor (Z.shiftl (Z.land b 15) 2) (Z.shiftr c 6)))
            (String (b64_char (Z.land c 63)) (b64_encode rest))))
  | [a; b] =>
      String (b64_char (Z.shiftr a 2))
        (String (b64_char (Z.lor (Z.shiftl (Z.land a 3) 4) (Z.shiftr b 4)))
          (String (b64_char (Z.shiftl (Z.land b 15) 2)) EmptyString))
  | [a] => String (b64_char (Z.shiftr a 2)) (String (b64_char (Z.shiftl (Z.land a 3) 4)) EmptyString)
  | [] => EmptyString
  end.

(** ** [bits.LeadingZeros8] *)

Definition LeadingZeros8 (b : Z) : Z := if b =? 0 then 8 else 7 - Z.log2 b.

(** ** Published test vectors *)

Fixpoint hex (bs : list Z) : string :=
  match bs with
  | [] => EmptyString
  | b :: bs' =>
      let d z := ascii_of_nat (Z.to_nat (if z <? 10 then 48 + z else 87 + z)) in
      String (d (b / 16)) (String (d (b mod 16)) (hex bs'))
  end.

Example sha256_abc :
  hex (Sha256.sum (bytes_of "abc")) = "ba7816bf8f01cfea414140de5dae2223b00361a396177a9cb410ff61f20015ad".
Proof. vm_compute. reflexivity. Qed.

Example sha256_two_blocks :
  hex (Sha256.sum (bytes_of "abcdbcdecdefdefgefghfghighijhijkijkljklmklmnlmnomnopnopq")) =
  "248d6a61d20638b8e5c026930c3e6039a33ce45964ff2167f6ecedd419db06c1".
Proof. vm_compute. reflexivity. Qed.

(** RFC 4231, test case 2. *)
Example hmac_jefe :
  hex (hmac_sha256 (bytes_of "Jefe") (bytes_of "what do ya want for nothing?")) =
  "5bdcc146bf60754e6a042426089575c75a003f089d2739839dec58b964ec3843".
Proof. vm_compute. reflexivity. Qed.

Example base64_any : b64_encode (bytes_of "any carnal pleas>") = "YW55IGNhcm5hbCBwbGVhcz4".
Proof. vm_compute. reflexivity. Qed.

(** ** Lemmas *)

(** The encoded text has only letters, digits, hyphen and underscore. *)
Definition b64_alphabet (c : ascii) : bool :=
  byte_between "A" "Z" c || byte_between "a" "z" c || byte_between "0" "9" c
  || bool_decide (c = "-"%char) || bool_decide (c = "_"%char).

Lemma b64_char_alphabet z : 0 <= z < 64 -> b64_alphabet (b64_char z) = true.
Proof.
  intros Hz. assert (H : forallb (fun n => b64_alphabet (b64_char (Z.of_nat n))) (seq 0 64) = true) by (vm_compute; reflexivity).
  rewrite forallb_forall in H. specialize (H (Z.to_nat z)). rewrite Z2Nat.id in H by lia.
  apply H, in_seq. lia.
Qed.

Definition is_byte (b : Z) : Prop := 0 <= b < 256.

Lemma sextets a b c : is_byte a -> is_byte b -> is_byte c ->
  0 <= Z.shiftr a 2 < 64 /\ 0 <= Z.shiftl (Z.land a 3) 4 < 64 /\
  0 <= Z.lor (Z.shiftl (Z.land a 3) 4) (Z.shiftr b 4) < 64 /\
  0 <= Z.shiftl (Z.land b 15) 2 < 64 /\
  0 <= Z.lor (Z.shiftl (Z.land b 15) 2) (Z.shiftr c 6) < 64 /\ 0 <= Z.land c 63 < 64.
Proof.
  unfold is_byte. intros Ha Hb Hc.
  assert (Hor : forall x y, 0 <= x < 64 -> 0 <= y < 64 -> 0 <= Z.lor x y < 64).
  { intros x y Hx Hy. split; [apply Z.lor_nonneg; lia|].
    destruct (Z.eq_dec (Z.lor x y) 0) as [->|Hne]; [lia|].
    apply (Z.log2_lt_pow2 _ 6); [apply Z.le_neq; split; [apply Z.lor_nonneg; lia|congruence]|].
    rewrite Z.log2_lor by lia. apply Z.max_lub_lt.
    - destruct (Z.eq_dec x 0) as [->|]; [done|]. apply Z.log2_lt_pow2; lia.
    - destruct (Z.eq_dec y 0) as [->|]; [done|]. apply Z.log2_lt_pow2; lia. }
  assert (Hland : forall x n, 0 <= n -> 0 <= Z.land x (Z.ones n) < 2 ^ n).
  { intros x n Hn. rewrite Z.land_ones by lia. apply Z.mod_pos_bound. apply Z.pow_pos_nonneg; lia. }
  pose proof (Hland a 2 ltac:(lia)) as La. pose proof (Hland b 4 ltac:(lia)) as Lb. pose proof (Hland c 6 ltac:(lia)) as Lc.
  change (Z.ones 2) with 3 in La. change (Z.ones 4) with 15 in Lb. change (Z.ones 6) with 63 in Lc.
  rewrite !Z.shiftl_mul_pow2, !Z.shiftr_div_pow2 in * by lia.
  change (2 ^ 2) with 4 in *. change (2 ^ 4) with 16 in *. change (2 ^ 6) with 64 in *.
  assert (0 <= a / 4 < 64) by (split; [apply Z.div_pos; lia|apply Z.div_lt_upper_bound; lia]).
  assert (0 <= b / 16 < 16) by (split; [apply Z.div_pos; lia|apply Z.div_lt_upper_bound; lia]).
  assert (0 <= c / 64 < 4) by (split; [apply Z.div_pos; lia|apply Z.div_lt_upper_bound; lia]).
  split_and!; try apply Hor; lia.
Qed.

Lemma b64_encode_alphabet bs : Forall is_byte bs -> forall_chars b64_alphabet (b64_encode bs) = true.
Proof.
  remember (length bs) as n eqn:Hn. revert bs Hn. induction n as [n IH] using lt_wf_ind. intros bs -> Hbs.
  destruct bs as [|a [|b [|c rest]]]; cbn [b64_encode forall_chars]; [done|..].
  - apply list.Forall_cons in Hbs as [Ha _]. destruct (sextets a 0 0 Ha) as (? & ? & _); [done|done|].
    by rewrite !b64_char_alphabet.
  - apply list.Forall_cons in Hbs as [Ha [Hb _]%list.Forall_cons]. destruct (sextets a b 0 Ha Hb) as (? & _ & ? & ? & _); [done|].
    by rewrite !b64_char_alphabet.
  - apply list.Forall_cons in Hbs as [Ha [Hb [Hc Hr]%list.Forall_cons]%list.Forall_cons].
    destruct (sextets a b c Ha Hb Hc) as (? & _ & ? & _ & ? & ?). rewrite !b64_char_alphabet by done.
    cbn [andb]. apply (IH (length rest)); [cbn [length]; lia|done|done].
Qed.

(** ** Digests are 32 bytes *)

Lemma be_bytes_length n z : length (Sha256.be_bytes n z) = n.
Proof. revert z. induction n as [|n IH]; intros z; cbn [Sha256.be_bytes]; [done|]. rewrite length_app, IH. cbn. lia. Qed.

Lemma be_bytes_bytes n z : Forall is_byte (Sha256.be_bytes n z).
Proof.
  revert z. induction n as [|n IH]; intros z; cbn [Sha256.be_bytes]; [constructor|].
  apply list.Forall_app. split; [apply IH|]. repeat constructor; apply Z.mod_pos_bound; lia.
Qed.

Lemma round_length h kw : length (Sha256.round h kw) = length h.
Proof. by destruct h as [|a [|b [|c [|d [|e [|f [|g [|hh [|]]]]]]]]]. Qed.

Lemma compress_length h block : length (Sha256.compress h block) = length h.
Proof.
  unfold Sha256.compress. rewrite length_zip_with.
  assert (forall ks h0, length (foldl Sha256.round h0 ks) = length h0) as ->; [|lia].
  induction ks as [|k ks IH]; intros h0; cbn [foldl]; [done|]. by rewrite IH, round_length.
Qed.

Lemma compress_all_length bs h : length (foldl Sha256.compress h bs) = length h.
Proof. revert h. induction bs as [|b bs IH]; intros h; cbn [foldl]; [done|]. by rewrite IH, compress_length. Qed.

Lemma sum_length msg : length (Sha256.sum msg) = 32%nat.
Proof.
  unfold Sha256.sum. set (hs := foldl _ _ _).
  assert (Hlen : length hs = 8%nat) by (unfold hs; by rewrite compress_all_length).
  assert (forall l, length (concat (Sha256.be_bytes 4 <$> l)) = (4 * length l)%nat) as ->; [|lia].
  induction l as [|x l IH]; [done|]. rewrite fmap_cons. cbn [concat length]. rewrite length_app, be_bytes_length, IH. lia.
Qed.

Lemma sum_bytes msg : Forall is_byte (Sha256.sum msg).
Proof.
  unfold Sha256.sum. generalize (foldl Sha256.compress Sha256.H0 (Sha256.blocks (length (Sha256.pad msg)) (Sha256.words (Sha256.pad msg)))).
  intros l. induction l as [|x l IH]; [constructor|]. rewrite fmap_cons. cbn [concat].
  apply list.Forall_app. split; [apply be_bytes_bytes|done].
Qed.

Lemma b64_nonempty bs : bs <> [] -> b64_encode bs <> emp.
Proof. by destruct bs as [|a [|b [|c rest]]]. Qed.

(** ** Text and bytes *)

Lemma bytes_of_app s t : bytes_of (s +:+ t) = bytes_of s ++ bytes_of t.
Proof. induction s as [|c s IH]; [done|]. rewrite str_app_cons. cbn. by rewrite IH. Qed.

Lemma bytes_of_inj s t : bytes_of s = bytes_of t -> s = t.
Proof.
  revert t. induction s as [|c s IH]; intros [|d t]; cbn; try done. intros [= Hb Hs].
  rewrite (IH t Hs). f_equal. unfold byte_of in Hb. apply Nat2Z.inj in Hb.
  rewrite <- (ascii_nat_embedding c), <- (ascii_nat_embedding d). by rewrite Hb.
Qed.

Lemma bytes_of_bytes s : Forall is_byte (bytes_of s).
Proof.
  induction s as [|c s IH]; cbn; constructor; [|done]. unfold is_byte, byte_of. pose proof (nat_ascii_bounded c). lia.
Qed.

(** A decimal number has no zero byte. *)
Lemma itoa_no_zero z : 0 ∉ bytes_of (itoa z).
Proof.
  assert (Hu : forall u, 0 ∉ bytes_of (NilEmpty.string_of_uint u)).
  { induction u; cbn; rewrite ?elem_of_cons; rewrite ?elem_of_nil; try tauto; intros [H|H]; try done. }
  unfold itoa, NilZero.string_of_int. destruct (Z.to_int z) as [u|u]; [|cbn; rewrite elem_of_cons; intros [H|H]; [done|]; revert H];
    unfold NilZero.string_of_uint; destruct u; try apply Hu; cbn; rewrite elem_of_cons, elem_of_nil; intros [H|H]; done.
Qed.

(** Two texts cut at their last zero byte agree piecewise. *)
Lemma cut_last_zero (a1 a2 b1 b2 : list Z) : 0 ∉ b1 -> 0 ∉ b2 -> a1 ++ 0 :: b1 = a2 ++ 0 :: b2 -> a1 = a2 /\ b1 = b2.
Proof.
  intros H1 H2. revert a2. induction a1 as [|x a1 IH]; intros [|y a2]; cbn.
  - by intros [= ->].
  - intros [= <- ->]. exfalso. apply H1. apply elem_of_app. right. left.
  - intros [= -> <-]. exfalso. apply H2. apply elem_of_app. right. left.
  - intros [= -> Heq]. destruct (IH a2 Heq) as [-> ->]. done.
Qed.
