(* ===== verification/Embed.v ===== *)
(** * The scripts inside the binary

    [scripts/lua/lua.go], the constructor and the hash of [internal/redisx], and the package
    variables that read the scripts.  [Conn.Lua] takes the sources and the hash as given;
    here is where they come from: SHA-1 is computed, and [scripts_are_read] shows that the
    packages that read scripts at start never panic and read every script once. *)

From S2P Require Import Prelude.
From S2P Require Import Go.
From S2P Require Import Redis.
From S2P Require Import Scripts.
From S2P Require Import Config.
From S2P Require Import Conn.
From S2P Require Import Crypto.
Local Open Scope string_scope.
Local Open Scope Z_scope.
Local Open Scope list_scope.

(** ** SHA-1 (FIPS 180-4) *)

Module Sha1.
Import Sha256.

Definition rotl (n x : Z) : Z := rotr (32 - n) x.

Definition H0 : list Z := [1732584193; 4023233417; 2562383102; 271733878; 3285377520].

(** The schedule, kept newest first. *)
Definition extend (ws : list Z) : list Z :=
  let g i := default 0 (ws !! i) in
  rotl 1 (Z.lxor (Z.lxor (g 2%nat) (g 7%nat)) (Z.lxor (g 13%nat) (g 15%nat))) :: ws.

Definition schedule (block : list Z) : list Z := rev (Nat.iter 64 extend (rev block)).

(** The function and the constant of a step. *)
Definition step (t : nat) (b c d : Z) : Z * Z :=
  if (t <? 20)%nat then (ch b c d, 1518500249)
  else if (t <? 40)%nat then (Z.lxor b (Z.lxor c d), 1859775393)
  else if (t <? 60)%nat then (maj b c d, 2400959708)
  else (Z.lxor b (Z.lxor c d), 3395469782).

Definition round (h : list Z) (tw : nat * Z) : list Z :=
  match h with
  | [a; b; c; d; e] =>
      let fk := step tw.1 b c d in
      [add32 (add32 (rotl 5 a) fk.1) (add32 e (add32 fk.2 tw.2)); a; rotl 30 b; c; d]
  | _ => h
  end.

Definition compress (h block : list Z) : list Z :=
  zip_with add32 h (foldl round h (zip (seq 0 80) (schedule block))).

Definition Sum (msg : list Z) : list Z :=
  let p := pad msg in
  concat (be_bytes 4 <$> foldl compress H0 (blocks (length p) (words p))).

End Sha1.

(** [hex.EncodeToString]. *)
Definition hex_char (d : Z) : ascii := ascii_of_nat (Z.to_nat (if d <? 10 then 48 + d else 87 + d)).

Fixpoint EncodeToString (bs : list Z) : string :=
  match bs with
  | [] => EmptyString
  | b :: bs' => String (hex_char (b / 16)) (String (hex_char (b mod 16)) (EncodeToString bs'))
  end.

Definition sha1Hex (s : string) : string := EncodeToString (Sha1.Sum (bytes_of s)).

Example sha1_abc : sha1Hex "abc" = "a9993e364706816aba3e25717850c26c9cd0d89d".
Proof. vm_compute. reflexivity. Qed.

Example sha1_two_blocks :
  sha1Hex "abcdbcdecdefdefgefghfghighijhijkijkljklmklmnlmnomnopnopq" = "84983e441c3bd26ebaae4aa1f95129e5e54670f1".
Proof. vm_compute. reflexivity. Qed.

(** A digest is forty hexadecimal digits. *)
Definition hex_digit (c : ascii) : bool := byte_between "0" "9" c || byte_between "a" "f" c.

Lemma EncodeToString_hex bs : Forall (fun b => 0 <= b < 256) bs ->
  String.length (EncodeToString bs) = (2 * length bs)%nat /\ forall_chars hex_digit (EncodeToString bs) = true.
Proof.
  assert (Hd : forall d, 0 <= d < 16 -> hex_digit (hex_char d) = true).
  { intros d Hd. assert (Hall : forallb (fun n => hex_digit (hex_char (Z.of_nat n))) (seq 0 16) = true) by (vm_compute; reflexivity).
    rewrite forallb_forall in Hall. rewrite <- (Z2Nat.id d) by lia. apply Hall. apply in_seq. lia. }
  induction 1 as [|b bs Hb _ [IHl IHh]]; [done|]. cbn [EncodeToString String.length length forall_chars].
  rewrite IHl, IHh, !Hd. 2: { pose proof (Z.mod_pos_bound b 16). lia. } 2: { split; [apply Z.div_pos|apply Z.div_lt_upper_bound]; lia. }
  split; [lia|done].
Qed.

Lemma be_bytes_spec n z : length (Sha256.be_bytes n z) = n /\ Forall (fun b => 0 <= b < 256) (Sha256.be_bytes n z).
Proof.
  revert z. induction n as [|n IH]; intros z; [by split|]. cbn [Sha256.be_bytes]. destruct (IH (Z.shiftr z 8)) as [Hl Hf].
  rewrite length_app, Hl. cbn [length]. split; [lia|]. apply Forall_app. split; [done|]. constructor; [apply Z.mod_pos_bound; lia|constructor].
Qed.

Lemma compress_five h block : length h = 5%nat -> length (Sha1.compress h block) = 5%nat.
Proof.
  intros Hh. unfold Sha1.compress. rewrite length_zip_with.
  enough (length (foldl Sha1.round h (zip (seq 0 80) (Sha1.schedule block))) = 5%nat) by lia.
  generalize (zip (seq 0 80) (Sha1.schedule block)). intros l. revert h Hh. induction l as [|tw l IH]; intros h Hh; [done|]. cbn [foldl].
  apply IH. destruct h as [|? [|? [|? [|? [|? [|]]]]]]; done.
Qed.

Lemma Sum_spec msg : length (Sha1.Sum msg) = 20%nat /\ Forall (fun b => 0 <= b < 256) (Sha1.Sum msg).
Proof.
  unfold Sha1.Sum. set (p := Sha256.pad msg).
  assert (H5 : forall bl h, length h = 5%nat -> length (foldl Sha1.compress h bl) = 5%nat).
  { induction bl as [|b bl IH]; intros h Hh; [done|]. cbn [foldl]. by apply IH, compress_five. }
  specialize (H5 (Sha256.blocks (length p) (Sha256.words p)) Sha1.H0 eq_refl). revert H5. generalize (foldl Sha1.compress Sha1.H0 (Sha256.blocks (length p) (Sha256.words p))).
  intros ws Hws. destruct ws as [|a [|b [|c [|d [|e [|]]]]]]; try done. cbn [fmap list_fmap concat]. rewrite app_nil_r.
  rewrite !length_app, !(proj1 (be_bytes_spec 4 _)). split; [done|].
  rewrite !Forall_app. split_and!; apply be_bytes_spec.
Qed.

Lemma sha1Hex_spec s : String.length (sha1Hex s) = 40%nat /\ forall_chars hex_digit (sha1Hex s) = true.
Proof. unfold sha1Hex. destruct (Sum_spec (bytes_of s)) as [Hl Hf]. destruct (EncodeToString_hex _ Hf) as [H1 H2]. by rewrite H1, Hl. Qed.

(** ** The embedded directory *)

Module Embed.

(** The files of [scripts/lua] that match the [go:embed] pattern "*.lua", in the order of
    [ReadDir]. *)
Definition lua_files : list string :=
  ["admit.lua"; "apply_action.lua"; "enqueue.lua"; "evict.lua"; "heartbeat.lua"; "move_shard.lua"; "position.lua";
   "rechallenge.lua"; "redeem.lua"; "refill_budget.lua"; "restore_shard.lua"].

Record entry := MkEntry { Name : string; IsDir : bool; content : string }.

Section Files.
Variable files : list entry.

Definition ReadFile (name : string) : result string :=
  match List.find (fun e => bool_decide (Name e = name) && negb (IsDir e)) files with
  | Some e => Ok (content e)
  | None => Err (ErrNew ("open " +:+ name +:+ ": file does not exist"))
  end.

Definition Read (name : string) : result string :=
  match ReadFile name with
  | Ok b => Ok b
  | Err e => Err (ErrWrap ("lua: read " +:+ name) e)
  end.

(** [None] is a panic. *)
Definition MustRead (name : string) : option string :=
  match Read name with Ok src => Some src | Err _ => None end.

Definition Names : result (list string) := Ok (Name <$> List.filter (fun e => negb (IsDir e)) files).

(** ** [redisx.Script] *)

Record Script := MkScript { name : string; src : string }.

Definition NewScript (n s : string) : Script := MkScript n s.

(** [redisx.NewScript(name, lua.MustRead(name))]. *)
Definition script_var (n : string) : option Script := NewScript n <$> MustRead n.

(** The variables of the packages that run scripts. *)
Definition queue_scripts : option (list Script) :=
  mapM script_var ["enqueue.lua"; "position.lua"; "heartbeat.lua"; "evict.lua"; "rechallenge.lua"].
Definition admission_scripts : option (list Script) := mapM script_var ["refill_budget.lua"; "admit.lua"; "redeem.lua"].
Definition botscore_scripts : option (list Script) := mapM script_var ["apply_action.lua"; "move_shard.lua"; "restore_shard.lua"].

(** A process that imports all three packages: [None] is a panic before [main]. *)
Definition all_scripts : option (list Script) :=
  q ← queue_scripts; a ← admission_scripts; b ← botscore_scripts; Some (q ++ a ++ b).

(** ** Lemmas *)

Definition embedded : Prop := forall n, n ∈ lua_files -> exists e, e ∈ files /\ Name e = n /\ IsDir e = false.

Lemma Read_embedded n : embedded -> n ∈ lua_files -> exists e, e ∈ files /\ Name e = n /\ Read n = Ok (content e).
Proof.
  intros He Hn. destruct (He n Hn) as (e & Hin & Hname & Hdir). unfold Read, ReadFile.
  destruct (List.find _ files) as [e'|] eqn:E.
  - apply List.find_some in E as [Hin' Hb]. apply andb_true_iff in Hb as [Hb _]. apply bool_decide_eq_true in Hb.
    exists e'. split_and!; [by apply list_elem_of_In|done|done].
  - exfalso. apply list_elem_of_In in Hin. pose proof (List.find_none _ _ E e Hin) as Hf. cbn in Hf. by rewrite Hname, Hdir, bool_decide_eq_true_2 in Hf.
Qed.

(** Every script the packages ask for is there; each file is read by exactly one of them, and
    kept under its own name with its own source. *)
Lemma scripts_are_read : embedded -> exists l, all_scripts = Some l /\ (name <$> l) ≡ₚ lua_files /\
  forall s, s ∈ l -> Read (name s) = Ok (src s).
Proof.
  intros He.
  assert (Hvar : forall n, n ∈ lua_files -> exists s, script_var n = Some (MkScript n s) /\ Read n = Ok s).
  { intros n Hn. destruct (Read_embedded n He Hn) as (e & _ & _ & Hr). exists (content e). unfold script_var, MustRead. rewrite Hr. done. }
  assert (Hall : forall ns, forallb (fun n => bool_decide (n ∈ lua_files)) ns = true -> exists l, mapM script_var ns = Some l /\ (name <$> l) = ns /\ forall s, s ∈ l -> Read (name s) = Ok (src s)).
  { induction ns as [|n ns IH]; cbn [forallb]; [exists []; split_and!; [done|done|by intros s ?%elem_of_nil]|].
    intros [Hn%bool_decide_eq_true Hns]%andb_true_iff.
    destruct (Hvar n Hn) as (s & Hs & Hr). destruct (IH Hns) as (l & Hl & Hnm & Hsr).
    exists (MkScript n s :: l). cbn [mapM]. rewrite Hs. cbn. rewrite Hl. cbn. rewrite Hnm. split_and!; [done|done|].
    intros x [->|Hx]%elem_of_cons; [done|by apply Hsr]. }
  destruct (Hall ["enqueue.lua"; "position.lua"; "heartbeat.lua"; "evict.lua"; "rechallenge.lua"]) as (q & Hq & Nq & Rq); [vm_compute; reflexivity|].
  destruct (Hall ["refill_budget.lua"; "admit.lua"; "redeem.lua"]) as (a & Ha & Na & Ra); [vm_compute; reflexivity|].
  destruct (Hall ["apply_action.lua"; "move_shard.lua"; "restore_shard.lua"]) as (b & Hb & Nb & Rb); [vm_compute; reflexivity|].
  exists (q ++ a ++ b). unfold all_scripts, queue_scripts, admission_scripts, botscore_scripts. rewrite Hq, Ha, Hb. cbn [mbind option_bind].
  split_and!; [done| |intros s [?|[?|?]%elem_of_app]%elem_of_app; auto].
  rewrite !fmap_app, Nq, Na, Nb. apply NoDup_Permutation; [apply (bool_decide_unpack (NoDup _)); vm_compute; exact I..|].
  intros n. split; intros Hn; [revert n Hn|revert n Hn]; apply list.Forall_forall, (bool_decide_unpack (Forall _ _)); vm_compute; exact I.
Qed.

End Files.
End Embed.

(** ** [redisx.New] *)

Module Client.

Record UniversalOptions := MkOptions {
  Addrs : list string;
  Password : string;
  DB : Z;
  PoolSize : Z;
  DialTimeout : Z;
  ReadTimeout : Z;
  WriteTimeout : Z;
  IsClusterMode : bool;
  MaxRetries : Z
}.

(** The options the client is made with.  [MaxRetries] is not set, so it is Go's zero. *)
Definition New (cfg : Cfg.Redis.t) : UniversalOptions :=
  MkOptions (Cfg.Redis.Addrs cfg) (string_of (Cfg.Bytes (Cfg.Redis.Password cfg))) (Cfg.Redis.DB cfg) (Cfg.Redis.PoolSize cfg)
    (3 * Second) (3 * Second) (3 * Second) (Cfg.Redis.Cluster cfg) Conn.MaxRetries.

End Client.

(** What [Conn] asks of the scripts, from the embedded directory and Redis's interpreter, and of
    the client library. *)
Definition embedded_lua {S} (files : list Embed.entry) (eval : string -> list string -> list string -> S -> S * reply) (tries : Z -> nat) : Lua S :=
  {| lua_read n := default emp (Embed.MustRead files n); Conn.sha1Hex := sha1Hex; lua_eval := eval; client_retries := tries |}.
