(* ===== verification/Challenge.v ===== *)
(** * Entry puzzles

    [internal/challenge/challenge.go]: stateless issue of a signed puzzle, verification in a
    fixed order, and the single-use burn of its nonce. *)

From S2P Require Import Prelude.
From S2P Require Import Go.
From S2P Require Import Redis.
From S2P Require Import Keys.
From S2P Require Import Float.
From S2P Require Import Config.
From S2P Require Import Conn.
From S2P Require Import Actuator.
From S2P Require Import Crypto.
Import Difficulty.
Local Open Scope string_scope.
Local Open Scope Z_scope.
Local Open Scope list_scope.

Module Challenge.

Definition Algorithm : string := "sha256-leading-zeros".

Definition ErrSignature : string := "challenge: bad signature".
Definition ErrExpired : string := "challenge: expired".
Definition ErrDifficulty : string := "challenge: difficulty out of range".
Definition ErrSolution : string := "challenge: solution does not meet difficulty".
Definition ErrReplay : string := "challenge: already solved".
Definition ErrMalformed : string := "challenge: malformed".
Definition ErrNoKey : string := "challenge: hmac key is required".

(** [Reason]; [None] is the nil error. *)
Definition Reason (err : option error) : string :=
  match err with
  | None => "ok"
  | Some e =>
      if errors_Is e ErrSignature then "bad_signature"
      else if errors_Is e ErrExpired then "expired"
      else if errors_Is e ErrDifficulty then "bad_difficulty"
      else if errors_Is e ErrSolution then "bad_solution"
      else if errors_Is e ErrReplay then "replay"
      else "malformed"
  end.

Record Challenge := MkChallenge {
  Nonce : string;
  cDifficulty : Z;
  ExpiresAt : Z;
  Signature : string;
  cAlgorithm : string
}.

(** ** Hashing *)

Definition Digest (nonce solution : string) : list Z :=
  Sha256.sum (bytes_of nonce ++ bytes_of "." ++ bytes_of solution).

Fixpoint LeadingZeroBits (d : list Z) : Z :=
  match d with
  | [] => 0
  | b :: d' => if b =? 0 then 8 + LeadingZeroBits d' else LeadingZeros8 b
  end.

Definition Check (nonce solution : string) (difficulty : Z) : bool :=
  difficulty <=? LeadingZeroBits (Digest nonce solution).

(** [Solve]: the candidates [i], [i + 1], ... up to [limit]. *)
Fixpoint Solve_from (nonce : string) (difficulty : Z) (i : nat) (left : nat) : option string :=
  match left with
  | O => None
  | S left' =>
      let s := itoa (Z.of_nat i) in
      if Check nonce s difficulty then Some s else Solve_from nonce difficulty (S i) left'
  end.

Definition Solve (nonce : string) (difficulty limit : Z) : option string :=
  Solve_from nonce difficulty 0 (Z.to_nat limit).

(** ** The issuer *)

Section Issuer.
Context {S : Type} {R : Redis S} {L : Lua S}.

(** [DifficultyProvider], and its two implementations: [Fixed] and the one of [Actuator]. *)
Definition DifficultyProvider : Type := Subject -> M S Z.

Definition Fixed (f : Z) : DifficultyProvider := fun _ => mret f.

Record Issuer := MkIssuer {
  key : list Z;
  eventID : string;
  ttl : Z;
  nonceBytes : Z;
  base : Z;
  maxDiff : Z;
  provider : DifficultyProvider
}.

Definition NewIssuer (ev : string) (cfg : Cfg.Challenge.t) (p : option DifficultyProvider) : result Issuer :=
  if Cfg.Secret_IsZero (Cfg.Challenge.HMACKey cfg) then Err (ErrNew ErrNoKey)
  else if bool_decide (ev = emp) then Err (ErrNew "challenge: event id is required")
  else Ok (MkIssuer (Cfg.Bytes (Cfg.Challenge.HMACKey cfg)) ev (Cfg.Challenge.TTL cfg) (Cfg.Challenge.NonceBytes cfg)
             (Cfg.Challenge.BaseDifficulty cfg) (Cfg.Challenge.MaxDifficulty cfg)
             (default (Fixed (Cfg.Challenge.BaseDifficulty cfg)) p)).

Context (i : Issuer).

Definition clamp (d : Z) : Z :=
  if d <? base i then base i else if maxDiff i <? d then maxDiff i else d.

(** What [sign] writes to the MAC. *)
Definition message (nonce : string) (difficulty expires : Z) : list Z :=
  bytes_of (eventID i) ++ [0] ++ bytes_of nonce ++ [0] ++ bytes_of (itoa difficulty) ++ [0]
  ++ bytes_of (itoa expires).

Definition sign (nonce : string) (difficulty expires : Z) : string :=
  b64_encode (hmac_sha256 (key i) (message nonce difficulty expires)).

Definition Issue (s : Subject) : M S Challenge :=
  r ← try (provider i s);
  let difficulty := clamp (match r with Ok d => d | Err _ => base i end) in
  raw ← wrapping "challenge: nonce" rand_Read;
  let nonce := b64_encode raw in
  t ← now;
  let expires := UnixMilli (time_add t (ttl i)) in
  mret (MkChallenge nonce difficulty expires (sign nonce difficulty expires) Algorithm).

Definition Required (s : Subject) : M S Z :=
  r ← try (provider i s);
  mret (match r with Ok d => clamp d | Err _ => base i end).

(** The whole milliseconds the client library sends for a positive duration. *)
Definition px (d : Z) : Z := Z.max 1 (Milliseconds d).

Definition burn (c : Challenge) : M S unit :=
  t ← now;
  let left := time_sub (time_UnixMilli (ExpiresAt c)) t in
  if left <=? 0 then fail (ErrNew ErrExpired)
  else
    ok ← wrapping "challenge: burn nonce" (command (SET_NX (Keys.ChallengeKey (eventID i) (Nonce c)) "1" (px left)));
    if negb ok then fail (ErrNew ErrReplay) else mret tt.

Definition Verify (c : Challenge) (solution : string) : M S unit :=
  if bool_decide (Nonce c = emp) || bool_decide (Signature c = emp) || bool_decide (solution = emp)
  then fail (ErrNew ErrMalformed)
  else if negb (bool_decide (Signature c = sign (Nonce c) (cDifficulty c) (ExpiresAt c)))
  then fail (ErrNew ErrSignature)
  else if (cDifficulty c <? 1) || (maxDiff i <? cDifficulty c) then fail (ErrNew ErrDifficulty)
  else
    t ← now;
    if ExpiresAt c <? UnixMilli t then fail (ErrNew ErrExpired)
    else if negb (Check (Nonce c) solution (cDifficulty c)) then fail (ErrNew ErrSolution)
    else burn c.

End Issuer.
Arguments Issuer S : clear implicits.

(** ** Lemmas *)

(** The number a digest spells, most significant byte first. *)
Fixpoint be_int (bs : list Z) : Z :=
  match bs with [] => 0 | b :: bs' => b * 2 ^ (8 * Z.of_nat (length bs')) + be_int bs' end.

Lemma be_int_bound bs : Forall is_byte bs -> 0 <= be_int bs < 2 ^ (8 * Z.of_nat (length bs)).
Proof.
  induction 1 as [|b bs Hb _ IH]; cbn [be_int length]; [done|]. unfold is_byte in Hb.
  rewrite Nat2Z.inj_succ, Z.mul_succ_r, Z.pow_add_r by lia. change (2 ^ 8) with 256. nia.
Qed.

Lemma LeadingZeros8_spec b k : 0 < b < 256 -> 0 <= k <= 8 -> k <= LeadingZeros8 b <-> b < 2 ^ (8 - k).
Proof.
  intros Hb Hk. unfold LeadingZeros8. rewrite (proj2 (Z.eqb_neq b 0)) by lia.
  rewrite (Z.log2_lt_pow2 b (8 - k)) by lia. pose proof (Z.log2_nonneg b). lia.
Qed.

Lemma LeadingZeroBits_bound bs : Forall is_byte bs -> 0 <= LeadingZeroBits bs <= 8 * Z.of_nat (length bs).
Proof.
  induction 1 as [|b bs Hb _ IH]; cbn [LeadingZeroBits length]; [lia|]. rewrite Nat2Z.inj_succ.
  destruct (Z.eqb_spec b 0); [lia|]. unfold LeadingZeros8, is_byte in *. rewrite (proj2 (Z.eqb_neq b 0)) by done.
  pose proof (Z.log2_nonneg b). assert (Z.log2 b < 8) by (apply Z.log2_lt_pow2; lia). lia.
Qed.

(** Counting zero bits is comparing with a power of two. *)
Lemma LeadingZeroBits_spec bs k : Forall is_byte bs -> 0 <= k <= 8 * Z.of_nat (length bs) ->
  k <= LeadingZeroBits bs <-> be_int bs < 2 ^ (8 * Z.of_nat (length bs) - k).
Proof.
  intros Hbs. revert k. induction Hbs as [|b bs Hb Hbs IH]; intros k; cbn [LeadingZeroBits be_int length]; intros Hk.
  { replace k with 0 by lia. done. }
  rewrite Nat2Z.inj_succ in *. pose proof (be_int_bound bs Hbs) as Hbound. unfold is_byte in Hb.
  set (n := 8 * Z.of_nat (length bs)) in *. replace (8 * Z.succ (Z.of_nat (length bs))) with (n + 8) in * by lia.
  assert (0 <= n) by lia. destruct (Z.eqb_spec b 0) as [->|Hne].
  - rewrite Z.mul_0_l, Z.add_0_l. destruct (Z_le_gt_dec k 8) as [Hk8|Hk8].
    + split; intros _; [|pose proof (LeadingZeroBits_bound bs Hbs); lia].
      eapply Z.lt_le_trans; [apply Hbound|]. apply Z.pow_le_mono_r; lia.
    + specialize (IH (k - 8) ltac:(lia)). replace (n - (k - 8)) with (n + 8 - k) in IH by lia. rewrite <- IH. lia.
  - destruct (Z_le_gt_dec k 8) as [Hk8|Hk8].
    + rewrite LeadingZeros8_spec by lia. replace (n + 8 - k) with (8 - k + n) by lia.
      rewrite Z.pow_add_r by lia. nia.
    + assert (LeadingZeros8 b <= 8) by (unfold LeadingZeros8; pose proof (Z.log2_nonneg b); destruct (b =? 0); lia).
      split; [lia|]. intros Hlt. exfalso.
      assert (2 ^ (n + 8 - k) <= 2 ^ n) by (apply Z.pow_le_mono_r; lia). nia.
Qed.

Lemma Solve_from_sound nonce d limit j s : Solve_from nonce d j limit = Some s -> Check nonce s d = true.
Proof.
  revert j. induction limit as [|limit IH]; intros j; cbn [Solve_from]; [done|].
  cbv zeta. destruct (Check nonce (itoa (Z.of_nat j)) d) eqn:E; intros H.
  - apply (inj Some) in H. by rewrite <- H.
  - by apply (IH (Datatypes.S j)).
Qed.

(** The least candidate below the limit, or none. *)
Lemma Solve_from_least nonce d left j :
  match Solve_from nonce d j left with
  | Some s => exists n, (j <= n < j + left)%nat /\ s = itoa (Z.of_nat n) /\ Check nonce s d = true /\
                forall m, (j <= m < n)%nat -> Check nonce (itoa (Z.of_nat m)) d = false
  | None => forall m, (j <= m < j + left)%nat -> Check nonce (itoa (Z.of_nat m)) d = false
  end.
Proof.
  revert j. induction left as [|left IH]; intros j; cbn [Solve_from]; [intros; lia|]. cbv zeta.
  destruct (Check nonce (itoa (Z.of_nat j)) d) eqn:E.
  { exists j. split_and!; [lia..|done|done|]. intros; lia. }
  specialize (IH (Datatypes.S j)). destruct (Solve_from _ _ _ _) as [s|].
  - destruct IH as (n & Hn & -> & Hc & Hm). exists n. split_and!; [lia..|done|done|]. intros m Hmn.
    destruct (decide (m = j)) as [->|]; [done|]. apply Hm. lia.
  - intros m Hm. destruct (decide (m = j)) as [->|]; [done|]. apply IH. lia.
Qed.

Lemma digest_bytes nonce s : Forall is_byte (Digest nonce s) /\ length (Digest nonce s) = 32%nat.
Proof. split; [apply sum_bytes|apply sum_length]. Qed.

(** C32: the difficulty test is a comparison with a power of two.  Reading the digest of
    nonce and solution as a 256-bit number, a solution meets difficulty [d] exactly when the
    number is below [2^(256-d)], so each step of difficulty halves the accepted digests; and
    the solver finds the least candidate below its limit, or nothing exactly when there is none. *)
Theorem check_is_a_target_test nonce d limit :
  0 <= d <= 256 ->
  (forall s, Check nonce s d = true <-> be_int (Digest nonce s) < 2 ^ (256 - d)) /\
  (forall s, Solve nonce d limit = Some s <->
     exists n, 0 <= n < limit /\ s = itoa n /\ be_int (Digest nonce (itoa n)) < 2 ^ (256 - d) /\
       forall m, 0 <= m < n -> 2 ^ (256 - d) <= be_int (Digest nonce (itoa m))) /\
  (Solve nonce d limit = None <->
     forall m, 0 <= m < limit -> 2 ^ (256 - d) <= be_int (Digest nonce (itoa m))).
Proof.
  intros Hd. assert (Hc : forall s, Check nonce s d = true <-> be_int (Digest nonce s) < 2 ^ (256 - d)).
  { intros s. destruct (digest_bytes nonce s) as [Hb Hl]. unfold Check. rewrite Z.leb_le.
    rewrite (LeadingZeroBits_spec _ d Hb) by (rewrite Hl; lia). rewrite Hl. done. }
  assert (Hn : forall s, Check nonce s d = false <-> 2 ^ (256 - d) <= be_int (Digest nonce s)).
  { intros s. rewrite <- not_true_iff_false, Hc. lia. }
  split; [done|]. pose proof (Solve_from_least nonce d (Z.to_nat limit) 0) as HS. fold (Solve nonce d limit) in HS.
  destruct (Solve nonce d limit) as [s0|].
  - destruct HS as (n & Hnl & -> & Hcn & Hm). setoid_rewrite Hc in Hcn. setoid_rewrite Hn in Hm.
    assert (Hm' : forall m, 0 <= m < Z.of_nat n -> 2 ^ (256 - d) <= be_int (Digest nonce (itoa m))).
    { intros m Hmn. specialize (Hm (Z.to_nat m) ltac:(lia)). by rewrite Z2Nat.id in Hm by lia. }
    split.
    + intros s. split.
      * intros Hs. apply (inj Some) in Hs. rewrite <- Hs. exists (Z.of_nat n). split_and!; [lia..|done|done|done].
      * intros (n' & Hn' & -> & Hlt & Hm2). do 2 f_equal.
        destruct (Z.lt_trichotomy (Z.of_nat n) n') as [H|[H|H]]; [|done|].
        -- specialize (Hm2 (Z.of_nat n) ltac:(lia)). lia.
        -- specialize (Hm' n' ltac:(lia)). lia.
    + split; [done|]. intros H. specialize (H (Z.of_nat n) ltac:(lia)). lia.
  - setoid_rewrite Hn in HS. assert (HS' : forall m, 0 <= m < limit -> 2 ^ (256 - d) <= be_int (Digest nonce (itoa m))).
    { intros m Hm. specialize (HS (Z.to_nat m) ltac:(lia)). by rewrite Z2Nat.id in HS by lia. }
    split; [|done]. intros s. split; [done|]. intros (n & Hnl & _ & Hlt & _). specialize (HS' n Hnl). lia.
Qed.

Lemma check_is_a_target_test_witness : Check "demo" "6" 2 = true /\ be_int (Digest "demo" "6") < 2 ^ 254.
Proof.
  pose proof (proj1 (check_is_a_target_test "demo" 2 100 ltac:(lia)) "6") as H.
  assert (Hc : Check "demo" "6" 2 = true) by (vm_compute; reflexivity).
  split; [exact Hc|exact (proj1 H Hc)].
Defined.

(** ** Verification and the single use of a nonce *)

Section Verification.
Context {S : Type} {R : Redis S} {RL : RedisLaws S} {L : Lua S}.

Definition nonce_key (i : Issuer S) (c : Challenge) : string := Keys.ChallengeKey (eventID i) (Nonce c).

(** What [Verify] tests before it burns the nonce. *)
Definition genuine (i : Issuer S) (c : Challenge) (solution : string) (t : time) : bool :=
  negb (bool_decide (Nonce c = emp)) && negb (bool_decide (Signature c = emp)) && negb (bool_decide (solution = emp))
  && bool_decide (Signature c = sign i (Nonce c) (cDifficulty c) (ExpiresAt c))
  && (1 <=? cDifficulty c) && (cDifficulty c <=? maxDiff i)
  && (UnixMilli t <=? ExpiresAt c) && Check (Nonce c) solution (cDifficulty c).

(** The time to live [burn] asks for. *)
Definition left_ttl (c : Challenge) (t : time) : Z := time_sub (time_UnixMilli (ExpiresAt c)) t.

Definition burned (i : Issuer S) (c : Challenge) (t : time) (s : S) : S * bool :=
  SET_NX (nonce_key i c) "1" (px (left_ttl c t)) s.

Lemma px_pos d : 0 < px d.
Proof. unfold px. lia. Qed.

Lemma burned_spec i c t s :
  (burned i c t s).2 = negb (cell_live (cell_of s (nonce_key i c))) /\
  (forall k, k <> nonce_key i c -> cell_of (burned i c t s).1 k = cell_of s k) /\
  cell_live (cell_of (burned i c t s).1 (nonce_key i c)) = true /\
  ((burned i c t s).2 = false -> forall k, cell_of (burned i c t s).1 k = cell_of s k) /\
  ((burned i c t s).2 = true -> ttl_of (burned i c t s).1 (nonce_key i c) = Some (px (left_ttl c t))).
Proof.
  unfold burned, ttl_of. destruct (SET_NX_law (nonce_key i c) "1" (px (left_ttl c t)) s (px_pos _)) as [Hb Hc]. unfold upd in Hc.
  split_and!; [done|intros k Hk; rewrite Hc; by case_decide|..].
  - rewrite Hc. rewrite decide_True by done. destruct (cell_live (cell_of s _)) eqn:E; [done|]. done.
  - rewrite Hb. intros Hl. apply negb_false_iff in Hl. intros k. rewrite Hc. case_decide; [|done]. subst k. by rewrite Hl.
  - rewrite Hb. intros Hl. apply negb_true_iff in Hl. rewrite Hc, decide_True, Hl by done. done.
Qed.

(** A nonce that is burned again stays as it is, and the answer says so. *)
Lemma burned_again i c t k s :
  (forall x, cell_of (again (burned i c t) (Datatypes.S k) s) x = cell_of (burned i c t s).1 x) /\
  (burned i c t (again (burned i c t) (Datatypes.S k) s)).2 = false.
Proof.
  assert (Hd : forall s', cell_live (cell_of s' (nonce_key i c)) = true -> (burned i c t s').2 = false)
    by (intros s' Hs'; by rewrite (proj1 (burned_spec i c t s')), Hs').
  assert (Hl : cell_live (cell_of (burned i c t s).1 (nonce_key i c)) = true) by apply burned_spec.
  unfold again. induction k as [|k [IHc IHb]]; [by split; [|apply Hd]|]. rewrite Nat.iter_succ.
  assert (Hc : forall x, cell_of (burned i c t (Nat.iter (Datatypes.S k) (fun s => (burned i c t s).1) s)).1 x = cell_of (burned i c t s).1 x).
  { intros x. rewrite <- IHc. by apply (burned_spec i c t). }
  split; [exact Hc|]. apply Hd. by rewrite Hc.
Qed.

(** [burn] on any wire. *)
Lemma burn_cases i c w :
  let o := burn i c w in let t := reading w in
  (o.2 = Ok tt /\ 0 < left_ttl c t /\ db o.1 = (burned i c t (db w)).1 /\ (burned i c t (db w)).2 = true) \/
  (exists e, o.2 = Err e /\ (db o.1 = db w \/ 0 < left_ttl c t /\ forall x, cell_of (db o.1) x = cell_of (burned i c t (db w)).1 x)).
Proof.
  cbv zeta. unfold burn. rewrite (bind_ok _ _ _ _ _ (now_eq w)). cbv zeta. fold (left_ttl c (reading w)). set (t := reading w).
  destruct (left_ttl c t <=? 0) eqn:El.
  { right. eexists. split; [done|]. left. apply ticked_same. }
  bool_to_prop. destruct (ticked_same w) as (Hdb & _). unfold mbind, M_bind, wrapping. fold (nonce_key i c).
  change (SET_NX (nonce_key i c) "1" (px (left_ttl c t))) with (burned i c t).
  destruct (command_spec (burned i c t) (ticked w)) as ((k & _ & Hk & Hans) & _). rewrite Hdb in Hk, Hans.
  destruct (command (burned i c t) (ticked w)) as [w1 [b|e]]; cbn [fst snd] in *.
  - destruct (Hans b eq_refl) as (n & -> & ->). destruct n as [|n].
    + change (again (burned i c t) 0 (db w)) with (db w). change (db w1 = (burned i c t (db w)).1) in Hk.
      destruct (burned i c t (db w)).2 eqn:Eb; unfold mret, M_ret, fail; cbn [negb fst snd]; [left; by split_and!|right]. eexists. split; [done|]. right. by rewrite Hk.
    + right. rewrite (proj2 (burned_again i c t n (db w))). unfold fail; cbn. eexists. split; [done|]. right. split; [done|]. rewrite Hk. apply burned_again.
  - right. eexists. split; [done|]. destruct k as [|k]; [by left|right]. split; [done|]. rewrite Hk. apply burned_again.
Qed.

Lemma Verify_cases i c sol w :
  let o := Verify i c sol w in
  (genuine i c sol (reading w) = false /\ is_ok o.2 = false /\ db o.1 = db w) \/
  (genuine i c sol (reading w) = true /\ o = burn i c (ticked w)).
Proof.
  cbv zeta. unfold Verify, genuine. rewrite <- !negb_orb.
  destruct (bool_decide (Nonce c = emp) || bool_decide (Signature c = emp) || bool_decide (sol = emp)) eqn:E1;
    cbn [negb andb]; [by left|].
  destruct (bool_decide (Signature c = sign _ _ _ _)) eqn:E2; cbn [negb andb]; [|by left].
  destruct (1 <=? cDifficulty c) eqn:E3; destruct (cDifficulty c <=? maxDiff i) eqn:E4; cbn [andb]; bool_to_prop.
  2: { left. rewrite (proj2 (Z.ltb_lt (maxDiff i) _)), orb_true_r by lia. done. }
  2, 3: left; rewrite (proj2 (Z.ltb_lt _ 1)) by lia; done.
  rewrite (proj2 (Z.ltb_ge (cDifficulty c) 1)), (proj2 (Z.ltb_ge (maxDiff i) _)) by lia. cbn [orb].
  rewrite (bind_ok _ _ _ _ _ (now_eq w)).
  destruct (UnixMilli (reading w) <=? ExpiresAt c) eqn:E5; cbn [andb]; bool_to_prop.
  2: { left. rewrite (proj2 (Z.ltb_lt _ _)) by lia. split_and!; [done..|]. apply ticked_same. }
  rewrite (proj2 (Z.ltb_ge _ _)) by lia.
  destruct (Check _ _ _) eqn:E6; cbn [negb]; [by right|]. left. split_and!; [done..|]. apply ticked_same.
Qed.

(** Different fields are signed as different messages. *)
Lemma message_inj (i : Issuer S) n1 d1 e1 n2 d2 e2 :
  message i n1 d1 e1 = message i n2 d2 e2 -> n1 = n2 /\ d1 = d2 /\ e1 = e2.
Proof.
  unfold message. intros H. rewrite !(app_assoc _ (bytes_of (itoa _))) in H || idtac.
  assert (H' : ((bytes_of (eventID i) ++ 0 :: bytes_of n1) ++ 0 :: bytes_of (itoa d1)) ++ 0 :: bytes_of (itoa e1) =
               ((bytes_of (eventID i) ++ 0 :: bytes_of n2) ++ 0 :: bytes_of (itoa d2)) ++ 0 :: bytes_of (itoa e2))
    by (rewrite <- !app_assoc in *; cbn [app] in *; exact H).
  apply cut_last_zero in H' as [H1 He]; [|apply itoa_no_zero..].
  apply cut_last_zero in H1 as [H1 Hd]; [|apply itoa_no_zero..].
  apply app_inv_head in H1. injection H1 as Hn.
  split_and!; [by apply bytes_of_inj|by apply itoa_inj, bytes_of_inj..].
Qed.

Lemma sign_nonempty (i : Issuer S) n d e : sign i n d e <> emp.
Proof.
  apply b64_nonempty. unfold hmac_sha256. intros H. apply (f_equal length) in H. by rewrite sum_length in H.
Qed.

(** A provider that leaves the store as it is. *)
Definition reads_only (p : @DifficultyProvider S) : Prop := forall s w, db (p s w).1 = db w.

Lemma clamp_range (i : Issuer S) d : base i <= maxDiff i -> base i <= clamp i d <= maxDiff i.
Proof. unfold clamp. destruct (d <? base i) eqn:?; destruct (maxDiff i <? d) eqn:?; bool_to_prop; lia. Qed.

Lemma Issue_spec i s w : reads_only (provider i) ->
  let o := Issue i s w in
  db o.1 = db w /\
  (forall c, base i <= maxDiff i -> o.2 = Ok c -> base i <= cDifficulty c <= maxDiff i /\ Signature c = sign i (Nonce c) (cDifficulty c) (ExpiresAt c)).
Proof.
  intros Hp. cbv zeta. unfold Issue, try, mbind, M_bind, wrapping. specialize (Hp s w).
  destruct (provider i s w) as [w1 [d|e]]; cbn [fst snd] in *; unfold rand_Read;
    destruct (entropy w1) as [|[raw|] rest]; cbn [fst snd db]; try (by split); rewrite now_eq; cbn [fst snd];
    (split; [etransitivity; [apply ticked_same|done]|]); intros c Hb H; injection H as <-;
    cbn [cDifficulty Signature Nonce ExpiresAt]; (split; [by apply clamp_range|done]).
Qed.

Lemma Verify_accepts i c sol w : genuine i c sol (reading w) = true -> wire w = [] ->
  cell_live (cell_of (db w) (nonce_key i c)) = false ->
  reading (ticked w) < time_UnixMilli (ExpiresAt c) -> (Verify i c sol w).2 = Ok tt.
Proof.
  intros Hg Hw Hk Ht. destruct (Verify_cases i c sol w) as [(? & _)|[_ ->]]; [congruence|].
  destruct (ticked_same w) as (Hdb & _ & Hwi & _). unfold burn. rewrite (bind_ok _ _ _ _ _ (now_eq _)). cbv zeta.
  assert (Hl : 0 < left_ttl c (reading (ticked w))).
  { unfold left_ttl, time_sub, minDuration, maxDuration, two63. lia. }
  unfold left_ttl in Hl. rewrite (proj2 (Z.leb_gt _ _)) by lia.
  destruct (ticked_same (ticked w)) as (Hdb2 & _ & Hwi2 & _).
  destruct (burned_spec i c (reading (ticked w)) (db w)) as (Hn & _). rewrite Hk in Hn.
  fold (left_ttl c (reading (ticked w))). fold (nonce_key i c).
  change (SET_NX (nonce_key i c) "1" (px (left_ttl c (reading (ticked w))))) with (burned i c (reading (ticked w))). unfold mbind, M_bind, wrapping.
  destruct (command_spec (burned i c (reading (ticked w))) (ticked (ticked w))) as (_ & _ & _ & _ & _ & Hh).
  destruct (Hh ltac:(congruence)) as (_ & _ & E). rewrite Hdb2, Hdb, Hn in E.
  destruct (command _ _) as [w1 r]; cbn [fst snd] in *. by rewrite E.
Qed.

Lemma Verify_effect i c sol w :
  let o := Verify i c sol w in let k := nonce_key i c in
  (o.2 = Ok tt \/ (exists k', cell_of (db o.1) k' <> cell_of (db w) k') ->
     genuine i c sol (reading w) = true /\ cell_live (cell_of (db w) k) = false) /\
  (forall k', k' <> k -> cell_of (db o.1) k' = cell_of (db w) k') /\
  (o.2 = Ok tt -> exists ttl, 0 < ttl /\ ttl_of (db o.1) k = Some ttl /\ cell_live (cell_of (db o.1) k) = true).
Proof.
  cbv zeta. destruct (Verify_cases i c sol w) as [(Hg & Hf & Hdb)|[Hg Ho]].
  { rewrite Hdb. destruct (Verify i c sol w) as [w1 [[]|e]]; cbn [fst snd is_ok] in *; [done|].
    split_and!; [intros [?|[k' ?]]; done|done|done]. }
  rewrite Ho. destruct (ticked_same w) as (Hdb & _). pose proof (burn_cases i c (ticked w)) as Hb. cbv zeta in Hb. rewrite Hdb in Hb.
  destruct (burned_spec i c (reading (ticked w)) (db w)) as (Hn & Hfr & Hlv & Hsame & Httl).
  destruct Hb as [(Hok & Hl & Hst & Hb)|(e & He & [Hst|[Hl Hst]])]; [rewrite Hst..|].
  - rewrite Hn in Hb. split_and!.
    + intros _. split; [done|by apply negb_true_iff].
    + done.
    + intros _. exists (px (left_ttl c (reading (ticked w)))). split_and!; [apply px_pos| |done].
      apply Httl. by rewrite Hn.
  - rewrite He. split_and!; [intros [?|[k' ?]]; done|done|done].
  - rewrite He. split_and!; [|intros k' Hk'; rewrite Hst; by apply Hfr|done]. intros [?|[k' Hk']]; [done|]. split; [done|].
    destruct (burned i c (reading (ticked w)) (db w)).2 eqn:Eb.
    + rewrite Hn in Eb. by apply negb_true_iff.
    + exfalso. apply Hk'. rewrite Hst. by apply Hsame.
Qed.

(** The adaptive provider only reads. *)
Lemma worse_reads_only d worst subject (w : world S) : db (worse d worst subject w).1 = db w.
Proof.
  unfold worse. case_decide; [done|]. unfold mbind, M_bind, try, Get, mret, M_ret. cbn [fst snd].
  destruct (command_spec (fun s => (s, GET (Keys.Suspicion (Difficulty.eventID d) subject) s)) w) as ((k & _ & Hk & _) & _). rewrite Hk.
  unfold again. clear Hk. induction k as [|k IH]; [done|]. by rewrite Nat.iter_succ, IH.
Qed.

Lemma Difficulty_reads_only d : reads_only (Difficulty_ d).
Proof.
  intros s w. unfold Difficulty_, mbind, M_bind.
  pose proof (worse_reads_only d 0 (FPHash s) w) as H1. destruct (worse d 0 (FPHash s) w) as [w1 [n1|e]]; cbn [fst] in *; [|done].
  pose proof (worse_reads_only d n1 (IPPrefix s) w1) as H2. destruct (worse d n1 (IPPrefix s) w1) as [w2 [n2|e]]; cbn [fst] in *;
    exact (eq_trans H2 H1).
Qed.

(** C30: an issued puzzle can be redeemed, and only as it was issued.  Issuing writes
    nothing to the store and asks for a difficulty between the configured bounds; any
    solution of the puzzle, handed in before the expiry on a healthy connection with the
    nonce still unused, is accepted; and a puzzle accepted under the same signature has the
    issued nonce, difficulty and expiry, unless the message its fields make, which then is
    not the issued message, has the MAC of the issued message under the issuer's key. *)
Theorem issued_puzzle_verifies (i : Issuer S) (s : Subject) (w : world S) c :
  reads_only (provider i) -> 1 <= base i <= maxDiff i -> (Issue i s w).2 = Ok c -> Nonce c <> emp ->
  db (Issue i s w).1 = db w /\ base i <= cDifficulty c <= maxDiff i /\
  (forall sol w2, sol <> emp -> Check (Nonce c) sol (cDifficulty c) = true -> wire w2 = [] ->
     cell_live (cell_of (db w2) (nonce_key i c)) = false ->
     reading w2 < time_UnixMilli (ExpiresAt c) -> reading (ticked w2) < time_UnixMilli (ExpiresAt c) ->
     (Verify i c sol w2).2 = Ok tt) /\
  (forall c' sol w2, Signature c' = Signature c -> (Verify i c' sol w2).2 = Ok tt ->
     (Nonce c', cDifficulty c', ExpiresAt c') = (Nonce c, cDifficulty c, ExpiresAt c) \/
     let forged := message i (Nonce c') (cDifficulty c') (ExpiresAt c') in
     let issued := message i (Nonce c) (cDifficulty c) (ExpiresAt c) in
     forged <> issued /\ b64_encode (hmac_sha256 (key i) forged) = b64_encode (hmac_sha256 (key i) issued)).
Proof.
  intros Hp Hb HI Hn. destruct (Issue_spec i s w Hp) as [Hdb Hc]. destruct (Hc c (proj2 Hb) HI) as [Hd Hs].
  split_and!; [done|lia|lia|..].
  - intros sol w2 Hsol Hck Hw Hk Ht1 Ht2. apply Verify_accepts; [|done..]. unfold genuine.
    rewrite !bool_decide_eq_false_2 by (rewrite ?Hs; try apply sign_nonempty; done). rewrite bool_decide_eq_true_2 by done.
    rewrite !(proj2 (Z.leb_le _ _)); [by rewrite Hck| |lia|lia].
    unfold UnixMilli, time_UnixMilli in *. apply Z.lt_le_incl, Z.div_lt_upper_bound; lia.
  - intros c' sol w2 Hsig Hok. destruct (Verify_effect i c' sol w2) as [HE _].
    destruct (HE (or_introl Hok)) as [Hg _]. unfold genuine in Hg. bool_to_prop.
    match goal with H : Signature c' = sign _ _ _ _ |- _ => rename H into Hs' end. rewrite Hs', Hs in Hsig.
    destruct (decide (message i (Nonce c') (cDifficulty c') (ExpiresAt c') = message i (Nonce c) (cDifficulty c) (ExpiresAt c))) as [E|E].
    + left. apply message_inj in E as (-> & -> & ->). done.
    + right. by split.
Qed.

(** C31: a puzzle is spent once.  Whatever the connection does, verification changes the
    store only at the key of the nonce, only when every check passed and the nonce was
    unused; after a success that key is set, and until its time to live runs out no further
    verification of the nonce succeeds, with whatever solution. *)
Theorem puzzle_is_spent_once (i : Issuer S) c sol (w : world S) :
  let o := Verify i c sol w in let k := nonce_key i c in
  (o.2 = Ok tt \/ (exists k', cell_of (db o.1) k' <> cell_of (db w) k') ->
     genuine i c sol (reading w) = true /\ cell_live (cell_of (db w) k) = false) /\
  (forall k', k' <> k -> cell_of (db o.1) k' = cell_of (db w) k') /\
  (o.2 = Ok tt -> exists ttl, 0 < ttl /\ ttl_of (db o.1) k = Some ttl /\
     forall d c2 sol2 w2, d < ttl -> db w2 = ELAPSE d (db o.1) -> Nonce c2 = Nonce c -> (Verify i c2 sol2 w2).2 <> Ok tt).
Proof.
  cbv zeta. destruct (Verify_effect i c sol w) as (HE & Hfr & Hok). split_and!; [done..|].
  intros Ho. destruct (Hok Ho) as (ttl & Hpos & Httl & Hlive). exists ttl. split_and!; [done..|].
  intros d c2 sol2 w2 Hd Hdb Hn Hr. destruct (Verify_effect i c2 sol2 w2) as (HE2 & _).
  destruct (HE2 (or_introl Hr)) as [_ Hdead]. rewrite Hdb in Hdead. unfold nonce_key in *. rewrite Hn, ELAPSE_law in Hdead.
  unfold ttl_of in Httl. rewrite Httl, (proj2 (Z.leb_gt _ _)) in Hdead by lia.
  enough (true = false) by done. rewrite <- Hlive. exact Hdead.
Qed.

End Verification.

(** ** A concrete issuer *)

Import MemStore MemLua.

Definition demo_issuer : Issuer MemStore.mem :=
  MkIssuer (bytes_of "a demo key") "show" (2 * Minute) 4 2 20 (Fixed 2).

Definition demo_world (s : MemStore.mem) (t : time) : world MemStore.mem := World s [] [] [t] [Some [222; 173; 190; 239]] ∅.

Definition demo_puzzle : Challenge :=
  match (Issue demo_issuer (MkSubject emp emp 0) (demo_world ∅ 0)).2 with Ok c => c | Err _ => MkChallenge emp 0 0 emp emp end.

Definition demo_solution : string := default emp (Solve (Nonce demo_puzzle) 2 100).

Lemma issued_puzzle_verifies_witness :
  (Verify demo_issuer demo_puzzle demo_solution (demo_world ∅ Minute)).2 = Ok tt.
Proof.
  assert (HI : (Issue demo_issuer (MkSubject emp emp 0) (demo_world ∅ 0)).2 = Ok demo_puzzle) by (vm_compute; reflexivity).
  assert (Hp : reads_only (provider demo_issuer)) by (intros s w; reflexivity).
  assert (Hb : 1 <= base demo_issuer <= maxDiff demo_issuer) by (cbn; lia).
  assert (Hn : Nonce demo_puzzle <> emp) by (vm_compute; congruence).
  destruct (issued_puzzle_verifies demo_issuer (MkSubject emp emp 0) (demo_world ∅ 0) demo_puzzle Hp Hb HI Hn) as (_ & _ & H & _).
  apply H; vm_compute; congruence.
Defined.

Lemma puzzle_is_spent_once_witness :
  (Verify demo_issuer demo_puzzle "0"
    (demo_world (ELAPSE 1000 (db (Verify demo_issuer demo_puzzle demo_solution (demo_world ∅ Minute)).1)) (Minute + Second))).2 <> Ok tt.
Proof.
  destruct (puzzle_is_spent_once demo_issuer demo_puzzle demo_solution (demo_world ∅ Minute)) as (_ & _ & H).
  destruct H as (ttl & _ & Httl & H); [vm_compute; reflexivity|].
  assert (Ht : Some ttl = Some 60000) by (rewrite <- Httl; vm_compute; reflexivity).
  apply (inj Some) in Ht. apply (H 1000); [lia|reflexivity|reflexivity].
Defined.

(** The time to live is the time left in whole milliseconds, so the key of a nonce can
    expire a fraction of a millisecond before the puzzle: within that fraction the same
    solution is accepted a second time. *)
Definition last_moment : time := 2 * Minute - 1500000.

Example replay_in_the_last_millisecond :
  let first := Verify demo_issuer demo_puzzle demo_solution (demo_world ∅ last_moment) in
  let again := Verify demo_issuer demo_puzzle demo_solution
                 (demo_world (ELAPSE 1 (db first.1)) (last_moment + 1000000)) in
  first.2 = Ok tt /\ again.2 = Ok tt.
Proof. vm_compute. done. Qed.

(** A burn whose answer is lost is sent again, and the solution is refused as a replay. *)
Example lost_answer_is_a_replay :
  let o := Verify demo_issuer demo_puzzle demo_solution (World ∅ [] [WLost false "i/o timeout"] [Minute] [] ∅) in
  o.2 = Err (ErrNew ErrReplay) /\ cell_live (cell_of (db o.1) (nonce_key demo_issuer demo_puzzle)) = true.
Proof. split; vm_compute; reflexivity. Qed.

End Challenge.
