(* ===== verification/Token.v ===== *)
(** * Queue and entry tokens

    [internal/token/token.go]: identifiers, the signed claims, their checks in order and the
    soft binding to a device and a network.

    The JWT library is not part of the repository: [Jwt] is what this package calls of it
    and [JwtLaws] its documented behaviour.  [TestJwt] is a signed text format that satisfies
    the laws, on which concrete runs evaluate. *)

From S2P Require Import Prelude.
From S2P Require Import Go.
From S2P Require Import Redis.
From S2P Require Import Config.
From S2P Require Import Shard.
From S2P Require Import Conn.
From S2P Require Import QueueStore.
From S2P Require Import Crypto.
Local Open Scope string_scope.
Local Open Scope Z_scope.
Local Open Scope list_scope.

Module Token.

Definition idBytes : nat := 16.

(** [NewID]: [rand.Read] fills the whole array it is given. *)
Definition NewID {S} : M S string :=
  b ← wrapping "token: new id" rand_Read;
  mret (b64_encode (take idBytes (b ++ replicate idBytes 0))).

(** ** Kinds, reasons, claims *)

Definition KindQueue : string := "queue".
Definition KindEntry : string := "entry".

Definition ErrMalformed : string := "token: malformed".
Definition ErrSignature : string := "token: bad signature".
Definition ErrExpired : string := "token: expired".
Definition ErrKind : string := "token: wrong kind".
Definition ErrEvent : string := "token: wrong event".
Definition ErrFPMismatch : string := "token: fingerprint mismatch".
Definition ErrIPMismatch : string := "token: ip prefix mismatch".
Definition ErrIncomplete : string := "token: missing required claim".
Definition ErrNoSigingKey : string := "token: signing key is required".

Definition Reason (err : option error) : string :=
  match err with
  | None => "ok"
  | Some e =>
      if errors_Is e ErrExpired then "expired"
      else if errors_Is e ErrSignature then "bad_signature"
      else if errors_Is e ErrKind then "wrong_kind"
      else if errors_Is e ErrEvent then "wrong_event"
      else if errors_Is e ErrFPMismatch then "fp_mismatch"
      else if errors_Is e ErrIPMismatch then "ip_mismatch"
      else if errors_Is e ErrIncomplete then "incomplete"
      else "malformed"
  end.

Record Claims := MkClaims {
  Kind : string;
  EventID : string;
  TokenID : string;
  JTI : string;
  Shard : string;
  FPHash : string;
  IPPrefix : string;
  IssuedAt : time;
  ExpiresAt : time
}.

(** What is serialised: the registered claims and the private ones.  A numeric date is a
    whole number of seconds, or absent. *)
Record registered := MkRegistered {
  rIssuer : string;
  rSubject : string;
  rID : string;
  rIssuedAt : option time;
  rExpiresAt : option time;
  rKind : string;
  rEventID : string;
  rTokenID : string;
  rShard : string;
  rFPHash : string;
  rIPPrefix : string
}.

#[export] Instance registered_eq_dec : EqDecision registered.
Proof. solve_decision. Defined.

(** ** The JWT library *)

Definition ErrTokenExpired : string := "token is expired".
Definition ErrTokenSignatureInvalid : string := "token signature is invalid".
Definition ErrTokenUnverifiable : string := "token is unverifiable".

(** [jwt_sign key claims] is [NewWithClaims(HS256, claims).SignedString(key)];
    [jwt_parse key now raw] is [ParseWithClaims] with the options of [Verify]: HS256 only, an
    expiry is required and compared with [now]. *)
Class Jwt := {
  jwt_sign : list Z -> registered -> result string;
  jwt_parse : list Z -> time -> string -> result registered
}.

(** Text that JSON carries unchanged, and dates a JSON number carries exactly. *)
Definition ascii_text (s : string) : bool := forall_chars (fun c => byte_of c <? 128) s.

Definition texts (rc : registered) : list string :=
  [rIssuer rc; rSubject rc; rID rc; rKind rc; rEventID rc; rTokenID rc; rShard rc; rFPHash rc; rIPPrefix rc].

Definition whole_seconds (t : option time) : bool :=
  match t with
  | Some t => (t mod Second =? 0) && (0 <=? t) && (t <? 9007199254740992 * Second)
  | None => true
  end.

Definition portable (rc : registered) : bool :=
  forallb ascii_text (texts rc) && whole_seconds (rIssuedAt rc) && whole_seconds (rExpiresAt rc).

Class JwtLaws `{Jwt} := {
  sign_total key rc : portable rc = true -> is_ok (jwt_sign key rc) = true;
  (** a signed token is read back until it expires, and refused as expired afterwards *)
  parse_sign key now rc raw e : portable rc = true -> rExpiresAt rc = Some e -> jwt_sign key rc = Ok raw ->
    if now <? e then jwt_parse key now raw = Ok rc
    else exists err, jwt_parse key now raw = Err err /\ errors_Is err ErrTokenExpired = true;
  (** what is read back has an expiry in the future *)
  parse_fresh key now raw rc : jwt_parse key now raw = Ok rc -> exists e, rExpiresAt rc = Some e /\ now < e
}.

(** [jwt.NewNumericDate] and [Time.Truncate(time.Second)]. *)
Definition Truncate (t : time) (d : Z) : time := t - t mod d.

Definition NewNumericDate (t : time) : option time := Some (Truncate t Second).

(** ** The issuer *)

Record Issuer := MkIssuer {
  key : list Z;
  issuer : string;
  queueTTL : Z;
  entryTTL : Z
}.

Definition NewIssuer (cfg : Cfg.Token.t) : result Issuer :=
  if Cfg.Secret_IsZero (Cfg.Token.SigningKey cfg) then Err (ErrNew ErrNoSigingKey)
  else if (Cfg.Token.QueueTTL cfg <=? 0) || (Cfg.Token.EntryTTL cfg <=? 0) then Err (ErrNew "token: ttl must be > 0")
  else Ok (MkIssuer (Cfg.Bytes (Cfg.Token.SigningKey cfg)) (Cfg.Token.Issuer cfg) (Cfg.Token.QueueTTL cfg)
             (Cfg.Token.EntryTTL cfg)).

Record Binding := MkBinding { boundFP : string; boundIP : string }.

Section Methods.
Context {S : Type} {J : Jwt}.
Variable i : Issuer.

Definition TTL (kind : string) : Z := if decide (kind = KindEntry) then entryTTL i else queueTTL i.

Definition registered_of (c : Claims) : registered :=
  MkRegistered (issuer i) (TokenID c) (JTI c) (NewNumericDate (IssuedAt c)) (NewNumericDate (ExpiresAt c))
    (Kind c) (EventID c) (TokenID c) (Shard c) (FPHash c) (IPPrefix c).

Definition with_times (c : Claims) (iat exp : time) : Claims :=
  MkClaims (Kind c) (EventID c) (TokenID c) (JTI c) (Shard c) (FPHash c) (IPPrefix c) iat exp.

Definition Issue (c : Claims) : M S (string * Claims) :=
  if decide (EventID c = emp \/ TokenID c = emp \/ JTI c = emp \/ Shard c = emp) then fail (ErrNew ErrIncomplete)
  else if decide (Kind c <> KindQueue /\ Kind c <> KindEntry) then fail (ErrNew ErrKind)
  else
    t ← now;
    let n := Truncate t Second in
    let c := with_times c n (time_add n (TTL (Kind c))) in
    signed ← wrapping "token: sign" (lift (jwt_sign (key i) (registered_of c)));
    mret (signed, c).

Definition claims_of (rc : registered) : Claims :=
  MkClaims (rKind rc) (rEventID rc) (rTokenID rc) (rID rc) (rShard rc) (rFPHash rc) (rIPPrefix rc)
    (default zero_time (rIssuedAt rc)) (default zero_time (rExpiresAt rc)).

(** The library reads the clock once, after the signature. *)
Definition Verify (raw kind eventID : string) : M S Claims :=
  t ← now;
  match jwt_parse (key i) t raw with
  | Err err =>
      if errors_Is err ErrTokenExpired then fail (ErrNew ErrExpired)
      else if errors_Is err ErrTokenSignatureInvalid || errors_Is err ErrTokenUnverifiable then fail (ErrNew ErrSignature)
      else fail (ErrBoth (ErrNew ErrMalformed) err)
  | Ok rc =>
      if decide (rKind rc <> kind) then fail (ErrNew ErrKind)
      else if decide (eventID <> emp /\ rEventID rc <> eventID) then fail (ErrNew ErrEvent)
      else if decide (rTokenID rc = emp \/ rShard rc = emp \/ rID rc = emp) then fail (ErrNew ErrIncomplete)
      else mret (claims_of rc)
  end.

(** Beside a mismatch the source returns the claims too; the handlers that get them look at
    the error alone. *)
Definition VerifyBound (raw kind eventID : string) (b : Binding) : M S Claims :=
  c ← Verify raw kind eventID;
  if decide (FPHash c <> emp /\ boundFP b <> emp /\ FPHash c <> boundFP b) then fail (ErrNew ErrFPMismatch)
  else if decide (IPPrefix c <> emp /\ boundIP b <> emp /\ IPPrefix c <> boundIP b) then fail (ErrNew ErrIPMismatch)
  else mret c.

End Methods.

(** ** Lemmas *)

Lemma Truncate_mod t d : 0 < d -> Truncate t d mod d = 0.
Proof. intros Hd. unfold Truncate. rewrite Zminus_mod, Zmod_mod, Z.sub_diag. apply Z.mod_0_l. lia. Qed.

Lemma Truncate_range t d : 0 < d -> t - d < Truncate t d <= t.
Proof. intros Hd. unfold Truncate. pose proof (Z.mod_pos_bound t d Hd). lia. Qed.

Lemma Truncate_id t d : t mod d = 0 -> Truncate t d = t.
Proof. unfold Truncate. intros ->. lia. Qed.

Lemma Truncate_nonneg t d : 0 < d -> 0 <= t -> 0 <= Truncate t d.
Proof. intros. unfold Truncate. pose proof (Z.mod_le t d ltac:(lia) ltac:(lia)). lia. Qed.

Lemma b64_length bs : (String.length (b64_encode bs) <= 2 * length bs)%nat.
Proof.
  remember (length bs) as n eqn:Hn. revert bs Hn. induction n as [n IH] using lt_wf_ind. intros bs ->.
  destruct bs as [|a [|b [|c rest]]]; cbn [b64_encode String.length length]; try lia.
  specialize (IH (length rest) ltac:(cbn; lia) rest eq_refl). lia.
Qed.

(** The random source delivers bytes. *)
Definition byte_source (e : list (option (list Z))) : Prop :=
  Forall (fun o => match o with Some bs => Forall is_byte bs | None => True end) e.

(** A fresh identifier is one the queue accepts. *)
Lemma NewID_valid {S} (w : world S) id : byte_source (entropy w) -> (NewID w).2 = Ok id -> Queue.validID id = true.
Proof.
  unfold NewID, mbind, M_bind, wrapping, rand_Read. intros He.
  destruct (entropy w) as [|[b|] rest]; cbn [fst snd]; [done| |done]. intros H. apply (f_equal (fun r => match r with Ok x => x | Err _ => emp end)) in H. cbn [mret M_ret snd] in H. subst id.
  apply list.Forall_cons in He as [Hb _]. set (bs := take idBytes (b ++ replicate idBytes 0)).
  assert (Hbs : Forall is_byte bs).
  { apply list.Forall_take, list.Forall_app. split; [done|]. apply list.Forall_replicate. done. }
  assert (Hl : length bs = 16%nat).
  { unfold bs. rewrite length_take, length_app, length_replicate. unfold idBytes. lia. }
  unfold Queue.validID. pose proof (b64_length bs) as Hlen. rewrite Hl in Hlen.
  assert (Hne : b64_encode bs <> emp) by (apply b64_nonempty; destruct bs; [cbn in Hl; lia|done]).
  rewrite bool_decide_eq_false_2 by done.
  unfold Queue.maxIDLen. rewrite (proj2 (Nat.ltb_ge _ _)) by lia. cbn [orb].
  eapply forall_chars_impl; [|by apply b64_encode_alphabet]. unfold b64_alphabet, Queue.id_char. intros c Hc.
  rewrite !orb_true_iff in *. tauto.
Qed.

Lemma NewID_db {S} (w : world S) : db (NewID w).1 = db w /\ wire (NewID w).1 = wire w /\ cached (NewID w).1 = cached w.
Proof. unfold NewID, mbind, M_bind, wrapping, rand_Read. by destruct (entropy w) as [|[b|] rest]. Qed.

(** ** A token format that satisfies the laws: the claims as a number, a dot, and the MAC *)

Module TestJwt.

Definition payload (rc : registered) : string := itoa (Zpos (encode (texts rc, (rIssuedAt rc, rExpiresAt rc)))).

Definition read_payload (s : string) : option registered :=
  z ← parse_dec s;
  match z with
  | Zpos p =>
      x ← decode (A := list string * (option Z * option Z)) p;
      match x.1 with
      | [a1; a2; a3; a4; a5; a6; a7; a8; a9] => Some (MkRegistered a1 a2 a3 x.2.1 x.2.2 a4 a5 a6 a7 a8 a9)
      | _ => None
      end
  | _ => None
  end.

Fixpoint split_dot (s : string) : option (string * string) :=
  match s with
  | EmptyString => None
  | String c s' =>
      if decide (c = "."%char) then Some (EmptyString, s')
      else r ← split_dot s'; Some (String c r.1, r.2)
  end.

Definition tag (key : list Z) (p : string) : string := b64_encode (hmac_sha256 key (bytes_of p)).

Definition sign (key : list Z) (rc : registered) : result string :=
  Ok (payload rc +:+ String "." (tag key (payload rc))).

Definition parse (key : list Z) (now : time) (raw : string) : result registered :=
  match split_dot raw with
  | None => Err (ErrNew "token is malformed")
  | Some (p, t) =>
      if decide (t <> tag key p) then Err (ErrNew ErrTokenSignatureInvalid)
      else match read_payload p with
           | None => Err (ErrNew "token is malformed")
           | Some rc =>
               match rExpiresAt rc with
               | None => Err (ErrNew "token is missing required claim")
               | Some e => if now <? e then Ok rc else Err (ErrNew ErrTokenExpired)
               end
           end
  end.

#[export] Instance test_jwt : Jwt := {| jwt_sign := sign; jwt_parse := parse |}.

Lemma split_dot_app p t : forall_chars Shard.Ids.is_digit p = true -> split_dot (p +:+ String "." t) = Some (p, t).
Proof.
  induction p as [|c p IH]; cbn -[String.append]; intros H; [done|]. apply andb_true_iff in H as [Hc Hp].
  rewrite str_app_cons. cbn -[String.append]. case_decide as Hd; [by subst c|]. by rewrite IH.
Qed.

Lemma read_payload_ok rc : read_payload (payload rc) = Some rc.
Proof. unfold read_payload, payload. rewrite parse_itoa. cbn -[encode decode]. rewrite decode_encode. by destruct rc. Qed.

#[export] Instance test_jwt_laws : @JwtLaws test_jwt.
Proof.
  split.
  - done.
  - intros key now rc raw e _ He Hs. cbn in Hs. injection Hs as <-. cbn -[String.append tag payload].
    unfold parse. rewrite split_dot_app by (apply Shard.Ids.itoa_digits; lia).
    rewrite decide_False by naive_solver. rewrite read_payload_ok, He. destruct (now <? e); [done|].
    eexists. split; [reflexivity|]. by apply bool_decide_eq_true_2.
  - intros key now raw rc. cbn. unfold parse. destruct (split_dot raw) as [[p t]|]; [|done]. case_decide; [done|].
    destruct (read_payload p) as [rc'|]; [|done]. destruct (rExpiresAt rc') as [e|] eqn:He; [|done].
    destruct (now <? e) eqn:Hlt; [|done]. intros Hr. injection Hr as <-. exists e. split; [done|by apply Z.ltb_lt].
Qed.

End TestJwt.

(** ** What a token is worth *)

Section Roundtrip.
Context {S : Type} {J : Jwt} {JL : JwtLaws}.

(** The answer [VerifyBound] owes to a token issued with claims [c]. *)
Definition expected (c : Claims) (kind ev : string) (b : Binding) (now : time) : result Claims :=
  if Truncate (ExpiresAt c) Second <=? now then Err (ErrNew ErrExpired)
  else if decide (Kind c <> kind) then Err (ErrNew ErrKind)
  else if decide (ev <> emp /\ EventID c <> ev) then Err (ErrNew ErrEvent)
  else if decide (FPHash c <> emp /\ boundFP b <> emp /\ FPHash c <> boundFP b) then Err (ErrNew ErrFPMismatch)
  else if decide (IPPrefix c <> emp /\ boundIP b <> emp /\ IPPrefix c <> boundIP b) then Err (ErrNew ErrIPMismatch)
  else Ok (with_times c (IssuedAt c) (Truncate (ExpiresAt c) Second)).

Definition ascii_claims (i : Issuer) (c : Claims) : bool :=
  forallb ascii_text [issuer i; TokenID c; JTI c; Kind c; EventID c; Shard c; FPHash c; IPPrefix c].

(** The dates of this century and the next few. *)
Definition sane (i : Issuer) (t : time) : Prop :=
  0 <= t < 4503599627370496 * Second /\ 0 <= queueTTL i < 4503599627370496 * Second /\
  0 <= entryTTL i < 4503599627370496 * Second.

Lemma Issue_ok i c (w : world S) raw c' : (Issue i c w).2 = Ok (raw, c') ->
  EventID c <> emp /\ TokenID c <> emp /\ JTI c <> emp /\ Shard c <> emp /\ (Kind c = KindQueue \/ Kind c = KindEntry) /\
  c' = with_times c (Truncate (reading w) Second) (time_add (Truncate (reading w) Second) (TTL i (Kind c))) /\
  jwt_sign (key i) (registered_of i c') = Ok raw.
Proof.
  unfold Issue. case_decide as Hne; [done|]. case_decide as Hk; [done|]. rewrite (bind_ok _ _ _ _ _ (now_eq w)). cbv zeta.
  set (c1 := with_times _ _ _). unfold mbind, M_bind, wrapping, lift. destruct (jwt_sign (key i) (registered_of i c1)) as [r|e] eqn:Es; [|done].
  intros H. change (Ok (r, c1) = Ok (raw, c')) in H. injection H as <- <-.
  destruct (decide (Kind c = KindQueue)); destruct (decide (Kind c = KindEntry)); split_and!; try done; try tauto.
Qed.

Lemma portable_of i c n : ascii_claims i c = true -> sane i n ->
  portable (registered_of i (with_times c (Truncate n Second) (time_add (Truncate n Second) (TTL i (Kind c))))) = true.
Proof.
  intros Ha (Hn & Hq & He). unfold portable. rewrite !andb_true_iff. unfold ascii_claims in Ha. cbn in Ha |- *.
  rewrite !andb_true_iff in *. split_and!; try tauto; rewrite ?Z.eqb_eq, ?Z.leb_le, ?Z.ltb_lt; try done; try tauto.
  all: assert (Hs : 0 < Second) by done; pose proof (Truncate_nonneg n Second Hs ltac:(lia)); pose proof (Truncate_range n Second Hs).
  all: set (m := Truncate n Second) in *.
  all: try (rewrite Truncate_mod by done; done).
  - apply Truncate_nonneg; lia.
  - pose proof (Truncate_range m Second Hs). lia.
  - apply Truncate_nonneg; [lia|]. unfold time_add, TTL. case_decide; lia.
  - pose proof (Truncate_range (time_add m (TTL i (Kind c))) Second Hs). unfold time_add, TTL in *. case_decide; lia.
Qed.

(** C33: a token is worth what was signed, for as long as it was signed for.  For every
    issued token, and whoever presents it at whatever time: it is refused as expired from
    its expiry (in whole seconds) on; before, it is refused for another purpose than its own,
    for another event, and from a device or network that both sides name and that differ;
    otherwise its claims come back as issued.  Neither call writes to the store. *)
Theorem token_is_worth_what_was_signed i c (w : world S) raw c' :
  ascii_claims i c = true -> sane i (reading w) -> (Issue i c w).2 = Ok (raw, c') ->
  db (Issue i c w).1 = db w /\
  (IssuedAt c', ExpiresAt c') = (Truncate (reading w) Second, Truncate (reading w) Second + TTL i (Kind c)) /\
  forall kind ev b (w2 : world S),
    db (VerifyBound i raw kind ev b w2).1 = db w2 /\
    (VerifyBound i raw kind ev b w2).2 = expected c' kind ev b (reading w2).
Proof.
  intros Ha Hs HI. destruct (Issue_ok _ _ _ _ _ HI) as (Hev & Htid & Hjti & Hsh & Hk & -> & Hsg). split_and!.
  - unfold Issue. repeat case_decide; try done. rewrite (bind_ok _ _ _ _ _ (now_eq w)). cbv zeta.
    unfold mbind, M_bind, wrapping, lift. destruct (jwt_sign _ _); apply ticked_same.
  - done.
  - intros kind ev b w2. set (c' := with_times _ _ _) in *.
    assert (Hp : portable (registered_of i c') = true) by (by apply portable_of).
    pose proof (parse_sign (key i) (reading w2) (registered_of i c') raw (Truncate (ExpiresAt c') Second) Hp eq_refl Hsg) as Hparse.
    assert (Hiat : Truncate (IssuedAt c') Second = IssuedAt c') by (cbn; apply Truncate_id, Truncate_mod; done).
    unfold VerifyBound, Verify, expected. unfold mbind, M_bind. rewrite now_eq. rewrite Z.ltb_antisym in Hparse.
    destruct (Truncate (ExpiresAt c') Second <=? reading w2); cbn [negb] in Hparse.
    { destruct Hparse as (err & -> & ->). split; [apply ticked_same|done]. }
    rewrite Hparse. cbn [registered_of rKind rEventID rTokenID rShard rID].
    pose proof (proj1 (ticked_same w2)) as Hdb. destruct (ticked w2) as [d ca wi cl en re] eqn:Ew. cbn [db] in Hdb. subst d.
    repeat (case_decide; [by split|]). rewrite decide_False by tauto.
    assert (Hcl : claims_of (registered_of i c') = with_times c' (IssuedAt c') (Truncate (ExpiresAt c') Second)).
    { unfold claims_of, registered_of, NewNumericDate. cbn [rIssuedAt default from_option id]. by rewrite Hiat. }
    rewrite Hcl. unfold mret, M_ret. cbn [FPHash IPPrefix with_times].
    repeat (case_decide; [by split|]). by split.
Qed.

End Roundtrip.

(** ** A concrete issuer *)

Definition demo_tokens : Issuer := MkIssuer (bytes_of "another demo key") "shardgate" (2 * Hour) (5 * Minute).

Definition demo_claims : Claims := MkClaims KindQueue "show" "ann" "ann" "s0001" "fp1" "10.0.0.0/24" 0 0.

Definition demo_process (t : time) : world unit := World tt [] [] [t] [] ∅.

Definition demo_token : string * Claims :=
  match (Issue (J := TestJwt.test_jwt) demo_tokens demo_claims (demo_process Hour)).2 with
  | Ok r => r
  | Err _ => (emp, demo_claims)
  end.

Lemma token_is_worth_what_was_signed_witness :
  (VerifyBound (J := TestJwt.test_jwt) demo_tokens demo_token.1 KindQueue "show" (MkBinding "fp1" emp) (demo_process (2 * Hour))).2
    = Ok demo_token.2 /\
  (VerifyBound (J := TestJwt.test_jwt) demo_tokens demo_token.1 KindEntry "show" (MkBinding "fp1" emp) (demo_process (2 * Hour))).2
    = Err (ErrNew ErrKind).
Proof.
  assert (HI : (Issue (J := TestJwt.test_jwt) demo_tokens demo_claims (demo_process Hour)).2 = Ok (demo_token.1, demo_token.2))
    by (vm_compute; reflexivity).
  assert (Hs : sane demo_tokens (reading (demo_process Hour))) by (vm_compute; intuition congruence).
  destruct (token_is_worth_what_was_signed (JL := TestJwt.test_jwt_laws) demo_tokens demo_claims (demo_process Hour) _ _ eq_refl Hs HI) as (_ & _ & H).
  split.
  - rewrite (proj2 (H KindQueue "show" (MkBinding "fp1" emp) (demo_process (2 * Hour)))). vm_compute. reflexivity.
  - rewrite (proj2 (H KindEntry "show" (MkBinding "fp1" emp) (demo_process (2 * Hour)))). vm_compute. reflexivity.
Defined.

End Token.
