(* ===== verification/Http.v ===== *)
(** * Requests, answers and handlers

    [internal/httpx]: the request as the handlers see it, the address of the client, JSON
    bodies, errors with a status; and the computations the handlers of [internal/api] are.
    A handler threads its state, collects the calls of [Publisher.Publish] and ends in an
    answer or an error.

    The decoding of a JSON value into a Go struct, and the address syntax of [net/netip] and
    [net], are parameters ([Json], [Netip]): no property depends on them. *)

From S2P Require Import Prelude.
From S2P Require Import Go.
From S2P Require Import Conn.
From S2P Require Import Window.
Local Open Scope string_scope.
Local Open Scope Z_scope.
Local Open Scope list_scope.

(** ** Standard library *)

(** [json.Decoder.Decode] into a struct, unknown fields refused: the value and the text left. *)
Class Json (T : Type) := json_decode : string -> option (T * string).

Class Netip := {
  Addr : Type;
  ParseAddr : string -> option Addr;
  Unmap : Addr -> Addr;
  Is6 : Addr -> bool;
  Prefix : Addr -> Z -> option string;
  SplitHostPort : string -> option string
}.

Definition ascii_lower (c : ascii) : ascii :=
  if byte_between "A" "Z" c then ascii_of_nat (nat_of_ascii c + 32) else c.

Fixpoint ToLower (s : string) : string :=
  match s with EmptyString => EmptyString | String c s' => String (ascii_lower c) (ToLower s') end.

(** [strings.EqualFold] against a text of plain ASCII letters. *)
Definition EqualFold (s t : string) : bool := bool_decide (ToLower s = ToLower t).

(** ** Requests *)

Record Request := MkRequest {
  Header : string -> list string;  (** the values of a header, by canonical name *)
  Cookie : string -> option string;
  RemoteAddr : string;
  ContentLength : Z;
  Body : string
}.

(** [r.Header.Get]. *)
Definition Get_ (r : Request) (name : string) : string := default emp (head (Header r name)).

Module Httpx.

Definition maxBodyBytes : Z := 1048576.

Record ErrorBody := MkErrorBody { bError : string; bCode : string }.

Record APIError := NewAPIError { Status : Z; Code : string; Message : string }.

(** [APIError.Error]. *)
Definition Error (e : APIError) : string := Code e +:+ ": " +:+ Message e.

(** What a handler returns as its error. *)
Inductive failure := API (e : APIError) | Plain (e : error).

(** [WriteError]: the status and body of the answer. *)
Definition WriteError (f : failure) : Z * ErrorBody :=
  let e := match f with API e => e | Plain _ => NewAPIError 500 "internal" "internal error" end in
  (Status e, MkErrorBody (Message e) (Code e)).

(** [io.EOF] of the second [Decode]: only the blanks of JSON are left. *)
Definition at_eof (rest : string) : bool :=
  forall_chars (fun c => bool_decide (byte_of c ∈ [32; 9; 10; 13])) rest.

Definition DecodeJSON {T} `{Json T} (r : Request) : APIError + T :=
  let read := String.substring 0 (Z.to_nat maxBodyBytes) (Body r) in
  match json_decode read with
  | None => inl (NewAPIError 400 "bad_request" "malformed JSON body")
  | Some (v, rest) =>
      if negb ((Z.of_nat (String.length (Body r)) <=? maxBodyBytes) && at_eof rest)
      then inl (NewAPIError 400 "bad_request" "body must contain a single JSON object")
      else inr v
  end.

(** ** The client's address *)

Section Ip.
Context `{Netip}.

Definition try_header (r : Request) (h : string) : option Addr :=
  let v := TrimSpace (Get_ r h) in
  if decide (v = emp) then None else Unmap <$> ParseAddr v.

Fixpoint first_header (r : Request) (hs : list string) : option Addr :=
  match hs with
  | [] => None
  | h :: hs' => match try_header r h with Some a => Some a | None => first_header r hs' end
  end.

(** [None] is the zero [netip.Addr]. *)
Definition ClientIP (r : Request) : option Addr :=
  match first_header r ["CF-Connecting-IP"; "True-Client-IP"; "X-Real-IP"] with
  | Some a => Some a
  | None =>
      let v := Get_ r "X-Forwarded-For" in
      match (if decide (v = emp) then None else Unmap <$> ParseAddr (TrimSpace (cut_before "," v))) with
      | Some a => Some a
      | None => Unmap <$> ParseAddr (default (RemoteAddr r) (SplitHostPort (RemoteAddr r)))
      end
  end.

Definition IPPrefix (addr : option Addr) (v4bits v6bits : Z) : string :=
  match addr with
  | None => emp
  | Some a => default emp (Prefix a (if Is6 a then v6bits else v4bits))
  end.

End Ip.
End Httpx.
Import Httpx.

(** ** Handlers *)

Record served (W A : Type) := Served { after : W; published : list Telemetry.Event; outcome : A + failure }.
Arguments Served {W A} _ _ _.
Arguments after {W A} _.
Arguments published {W A} _.
Arguments outcome {W A} _.

Definition H (W A : Type) : Type := W -> served W A.

#[export] Instance H_ret {W} : MRet (H W) := fun A a w => Served w [] (inl a).
#[export] Instance H_bind {W} : MBind (H W) := fun A B f m w =>
  match m w with
  | Served w1 es1 (inl a) => let r := f a w1 in Served (after r) (es1 ++ published r) (outcome r)
  | Served w1 es1 (inr e) => Served w1 es1 (inr e)
  end.

(** [return err]. *)
Definition refuse {W A} (f : failure) : H W A := fun w => Served w [] (inr f).

Definition api_error {W A} (status : Z) (code message : string) : H W A :=
  refuse (API (NewAPIError status code message)).

(** [tel.Publish(e)]. *)
Definition publish {W} (e : Telemetry.Event) : H W unit := fun w => Served w [e] (inl tt).

(** A state that holds a connection to Redis. *)
Class HasRedis (W S : Type) := { conn : W -> world S; set_conn : world S -> W -> W }.

#[export] Instance whole_world {S} : HasRedis (world S) S := {| conn w := w; set_conn w _ := w |}.

(** A method that returns a value and an error. *)
Definition call {W S A} `{HasRedis W S} (m : M S A) : H W (result A) := fun w =>
  let r := m (conn w) in Served (set_conn r.1 w) [] (inl r.2).

(** [time.Now()]. *)
Definition time_Now {W S} `{HasRedis W S} : H W time := fun w =>
  Served (set_conn (ticked (conn w)) w) [] (inl (reading (conn w))).

(** A decoded body, or the error of [DecodeJSON]. *)
Definition decoded {W T} `{Json T} (r : Request) : H W T :=
  match DecodeJSON r with inl e => refuse (API e) | inr v => mret v end.

(** What a handler writes: a status, a JSON body, cookies. *)
Record answer (B : Type) := Answer { status : Z; body : B; cookies : list (string * string) }.
Arguments Answer {B} _ _ _.
Arguments status {B} _.
Arguments body {B} _.
Arguments cookies {B} _.

Definition WriteJSON {W B} (st : Z) (b : B) : H W (answer B) := mret (Answer st b []).

(** [Handler.ServeHTTP]: the status the client sees. *)
Definition status_of {W B} (s : served W (answer B)) : Z :=
  match outcome s with inl a => status a | inr f => (WriteError f).1 end.

(** ** Lemmas *)

Lemma H_bind_ok {W A B} (m : H W A) (f : A -> H W B) w w1 a :
  m w = Served w1 [] (inl a) -> mbind f m w = f a w1.
Proof. intros E. unfold mbind, H_bind. rewrite E. cbn. by destruct (f a w1). Qed.

Lemma H_bind_err {W A B} (m : H W A) (f : A -> H W B) w w1 es e :
  m w = Served w1 es (inr e) -> mbind f m w = Served w1 es (inr e).
Proof. intros E. unfold mbind, H_bind. by rewrite E. Qed.

Lemma call_eq {W S A} `{HasRedis W S} (m : M S A) w :
  call m w = Served (set_conn (m (conn w)).1 w) [] (inl (m (conn w)).2).
Proof. reflexivity. Qed.

(** A body is decoded or refused with status 400, and nothing else happens. *)
Lemma decoded_eq {W T} `{Json T} (r : Request) (w : W) :
  decoded r w = Served w [] (match DecodeJSON r with inl e => inr (API e) | inr v => inl v end) /\
  (forall e, DecodeJSON r = inl e -> Status e = 400).
Proof.
  split; [unfold decoded; by destruct (DecodeJSON r)|]. unfold DecodeJSON. intros e.
  destruct (json_decode _) as [[v rest]|]; [destruct (negb _); [|done]|]; by intros [= <-].
Qed.
