(* ===== verification/Encode.v ===== *)
(** * JSON on the wire

    [encoding/json] for the flat values the API answers with: the text of an object whose
    members are strings, integers and booleans, strings quoted as [appendString] quotes them
    (with the HTML escapes [Marshal] and [Encoder] use).  [read_object] is a reader of such
    objects, the reference the encoder is checked against: what is written is read back. *)

From Stdlib Require Import DecimalString.
From S2P Require Import Prelude.
From S2P Require Import Go.
From S2P Require Import Shard.
From S2P Require Import Crypto.
Local Open Scope string_scope.
Local Open Scope Z_scope.
Local Open Scope list_scope.

Module Encode.

(** ** Strings *)

Definition quotation : ascii := "034"%char.
Definition backslash : ascii := "092"%char.
Definition newline : ascii := "010"%char.

(** The characters below 128 that are written as they are ([htmlSafeSet]). *)
Definition safe (c : ascii) : bool :=
  (32 <=? byte_of c) &&
  negb (bool_decide (c = quotation) || bool_decide (c = backslash) || bool_decide (c = "<"%char) ||
        bool_decide (c = ">"%char) || bool_decide (c = "&"%char)).

(** The one-letter escapes. *)
Definition short (c : ascii) : option ascii :=
  match byte_of c with
  | 34 => Some quotation | 92 => Some backslash
  | 8 => Some "b"%char | 9 => Some "t"%char | 10 => Some "n"%char | 12 => Some "f"%char | 13 => Some "r"%char
  | _ => None
  end.

Definition escape (c : ascii) : string :=
  if safe c then String c emp
  else match short c with
       | Some e => String backslash (String e emp)
       | None => String backslash ("u00" +:+ hex [byte_of c])
       end.

(** The length of the UTF-8 sequence a byte starts, given the bytes after it. *)
Definition between (lo hi : Z) (c : ascii) : bool := (lo <=? byte_of c) && (byte_of c <=? hi).

Definition two_bytes (a b : ascii) : bool := between 194 223 a && between 128 191 b.

Definition three_bytes (a b c : ascii) : bool :=
  between 128 191 c &&
  ((byte_of a =? 224) && between 160 191 b || between 225 236 a && between 128 191 b ||
   (byte_of a =? 237) && between 128 159 b || between 238 239 a && between 128 191 b).

Definition four_bytes (a b c d : ascii) : bool :=
  between 128 191 c && between 128 191 d &&
  ((byte_of a =? 240) && between 144 191 b || between 241 243 a && between 128 191 b ||
   (byte_of a =? 244) && between 128 143 b).

(** U+2028 and U+2029, the line separators. *)
Definition separator (a b c : ascii) : option string :=
  if (byte_of a =? 226) && (byte_of b =? 128) then
    if (byte_of c =? 168) then Some (String backslash "u2028")
    else if (byte_of c =? 169) then Some (String backslash "u2029") else None
  else None.

(** [appendString], between the quotation marks: a byte that starts no sequence is written
    as the replacement character. *)
Fixpoint quoted (s : string) : string :=
  match s with
  | EmptyString => EmptyString
  | String a s1 =>
      let bad := String backslash "ufffd" +:+ quoted s1 in
      if byte_of a <? 128 then escape a +:+ quoted s1
      else match s1 with
      | String b s2 =>
          if two_bytes a b then String a (String b (quoted s2))
          else match s2 with
          | String c s3 =>
              if three_bytes a b c then
                match separator a b c with
                | Some e => e +:+ quoted s3
                | None => String a (String b (String c (quoted s3)))
                end
              else match s3 with
              | String d s4 => if four_bytes a b c d then String a (String b (String c (String d (quoted s4)))) else bad
              | EmptyString => bad
              end
          | EmptyString => bad
          end
      | EmptyString => bad
      end
  end.

Definition quote (s : string) : string := String quotation (quoted s +:+ String quotation emp).

(** ** Objects *)

Inductive value := JStr (s : string) | JInt (z : Z) | JBool (b : bool).

#[export] Instance value_eq_dec : EqDecision value.
Proof. solve_decision. Defined.

Definition value_text (v : value) : string :=
  match v with
  | JStr s => quote s
  | JInt z => itoa z
  | JBool b => if b then "true" else "false"
  end.

(** [omitempty]: a member that is left out when it is the zero value. *)
Definition empty_value (v : value) : bool :=
  match v with JStr s => bool_decide (s = emp) | JInt z => z =? 0 | JBool b => negb b end.

Record member := Member { key : string; omitempty : bool; val : value }.

Definition present (ms : list member) : list (string * value) :=
  omap (fun m => if omitempty m && empty_value (val m) then None else Some (key m, val m)) ms.

Definition member_text (kv : string * value) : string := quote kv.1 +:+ ":" +:+ value_text kv.2.

(** After the first member, each with its comma. *)
Fixpoint members_text (kvs : list (string * value)) : string :=
  match kvs with
  | [] => "}"
  | kv :: rest => "," +:+ member_text kv +:+ members_text rest
  end.

Definition object_text (kvs : list (string * value)) : string :=
  match kvs with
  | [] => "{}"
  | kv :: rest => "{" +:+ member_text kv +:+ members_text rest
  end.

(** [json.Marshal] of a struct with these members. *)
Definition Marshal (ms : list member) : string := object_text (present ms).

(** ** A reader *)

Definition hex_digit (c : ascii) : option Z :=
  if byte_between "0" "9" c then Some (byte_of c - 48)
  else if byte_between "a" "f" c then Some (byte_of c - 87) else None.

Definition long (c : ascii) : option ascii :=
  match byte_of c with
  | 34 => Some quotation | 92 => Some backslash | 47 => Some "/"%char
  | 98 => Some "008"%char | 116 => Some "009"%char | 110 => Some newline | 102 => Some "012"%char | 114 => Some "013"%char
  | _ => None
  end.

(** The rest of a string and the text after its closing mark; code points from 128 on are
    not read from escapes. *)
Fixpoint unquote (s : string) : option (string * string) :=
  match s with
  | EmptyString => None
  | String c s1 =>
      if decide (c = quotation) then Some (emp, s1)
      else if decide (c = backslash) then
        match s1 with
        | String "u" (String h1 (String h2 (String h3 (String h4 s2)))) =>
            a ← hex_digit h1; b ← hex_digit h2; d ← hex_digit h3; e ← hex_digit h4;
            let code := ((a * 16 + b) * 16 + d) * 16 + e in
            if code <? 128 then x ← unquote s2; Some (String (ascii_of_nat (Z.to_nat code)) x.1, x.2) else None
        | String e s2 => c' ← long e; x ← unquote s2; Some (String c' x.1, x.2)
        | EmptyString => None
        end
      else x ← unquote s1; Some (String c x.1, x.2)
  end.

Definition number_char (c : ascii) : bool := Ids.is_digit c || bool_decide (c = "-"%char).

(** The longest prefix of such characters, and what follows. *)
Fixpoint span (p : ascii -> bool) (s : string) : string * string :=
  match s with
  | String c s' => if p c then let x := span p s' in (String c x.1, x.2) else (emp, s)
  | EmptyString => (emp, emp)
  end.

Fixpoint skip (n : nat) (s : string) : string :=
  match n, s with
  | Datatypes.S n, String _ s' => skip n s'
  | _, _ => s
  end.

Definition read_value (s : string) : option (value * string) :=
  match s with
  | String c s1 =>
      if decide (c = quotation) then x ← unquote s1; Some (JStr x.1, x.2)
      else if String.prefix "true" s then Some (JBool true, skip 4 s)
      else if String.prefix "false" s then Some (JBool false, skip 5 s)
      else let x := span number_char s in z ← parse_dec x.1; Some (JInt z, x.2)
  | EmptyString => None
  end.

(** A member, and members up to the closing brace. *)
Definition read_member (s : string) : option (string * value * string) :=
  match s with
  | String c s1 =>
      if decide (c = quotation) then
        x ← unquote s1;
        match x.2 with
        | String ":" s2 => y ← read_value s2; Some (x.1, y.1, y.2)
        | _ => None
        end
      else None
  | EmptyString => None
  end.

Fixpoint read_members (fuel : nat) (s : string) : option (list (string * value)) :=
  match fuel, s with
  | Datatypes.S fuel, String "," s1 => x ← read_member s1; rest ← read_members fuel x.2; Some (x.1 :: rest)
  | _, String "}" EmptyString => Some []
  | _, _ => None
  end.

Definition read_object (s : string) : option (list (string * value)) :=
  match s with
  | String "{" (String "}" EmptyString) => Some []
  | String "{" s1 => x ← read_member s1; rest ← read_members (String.length s) x.2; Some (x.1 :: rest)
  | _ => None
  end.

Example read_back :
  read_object (Marshal [Member "event" false (JStr "show"); Member "segment" true (JStr emp);
                        Member "text" false (JStr (String quotation (String newline "<a>"))); Member "rank" false (JInt (-1)); Member "ok" false (JBool true)]) =
  Some [("event", JStr "show"); ("text", JStr (String quotation (String newline "<a>"))); ("rank", JInt (-1)); ("ok", JBool true)].
Proof. vm_compute. reflexivity. Qed.

(** ** One line *)

(** No control character: in particular no line end. *)
Definition one_line (s : string) : bool := forall_chars (fun c => 32 <=? byte_of c) s.

Lemma one_line_app a b : one_line (a +:+ b) = one_line a && one_line b.
Proof. apply forall_chars_app. Qed.

Lemma one_line_cons c s : one_line (String c s) = (32 <=? byte_of c) && one_line s.
Proof. reflexivity. Qed.

Lemma escape_line c : one_line (escape c) = true.
Proof. by destruct c as [[] [] [] [] [] [] [] []]. Qed.

Lemma between_line lo hi c : 32 <= lo -> between lo hi c = true -> (32 <=? byte_of c) = true.
Proof. unfold between. intros Hlo Hb. bool_to_prop. lia. Qed.

Lemma separator_line a b c e : separator a b c = Some e -> one_line e = true.
Proof. unfold separator. repeat case_match; by intros [= <-]. Qed.

Lemma three_line a b c : three_bytes a b c = true -> (32 <=? byte_of b) && (32 <=? byte_of c) = true.
Proof. unfold three_bytes, between. lia. Qed.

Lemma four_line a b c d : four_bytes a b c d = true -> (32 <=? byte_of b) && ((32 <=? byte_of c) && (32 <=? byte_of d)) = true.
Proof. unfold four_bytes, between. lia. Qed.

Lemma quoted_line s : one_line (quoted s) = true.
Proof.
  remember (String.length s) as n eqn:Hn. assert (Hle : (String.length s <= n)%nat) by lia. clear Hn. revert s Hle.
  induction n as [|n IH]; intros [|a s1] Hle; cbn in Hle; try done; [lia|].
  assert (IH' : forall t, (String.length t <= String.length s1)%nat -> one_line (quoted t) = true) by (intros t Ht; apply IH; lia).
  cbn [quoted]. assert (Hbad : one_line (String backslash "ufffd" +:+ quoted s1) = true) by (rewrite one_line_app, IH'; done).
  destruct (byte_of a <? 128) eqn:Ha; [by rewrite one_line_app, escape_line, IH'|].
  assert (Ha' : (32 <=? byte_of a) = true) by lia.
  destruct s1 as [|b s2]; [done|]. cbn [String.length] in IH'. destruct (two_bytes a b) eqn:E2.
  { rewrite !one_line_cons, Ha', IH' by lia. unfold two_bytes, between in E2. lia. }
  destruct s2 as [|c s3]; [done|]. cbn [String.length] in IH'. destruct (three_bytes a b c) eqn:E3.
  { destruct (separator a b c) as [e|] eqn:Es; [by rewrite one_line_app, (separator_line _ _ _ _ Es), IH' by lia|].
    rewrite !one_line_cons, Ha', IH' by lia. by rewrite andb_true_r, (three_line a b c). }
  destruct s3 as [|d s4]; [done|]. cbn [String.length] in IH'. destruct (four_bytes a b c d) eqn:E4; [|done].
  rewrite !one_line_cons, Ha', IH' by lia. by rewrite andb_true_r, (four_line a b c d).
Qed.

Lemma quote_line s : one_line (quote s) = true.
Proof. unfold quote. by rewrite one_line_cons, one_line_app, quoted_line. Qed.

Lemma itoa_number z : forall_chars number_char (itoa z) = true /\ exists c rest, itoa z = String c rest.
Proof.
  assert (Hu : forall u, forall_chars number_char (NilEmpty.string_of_uint u) = true) by (induction u; cbn; done).
  assert (Hz : forall u, forall_chars number_char (NilZero.string_of_uint u) = true /\ exists c rest, NilZero.string_of_uint u = String c rest).
  { intros u. unfold NilZero.string_of_uint. destruct u; (split; [apply Hu || done|eexists _, _; reflexivity]). }
  unfold itoa, NilZero.string_of_int. destruct (Z.to_int z) as [u|u]; [apply Hz|]. destruct (Hz u) as [Hn _].
  split; [by cbn|eauto].
Qed.

Lemma number_line c : number_char c = true -> (32 <=? byte_of c) = true.
Proof. unfold number_char, Ids.is_digit. intros Hc. destruct (decide (c = "-"%char)) as [->|Hne]; [done|].
  rewrite (bool_decide_eq_false_2 _ Hne), orb_false_r in Hc. unfold byte_between in Hc. change (byte_of "0") with 48 in Hc. lia. Qed.

Lemma value_line v : one_line (value_text v) = true.
Proof.
  destruct v as [s|z|[]]; [apply quote_line| |done..]. cbn. destruct (itoa_number z) as [Hn _]. revert Hn.
  apply forall_chars_impl, number_line.
Qed.

Lemma members_line kvs : one_line (members_text kvs) = true.
Proof.
  induction kvs as [|kv kvs IH]; [done|]. cbn [members_text]. unfold member_text.
  by rewrite !one_line_app, quote_line, value_line, IH.
Qed.

Lemma Marshal_line ms : one_line (Marshal ms) = true.
Proof.
  unfold Marshal, object_text. destruct (present ms) as [|kv kvs]; [done|]. unfold member_text.
  by rewrite !one_line_app, quote_line, value_line, members_line.
Qed.

(** ** Reading back *)

Definition ascii_text (s : string) : bool := forall_chars (fun c => byte_of c <? 128) s.

Lemma unquote_escape c r : byte_of c < 128 ->
  unquote (escape c +:+ r) = (x ← unquote r; Some (String c x.1, x.2)).
Proof.
  intros Hc. destruct c as [b0 b1 b2 b3 b4 b5 b6 []]; [by destruct b0, b1, b2, b3, b4, b5, b6|]. clear Hc.
  destruct b0, b1, b2, b3, b4, b5, b6; reflexivity.
Qed.

Lemma quoted_cons c s : byte_of c < 128 -> quoted (String c s) = escape c +:+ quoted s.
Proof. intros Hc. cbn [quoted]. by rewrite (proj2 (Z.ltb_lt _ _) Hc). Qed.

Lemma unquote_quoted s r : ascii_text s = true -> unquote (quoted s +:+ String quotation r) = Some (s, r).
Proof.
  induction s as [|c s IH]; [done|]. unfold ascii_text. cbn [forall_chars]. intros [Hc Hs]%andb_true_iff.
  apply Z.ltb_lt in Hc. rewrite quoted_cons, <- str_app_assoc, unquote_escape, IH by done. done.
Qed.

Lemma span_number a c r : forall_chars number_char a = true -> number_char c = false ->
  span number_char (a +:+ String c r) = (a, String c r).
Proof.
  intros Ha Hc. induction a as [|x a IH]; [rewrite str_nil_app|rewrite str_app_cons]; cbn [span]; [by rewrite Hc|].
  cbn [forall_chars] in Ha. apply andb_true_iff in Ha as [Hx Ha]. by rewrite Hx, IH.
Qed.

Lemma prefix_head c s d t : c <> d -> String.prefix (String c s) (String d t) = false.
Proof. intros Hne. cbn. by destruct (ascii_dec c d). Qed.

Definition ascii_value (v : value) : bool := match v with JStr s => ascii_text s | _ => true end.

Lemma read_value_text v c r : ascii_value v = true -> c = ","%char \/ c = "}"%char ->
  read_value (value_text v +:+ String c r) = Some (v, String c r).
Proof.
  intros Hv Hc. destruct v as [s|z|[]]; cbn [value_text].
  - unfold quote. rewrite str_app_cons, <- str_app_assoc. cbn [read_value]. rewrite decide_True by done.
    rewrite str_app_cons, str_nil_app, unquote_quoted by done. done.
  - destruct (itoa_number z) as (Hn & d & rest & Hd). pose proof (span_number (itoa z) c r Hn) as Hs.
    rewrite Hd in *. cbn in Hn. apply andb_true_iff in Hn as [Hdn _]. rewrite str_app_cons in *. cbn [read_value].
    rewrite decide_False by (by intros ->). rewrite !prefix_head by (by intros <-).
    rewrite Hs by (by destruct Hc as [->| ->]). cbn [fst snd]. rewrite <- Hd, parse_itoa. done.
  - done.
  - done.
Qed.

Lemma read_member_text kv c r : ascii_text kv.1 = true -> ascii_value kv.2 = true -> c = ","%char \/ c = "}"%char ->
  read_member (member_text kv +:+ String c r) = Some (kv, String c r).
Proof.
  intros Hk Hv Hc. destruct kv as [k v]. unfold member_text, quote. cbn [fst snd] in *.
  rewrite !str_app_cons, <- !str_app_assoc. cbn [read_member]. rewrite decide_True by done.
  rewrite str_app_cons, str_nil_app, unquote_quoted by done. cbn [mbind option_bind snd].
  rewrite str_app_cons, str_nil_app, read_value_text by done. done.
Qed.

Definition ascii_members (kvs : list (string * value)) : Prop :=
  Forall (fun kv => ascii_text kv.1 = true /\ ascii_value kv.2 = true) kvs.

(** What follows a member starts with a comma or the brace. *)
Lemma members_head kvs : exists c r, members_text kvs = String c r /\ (c = ","%char \/ c = "}"%char).
Proof. destruct kvs as [|kv kvs]; cbn; eauto. Qed.

Lemma read_members_text fuel kvs : ascii_members kvs -> (length kvs <= fuel)%nat ->
  read_members fuel (members_text kvs) = Some kvs.
Proof.
  revert fuel. induction kvs as [|kv kvs IH]; intros fuel Ha Hf; [by destruct fuel|].
  apply list.Forall_cons in Ha as [[Hk Hv] Ha]. destruct fuel as [|fuel]; [by cbn in Hf; lia|]. cbn [members_text length] in *.
  rewrite str_app_cons, str_nil_app. cbn [read_members]. destruct (members_head kvs) as (c & r & E & Hc).
  rewrite E, read_member_text by done. cbn [mbind option_bind snd fst]. rewrite <- E, IH by (done || lia). done.
Qed.

Lemma members_length kvs : (length kvs <= String.length (members_text kvs))%nat.
Proof.
  induction kvs as [|kv kvs IH]; [cbn; lia|]. cbn [members_text length]. rewrite !str_length_app. cbn [String.length]. lia.
Qed.

(** What is written is read back. *)
Lemma Marshal_reads_back ms : ascii_members (present ms) -> read_object (Marshal ms) = Some (present ms).
Proof.
  unfold Marshal. destruct (present ms) as [|kv kvs]; [done|]. intros [[Hk Hv] Ha]%list.Forall_cons. cbn [object_text].
  destruct (members_head kvs) as (c & r & E & Hc). rewrite E. unfold read_object.
  rewrite str_app_cons, str_nil_app. rewrite read_member_text by done.
  unfold member_text at 1, quote. rewrite !str_app_cons. cbn [mbind option_bind snd fst]. rewrite <- E, read_members_text; [done|done|].
  cbn [String.length]. rewrite !str_length_app. pose proof (members_length kvs). lia.
Qed.

End Encode.
