(* ===== verification/Server.v ===== *)
(** * The HTTP server around the handlers

    [internal/httpx/middleware.go] and [server.go]: the response writer that remembers the
    status, the middlewares, their chain, the health routes and the end of the server.  A
    handler is what it does to its [http.ResponseWriter], call by call, and whether it ends in
    a panic; [wire] is what [net/http] makes of those calls.  The multiplexer of [net/http]
    is an argument ([mux]), as are the eight random bytes of a request identifier.

    Of a logger its attributes are kept, of a line of the log its level and message; the
    status [Observe] records is kept, the metrics are in [Metrics]. *)

From S2P Require Import Prelude.
From S2P Require Import Go.
From S2P Require Import Crypto.
From S2P Require Import Conn.
From S2P Require Import Http.
Local Open Scope string_scope.
Local Open Scope Z_scope.
Local Open Scope list_scope.

Module Server.
Import Httpx.

(** ** Response writers *)

Inductive chunk :=
  | Bytes (s : string)
  | ErrBody (b : ErrorBody)
  | Fields (kvs : list (string * string)).

(** A call on an [http.ResponseWriter]. *)
Inductive wcall :=
  | SetHeader (k v : string)
  | WriteHeader (status : Z)
  | Write (c : chunk)
  | Flush.

(** The response of [net/http]: the header map, what was sent of it with which status, and
    the body.  The first status wins; writing or flushing first sends 200.  (No handler of
    the program sends an informational status.) *)
Record response := MkResponse {
  headers : gmap string string;
  sent : option (Z * gmap string string);
  sent_body : list chunk
}.

Definition send_header (st : Z) (w : response) : response :=
  match sent w with
  | Some _ => w
  | None => MkResponse (headers w) (Some (st, headers w)) (sent_body w)
  end.

Definition net_call (w : response) (c : wcall) : response :=
  match c with
  | SetHeader k v => MkResponse (<[k := v]> (headers w)) (sent w) (sent_body w)
  | WriteHeader st => send_header st w
  | Write c => let w := send_header 200 w in MkResponse (headers w) (sent w) (sent_body w ++ [c])
  | Flush => send_header 200 w
  end.

(** What the client receives once the handler is done. *)
Definition wire (cs : list wcall) : response := send_header 200 (foldl net_call (MkResponse ∅ None []) cs).

Definition wire_status (cs : list wcall) : Z := match sent (wire cs) with Some (st, _) => st | None => 200 end.

(** [responseWriter]: the status recorded, and whether a header was written. *)
Record responseWriter := MkWriter { status : Z; wroteHeader : bool }.

(** The calls a method forwards to the writer underneath. *)
Definition rw_WriteHeader (w : responseWriter) (st : Z) : responseWriter * list wcall :=
  if wroteHeader w then (w, []) else (MkWriter st true, [WriteHeader st]).

Definition rw_Write (w : responseWriter) (c : chunk) : responseWriter * list wcall :=
  if wroteHeader w then (w, [Write c])
  else let '(w, cs) := rw_WriteHeader w 200 in (w, cs ++ [Write c]).

Definition rw_Flush (w : responseWriter) : responseWriter * list wcall := (w, [Flush]).

Definition rw_call (w : responseWriter) (c : wcall) : responseWriter * list wcall :=
  match c with
  | SetHeader k v => (w, [SetHeader k v])
  | WriteHeader st => rw_WriteHeader w st
  | Write c => rw_Write w c
  | Flush => rw_Flush w
  end.

Fixpoint through (w : responseWriter) (cs : list wcall) : responseWriter * list wcall :=
  match cs with
  | [] => (w, [])
  | c :: cs => let '(w1, out1) := rw_call w c in let '(w2, out2) := through w1 cs in (w2, out1 ++ out2)
  end.

(** ** Handlers and middlewares *)

(** [WriteJSON]. *)
Definition WriteJSON_ (st : Z) (c : option chunk) : list wcall :=
  [SetHeader "Content-Type" "application/json; charset=utf-8"; SetHeader "X-Content-Type-Options" "nosniff"; WriteHeader st] ++
  match c with Some c => [Write c] | None => [] end.

Definition WriteError_ (f : failure) : list wcall :=
  let '(st, b) := WriteError f in WriteJSON_ st (Some (ErrBody b)).

(** A logger is its attributes ([slog.Logger.With] appends one); a line has the level, the
    message and the logger. *)
Definition logger : Type := list (string * string).
Definition With (lg : logger) (k v : string) : logger := lg ++ [(k, v)].

Inductive level := LevelInfo | LevelError.
Record line := MkLine { lLevel : level; lMsg : string; lLogger : logger }.

(** One request served: the calls made, whether it ended in a panic, the statuses [Observe]
    recorded, and the log. *)
Record run := MkRun { calls : list wcall; panicked : bool; observed : list Z; logged : list line }.

(** The context of a request: its identifier and its logger, each under a key of its own. *)
Record context := MkContext { ctxKeyRequestID : option string; ctxKeyLogger : option logger }.

Definition Handler : Type := context -> Request -> run.
Definition Middleware : Type := Handler -> Handler.

Definition Chain (h : Handler) (mws : list Middleware) : Handler := foldr (fun mw h => mw h) h mws.

Definition RequestIDHeader : string := "X-Request-ID".

Definition RequestIDFrom (ctx : context) : string := default emp (ctxKeyRequestID ctx).

Definition RequestID (b : list Z) : Middleware := fun next ctx r =>
  let id := Get_ r RequestIDHeader in
  let id := if decide (id = emp) then hex b else id in
  let o := next (MkContext (Some id) (ctxKeyLogger ctx)) r in
  MkRun (SetHeader RequestIDHeader id :: calls o) (panicked o) (observed o) (logged o).

Definition WithLogger (base : logger) : Middleware := fun next ctx r =>
  let lg := With base "request_id" (RequestIDFrom ctx) in
  next (MkContext (ctxKeyRequestID ctx) (Some lg)) r.

(** [slog.Default()] has no attributes. *)
Definition LoggerFrom (ctx : context) : logger := default [] (ctxKeyLogger ctx).

Definition Recover : Middleware := fun next ctx r =>
  let o := next ctx r in
  if panicked o
  then MkRun (calls o ++ WriteError_ (API (NewAPIError 500 "internal" "internal error"))) false (observed o)
         (logged o ++ [MkLine LevelError "panic recovered" (LoggerFrom ctx)])
  else o.

(** The record is made after the handler, so a panic skips it. *)
Definition Observe : Middleware := fun next ctx r =>
  let o := next ctx r in
  let '(rw, cs) := through (MkWriter 200 false) (calls o) in
  let lvl := if 500 <=? status rw then LevelError else LevelInfo in
  if panicked o then MkRun cs true (observed o) (logged o)
  else MkRun cs false (observed o ++ [status rw]) (logged o ++ [MkLine lvl "http request" (LoggerFrom ctx)]).

(** ** The server *)

(** The routes every server has. *)
Definition healthz (name : string) : Handler := fun _ _ =>
  MkRun (WriteJSON_ 200 (Some (Fields [("status", "ok"); ("service", name)]))) false [] [].

(** [err.Error()] is an argument: the text of an error. *)
Definition readyz (error_text : error -> string) (ready : result unit) : Handler := fun _ _ =>
  MkRun (match ready with
         | Err err => WriteJSON_ 503 (Some (Fields [("status", "unready"); ("reason", error_text err)]))
         | Ok _ => WriteJSON_ 200 (Some (Fields [("status", "ok")]))
         end) false [] [].

(** [Server.Run]'s handler. *)
Definition handler (b : list Z) (base : logger) (mux : Handler) : Handler :=
  Chain mux [RequestID b; WithLogger base; Recover; Observe].

(** How [Run] ends: the listener stops by itself, or a signal comes and the server is shut down. *)
Inductive ending := Stopped (err : option error) | Signalled (shutdown : result unit).

Definition Run (e : ending) : result unit :=
  match e with
  | Stopped (Some err) => Err err
  | Stopped None => Ok tt
  | Signalled shutdown => shutdown
  end.

(** [Handler.ServeHTTP] of [httpx.go] on the outcome of a handler of the program: the answer
    it wrote, or its error. *)
Definition ServeHTTP {W B} (encode : B -> chunk) (s : served W (answer B)) : run :=
  MkRun (match outcome s with
         | inl a => ((fun c => SetHeader "Set-Cookie" c.2) <$> cookies a) ++ WriteJSON_ (Http.status a) (Some (encode (body a)))
         | inr f => WriteError_ f
         end) false [] [].

(** ** Lemmas *)

(** The first status of a list of calls, and what they write. *)
Fixpoint first_status (cs : list wcall) : option Z :=
  match cs with
  | [] => None
  | SetHeader _ _ :: cs => first_status cs
  | WriteHeader st :: _ => Some st
  | _ :: _ => Some 200
  end.

Definition written (c : wcall) : option chunk := match c with Write c => Some c | _ => None end.

Lemma first_status_app cs cs' :
  first_status (cs ++ cs') = match first_status cs with Some st => Some st | None => first_status cs' end.
Proof. induction cs as [|[] cs IH]; cbn; done. Qed.

Lemma net_status w cs :
  fst <$> sent (foldl net_call w cs) = match sent w with Some x => Some x.1 | None => first_status cs end.
Proof.
  revert w. induction cs as [|c cs IH]; intros w; cbn; [by destruct (sent w)|]. rewrite IH.
  destruct c; cbn; unfold send_header; destruct (sent w) as [[]|] eqn:E; cbn; rewrite ?E; done.
Qed.

Lemma net_body w cs : sent_body (foldl net_call w cs) = sent_body w ++ omap written cs.
Proof.
  revert w. induction cs as [|c cs IH]; intros w; cbn; [by rewrite app_nil_r|]. rewrite IH.
  destruct c; cbn; unfold send_header; destruct (sent w); cbn; rewrite <- ?app_assoc; reflexivity.
Qed.

Lemma wire_status_eq cs : wire_status cs = default 200 (first_status cs).
Proof.
  unfold wire_status, wire. pose proof (net_status (MkResponse ∅ None []) cs) as Hs. cbn in Hs.
  unfold send_header. destruct (sent (foldl _ _ _)) as [[st h]|] eqn:E; cbn in *; [rewrite E|]; by rewrite <- Hs.
Qed.

Lemma wire_body_eq cs : sent_body (wire cs) = omap written cs.
Proof. unfold wire, send_header. destruct (sent _); cbn; by rewrite net_body. Qed.

(** The recording writer is transparent: the client receives the same. *)
Lemma through_net rw cs w : (wroteHeader rw = true -> sent w <> None) ->
  foldl net_call w (through rw cs).2 = foldl net_call w cs.
Proof.
  revert rw w. induction cs as [|c cs IH]; intros rw w Hw; [done|]. cbn [through foldl].
  destruct (rw_call rw c) as [rw1 out1] eqn:E1, (through rw1 cs) as [rw2 out2] eqn:E2. cbn [snd]. rewrite foldl_app.
  assert (Ho : foldl net_call w out1 = net_call w c /\ (wroteHeader rw1 = true -> sent (net_call w c) <> None)).
  { destruct c; cbn in E1; unfold rw_Write, rw_WriteHeader, rw_Flush in E1; destruct (wroteHeader rw) eqn:Hr; simplify_eq/=;
      unfold send_header; destruct (sent w) eqn:Hs; cbn; rewrite ?Hs;
      first [by destruct (Hw eq_refl) | split; [reflexivity|]; intros ?; congruence]. }
  destruct Ho as [-> Hn]. rewrite <- (IH rw1) by done. by rewrite E2.
Qed.

(** Nothing is flushed before a status is sent or something written. *)
Fixpoint early_flush (cs : list wcall) : bool :=
  match cs with
  | SetHeader _ _ :: cs => early_flush cs
  | Flush :: _ => true
  | _ => false
  end.

Lemma through_wrote rw cs : wroteHeader rw = true -> (through rw cs).1 = rw.
Proof.
  revert rw. induction cs as [|c cs IH]; intros rw Hw; [done|]. cbn [through].
  assert (Hr : (rw_call rw c).1 = rw) by (destruct c; cbn; unfold rw_Write, rw_WriteHeader; by rewrite ?Hw).
  destruct (rw_call rw c) as [rw1 out1]. cbn in Hr. subst rw1. specialize (IH rw Hw). by destruct (through rw cs).
Qed.

(** The status it records is the one sent. *)
Lemma through_status cs : early_flush cs = false -> status (through (MkWriter 200 false) cs).1 = default 200 (first_status cs).
Proof.
  induction cs as [|[k v|st|c|] cs IH]; intros He; [done| | | |done].
  - cbn in *. specialize (IH He). by destruct (through (MkWriter 200 false) cs).
  - cbn. rewrite (surjective_pairing (through (MkWriter st true) cs)). cbn. by rewrite through_wrote.
  - cbn. rewrite (surjective_pairing (through (MkWriter 200 true) cs)). cbn. by rewrite through_wrote.
Qed.

Lemma through_wire rw cs pre post : wroteHeader rw = false -> wire (pre ++ (through rw cs).2 ++ post) = wire (pre ++ cs ++ post).
Proof. intros Hr. unfold wire. rewrite !foldl_app, through_net; [done|congruence]. Qed.

Lemma wire_status_under k v cs cs' :
  wire (SetHeader k v :: cs) = wire (SetHeader k v :: cs') -> wire_status (SetHeader k v :: cs) = default 200 (first_status cs').
Proof. intros Hw. unfold wire_status. rewrite Hw. exact (wire_status_eq (SetHeader k v :: cs')). Qed.

Lemma ServeHTTP_status {W B} (encode : B -> chunk) (s : served W (answer B)) :
  first_status (calls (ServeHTTP encode s)) = Some (status_of s) /\ early_flush (calls (ServeHTTP encode s)) = false.
Proof.
  unfold ServeHTTP, status_of. destruct (outcome s) as [a|f]; cbn [calls].
  - by induction (cookies a) as [|[] ? IH].
  - unfold WriteError_. by destruct (WriteError f).
Qed.

(** What the chain makes of a run of the handler. *)
Definition chained (id : string) (lg : logger) (o : run) : run :=
  let '(rw, cs) := through (MkWriter 200 false) (calls o) in
  if panicked o
  then MkRun (SetHeader RequestIDHeader id :: cs ++ WriteError_ (API (NewAPIError 500 "internal" "internal error"))) false (observed o)
         (logged o ++ [MkLine LevelError "panic recovered" lg])
  else MkRun (SetHeader RequestIDHeader id :: cs) false (observed o ++ [status rw])
         (logged o ++ [MkLine (if 500 <=? status rw then LevelError else LevelInfo) "http request" lg]).

Lemma handler_chained b base mux ctx r :
  let id := if decide (Get_ r RequestIDHeader = emp) then hex b else Get_ r RequestIDHeader in
  let lg := With base "request_id" id in
  handler b base mux ctx r = chained id lg (mux (MkContext (Some id) (Some lg)) r).
Proof.
  intros id lg. unfold handler, Chain. cbn [foldr]. unfold RequestID, WithLogger, Recover, Observe, LoggerFrom, RequestIDFrom, chained. cbn [ctxKeyRequestID ctxKeyLogger default].
  fold id. fold lg. destruct (mux _ r) as [cs p ob lo]. cbn [calls panicked observed logged].
  destruct (through _ cs) as [rw cs']. by destruct p.
Qed.

Lemma chained_wire id cs post :
  wire (SetHeader RequestIDHeader id :: (through (MkWriter 200 false) cs).2 ++ post) = wire (SetHeader RequestIDHeader id :: cs ++ post).
Proof. exact (through_wire (MkWriter 200 false) cs [SetHeader RequestIDHeader id] post eq_refl). Qed.

(** The handler returned. *)
Lemma chained_returned id lg o : panicked o = false -> let res := chained id lg o in
  wire (calls res) = wire (SetHeader RequestIDHeader id :: calls o) /\
  exists st, observed res = observed o ++ [st] /\
    logged res = logged o ++ [MkLine (if 500 <=? st then LevelError else LevelInfo) "http request" lg] /\
    (early_flush (calls o) = false -> st = wire_status (calls res)).
Proof.
  intros Hp. unfold chained. rewrite Hp. pose proof (chained_wire id (calls o) []) as Hw. rewrite !app_nil_r in Hw.
  pose proof (through_status (calls o)) as Hs. destruct (through _ (calls o)) as [rw cs]. cbn [fst snd calls observed logged] in *.
  split; [done|]. exists (status rw). split_and!; [done..|]. intros He. by rewrite (wire_status_under _ _ _ _ Hw), Hs.
Qed.

(** It panicked. *)
Lemma chained_panicked id lg o : panicked o = true -> let res := chained id lg o in
  observed res = observed o /\ logged res = logged o ++ [MkLine LevelError "panic recovered" lg] /\
  wire_status (calls res) = default 500 (first_status (calls o)) /\
  sent_body (wire (calls res)) = omap written (calls o) ++ [ErrBody (MkErrorBody "internal error" "internal")].
Proof.
  intros Hp. unfold chained. rewrite Hp. pose proof (fun post => chained_wire id (calls o) post) as Hw.
  destruct (through _ (calls o)) as [rw cs]. cbn [fst snd calls observed logged] in *. split_and!; [done..| |].
  - rewrite (wire_status_under _ _ _ _ (Hw _)), first_status_app. by destruct (first_status (calls o)).
  - rewrite Hw, wire_body_eq. cbn [omap list_omap]. by rewrite omap_app.
Qed.

(** C36: what the client sees of a request.  For any multiplexer, the chain of middlewares
    never lets a panic out.  When the handler returns, the client receives exactly what the
    handler sent under the request's identifier (the client's own, or the random one), and
    exactly one status is recorded, the one the client received, unless the handler flushed
    before sending one.  When it panics, nothing is recorded; a client that was sent nothing
    receives a 500 with the internal-error body, and one that was receives its first status
    and what was written, followed by that body.  Either way the handler runs with, and the
    chain adds one line to the log under, a logger that carries the identifier the client
    receives: of the request, an error from 500 on, or of the panic.  For a handler of the
    program the status is that of its answer or of its error. *)
Theorem served_through_the_chain b base (mux : Handler) ctx r :
  let id := if decide (Get_ r RequestIDHeader = emp) then hex b else Get_ r RequestIDHeader in
  let lg := With base "request_id" id in
  let o := mux (MkContext (Some id) (Some lg)) r in
  let res := handler b base mux ctx r in
  let internal := ErrBody (MkErrorBody "internal error" "internal") in
  panicked res = false /\
  (panicked o = false ->
     wire (calls res) = wire (SetHeader RequestIDHeader id :: calls o) /\
     exists st, observed res = observed o ++ [st] /\
       logged res = logged o ++ [MkLine (if 500 <=? st then LevelError else LevelInfo) "http request" lg] /\
       (early_flush (calls o) = false -> st = wire_status (calls res))) /\
  (panicked o = true ->
     observed res = observed o /\ logged res = logged o ++ [MkLine LevelError "panic recovered" lg] /\
     wire_status (calls res) = default 500 (first_status (calls o)) /\
     sent_body (wire (calls res)) = omap written (calls o) ++ [internal]) /\
  (forall W B (encode : B -> chunk) (s : served W (answer B)), o = ServeHTTP encode s ->
     wire_status (calls res) = status_of s /\ observed res = [status_of s]).
Proof.
  intros id lg o res internal. assert (Hres : res = chained id lg o) by apply handler_chained. rewrite Hres. clear Hres res.
  split_and!; [|by apply chained_returned|by apply chained_panicked|].
  - unfold chained. destruct (through _ _) as [rw cs]. by destruct (panicked o).
  - intros W B encode s Ho. destruct (chained_returned id lg o) as (Hw & st & Hobs & _ & Hst); [by rewrite Ho|].
    destruct (ServeHTTP_status encode s) as [Hf He]. rewrite <- Ho in Hf, He.
    assert (Hs : wire_status (calls (chained id lg o)) = status_of s) by (by unfold wire_status; rewrite Hw; fold (wire_status (SetHeader RequestIDHeader id :: calls o)); rewrite wire_status_eq; cbn [first_status]; rewrite Hf).
    split; [done|]. rewrite Hobs, (Hst He), Hs, Ho. done.
Qed.

(** Flushing first sends 200: a status set after that is recorded, but not sent. *)
Example recorded_but_not_sent :
  let mux : Handler := fun _ _ => MkRun [Flush; WriteHeader 404] false [] [] in
  let res := handler [0] [] mux (MkContext None None) (MkRequest (fun _ => []) (fun _ => None) emp 0 emp) in
  wire_status (calls res) = 200 /\ observed res = [404].
Proof. vm_compute. done. Qed.

End Server.
