(* ===== verification/Routes.v ===== *)
(** * Routes: which handler a request reaches

    The registrations of [httpx.NewServer] and of the four [Register] methods, over
    [net/http.ServeMux] as the program uses it: patterns with a method, literal segments and
    wildcards, the refusal of malformed and of conflicting patterns (a panic), and the search
    for the most specific pattern.  The path of the metrics comes from the environment and is
    not checked by the loader; [plain_path_registers] says which paths are safe, and
    [metrics_host_takes_a_route] that one without a leading slash may not be.  CONNECT requests and wildcard names beyond ASCII are left
    out. *)

From S2P Require Import Prelude.
From S2P Require Import Go.
Local Open Scope string_scope.
Local Open Scope Z_scope.
Local Open Scope list_scope.

Module Mux.

(** ** Patterns *)

Record segment := Seg { text : string; wild : bool; multi : bool }.

#[export] Instance segment_eq_dec : EqDecision segment.
Proof. solve_decision. Defined.

Definition Lit (s : string) : segment := Seg s false false.

Record pattern := MkPattern { method : string; host : string; segments : list segment }.

Definition found {A} (x : option A) : bool := match x with Some _ => true | None => false end.

(** The string before the first character of a class, and from it on. *)
Fixpoint cut_at (p : ascii -> bool) (s : string) : option (string * string) :=
  match s with
  | EmptyString => None
  | String c s' => if p c then Some (emp, s) else (fun r => (String c r.1, r.2)) <$> cut_at p s'
  end.

Definition is_char (a c : ascii) : bool := bool_decide (a = c).
Definition is_blank (c : ascii) : bool := is_char " " c || is_char (ascii_of_nat 9) c.

(** [strings.TrimLeft(s, " \t")]. *)
Fixpoint trim_blanks (s : string) : string :=
  match s with String c s' => if is_blank c then trim_blanks s' else s | EmptyString => emp end.

(** [validMethod]: one or more token characters. *)
Definition token_char (c : ascii) : bool :=
  byte_between "0" "9" c || byte_between "a" "z" c || byte_between "A" "Z" c ||
  bool_decide (c ∈ ["!"%char; "#"%char; "$"%char; "%"%char; "&"%char; "'"%char; "*"%char; "+"%char; "-"%char; "."%char;
                    "^"%char; "_"%char; "`"%char; "|"%char; "~"%char]).

Definition validMethod (s : string) : bool := negb (bool_decide (s = emp)) && forall_chars token_char s.

(** [path.Clean] on a rooted path, and [cleanPath]. *)
Definition clean_step (acc : list string) (p : string) : list string :=
  if decide (p = emp \/ p = ".") then acc else if decide (p = "..") then tail acc else p :: acc.

Definition Clean (p : string) : string := "/" +:+ String.concat "/" (rev (foldl clean_step [] (Split "/" p))).

Fixpoint ends_with (a : ascii) (s : string) : bool :=
  match s with EmptyString => false | String c EmptyString => is_char a c | String _ s' => ends_with a s' end.

Definition cleanPath (p : string) : string :=
  if decide (p = emp) then "/"
  else
    let p := if is_char "/" (default "x"%char (head_char p)) then p else "/" +:+ p in
    let np := Clean p in
    if ends_with "/" p && negb (bool_decide (np = "/")) then np +:+ "/" else np.

(** [pathUnescape]: percent escapes, or the string itself when one is malformed. *)
Definition unhex (c : ascii) : option Z :=
  if byte_between "0" "9" c then Some (byte_of c - 48)
  else if byte_between "a" "f" c then Some (byte_of c - 87)
  else if byte_between "A" "F" c then Some (byte_of c - 55) else None.

Fixpoint unescape (s : string) : option string :=
  match s with
  | EmptyString => Some emp
  | String c s' =>
      if is_char "%" c then
        match s' with
        | String h (String l s'') =>
            a ← unhex h; b ← unhex l; String (ascii_of_nat (Z.to_nat (16 * a + b))) <$> unescape s''
        | _ => None
        end
      else String c <$> unescape s'
  end.

Definition pathUnescape (s : string) : string := default s (unescape s).

(** A wildcard's name: an identifier. *)
Definition letter (c : ascii) : bool := byte_between "a" "z" c || byte_between "A" "Z" c || is_char "_" c.

Definition isValidWildcardName (s : string) : bool :=
  match s with EmptyString => false | String c s' => letter c && forall_chars (fun c => letter c || byte_between "0" "9" c) s' end.

(** [strings.CutSuffix(name, "...")]. *)
Fixpoint cut_dots (s : string) : string * bool :=
  if decide (s = "...") then (emp, true)
  else match s with String c s' => let r := cut_dots s' in (String c r.1, r.2) | EmptyString => (emp, false) end.

(** The name in "{name}"; [None] when the braces are not where they must be. *)
Definition braced (s : string) : option string :=
  match s with
  | String c s' => if is_char "{" c && ends_with "}" s' then Some (String.substring 0 (String.length s' - 1) s') else None
  | EmptyString => None
  end.

Definition bad : error := ErrNew "net/http: bad pattern".

(** The segments of a path, cut at its slashes; [seen] are the wildcard names so far. *)
Fixpoint parse_segments (ps : list string) (seen : list string) : result (list segment) :=
  match ps with
  | [] => Ok []
  | p :: rest =>
      if decide (p = emp /\ rest = []) then Ok [Seg emp true true]
      else match cut_at (is_char "{") p with
           | None => match parse_segments rest seen with Ok ss => Ok (Lit (pathUnescape p) :: ss) | Err e => Err e end
           | Some (before, _) =>
               match (if decide (before = emp) then braced p else None) with
               | None => Err bad
               | Some name =>
                   if decide (name = "$") then (if decide (rest = []) then Ok [Lit "/"] else Err bad)
                   else
                     let '(name, dots) := cut_dots name in
                     if (dots && negb (bool_decide (rest = []))) || negb (isValidWildcardName name) || bool_decide (name ∈ seen)
                     then Err bad
                     else match parse_segments rest (name :: seen) with
                          | Ok ss => Ok (Seg name true dots :: ss)
                          | Err e => Err e
                          end
               end
           end
  end.

(** [parsePattern]. *)
Definition parsePattern (s : string) : result pattern :=
  if decide (s = emp) then Err bad
  else
    let '(m, rest) := match cut_at is_blank s with Some (m, after) => (m, trim_blanks after) | None => (emp, s) end in
    if negb (bool_decide (m = emp)) && negb (validMethod m) then Err bad
    else match cut_at (is_char "/") rest with
         | None => Err bad
         | Some (h, path) =>
             if found (cut_at (is_char "{") h) then Err bad
             else if negb (bool_decide (m = emp)) && negb (bool_decide (m = "CONNECT")) && negb (bool_decide (path = cleanPath path)) then Err bad
             else match parse_segments (tail (Split "/" path)) [] with
                  | Err e => Err e
                  | Ok ss => Ok (MkPattern m h ss)
                  end
         end.

(** ** Conflicts *)

Inductive relationship := equivalent | moreGeneral | moreSpecific | disjoint | overlaps.

#[export] Instance relationship_eq_dec : EqDecision relationship.
Proof. solve_decision. Defined.

Definition inverseRelationship (r : relationship) : relationship :=
  match r with moreGeneral => moreSpecific | moreSpecific => moreGeneral | r => r end.

Definition combineRelationships (r1 r2 : relationship) : relationship :=
  match r1 with
  | equivalent => r2
  | disjoint => disjoint
  | overlaps => if decide (r2 = disjoint) then disjoint else overlaps
  | _ => match r2 with
         | equivalent => r1
         | _ => if decide (r2 = inverseRelationship r1) then overlaps else r2
         end
  end.

Definition compareMethods (p1 p2 : pattern) : relationship :=
  if decide (method p1 = method p2) then equivalent
  else if decide (method p1 = emp) then moreGeneral
  else if decide (method p2 = emp) then moreSpecific
  else if decide (method p1 = "GET" /\ method p2 = "HEAD") then moreGeneral
  else if decide (method p2 = "GET" /\ method p1 = "HEAD") then moreSpecific
  else disjoint.

Definition compareSegments (s1 s2 : segment) : relationship :=
  if multi s1 && multi s2 then equivalent
  else if multi s1 then moreGeneral
  else if multi s2 then moreSpecific
  else if wild s1 && wild s2 then equivalent
  else if wild s1 then (if decide (text s2 = "/") then disjoint else moreGeneral)
  else if wild s2 then (if decide (text s1 = "/") then disjoint else moreSpecific)
  else if decide (text s1 = text s2) then equivalent else disjoint.

Definition ends_multi (ss : list segment) : bool := match head (rev ss) with Some s => multi s | None => false end.

(** The corresponding segments; then the shorter pattern has to end in a multi wildcard. *)
Fixpoint compare_from (m1 m2 : bool) (rel : relationship) (ss1 ss2 : list segment) : relationship :=
  match ss1, ss2 with
  | s1 :: ss1, s2 :: ss2 =>
      let rel := combineRelationships rel (compareSegments s1 s2) in
      if decide (rel = disjoint) then disjoint else compare_from m1 m2 rel ss1 ss2
  | [], [] => rel
  | [], _ => if m1 then combineRelationships rel moreGeneral else disjoint
  | _, [] => if m2 then combineRelationships rel moreSpecific else disjoint
  end.

Definition comparePaths (p1 p2 : pattern) : relationship :=
  let ss1 := segments p1 in let ss2 := segments p2 in
  if negb (bool_decide (length ss1 = length ss2)) && negb (ends_multi ss1) && negb (ends_multi ss2) then disjoint
  else compare_from (ends_multi ss1) (ends_multi ss2) equivalent ss1 ss2.

Definition conflictsWith (p1 p2 : pattern) : bool :=
  if decide (host p1 <> host p2) then false
  else
    let mrel := compareMethods p1 p2 in
    let rel := if decide (mrel = disjoint) then disjoint else combineRelationships mrel (comparePaths p1 p2) in
    bool_decide (rel = equivalent \/ rel = overlaps).

(** ** The multiplexer *)

(** The segments of a request's path, unescaped; a trailing slash is the segment "/". *)
Fixpoint path_pieces (ps : list string) : list string :=
  match ps with
  | [] => []
  | [p] => [if decide (p = emp) then "/" else pathUnescape p]
  | p :: ps => pathUnescape p :: path_pieces ps
  end.

Definition path_segments (path : string) : list string := path_pieces (tail (Split "/" path)).

Section Tree.
Context {L : Type}.

(** The children of a node of the routing tree: the patterns that go on with a literal, with
    one wildcard, and the one that ends here in a multi wildcard. *)
Definition child (f : segment -> bool) (pats : list (list segment * L)) : list (list segment * L) :=
  omap (fun e => match e.1 with s :: ss => if f s then Some (ss, e.2) else None | [] => None end) pats.

Definition literal (s : string) (x : segment) : bool := bool_decide (x = Lit s).
Definition single (x : segment) : bool := wild x && negb (multi x).

(** [matchPath]. *)
Fixpoint matchPath (pats : list (list segment * L)) (segs : list string) : option L :=
  match segs with
  | [] => snd <$> List.find (fun e => bool_decide (e.1 = [])) pats
  | s :: rest =>
      match matchPath (child (literal s) pats) rest with
      | Some h => Some h
      | None =>
          match (if decide (s = "/") then None else matchPath (child single pats) rest) with
          | Some h => Some h
          | None => snd <$> head (child multi pats)
          end
      end
  end.

End Tree.

Section ServeMux.
Context {H : Type}.

Definition ServeMux : Type := list (pattern * H).

(** [mux.Handle]; [None] is a panic. *)
Definition Handle (pat : string) (h : H) (mux : ServeMux) : option ServeMux :=
  match parsePattern pat with
  | Err _ => None
  | Ok p => if existsb (fun e => conflictsWith p e.1) mux then None else Some (mux ++ [(p, h)])
  end.

(** The subtree of a host and a method; a leaf keeps its pattern. *)
Definition under (h m : string) (mux : ServeMux) : list (list segment * (pattern * H)) :=
  omap (fun e => if decide (host e.1 = h /\ method e.1 = m) then Some (segments e.1, e) else None) mux.

Definition or_else {A} (x y : option A) : option A := match x with Some a => Some a | None => y end.

Definition matchMethodAndPath (mux : ServeMux) (h m : string) (segs : list string) : option (pattern * H) :=
  or_else (matchPath (under h m mux) segs)
    (or_else (if decide (m = "HEAD") then matchPath (under h "GET" mux) segs else None)
       (matchPath (under h emp mux) segs)).

Definition find_match (mux : ServeMux) (h m : string) (segs : list string) : option (pattern * H) :=
  or_else (if decide (h = emp) then None else matchMethodAndPath mux h m segs) (matchMethodAndPath mux emp m segs).

(** [matchingMethods] at one path. *)
Definition methods_at (mux : ServeMux) (h : string) (segs : list string) : gset string :=
  list_to_set (List.filter (fun m => negb (bool_decide (m = emp)) &&
      (found (matchPath (under h m mux) segs) || found (matchPath (under emp m mux) segs)))
    ((fun e => method e.1) <$> mux)).

Definition allowed (mux : ServeMux) (h : string) (path : string) : gset string :=
  let ms := methods_at mux h (path_segments path) ∪
            (if ends_with "/" path then ∅ else methods_at mux h (path_segments (path +:+ "/"))) in
  if decide ("GET" ∈ ms) then {["HEAD"]} ∪ ms else ms.

Inductive served := Handled (h : H) | Redirect | MethodNotAllowed (allow : gset string) | NotFound.

(** [exactMatch]: a multi wildcard at the end matches the empty string. *)
Definition exactMatch (n : option (pattern * H)) (path : string) : bool :=
  match n with
  | None => false
  | Some (p, _) =>
      negb (ends_multi (segments p)) ||
      (ends_with "/" path && bool_decide (length (segments p) = length (path_segments path)))
  end.

(** [mux.Handler] for a request that is not CONNECT; [h] is its host without the port. *)
Definition Handler (mux : ServeMux) (m h path : string) : served :=
  let n := find_match mux h m (path_segments path) in
  let slashed := path +:+ "/" in
  if negb (exactMatch n path) && negb (ends_with "/" path) && exactMatch (find_match mux h m (path_segments slashed)) slashed then Redirect
  else if negb (bool_decide (path = cleanPath path)) then Redirect
  else match n with
       | Some (_, r) => Handled r
       | None => if decide (allowed mux h path = ∅) then NotFound else MethodNotAllowed (allowed mux h path)
       end.

End ServeMux.
Arguments ServeMux : clear implicits.

(** ** Lemmas *)

Section Search.
Context {L : Type}.
Implicit Types (pats : list (list segment * L)) (segs : list string).

(** A pattern admits a path. *)
Fixpoint covers (ss : list segment) (segs : list string) : bool :=
  match ss, segs with
  | [], [] => true
  | s :: ss, g :: gs =>
      multi s || ((if wild s then negb (bool_decide (g = "/")) else bool_decide (text s = g)) && covers ss gs)
  | _, _ => false
  end.

Lemma child_elem f pats ss x : (ss, x) ∈ child f pats <-> exists s, f s = true /\ (s :: ss, x) ∈ pats.
Proof.
  unfold child. rewrite list_elem_of_omap. split.
  - intros ([[|s ss'] y] & Hin & He); [done|]. cbn in He. destruct (f s) eqn:Ef; [|done]. injection He as -> ->. by exists s.
  - intros (s & Hf & Hin). exists (s :: ss, x). split; [done|]. cbn. by rewrite Hf.
Qed.

Lemma head_elem {A} (l : list A) x : head l = Some x -> x ∈ l.
Proof. destruct l; [done|]. intros [= ->]. left. Qed.

(** What the search finds is a pattern that admits the path. *)
Lemma matchPath_sound pats segs x : matchPath pats segs = Some x -> exists ss, (ss, x) ∈ pats /\ covers ss segs = true.
Proof.
  revert pats. induction segs as [|g gs IH]; intros pats; cbn [matchPath].
  - destruct (List.find _ pats) as [[ss y]|] eqn:E; [|done]. intros [= <-]. apply List.find_some in E as [Hin Hb%bool_decide_eq_true].
    cbn in Hb. subst ss. exists []. split; [by apply list_elem_of_In|done].
  - destruct (matchPath (child (literal g) pats) gs) as [y|] eqn:E1.
    { intros [= ->]. apply IH in E1 as (ss & (s & Hs & Hin)%child_elem & Hc). exists (s :: ss). split; [done|].
      apply bool_decide_eq_true in Hs as ->. cbn. by rewrite bool_decide_eq_true_2. }
    destruct (decide (g = "/")) as [->|Hg].
    2: destruct (matchPath (child single pats) gs) as [y|] eqn:E2.
    2: { intros [= ->]. apply IH in E2 as (ss & (s & Hs & Hin)%child_elem & Hc). exists (s :: ss). split; [done|].
         unfold single in Hs. apply andb_true_iff in Hs as [Hw Hm]. cbn. rewrite Hw, bool_decide_eq_false_2 by done. rewrite Hc. by destruct (multi s). }
    all: destruct (head (child multi pats)) as [[ss y]|] eqn:E3; [|done]; intros [= <-]; apply head_elem, child_elem in E3 as (s & Hs & Hin);
      exists (s :: ss); split; [done|]; cbn; by rewrite Hs.
Qed.

(** A literal pattern is found before all others. *)
Lemma matchPath_literal pats segs x : (Lit <$> segs, x) ∈ pats -> (forall y, (Lit <$> segs, y) ∈ pats -> y = x) -> matchPath pats segs = Some x.
Proof.
  revert pats. induction segs as [|g gs IH]; intros pats Hin Hone; cbn [matchPath].
  - destruct (List.find _ pats) as [[ss y]|] eqn:E.
    + apply List.find_some in E as [Hin' Hb%bool_decide_eq_true]. cbn in Hb. subst ss. cbn. f_equal. apply Hone. by apply list_elem_of_In.
    + apply list_elem_of_In in Hin. pose proof (List.find_none _ _ E _ Hin) as Hf. apply bool_decide_eq_false in Hf. done.
  - rewrite (IH (child (literal g) pats)); [done| |].
    + apply child_elem. exists (Lit g). split; [by apply bool_decide_eq_true_2|done].
    + intros y (s & Hs & Hy)%child_elem. apply bool_decide_eq_true in Hs as ->. by apply Hone.
Qed.

Lemma matchPath_nil segs : matchPath (L := L) [] segs = None.
Proof. induction segs as [|g gs IH]; [done|]. cbn. rewrite IH. by destruct (decide _). Qed.

End Search.

(** Literal patterns. *)

Lemma covers_literal l segs : covers (Lit <$> l) segs = true <-> segs = l.
Proof.
  revert segs. induction l as [|x l IH]; intros [|g segs]; cbn; try done.
  rewrite andb_true_iff, bool_decide_eq_true, IH. split; [by intros [-> ->]|by intros [= -> ->]].
Qed.

Lemma ends_multi_literal l : ends_multi (Lit <$> l) = false.
Proof.
  unfold ends_multi. change (Lit <$> l) with (List.map Lit l). rewrite <- map_rev. by destruct (rev l).
Qed.

Lemma compare_literal l m1 m2 : compare_from m1 m2 equivalent (Lit <$> l) (Lit <$> l) = equivalent.
Proof.
  induction l as [|x l IH]; [done|]. rewrite !fmap_cons. cbn [compare_from combineRelationships].
  assert (compareSegments (Lit x) (Lit x) = equivalent) as -> by (unfold compareSegments; cbn; by rewrite decide_True). done.
Qed.

Lemma same_literal_conflicts p1 p2 l : host p1 = host p2 -> method p1 = method p2 ->
  segments p1 = Lit <$> l -> segments p2 = Lit <$> l -> conflictsWith p1 p2 = true.
Proof.
  intros Hh Hm H1 H2. unfold conflictsWith. rewrite decide_False by (by intros []).
  assert (compareMethods p1 p2 = equivalent) as -> by (unfold compareMethods; by rewrite decide_True).
  assert (comparePaths p1 p2 = equivalent) as ->.
  { unfold comparePaths. rewrite H1, H2, bool_decide_eq_true_2 by done. cbn [negb andb]. apply compare_literal. }
  done.
Qed.

(** Literal patterns conflict only if they are the same. *)
Lemma compare_literals l1 l2 : l1 <> l2 -> compare_from false false equivalent (Lit <$> l1) (Lit <$> l2) = disjoint.
Proof.
  revert l2. induction l1 as [|x l1 IH]; intros [|y l2] Hne; try done. rewrite !fmap_cons. cbn [compare_from combineRelationships].
  unfold compareSegments. cbn. destruct (decide (x = y)) as [->|]; [|by rewrite decide_True].
  rewrite decide_False by done. apply IH. congruence.
Qed.

Lemma literals_do_not_conflict p1 p2 l1 l2 : segments p1 = Lit <$> l1 -> segments p2 = Lit <$> l2 ->
  compareMethods p1 p2 = disjoint \/ l1 <> l2 -> conflictsWith p1 p2 = false.
Proof.
  intros H1 H2 Hd. unfold conflictsWith. destruct (decide (host p1 <> host p2)); [done|].
  destruct (decide (compareMethods p1 p2 = disjoint)) as [E|E]; [by apply bool_decide_eq_false_2; intros [?|?]|].
  destruct Hd as [|Hne]; [done|]. unfold comparePaths. rewrite H1, H2, !ends_multi_literal, (compare_literals l1 l2 Hne).
  assert (Hr : combineRelationships (compareMethods p1 p2) disjoint = disjoint).
  { unfold combineRelationships. destruct (compareMethods p1 p2); try done; by rewrite decide_False. }
  destruct (_ && _ && _); rewrite Hr; apply bool_decide_eq_false_2; by intros [?|?].
Qed.

(** A path without braces that does not end in a slash is a literal pattern. *)
Definition no_brace (c : ascii) : bool := negb (is_char "{" c).

Lemma no_brace_uncut s : forall_chars no_brace s = true -> cut_at (is_char "{") s = None.
Proof.
  induction s as [|c s IH]; [done|]. cbn [forall_chars cut_at]. unfold no_brace at 1. intros [Hc Hs]%andb_true_iff.
  apply negb_true_iff in Hc. by rewrite Hc, (IH Hs).
Qed.

Lemma parse_literal ps seen : Forall (fun p => forall_chars no_brace p = true) ps -> list.last ps <> Some emp ->
  parse_segments ps seen = Ok (Lit <$> path_pieces ps).
Proof.
  induction 1 as [|p ps Hp Hps IH]; [done|]. intros Hl. cbn [parse_segments path_pieces]. rewrite (no_brace_uncut p Hp).
  destruct ps as [|q ps].
  - assert (Hne : p <> emp) by (intros ->; by apply Hl). rewrite !decide_False by naive_solver. done.
  - rewrite decide_False by (by intros [_ ?]). rewrite IH; [done|]. exact Hl.
Qed.

Lemma Split_cons s : exists p ps, Split "/" s = p :: ps.
Proof.
  destruct s as [|c s]; [by do 2 eexists|]. cbn. destruct (decide _); [by do 2 eexists|]. destruct (Split "/" s); by do 2 eexists.
Qed.

Lemma Split_forall p s : forall_chars p s = true -> Forall (fun x => forall_chars p x = true) (Split "/" s).
Proof.
  induction s as [|c s IH]; [by repeat constructor|]. cbn [forall_chars Split]. intros [Hc Hs]%andb_true_iff.
  specialize (IH Hs). destruct (decide (c = "/"%char)); [by constructor|].
  destruct (Split "/" s) as [|x xs]; [by repeat constructor; cbn; rewrite Hc|]. inversion IH; subst. constructor; [|done]. cbn. by rewrite Hc.
Qed.

Lemma last_piece s : list.last (Split "/" s) = Some emp -> s = emp \/ ends_with "/" s = true.
Proof.
  induction s as [|c s IH]; [by left|]. intros Hl. right. revert Hl. cbn [Split].
  assert (Hnext : forall d s', s = String d s' -> list.last (Split "/" s) = Some emp -> ends_with "/" (String c s) = true).
  { intros d s' -> Hl. by destruct (IH Hl). }
  destruct s as [|d s].
  - cbn [Split]. destruct (decide (c = "/"%char)) as [->|Hc]; [reflexivity|done].
  - intros Hl. apply (Hnext d s eq_refl). destruct (Split_cons (String d s)) as (x & xs & E). rewrite E in *.
    destruct (decide (c = "/"%char)); [exact Hl|]. destruct xs; [done|exact Hl].
Qed.

(** The segments of a path with a slash added end in a slash. *)
Lemma Split_snoc s : Split "/" (s +:+ "/") = Split "/" s ++ [emp].
Proof.
  induction s as [|c s IH]; [done|]. change (String c s +:+ "/") with (String c (s +:+ "/")). cbn [Split]. rewrite IH.
  destruct (decide (c = "/"%char)); [done|].
  by destruct (Split_cons s) as (p & ps & ->).
Qed.

Lemma path_pieces_snoc ps : exists l, path_pieces (ps ++ [emp]) = l ++ ["/"].
Proof.
  induction ps as [|p ps [l IH]]; [by exists []|]. exists (pathUnescape p :: l). cbn [app].
  destruct (ps ++ [emp]) as [|q qs] eqn:E; [by destruct ps|]. cbn [path_pieces]. cbn [path_pieces] in IH. rewrite IH. done.
Qed.

Lemma path_segments_slashed s : "/" ∈ path_segments (s +:+ "/").
Proof.
  unfold path_segments. rewrite Split_snoc. destruct (Split_cons s) as (p & ps & ->). cbn [app tail].
  destruct (path_pieces_snoc ps) as [l ->]. apply elem_of_app. right. left.
Qed.

(** *** Registration *)

Section Handles.
Context {H : Type}.

(** Several registrations in a row. *)
Fixpoint Handles (l : list (string * H)) (mux : ServeMux H) : option (ServeMux H) :=
  match l with
  | [] => Some mux
  | (pat, h) :: l => mux ← Handle pat h mux; Handles l mux
  end.

Lemma Handle_spec pat h mux mux' : Handle pat h mux = Some mux' ->
  exists p, parsePattern pat = Ok p /\ mux' = mux ++ [(p, h)] /\ forall e : pattern * H, e ∈ mux -> conflictsWith p e.1 = false.
Proof.
  unfold Handle. destruct (parsePattern pat) as [p|e]; [|done]. destruct (existsb _ mux) eqn:E; [done|]. intros [= <-].
  exists p. split_and!; [done..|]. intros e He. apply not_true_is_false. intros Hc.
  enough (existsb (fun e => conflictsWith p e.1) mux = true) by congruence. apply existsb_exists. exists e. split; [by apply list_elem_of_In|done].
Qed.

Lemma under_elem h m (mux : ServeMux H) ss (e : pattern * H) : (ss, e) ∈ under h m mux <-> e ∈ mux /\ host e.1 = h /\ method e.1 = m /\ ss = segments e.1.
Proof.
  unfold under. rewrite list_elem_of_omap. split.
  - intros (e' & Hin & He). destruct (decide _) as [[Hh Hm]|]; [|done]. injection He as <- <-. done.
  - intros (Hin & Hh & Hm & ->). exists e. split; [done|]. by rewrite decide_True.
Qed.

Lemma Handles_app l1 l2 (mux : ServeMux H) : Handles (l1 ++ l2) mux = Handles l1 mux ≫= Handles l2.
Proof.
  revert mux. induction l1 as [|[pat h] l1 IH]; intros mux; [done|]. cbn [app Handles]. destruct (Handle pat h mux); cbn [mbind option_bind]; [apply IH|done].
Qed.

(** A first entry no other pattern conflicts with. *)
Lemma Handles_under e l (mux mux' : ServeMux H) : Handles l mux = Some mux' ->
  (forall x p, x ∈ l -> parsePattern x.1 = Ok p -> conflictsWith p e.1 = false) -> Handles l (e :: mux) = Some (e :: mux').
Proof.
  revert mux. induction l as [|[pat h] l IH]; intros mux; cbn [Handles]; [by intros [= ->]|]. unfold Handle.
  destruct (parsePattern pat) as [p|] eqn:Ep; cbn [mbind option_bind]; [|done]. intros Hl Hc. cbn [existsb].
  rewrite (Hc (pat, h) p) by (done || by left). cbn [orb]. destruct (existsb _ mux); [done|]. cbn [mbind option_bind] in *.
  apply (IH _ Hl). intros x q Hx. apply Hc. by right.
Qed.

Lemma Handles_spec l (mux mux' : ServeMux H) : Handles l mux = Some mux' ->
  exists ps, Forall2 (fun x p => parsePattern x.1 = Ok p) l ps /\ mux' = mux ++ zip ps (snd <$> l) /\
    forall p e, p ∈ ps -> e ∈ mux -> conflictsWith p e.1 = false.
Proof.
  revert mux. induction l as [|[pat h] l IH]; intros mux; cbn [Handles].
  { intros [= <-]. exists []. cbn. rewrite app_nil_r. split_and!; [constructor|done|by intros p e ?%elem_of_nil]. }
  destruct (Handle pat h mux) as [mux1|] eqn:E; cbn; [|done]. apply Handle_spec in E as (p & Hp & -> & Hc). intros Hl.
  destruct (IH _ Hl) as (ps & Hps & -> & Hcs). exists (p :: ps). split_and!.
  - by constructor.
  - by rewrite <- app_assoc.
  - intros q e [->|Hq]%elem_of_cons He; [by apply Hc|]. apply Hcs; [done|]. apply elem_of_app. by left.
Qed.

End Handles.

End Mux.


(** ** The routes of the services *)

Module Routes.
Import Mux.

Inductive service := Gate | Queue | Admission | Scorer | Shop.

Inductive route := Metrics | Healthz | Readyz | Enter | Verify | Reissue | Reverify | Status | Heartbeat | Redeem | CreateOrder.

(** [httpx.NewServer]: the metrics under the configured path, and the health routes. *)
Definition NewServer (metricsPath : string) : option (ServeMux route) :=
  Handles [("GET " +:+ metricsPath, Metrics); ("GET /healthz", Healthz); ("GET /readyz", Readyz)] [].

(** The routes of each API, by method and path. *)
Definition gate_routes : list (string * string * route) :=
  [("POST", "/api/v1/queue/enter", Enter); ("POST", "/api/v1/challenge/verify", Verify);
   ("POST", "/api/v1/challenge/reissue", Reissue); ("POST", "/api/v1/challenge/reverify", Reverify)].
Definition queue_routes : list (string * string * route) :=
  [("GET", "/api/v1/queue/status", Status); ("POST", "/api/v1/queue/heartbeat", Heartbeat)].
Definition admission_routes : list (string * string * route) := [("POST", "/api/v1/admission/redeem", Redeem)].
Definition shop_routes : list (string * string * route) := [("POST", "/api/v1/orders", CreateOrder)].

Definition api_routes (svc : service) : list (string * string * route) :=
  match svc with
  | Gate => gate_routes
  | Queue => queue_routes
  | Admission => admission_routes
  | Shop => shop_routes
  | Scorer => []
  end.

(** [Register]. *)
Definition Register (svc : service) (mux : ServeMux route) : option (ServeMux route) :=
  Handles ((fun x => (x.1.1 +:+ " " +:+ x.1.2, x.2)) <$> api_routes svc) mux.

Definition service_mux (svc : service) (metricsPath : string) : option (ServeMux route) :=
  mux ← NewServer metricsPath; Register svc mux.

(** Every route but the metrics. *)
Definition own_routes (svc : service) : list (string * string * route) :=
  [("GET", "/healthz", Healthz); ("GET", "/readyz", Readyz)] ++ api_routes svc.

(** The path of the metrics is not checked by the loader: these make every process panic
    before it serves. *)
Example metrics_paths_that_panic :
  NewServer "/healthz" = None /\ NewServer "metrics" = None /\ NewServer "/metrics/../x" = None /\ NewServer "/{id" = None /\
  service_mux Queue "/api/v1/queue/{what}" <> None /\ service_mux Queue "/api/v1/queue/status" = None.
Proof. vm_compute. split_and!; try reflexivity. discriminate. Qed.

Example default_metrics_path : forallb (fun svc => found (service_mux svc "/internal/metrics")) [Gate; Queue; Admission; Scorer; Shop] = true.
Proof. vm_compute. reflexivity. Qed.

(** A path that does not begin with a slash is read as a host and a path: it registers, and
    for that host the metrics take the place of a route. *)
Lemma metrics_host_takes_a_route : exists mux, service_mux Gate "example.com/healthz" = Some mux /\
  Handler mux "GET" "gate.example" "/healthz" = Handled Healthz /\
  Handler mux "GET" "example.com" "/healthz" = Handled Metrics.
Proof. eexists. split; [vm_compute; reflexivity|]. split; vm_compute; reflexivity. Qed.

(** *** The multiplexer of a service that started *)

(** A path that begins with a slash leaves the pattern without a host. *)
Lemma parse_metrics mp p : head_char mp = Some "/"%char -> parsePattern ("GET " +:+ mp) = Ok p -> method p = "GET" /\ host p = emp.
Proof.
  destruct mp as [|c mp]; [done|]. intros [= ->]. unfold parsePattern. rewrite decide_False by done.
  change (cut_at is_blank ("GET " +:+ String "/" mp)) with (Some ("GET", " " +:+ String "/" mp)). cbv beta iota.
  change (trim_blanks (" " +:+ String "/" mp)) with (String "/" mp).
  change (cut_at (is_char "/") (String "/" mp)) with (Some (emp, String "/" mp)). cbv beta iota.
  destruct (_ && _); [done|]. change (found (cut_at (is_char "{") emp)) with false. cbv iota.
  destruct (_ && _); [done|]. destruct (parse_segments _ _) as [ss|e]; [|done]. intros [= <-]. done.
Qed.


Definition own_entry (x : string * string * route) : pattern * route :=
  (MkPattern x.1.1 emp (Lit <$> path_segments x.1.2), x.2).

#[export] Instance pattern_eq_dec : EqDecision pattern.
Proof. solve_decision. Defined.

Definition parses_as_own (x : string * string * route) : bool :=
  match parsePattern (x.1.1 +:+ " " +:+ x.1.2) with Ok p => bool_decide (p = (own_entry x).1) | Err _ => false end.

Lemma own_patterns svc : forallb parses_as_own (own_routes svc) = true.
Proof. destruct svc; vm_compute; reflexivity. Qed.

(** No two routes share method and path, and the paths are clean. *)
Lemma own_distinct svc : NoDup ((fun x => (x.1.1, path_segments x.1.2)) <$> own_routes svc).
Proof. apply (bool_decide_unpack (NoDup _)). destruct svc; vm_compute; exact I. Qed.

Definition plain_route (x : string * string * route) : bool :=
  bool_decide (x.1.2 = cleanPath x.1.2) && negb (ends_with "/" x.1.2) && negb (bool_decide ("/" ∈ path_segments x.1.2)) &&
  bool_decide (x.1.1 = "GET" \/ x.1.1 = "POST").

Lemma own_plain svc x : x ∈ own_routes svc ->
  x.1.2 = cleanPath x.1.2 /\ ends_with "/" x.1.2 = false /\ "/" ∉ path_segments x.1.2 /\ (x.1.1 = "GET" \/ x.1.1 = "POST").
Proof.
  intros Hx. assert (Hall : forallb plain_route (own_routes svc) = true) by (destruct svc; vm_compute; reflexivity).
  rewrite forallb_forall in Hall. specialize (Hall x (proj1 (list_elem_of_In _ _) Hx)). unfold plain_route in Hall. bool_to_prop. done.
Qed.

(** The segments tell the paths of the routes apart. *)
Lemma same_path svc x y : x ∈ own_routes svc -> y ∈ own_routes svc -> path_segments x.1.2 = path_segments y.1.2 -> x.1.2 = y.1.2.
Proof.
  intros Hx Hy. assert (Hall : forallb (fun a => forallb (fun b => negb (bool_decide (path_segments a.1.2 = path_segments b.1.2)) || bool_decide (a.1.2 = b.1.2))
    (own_routes svc)) (own_routes svc) = true) by (destruct svc; vm_compute; reflexivity).
  rewrite forallb_forall in Hall. specialize (Hall x (proj1 (list_elem_of_In _ _) Hx)). rewrite forallb_forall in Hall.
  specialize (Hall y (proj1 (list_elem_of_In _ _) Hy)). intros E. rewrite bool_decide_eq_true_2 in Hall by done. by apply bool_decide_eq_true in Hall.
Qed.

(** The registrations of a process: the metrics, then its own routes. *)
Definition registrations (svc : service) : list (string * route) := (fun x => (x.1.1 +:+ " " +:+ x.1.2, x.2)) <$> own_routes svc.

Lemma service_mux_eq svc mp : service_mux svc mp = Handles (("GET " +:+ mp, Metrics) :: registrations svc) [].
Proof. unfold service_mux, NewServer, Register. by rewrite <- Handles_app. Qed.

(** A clean path of literal segments that is no GET route's registers. *)
Definition plain_path (mp : string) : Prop :=
  head_char mp = Some "/"%char /\ mp = cleanPath mp /\ ends_with "/" mp = false /\ forall_chars no_brace mp = true.

Lemma parse_plain mp : plain_path mp -> parsePattern ("GET " +:+ mp) = Ok (MkPattern "GET" emp (Lit <$> path_segments mp)).
Proof.
  intros (Hh & Hc & He & Hb). destruct mp as [|c mp]; [done|]. injection Hh as ->. unfold parsePattern. rewrite decide_False by done.
  change (cut_at is_blank ("GET " +:+ String "/" mp)) with (Some ("GET", " " +:+ String "/" mp)). cbv beta iota.
  change (trim_blanks (" " +:+ String "/" mp)) with (String "/" mp).
  change (cut_at (is_char "/") (String "/" mp)) with (Some (emp, String "/" mp)). cbv beta iota.
  change (validMethod "GET") with true. change (found (cut_at (is_char "{") emp)) with false. rewrite andb_false_r. cbv iota.
  rewrite (bool_decide_eq_true_2 _ Hc), andb_false_r. unfold path_segments.
  change (tail (Split "/" (String "/" mp))) with (Split "/" mp). rewrite parse_literal; [done| |].
  - apply Split_forall. by apply andb_true_iff in Hb as [_ Hb].
  - intros [->|Hl]%last_piece; [done|]. destruct mp; [done|]. cbn [ends_with] in He, Hl. congruence.
Qed.

Lemma plain_path_registers svc mp : plain_path mp -> (forall p r, ("GET", p, r) ∈ own_routes svc -> path_segments mp <> path_segments p) ->
  is_Some (service_mux svc mp).
Proof.
  intros Hp Hno. rewrite service_mux_eq. cbn [Handles]. unfold Handle at 1. rewrite (parse_plain mp Hp). cbn [existsb mbind option_bind app].
  assert (Hown : found (Handles (registrations svc) []) = true) by (destruct svc; vm_compute; reflexivity).
  destruct (Handles (registrations svc) []) as [mux|] eqn:E; [|done]. eexists. apply (Handles_under _ _ _ _ E).
  intros x q (y & -> & Hy)%list_elem_of_fmap. cbn [fst]. pose proof (own_patterns svc) as Ho. rewrite forallb_forall in Ho.
  specialize (Ho y (proj1 (list_elem_of_In _ _) Hy)). unfold parses_as_own in Ho. intros Hq. rewrite Hq in Ho.
  apply bool_decide_eq_true in Ho as ->. apply (literals_do_not_conflict _ _ (path_segments y.1.2) (path_segments mp)); [done..|].
  destruct (own_plain svc y Hy) as (_ & _ & _ & [Hg|Hg]); [right|left].
  - destruct y as [[m p] r]. cbn in *. subst m. intros E'. by apply (Hno p r Hy).
  - unfold compareMethods. cbn. by rewrite Hg.
Qed.

(** The multiplexer of a service: the metrics, then its routes, none of them shadowed. *)
Lemma service_entries svc mp mux : head_char mp = Some "/"%char -> service_mux svc mp = Some mux ->
  exists pm, parsePattern ("GET " +:+ mp) = Ok pm /\ method pm = "GET" /\ host pm = emp /\ mux = (pm, Metrics) :: (own_entry <$> own_routes svc) /\
    forall x, x ∈ own_routes svc -> x.1.1 = "GET" -> segments pm <> Lit <$> path_segments x.1.2.
Proof.
  intros Hmp E. rewrite service_mux_eq in E. unfold registrations in E.
  cbn [Handles] in E. destruct (Handle ("GET " +:+ mp) Metrics []) as [m1|] eqn:Em; cbn [mbind option_bind] in E; [|done].
  apply Handle_spec in Em as (pm & Hp & -> & _). destruct (parse_metrics mp pm Hmp Hp) as [Hm Hh].
  apply Handles_spec in E as (ps & Hps & -> & Hc). exists pm.
  assert (Hps' : ps = (fun x => (own_entry x).1) <$> own_routes svc).
  { pose proof (own_patterns svc) as Ho. clear -Hps Ho. revert ps Hps Ho. generalize (own_routes svc). intros l.
    induction l as [|x l IH]; intros ps Hps; cbn [fmap list_fmap forallb]; [intros _; by apply list.Forall2_nil_inv_l in Hps|]. intros [Hx Hl]%andb_true_iff.
    rewrite fmap_cons in Hps. apply list.Forall2_cons_inv_l in Hps as (p & ps' & Hp & Hps' & ->). cbn [fst] in Hp.
    unfold parses_as_own in Hx. rewrite Hp in Hx. apply bool_decide_eq_true in Hx as ->. f_equal. by apply IH. }
  split_and!; [done|done|done| |].
  - cbn [app]. f_equal. rewrite Hps'. generalize (own_routes svc). intros l. induction l as [|x l IH]; [done|]. cbn. by f_equal.
  - intros x Hx Hg Hseg. assert (Hin : (own_entry x).1 ∈ ps).
    { rewrite Hps'. apply list_elem_of_fmap. by exists x. }
    specialize (Hc _ (pm, Metrics) Hin ltac:(left)). rewrite (same_literal_conflicts _ _ (path_segments x.1.2)) in Hc; cbn; congruence.
Qed.

(** *** Searching it *)

Lemma NoDup_fmap_same {A B} (f : A -> B) l x y : NoDup (f <$> l) -> x ∈ l -> y ∈ l -> f x = f y -> x = y.
Proof.
  induction l as [|z l IH]; [by intros _ ?%elem_of_nil|]. rewrite fmap_cons. intros [Hz Hnd]%list.NoDup_cons.
  intros [->|Hx]%elem_of_cons [->|Hy]%elem_of_cons E; [done| | |by apply IH].
  - exfalso. apply Hz. rewrite E. by apply list_elem_of_fmap_2.
  - exfalso. apply Hz. rewrite <- E. by apply list_elem_of_fmap_2.
Qed.

#[local] Instance Lit_inj : Inj (=) (=) Lit.
Proof. by intros x y [= ->]. Qed.

Section Searching.
Variables (svc : service) (pm : pattern).
Hypotheses (Hm : method pm = "GET") (Hh : host pm = emp).
Hypothesis Hfree : forall x, x ∈ own_routes svc -> x.1.1 = "GET" -> segments pm <> Lit <$> path_segments x.1.2.

Let mux : ServeMux route := (pm, Metrics) :: (own_entry <$> own_routes svc).

Lemma entry_cases e : e ∈ mux -> e = (pm, Metrics) \/ exists x, x ∈ own_routes svc /\ e = own_entry x.
Proof.
  intros [->|He]%elem_of_cons; [by left|]. right. apply list_elem_of_fmap in He as (x & -> & Hx). eauto.
Qed.

Lemma entry_host e : e ∈ mux -> host e.1 = emp /\ (method e.1 = "GET" \/ method e.1 = "POST").
Proof.
  intros [->|(x & Hx & ->)]%entry_cases; [by split; [|left]|]. split; [done|]. by destruct (own_plain svc x Hx) as (_ & _ & _ & ?).
Qed.

Lemma under_none h m : h <> emp \/ (m <> "GET" /\ m <> "POST") -> under h m mux = [].
Proof.
  intros Hn. destruct (under h m mux) as [|[ss e] l] eqn:E; [done|]. exfalso. assert (Hin : (ss, e) ∈ under h m mux) by (rewrite E; left).
  apply under_elem in Hin as (Hin & H1 & H2 & _). apply entry_host in Hin as [He Hme]. destruct Hn as [Hn|[Hg Hpo]]; [congruence|]. destruct Hme; congruence.
Qed.

(** The search in the subtrees comes down to that of the method, and of GET for HEAD. *)
Lemma find_in h m segs : find_match mux h m segs =
  or_else (matchPath (under emp m mux) segs) (if decide (m = "HEAD") then matchPath (under emp "GET" mux) segs else None).
Proof.
  unfold find_match, matchMethodAndPath.
  assert (Hno : forall m', under h m' mux = [] \/ h = emp) by (intros m'; destruct (decide (h = emp)); [by right|left; apply under_none; by left]).
  rewrite (under_none emp emp) by (right; done). rewrite matchPath_nil.
  destruct (decide (h = emp)) as [->|Hne].
  - cbn [or_else]. destruct (matchPath (under emp m mux) segs); [done|]. cbn [or_else]. by destruct (decide _), (matchPath (under emp "GET" mux) segs).
  - rewrite !(under_none h) by (by left). rewrite matchPath_nil. 
    assert (or_else (A := pattern * route) None (or_else (if decide (m = "HEAD") then None else None) None) = None) as -> by (by destruct (decide _)).
    cbn [or_else]. destruct (matchPath (under emp m mux) segs); [done|]. cbn [or_else]. by destruct (decide _), (matchPath (under emp "GET" mux) segs).
Qed.

Lemma find_own x : x ∈ own_routes svc -> matchPath (under emp x.1.1 mux) (path_segments x.1.2) = Some (own_entry x).
Proof.
  intros Hx. apply matchPath_literal.
  - apply under_elem. split_and!; [|done..]. right. by apply list_elem_of_fmap_2.
  - intros y (Hy & _ & Hmy & Hs)%under_elem. apply entry_cases in Hy as [->|(z & Hz & ->)].
    + cbn in Hs, Hmy. exfalso. apply (Hfree x Hx); [congruence|done].
    + f_equal. apply (NoDup_fmap_same _ _ z x (own_distinct svc)); [done..|]. cbn in Hs, Hmy. apply (inj (fmap Lit)) in Hs. by rewrite Hmy, Hs.
Qed.

(** What is found is the route of that path and method, or the metrics. *)
Lemma found_cases m segs e : matchPath (under emp m mux) segs = Some e ->
  e = (pm, Metrics) /\ m = "GET" /\ covers (segments pm) segs = true \/
  exists x, x ∈ own_routes svc /\ e = own_entry x /\ x.1.1 = m /\ segs = path_segments x.1.2.
Proof.
  intros (ss & (He & _ & Hmm & ->)%under_elem & Hc)%matchPath_sound. apply entry_cases in He as [->|(x & Hx & ->)]; [left|right].
  - cbn in *. split_and!; [done|congruence|done].
  - exists x. split_and!; [done|done|done|]. by apply covers_literal.
Qed.

Lemma own_handled x h : x ∈ own_routes svc ->
  Handler mux x.1.1 h x.1.2 = Handled x.2 /\ (x.1.1 = "GET" -> Handler mux "HEAD" h x.1.2 = Handled x.2).
Proof.
  intros Hx. destruct (own_plain svc x Hx) as (Hc & _ & _ & Hmx). pose proof (find_own x Hx) as Hf.
  assert (Hfound : forall m, find_match mux h m (path_segments x.1.2) = Some (own_entry x) -> Handler mux m h x.1.2 = Handled x.2).
  { intros m E. unfold Handler. rewrite E. unfold exactMatch at 1. cbn [own_entry segments]. rewrite ends_multi_literal. cbn [negb orb andb].
    rewrite bool_decide_eq_true_2 by done. reflexivity. }
  split; [|intros Hg]; apply Hfound; rewrite find_in.
  - by rewrite Hf.
  - rewrite (under_none emp "HEAD") by (right; done). rewrite matchPath_nil, <- Hg, Hf. done.
Qed.

Lemma handled_cases m h path r : Handler mux m h path = Handled r ->
  (exists m' p, (m', p, r) ∈ own_routes svc /\ path_segments path = path_segments p /\ (m = m' \/ m = "HEAD" /\ m' = "GET")) \/
  (r = Metrics /\ (m = "GET" \/ m = "HEAD") /\ covers (segments pm) (path_segments path) = true).
Proof.
  unfold Handler. destruct (_ && _ && _); [done|]. destruct (negb _); [done|]. rewrite find_in.
  destruct (matchPath (under emp m mux) _) as [[p' r']|] eqn:E1; cbn [or_else].
  - intros [= ->]. apply found_cases in E1 as [([= -> ->] & -> & Hc)|(x & Hx & [= -> ->] & Hmx & Hs)]; [right; auto|left].
    destruct x as [[m' p] r]. exists m', p. cbn in *. auto.
  - destruct (decide (m = "HEAD")) as [->|]; [|by destruct (decide _)].
    destruct (matchPath (under emp "GET" mux) _) as [[p' r']|] eqn:E2; [|by destruct (decide _)].
    intros [= ->]. apply found_cases in E2 as [([= -> ->] & _ & Hc)|(x & Hx & [= -> ->] & Hmx & Hs)]; [right; auto|left].
    destruct x as [[m' p] r]. exists m', p. cbn in *. auto.
Qed.

Lemma search_none m segs : covers (segments pm) segs = false ->
  (forall x, x ∈ own_routes svc -> segs = path_segments x.1.2 -> x.1.1 <> m) -> matchPath (under emp m mux) segs = None.
Proof.
  intros Hc Hx. destruct (matchPath _ segs) as [e|] eqn:E; [|done]. exfalso.
  apply found_cases in E as [(_ & _ & ?)|(x & Hin & _ & Hmx & Hs)]; [congruence|]. by apply (Hx x).
Qed.

Lemma find_none h m segs : covers (segments pm) segs = false ->
  (forall x, x ∈ own_routes svc -> segs = path_segments x.1.2 -> x.1.1 <> m /\ (m = "HEAD" -> x.1.1 <> "GET")) ->
  find_match mux h m segs = None.
Proof.
  intros Hc Hx. rewrite find_in, search_none by (done || intros; by apply Hx). cbn [or_else]. destruct (decide (m = "HEAD")) as [->|]; [|done].
  apply search_none; [done|]. intros x Hin Hs. by apply (Hx x Hin Hs).
Qed.

Lemma slashed_is_no_route path x : x ∈ own_routes svc -> path_segments (path +:+ "/") <> path_segments x.1.2.
Proof. intros Hx E. destruct (own_plain svc x Hx) as (_ & _ & Hn & _). apply Hn. rewrite <- E. apply path_segments_slashed. Qed.

Lemma methods_at_elem m h segs : m ∈ methods_at mux h segs ->
  is_Some (matchPath (under emp m mux) segs).
Proof.
  unfold methods_at. rewrite elem_of_list_to_set. intros Hin. apply list_elem_of_In, List.filter_In in Hin as [_ Hb].
  apply andb_true_iff in Hb as [_ Hb]. apply orb_true_iff in Hb as [Hb|Hb].
  - destruct (decide (h = emp)) as [->|Hne]; [|rewrite under_none in Hb by (by left); by rewrite matchPath_nil in Hb].
    destruct (matchPath _ segs); [by eexists|done].
  - destruct (matchPath _ segs); [by eexists|done].
Qed.

Lemma own_method_allowed x h : x ∈ own_routes svc -> x.1.1 ∈ allowed mux h x.1.2.
Proof.
  intros Hx. assert (Hin : x.1.1 ∈ methods_at mux h (path_segments x.1.2)).
  { unfold methods_at. rewrite elem_of_list_to_set. apply list_elem_of_In, List.filter_In. split.
    - apply list_elem_of_In, list_elem_of_fmap. exists (own_entry x). split; [done|]. right. by apply list_elem_of_fmap_2.
    - destruct (own_plain svc x Hx) as (_ & _ & _ & Hmx). rewrite bool_decide_eq_false_2 by (by destruct Hmx as [->| ->]).
      rewrite (find_own x Hx). cbn. apply orb_true_r. }
  unfold allowed. destruct (decide _); [apply elem_of_union_r|]; by apply elem_of_union_l.
Qed.

Lemma nothing_allowed h path : covers (segments pm) (path_segments path) = false -> covers (segments pm) (path_segments (path +:+ "/")) = false ->
  (forall x, x ∈ own_routes svc -> path_segments path <> path_segments x.1.2) -> allowed mux h path = ∅.
Proof.
  intros H1 H2 Hx. assert (E1 : methods_at mux h (path_segments path) = ∅).
  { apply set_eq. intros m. split; [|by intros ?%not_elem_of_empty]. intros [e He]%methods_at_elem. rewrite search_none in He; [done..|]. intros x Hin Hs. by apply Hx in Hin. }
  assert (E2 : methods_at mux h (path_segments (path +:+ "/")) = ∅).
  { apply set_eq. intros m. split; [|by intros ?%not_elem_of_empty]. intros [e He]%methods_at_elem. rewrite search_none in He; [done..|]. intros x Hin Hs. by apply slashed_is_no_route in Hs. }
  unfold allowed. rewrite E1, E2. assert (forall b : bool, (∅ : gset string) ∪ (if b then ∅ else ∅) = ∅) as -> by (intros []; apply (union_empty_l_L (C := gset string))).
  rewrite decide_False; [done|apply not_elem_of_empty].
Qed.

(** With nothing found at the path or with a slash, the answer is one of the two errors. *)
Lemma unmatched m h path : path = cleanPath path -> covers (segments pm) (path_segments (path +:+ "/")) = false ->
  find_match mux h m (path_segments path) = None ->
  Handler mux m h path = if decide (allowed mux h path = ∅) then NotFound else MethodNotAllowed (allowed mux h path).
Proof.
  intros Hc Hs Hn. unfold Handler. rewrite Hn. rewrite (find_none h m (path_segments (path +:+ "/"))); [|done|].
  - cbn [exactMatch]. rewrite andb_false_r. by rewrite bool_decide_eq_true_2.
  - intros x Hx E. by apply slashed_is_no_route in E.
Qed.

End Searching.


(** What a request to a service gets; [uncovered]: the pattern of the metrics admits neither
    its path nor its path with a slash. *)
Definition uncovered (pm : pattern) (path : string) : Prop :=
  covers (segments pm) (path_segments path) = false /\ covers (segments pm) (path_segments (path +:+ "/")) = false.

(** C37: a request reaches its handler when the metrics path begins with a slash.  Under a
    clean metrics path of literal segments that is no route's, the registrations of every
    service succeed.  And whatever path beginning with a slash the metrics are configured
    under, if the registrations do not panic: a request for a route of the service, from any host, is handled by it (GET
    routes also answer HEAD); a request that is handled is one for the route, or a GET or
    HEAD that the metrics pattern admits; a clean path that is no route's and is not the
    metrics' gets 404, and a route's path under another method 405 with the route's method
    among those allowed. *)
Theorem requests_reach_their_handlers svc mp :
  (plain_path mp -> (forall p r, ("GET", p, r) ∈ own_routes svc -> path_segments mp <> path_segments p) ->
   is_Some (service_mux svc mp)) /\
  forall mux, head_char mp = Some "/"%char -> service_mux svc mp = Some mux ->
  (forall m p r h, (m, p, r) ∈ own_routes svc ->
     Handler mux m h p = Handled r /\ (m = "GET" -> Handler mux "HEAD" h p = Handled r)) /\
  exists pm, parsePattern ("GET " +:+ mp) = Ok pm /\ forall m h path,
  (forall r, Handler mux m h path = Handled r ->
     (exists m' p, (m', p, r) ∈ own_routes svc /\ path_segments path = path_segments p /\ (m = m' \/ m = "HEAD" /\ m' = "GET")) \/
     (r = Metrics /\ (m = "GET" \/ m = "HEAD") /\ covers (segments pm) (path_segments path) = true)) /\
  (path = cleanPath path -> uncovered pm path ->
     (forall m' p r, (m', p, r) ∈ own_routes svc -> path_segments path <> path_segments p) -> Handler mux m h path = NotFound) /\
  (forall m' r, (m', path, r) ∈ own_routes svc -> uncovered pm path ->
     (forall r', (m, path, r') ∉ own_routes svc) -> (m = "HEAD" -> forall r', ("GET", path, r') ∉ own_routes svc) ->
     exists allow, Handler mux m h path = MethodNotAllowed allow /\ m' ∈ allow).
Proof.
  split; [apply plain_path_registers|]. intros mux Hmp Hmux. destruct (service_entries svc mp mux Hmp Hmux) as (pm & Hp & Hm & Hh & -> & Hfree). split.
  { intros m p r h Hx. exact (own_handled svc pm Hm Hh Hfree (m, p, r) h Hx). }
  exists pm. split; [done|]. intros m h path. split; [|split].
  - intros r. by apply handled_cases.
  - intros Hc [H1 H2] Hno. assert (Hno' : forall x, x ∈ own_routes svc -> path_segments path <> path_segments x.1.2) by (intros [[m' p] r] Hx; by apply (Hno m' p r)).
    rewrite unmatched, nothing_allowed; [done..|]. apply find_none; [done..|]. intros x Hx E. by apply Hno' in Hx.
  - intros m' r Hx [H1 H2] Hm1 Hm2. pose proof (own_method_allowed svc pm Hm Hfree (m', path, r) h Hx) as Ha. cbn [fst snd] in Ha.
    destruct (own_plain svc _ Hx) as (Hc & _). cbn [fst snd] in Hc.
    rewrite unmatched; [|done..|].
    + rewrite decide_False; [eexists; by split|]. intros Ea. rewrite Ea in Ha. by apply not_elem_of_empty in Ha.
    + apply find_none; [done..|]. intros [[m2 p2] r2] Hx2 E. cbn in E.
      assert (p2 = path) as -> by (symmetry; by apply (same_path svc (m', path, r) (m2, p2, r2))).
      cbn. split; [intros ->; by apply (Hm1 r2)|intros -> ->; by apply (Hm2 eq_refl r2)].
Qed.

Lemma requests_reach_their_handlers_witness :
  exists mux, service_mux Gate "/internal/metrics" = Some mux /\
    Handler mux "POST" "gate.example" "/api/v1/queue/enter" = Handled Enter /\
    Handler mux "GET" "gate.example" "/api/v1/orders" = NotFound.
Proof.
  destruct (requests_reach_their_handlers Gate "/internal/metrics") as [H0 H].
  assert (His : is_Some (service_mux Gate "/internal/metrics")).
  { apply H0; [split_and!; vm_compute; reflexivity|]. intros p r Hin.
    assert (Hall : forallb (fun x => negb (bool_decide (path_segments "/internal/metrics" = path_segments x.1.2))) (own_routes Gate) = true) by (vm_compute; reflexivity).
    rewrite forallb_forall in Hall. specialize (Hall _ (proj1 (list_elem_of_In _ _) Hin)). apply negb_true_iff, bool_decide_eq_false in Hall. exact Hall. }
  destruct His as [mux E]. exists mux. split; [exact E|].
  destruct (H mux eq_refl E) as (H1 & pm & Hp & H2). split.
  - apply (H1 "POST" "/api/v1/queue/enter" Enter "gate.example"). right; right; left.
  - vm_compute in Hp. injection Hp as <-. apply (H2 "GET" "gate.example" "/api/v1/orders").
    + vm_compute. reflexivity.
    + split; vm_compute; reflexivity.
    + intros m p r Hin. assert (Hall : forallb (fun x => negb (bool_decide (path_segments "/api/v1/orders" = path_segments x.1.2))) (own_routes Gate) = true) by (vm_compute; reflexivity).
      rewrite forallb_forall in Hall. specialize (Hall (m, p, r) (proj1 (list_elem_of_In _ _) Hin)). apply negb_true_iff, bool_decide_eq_false in Hall. exact Hall.
Defined.

End Routes.
