(* ===== verification/Api.v ===== *)
(** * Authentication, and the handlers of the waiting room

    [internal/api/api.go], [internal/api/queue.go], [internal/api/sse.go] and
    [internal/api/admission.go].  Logging is left out; the metrics
    are in [Metrics]. *)

From S2P Require Import Prelude.
From S2P Require Import Go.
From S2P Require Import Redis.
From S2P Require Import Float.
From S2P Require Import Config.
From S2P Require Import Conn.
From S2P Require Import QueueStore.
From S2P Require Import Admission.
From S2P Require Import Window.
From S2P Require Import Token.
From S2P Require Import Http.
From S2P Require Import Encode.
Import Httpx.
Local Open Scope string_scope.
Local Open Scope Z_scope.
Local Open Scope list_scope.

Module Api.

Definition TokenCookie : string := "sg_queue_token".
Definition EntryHeader : string := "X-Entry-Token".
Definition IdempotencyHeader : string := "Idempotency-Key".
Definition FingerprintHeader : string := "X-Device-Fingerprint".

Definition bearer (r : Request) : string :=
  let h := Get_ r "Authorization" in
  if (7 <? String.length h)%nat && EqualFold (String.substring 0 7 h) "bearer "
  then TrimSpace (String.substring 7 (String.length h - 7) h) else emp.

Definition queueToken (r : Request) : string :=
  let t := bearer r in
  if decide (t <> emp) then t else default emp (Cookie r TokenCookie).

Definition binding `{Netip} (r : Request) (v4bits v6bits : Z) : Token.Binding :=
  Token.MkBinding (Get_ r FingerprintHeader) (IPPrefix (ClientIP r) v4bits v6bits).

Record authenticator := MkAuth { issuer : Token.Issuer; aEventID : string; v4bits : Z; v6bits : Z }.

Definition auth_of (i : Token.Issuer) (cfg : Cfg.Config) : authenticator :=
  MkAuth i (Cfg.Event.ID (Cfg.event cfg)) (Cfg.Token.IPv4PrefixBits (Cfg.token cfg)) (Cfg.Token.IPv6PrefixBits (Cfg.token cfg)).

Section Auth.
Context {W S : Type} `{HasRedis W S} `{Netip} `{Token.Jwt}.

Definition verify (a : authenticator) (r : Request) (raw kind : string) : H W Token.Claims :=
  if decide (raw = emp) then api_error 401 "token_required" "queue token is required"
  else
    res ← call (Token.VerifyBound (issuer a) raw kind (aEventID a) (binding r (v4bits a) (v6bits a)));
    match res with
    | Ok claims => mret claims
    | Err _ => api_error 401 "token_invalid" "token is not valid for this request"
    end.

End Auth.
End Api.

Module QueueApi.
Import Api.

Record QueueAPI := MkQueueAPI {
  auth : authenticator;
  store : Queue.Config;
  pollHint : Z;
  keepalive : Z;
  shardRate : float64;
  gates : Queue.Gates
}.

Definition NewQueueAPI (store : Queue.Config) (i : Token.Issuer) (cfg : Cfg.Config) : QueueAPI :=
  let a := Cfg.admission cfg in let e := Cfg.event cfg in
  let rate := f64_of_Z (Cfg.Admission.RatePerMin a) in
  let rate := if 0 <? Cfg.Event.ShardCount e then f64_div rate (f64_of_Z (Cfg.Event.ShardCount e)) else rate in
  let opens := if Cfg.Admission.AfterLottery a && negb (IsZero (Cfg.Event.OpenAt e))
               then time_add (Cfg.Event.OpenAt e) (Cfg.Event.LotteryWindow e) else zero_time in
  MkQueueAPI (auth_of i cfg) store (Cfg.Queue.StatusPollHint (Cfg.queue cfg)) (Cfg.Queue.SSEKeepalive (Cfg.queue cfg))
    rate (Queue.MkGates opens (Cfg.Admission.MinDwell a)).

Record StatusResponse := MkStatusResponse {
  Event : string; Shard : string; State : string; Segment : string; Rank : Z; Ahead : Z;
  ShardSize : Z; EstimateMS : Z; PollAfter : Z
}.

Definition Canceled : string := "context canceled".

(** One step of an event stream: the ticker, the keepalive ticker, or the end of the request. *)
Inductive tick := Tick | Keepalive | Done.

Inductive frame := Status_ (s : StatusResponse) | Comment.

(** The response writer of a stream: whether it is an [http.Flusher], and the outcomes of its
    writes in order (an exhausted list is a healthy connection). *)
Record writer := MkWriter { flusher : bool; writes : list bool }.

Definition next_write (ws : list bool) : bool * list bool :=
  match ws with [] => (true, []) | b :: ws => (b, ws) end.

(** The members of the JSON objects, by the struct tags. *)
Definition status_members (s : StatusResponse) : list Encode.member :=
  [Encode.Member "event" false (Encode.JStr (Event s)); Encode.Member "shard" false (Encode.JStr (Shard s));
   Encode.Member "state" false (Encode.JStr (State s)); Encode.Member "segment" true (Encode.JStr (Segment s));
   Encode.Member "rank" false (Encode.JInt (Rank s)); Encode.Member "ahead" false (Encode.JInt (Ahead s));
   Encode.Member "shard_size" false (Encode.JInt (ShardSize s));
   Encode.Member "estimated_wait_ms" false (Encode.JInt (EstimateMS s));
   Encode.Member "poll_after_ms" false (Encode.JInt (PollAfter s))].

Record HeartbeatRequest := MkHeartbeatRequest { PointerEntropy : float64; Visible : bool; Events : list string }.

Record HeartbeatResponse := MkHeartbeatResponse {
  hState : string; hRank : Z; Beats : Z; hRevived : bool; NextAfter : Z }.

Definition heartbeat_members (h : HeartbeatResponse) : list Encode.member :=
  [Encode.Member "state" false (Encode.JStr (hState h)); Encode.Member "rank" false (Encode.JInt (hRank h));
   Encode.Member "beats" false (Encode.JInt (Beats h)); Encode.Member "revived" false (Encode.JBool (hRevived h));
   Encode.Member "next_after_ms" false (Encode.JInt (NextAfter h))].

(** [status] answers with one snapshot or with a stream of frames. *)
Inductive status_answer := Once (s : StatusResponse) | Stream (frames : list frame).

Section Handlers.
Context {S : Type} `{Redis S} `{Lua S} `{Netip} `{Token.Jwt}.
Context (q : QueueAPI).

Definition snapshot (c : Token.Claims) : H (world S) StatusResponse :=
  res ← call (Queue.Position (store q) (Token.Shard c) (Token.TokenID c));
  match res with
  | Err e =>
      if errors_Is e Canceled then refuse (Plain e)
      else api_error 503 "unavailable" "queue is temporarily unavailable"
  | Ok snap =>
      t ← time_Now;
      mret (MkStatusResponse (Token.EventID c) (Queue.SShard snap) (Queue.Status snap) (Queue.Segment snap)
              (Queue.Rank snap) (Queue.Ahead snap) (Queue.Size snap)
              (Milliseconds (Queue.EstimateWaitAt snap t (shardRate q) (gates q))) (Milliseconds (pollHint q)))
  end.

Definition event_stream (v : string) : bool := String.prefix "text/event-stream" v.

Definition wantsSSE (r : Request) : bool := existsb event_stream (Header r "Accept").

(** Whether the stream goes on after a snapshot. *)
Definition goes_on (s : StatusResponse) : bool :=
  bool_decide (State s = "waiting") || bool_decide (State s = "evicting").

(** [send]: the frame written, if any, whether the stream goes on, and the writes to come. *)
Definition send (c : Token.Claims) (ws : list bool) : H (world S) (list frame * bool * list bool) := fun w =>
  let r := snapshot c w in
  Served (after r) (published r)
    (inl (match outcome r with
          | inl s => let '(ok, ws) := next_write ws in if ok then ([Status_ s], goes_on s, ws) else ([], false, ws)
          | inr _ => ([], false, ws)
          end)).

Fixpoint stream_loop (c : Token.Claims) (ticks : list tick) (ws : list bool) : H (world S) (list frame) :=
  match ticks with
  | [] | Done :: _ => mret []
  | Keepalive :: rest =>
      let '(ok, ws) := next_write ws in
      if negb ok then mret [] else fs ← stream_loop c rest ws; mret (Comment :: fs)
  | Tick :: rest =>
      x ← send c ws;
      if negb x.1.2 then mret x.1.1
      else fs ← stream_loop c rest x.2; mret (x.1.1 ++ fs)
  end.

(** The periods of the two tickers are positive.  A frame is listed when its write succeeds;
    of one that fails, the client may still have received a part. *)
Definition stream (c : Token.Claims) (rw : writer) (ticks : list tick) : H (world S) (list frame) :=
  if negb (flusher rw) then api_error 500 "sse_unsupported" "streaming is not supported"
  else
    x ← send c (writes rw);
    if negb x.1.2 then mret x.1.1
    else fs ← stream_loop c ticks x.2; mret (x.1.1 ++ fs).

Definition status (r : Request) (rw : writer) (ticks : list tick) : H (world S) (answer status_answer) :=
  claims ← verify (auth q) r (queueToken r) Token.KindQueue;
  if negb (wantsSSE r) then
    snap ← snapshot claims;
    WriteJSON 200 (Once snap)
  else
    frames ← stream claims rw ticks;
    WriteJSON 200 (Stream frames).

Definition heartbeat `{Json HeartbeatRequest} (r : Request) : H (world S) (answer HeartbeatResponse) :=
  claims ← verify (auth q) r (queueToken r) Token.KindQueue;
  body ← (if 0 <? ContentLength r then decoded r else mret (MkHeartbeatRequest f64_0 false []));
  res ← call (Queue.Heartbeat (store q) (Token.Shard claims) (Token.TokenID claims));
  match res with
  | Err _ => api_error 503 "unavailable" "queue is temporarily unavailable"
  | Ok beat =>
      t ← time_Now;
      _ ← publish (Telemetry.MkEvent Telemetry.KindHeartbeat (Token.EventID claims) (Token.Shard claims)
             (Token.TokenID claims) t (Token.FPHash claims)
             (Token.IPPrefix claims) (Milliseconds (Queue.Interval beat)) 0 0 (PointerEntropy body) (Visible body) 0);
      WriteJSON 200 (MkHeartbeatResponse (Queue.bStatus beat) (Queue.bRank beat) (Queue.Count beat)
                       (Queue.Revived beat) (Milliseconds (pollHint q)))
  end.

End Handlers.
End QueueApi.

Module AdmissionApi.
Import Api.

Record AdmissionAPI := MkAdmissionAPI {
  auth : authenticator;
  store : Admission.Config;
  issue : Token.Issuer;
  minDwell : Z;
  pollHint : Z
}.

Definition NewAdmissionAPI (store : Admission.Config) (i : Token.Issuer) (cfg : Cfg.Config) : AdmissionAPI :=
  MkAdmissionAPI (auth_of i cfg) store i (Cfg.Admission.MinDwell (Cfg.admission cfg)) (Cfg.Queue.StatusPollHint (Cfg.queue cfg)).

Definition observeRetry (a : AdmissionAPI) (waited : Z) : Z :=
  let left := int64_sub (minDwell a) waited in
  if pollHint a <? left then left else pollHint a.

Record RedeemResponse := MkRedeemResponse {
  Status : string; EntryToken : string; Rank : Z; Budget : Z; WaitedMS : Z; RetryMS : Z }.

Definition redeem_members (x : RedeemResponse) : list Encode.member :=
  [Encode.Member "status" false (Encode.JStr (Status x)); Encode.Member "entry_token" true (Encode.JStr (EntryToken x));
   Encode.Member "rank" true (Encode.JInt (Rank x)); Encode.Member "budget" false (Encode.JInt (Budget x));
   Encode.Member "waited_ms" true (Encode.JInt (WaitedMS x)); Encode.Member "retry_after_ms" true (Encode.JInt (RetryMS x))].

Section Handlers.
Context {S : Type} `{Redis S} `{Lua S} `{Netip} `{Token.Jwt}.
Context (a : AdmissionAPI).

(** The claims of an entry token: those of the queue token, with the id of the ticket. *)
Definition entry_claims (c : Token.Claims) (jti : string) : Token.Claims :=
  Token.MkClaims Token.KindEntry (Token.EventID c) (Token.TokenID c) jti (Token.Shard c) (Token.FPHash c)
    (Token.IPPrefix c) zero_time zero_time.

Definition redeem (r : Request) : H (world S) (answer RedeemResponse) :=
  claims ← verify (auth a) r (queueToken r) Token.KindQueue;
  id ← call Token.NewID;
  match id with
  | Err _ => api_error 500 "internal" "could not issue entry token"
  | Ok jti =>
      adm ← call (Admission.Admit (store a) (Token.Shard claims) (Token.TokenID claims) jti);
      match adm with
      | Err _ => api_error 503 "unavailable" "admission is temporarily unavailable"
      | Ok res =>
          let st := Admission.Status res in
          if decide (st = "admitted") then
            signed ← call (Token.Issue (issue a) (entry_claims claims (Admission.JTI res)));
            match signed with
            | Err _ => api_error 500 "internal" "could not issue entry token"
            | Ok (raw, _) =>
                t ← time_Now;
                _ ← publish (Telemetry.MkEvent Telemetry.KindAdmit (Token.EventID claims) (Token.Shard claims)
                       (Token.TokenID claims) t (Token.FPHash claims)
                       (Token.IPPrefix claims) 0 0 0 f64_0 false (Milliseconds (Admission.Waited res)));
                WriteJSON 200 (MkRedeemResponse st raw (Admission.Rank res) (Admission.rBudget res)
                                 (Milliseconds (Admission.Waited res)) 0)
            end
          else if decide (st = "not_yet") then
            WriteJSON 200 (MkRedeemResponse st emp (Admission.Rank res) (Admission.rBudget res) 0 0)
          else if decide (st = "observing") then
            WriteJSON 200 (MkRedeemResponse st emp (Admission.Rank res) (Admission.rBudget res) 0
                             (Milliseconds (observeRetry a (Admission.Waited res))))
          else if decide (st = "greylist") then
            WriteJSON 200 (MkRedeemResponse "challenge_required" emp (Admission.Rank res) (Admission.rBudget res) 0
                             (Milliseconds (pollHint a)))
          else if decide (st = "held" \/ st = "blocked") then
            api_error 403 st "this token is not eligible for admission"
          else api_error 409 st "no queue position for this token"
      end
  end.

End Handlers.
End AdmissionApi.
