(* ===== verification/Gate.v ===== *)
(** * The gate: puzzles in, queue tokens out, and the way back from the greylist

    [internal/api/gate.go] and [internal/api/rechallenge.go].  Logging and metrics (in [Metrics]) are left
    out. *)

From S2P Require Import Prelude.
From S2P Require Import Go.
From S2P Require Import Redis.
From S2P Require Import Shard.
From S2P Require Import Float.
From S2P Require Import Config.
From S2P Require Import Conn.
From S2P Require Import QueueStore.
From S2P Require Import Window.
From S2P Require Import Actuator.
From S2P Require Import Crypto.
From S2P Require Import Challenge.
From S2P Require Import Token.
From S2P Require Import Http.
From S2P Require Import Api.
Import Httpx Api.
Local Open Scope string_scope.
Local Open Scope Z_scope.
Local Open Scope list_scope.

(** The MAC of the shard assignment is the one of [Crypto]. *)
#[export] Instance assign_mac : Assign.Mac := fun salt tok => Crypto.hmac_sha256 salt (bytes_of tok).

Module Gate.

Record GateAPI (S : Type) := MkGateAPI {
  chal : Challenge.Issuer S;
  assigner : Assign.Assigner;
  queue : Queue.Config;
  tokens : Token.Issuer;
  auth : authenticator;
  eventID : string;
  gv4bits : Z;
  gv6bits : Z;
  pollHint : Z;
  secure : bool;
  rechalMax : Z;
  rechalPass : Z;
  rechalHold : Z
}.
Arguments chal {S} _.
Arguments assigner {S} _.
Arguments queue {S} _.
Arguments tokens {S} _.
Arguments auth {S} _.
Arguments eventID {S} _.
Arguments gv4bits {S} _.
Arguments gv6bits {S} _.
Arguments pollHint {S} _.
Arguments secure {S} _.
Arguments rechalMax {S} _.
Arguments rechalPass {S} _.
Arguments rechalHold {S} _.

Definition NewGateAPI {S} (chal : Challenge.Issuer S) (assigner : Assign.Assigner) (store : Queue.Config)
    (tokens : Token.Issuer) (cfg : Cfg.Config) : GateAPI S :=
  MkGateAPI S chal assigner store tokens (auth_of tokens cfg) (Cfg.Event.ID (Cfg.event cfg))
    (Cfg.Token.IPv4PrefixBits (Cfg.token cfg)) (Cfg.Token.IPv6PrefixBits (Cfg.token cfg))
    (Cfg.Queue.StatusPollHint (Cfg.queue cfg)) (Cfg.Token.SecureCookie (Cfg.token cfg))
    (Cfg.BotScore.RechallengeMaxAttempts (Cfg.botscore cfg)) (Cfg.BotScore.RechallengePassScore (Cfg.botscore cfg))
    (Cfg.BotScore.Hold (Cfg.botscore cfg)).

Record EnterRequest := MkEnterRequest { eFingerprintHash : string }.

Record EnterResponse := MkEnterResponse { eEvent : string; eChallenge : Challenge.Challenge; ePollAfter : Z }.

Record VerifyRequest := MkVerifyRequest {
  vChallenge : Challenge.Challenge; vSolution : string; vFingerprintHash : string; vSolveMS : Z }.

Record VerifyResponse := MkVerifyResponse {
  rEvent : string; rToken : string; rShard : string; rState : string; rSegment : string; rRank : Z;
  rShardSize : Z; rExpiresAt : Z; rPollAfter : Z; rAlreadyIn : bool; rShardCount : Z }.

Record ReissueResponse := MkReissueResponse {
  iEvent : string; iChallenge : Challenge.Challenge; iAttempt : Z; iAttemptsLeft : Z; iPollAfter : Z }.

Record ReverifyRequest := MkReverifyRequest { xChallenge : Challenge.Challenge; xSolution : string; xSolveMS : Z }.

Record ReverifyResponse := MkReverifyResponse {
  yEvent : string; yStatus : string; yOutcome : string; yShard : string; yRank : Z; yAttempts : Z;
  yAttemptsLeft : Z; yPollAfter : Z }.

Section Handlers.
Context {S : Type} `{Redis S} `{Lua S} `{Netip} `{Token.Jwt}.
Context (g : GateAPI S).

Definition fingerprint (r : Request) (fromBody : string) : string :=
  let h := Get_ r FingerprintHeader in if decide (h <> emp) then h else fromBody.

Definition prefix_of (r : Request) : string := IPPrefix (ClientIP r) (gv4bits g) (gv6bits g).

Definition unavailable {A} : H (world S) A := api_error 503 "unavailable" "queue is temporarily unavailable".

Definition enter `{Json EnterRequest} (r : Request) : H (world S) (answer EnterResponse) :=
  body ← (if 0 <? ContentLength r then decoded r else mret (MkEnterRequest emp));
  let subj := Difficulty.MkSubject (fingerprint r (eFingerprintHash body)) (prefix_of r) 0 in
  c ← call (Challenge.Issue (chal g) subj);
  match c with
  | Err _ => api_error 503 "unavailable" "could not issue a challenge"
  | Ok c => WriteJSON 200 (MkEnterResponse (eventID g) c (Milliseconds (pollHint g)))
  end.

(** The answer to a failed verification: only an expired puzzle is told apart. *)
Definition challenge_refused {A} (e : error) : H (world S) A :=
  if errors_Is e Challenge.ErrExpired
  then api_error 410 "challenge_expired" "challenge expired, request a new one"
  else api_error 403 "challenge_failed" "challenge verification failed".

Definition event (kind shard tok : string) (t : time) (fp ipp : string) (solveMS difficulty : Z) : Telemetry.Event :=
  Telemetry.MkEvent kind (eventID g) shard tok t fp ipp 0 solveMS difficulty f64_0 false 0.

(** The solve time is published only when the client reported one. *)
Definition publish_solved (shard tok fp ipp : string) (solveMS difficulty : Z) : H (world S) unit :=
  if 0 <? solveMS then
    t ← time_Now;
    publish (event Telemetry.KindChallenge shard tok t fp ipp solveMS difficulty)
  else mret tt.

Definition queue_claims (tok shard fp ipp : string) : Token.Claims :=
  Token.MkClaims Token.KindQueue (eventID g) tok tok shard fp ipp zero_time zero_time.

Definition verify `{Json VerifyRequest} (r : Request) : H (world S) (answer VerifyResponse) :=
  body ← decoded r;
  v ← call (Challenge.Verify (chal g) (vChallenge body) (vSolution body));
  match v with
  | Err e => challenge_refused e
  | Ok _ =>
      id ← call Token.NewID;
      match id with
      | Err _ => api_error 500 "internal" "could not issue a queue token"
      | Ok tokenID =>
          let shardID := Assign.Assign (assigner g) tokenID in
          let fp := fingerprint r (vFingerprintHash body) in
          let ipp := prefix_of r in
          tick ← call (Queue.Enqueue (queue g) (Queue.MkEnqueueRequest shardID tokenID fp ipp));
          match tick with
          | Err _ => unavailable
          | Ok ticket =>
              sg ← call (Token.Issue (tokens g) (queue_claims tokenID shardID fp ipp));
              match sg with
              | Err _ => api_error 500 "internal" "could not issue a queue token"
              | Ok (signed, claims) =>
                  t ← time_Now;
                  _ ← publish (event Telemetry.KindEnter shardID tokenID t fp ipp 0 0);
                  _ ← publish_solved shardID tokenID fp ipp (vSolveMS body) (Challenge.cDifficulty (vChallenge body));
                  mret (Answer 200
                    (MkVerifyResponse (eventID g) signed shardID (Queue.tStatus ticket) (Queue.tSegment ticket)
                       (Queue.tRank ticket) (Queue.tSize ticket) (UnixMilli (Token.ExpiresAt claims))
                       (Milliseconds (pollHint g)) (bool_decide (Queue.tStatus ticket = "exists"))
                       (Assign.count (assigner g)))
                    [(TokenCookie, signed)])
              end
          end
      end
  end.

(** ** Re-challenges *)

Definition attemptOf (c : Token.Claims) : H (world S) Z :=
  res ← call (Queue.Position (queue g) (Token.Shard c) (Token.TokenID c));
  mret (match res with
        | Err _ => int64_add (rechalMax g) 1
        | Ok snap => int64_add (Queue.Rechallenges snap) 1
        end).

Definition attempts_left (used : Z) : Z :=
  let left := int64_sub (rechalMax g) used in if left <? 0 then 0 else left.

Definition reissue (r : Request) : H (world S) (answer ReissueResponse) :=
  claims ← Api.verify (auth g) r (queueToken r) Token.KindQueue;
  pos ← call (Queue.Position (queue g) (Token.Shard claims) (Token.TokenID claims));
  match pos with
  | Err _ => unavailable
  | Ok snap =>
      if decide (Queue.Status snap <> "greylist")
      then api_error 409 "not_greylisted" "this token is not awaiting re-verification"
      else
        let attempt := int64_add (Queue.Rechallenges snap) 1 in
        let attempt := if rechalMax g <? attempt then int64_add (rechalMax g) 1 else attempt in
        c ← call (Challenge.Issue (chal g) (Difficulty.MkSubject (fingerprint r emp) (prefix_of r) attempt));
        match c with
        | Err _ => api_error 503 "unavailable" "could not issue a challenge"
        | Ok c =>
            WriteJSON 200 (MkReissueResponse (eventID g) c attempt (attempts_left (Queue.Rechallenges snap))
                             (Milliseconds (pollHint g)))
        end
  end.

(** [Required] never fails. *)
Definition required (attempt : Z) : H (world S) Z :=
  r ← call (Challenge.Required (chal g) (Difficulty.MkSubject emp emp attempt));
  mret (match r with Ok d => d | Err _ => Challenge.base (chal g) end).

Definition rechallenge_request (c : Token.Claims) : Queue.RechallengeRequest :=
  Queue.MkRechallengeRequest (Token.Shard c) (Token.TokenID c) (rechalMax g) (rechalPass g) (rechalHold g).

Definition reverify `{Json ReverifyRequest} (r : Request) : H (world S) (answer ReverifyResponse) :=
  claims ← Api.verify (auth g) r (queueToken r) Token.KindQueue;
  body ← decoded r;
  attempt ← attemptOf claims;
  want ← required attempt;
  if Challenge.cDifficulty (xChallenge body) <? want
  then api_error 409 "challenge_stale" "this challenge is below the required difficulty, request a new one"
  else
    v ← call (Challenge.Verify (chal g) (xChallenge body) (xSolution body));
    match v with
    | Err e => challenge_refused e
    | Ok _ =>
        out ← call (Queue.Rechallenge (queue g) (rechallenge_request claims));
        match out with
        | Err _ => unavailable
        | Ok res =>
            if decide (Queue.Outcome res = "unknown") then api_error 409 "unknown" "no queue position for this token"
            else
              _ ← (if decide (Queue.Outcome res = "restored") then
                     t ← time_Now;
                     _ ← publish (event Telemetry.KindRechallenge (Token.Shard claims) (Token.TokenID claims) t
                            (Token.FPHash claims) (Token.IPPrefix claims) 0 0);
                     publish_solved (Token.Shard claims) (Token.TokenID claims) (Token.FPHash claims)
                       (Token.IPPrefix claims) (xSolveMS body) (Challenge.cDifficulty (xChallenge body))
                   else mret tt);
              WriteJSON 200 (MkReverifyResponse (eventID g) (Queue.qStatus res) (Queue.Outcome res) (Token.Shard claims)
                               (Queue.qRank res) (Queue.Attempts res) (attempts_left (Queue.Attempts res))
                               (Milliseconds (pollHint g)))
        end
    end.

End Handlers.
End Gate.
