(* ===== verification/Orders.v ===== *)
(** * Orders

    [internal/store/pg/orders.go] over the table of [deploy/postgres/init/001_schema.sql].
    PostgreSQL and its driver are not part of the repository: [OrdersDB] is what the two
    statements ask of them, [OrdersLaws] the documented behaviour of a lookup and of an
    insert under the UNIQUE constraints of the schema, and [MemTable] one table that
    satisfies the laws. *)

From S2P Require Import Prelude.
From S2P Require Import Go.
From S2P Require Import Config.
From S2P Require Import Crypto.
Local Open Scope string_scope.
Local Open Scope Z_scope.
Local Open Scope list_scope.

Module Orders.

Definition ErrDuplicateOrder : string := "pg: already purchased in this event".
Definition ErrEntryReused : string := "pg: entry token already used".

Definition pgUniqueViolation : string := "23505".

(** ** The pool

    The driver's pool is a parameter: [ParseConfig] reads a DSN, [NewWithConfig] connects.
    Of its configuration the code touches [MaxConns]. *)

Record PoolConfig := MkPoolConfig { MaxConns : Z; settings : string }.

(** [int32(x)] of an [int]. *)
Definition int32 (x : Z) : Z := (x + 2 ^ 31) mod 2 ^ 32 - 2 ^ 31.

Section Pool.
Context {Q : Type} (ParseConfig : string -> result PoolConfig) (NewWithConfig : PoolConfig -> result Q).

Definition Open (cfg : Cfg.Postgres.t) : result Q :=
  match ParseConfig (string_of (Cfg.Bytes (Cfg.Postgres.DSN cfg))) with
  | Err _ => Err (ErrNew "pg: invalid dsn")
  | Ok pcfg =>
      let pcfg := if 0 <? Cfg.Postgres.MaxConns cfg then MkPoolConfig (int32 (Cfg.Postgres.MaxConns cfg)) (settings pcfg) else pcfg in
      match NewWithConfig pcfg with
      | Err e => Err (ErrWrap "pg: connect" e)
      | Ok pool => Ok pool
      end
  end.

(** [Close]: the pools it closes; the receiver may be nil, and so may its pool. *)
Definition Close (p : option (option Q)) : list Q :=
  match p with Some (Some pool) => [pool] | _ => [] end.

Definition Ping (ping : Q -> result unit) (p : Q) : result unit :=
  match ping p with Err e => Err (ErrWrap "pg: ping" e) | Ok _ => Ok tt end.

(** A DSN that cannot be read is not repeated in the error. *)
Lemma Open_hides_the_dsn cfg e : ParseConfig (string_of (Cfg.Bytes (Cfg.Postgres.DSN cfg))) = Err e ->
  Open cfg = Err (ErrNew "pg: invalid dsn").
Proof. unfold Open. by intros ->. Qed.

(** The pool has the connections asked for as long as they fit 32 bits. *)
Lemma Open_conns cfg pcfg q : ParseConfig (string_of (Cfg.Bytes (Cfg.Postgres.DSN cfg))) = Ok pcfg ->
  0 < Cfg.Postgres.MaxConns cfg < 2 ^ 31 -> Open cfg = Ok q ->
  NewWithConfig (MkPoolConfig (Cfg.Postgres.MaxConns cfg) (settings pcfg)) = Ok q.
Proof.
  unfold Open. intros -> Hm. rewrite (proj2 (Z.ltb_lt _ _)) by lia. unfold int32. rewrite Z.mod_small by lia.
  replace (Cfg.Postgres.MaxConns cfg + 2 ^ 31 - 2 ^ 31) with (Cfg.Postgres.MaxConns cfg) by lia.
  destruct (NewWithConfig _) as [q'|e]; [by intros [= ->]|done].
Qed.

End Pool.

(** Above, the number wraps around: the configuration sets no upper bound. *)
Example conns_wrap_around : int32 2147483648 = - 2147483648 /\ int32 4294967296 = 0.
Proof. by vm_compute. Qed.

Record Order := MkOrder {
  ID : Z;
  EventID : string;
  TokenID : string;
  AccountID : string;
  EntryJTI : string;
  IdemKey : string;
  SKU : string;
  Qty : Z;
  CreatedAt : time
}.

#[export] Instance order_eq_dec : EqDecision Order.
Proof. solve_decision. Defined.

(** ** The UNIQUE constraints of the table, by name: one clash of an order with a row *)

Definition same_event (a b : Order) : bool := bool_decide (EventID a = EventID b).

Definition constraints : list (string * (Order -> Order -> bool)) := [
  ("orders_event_id_idempotency_key_key", fun a b => same_event a b && bool_decide (IdemKey a = IdemKey b));
  ("orders_event_id_account_id_key", fun a b => same_event a b && bool_decide (AccountID a = AccountID b));
  ("orders_event_id_token_id_key", fun a b => same_event a b && bool_decide (TokenID a = TokenID b));
  ("orders_event_id_entry_jti_key", fun a b => same_event a b && bool_decide (EntryJTI a = EntryJTI b))].

Definition violated (o : Order) (rows : list Order) (name : string) : Prop :=
  exists clash row, (name, clash) ∈ constraints /\ row ∈ rows /\ clash o row = true.

Definition conflict_free (o : Order) (rows : list Order) : Prop := forall name, ~ violated o rows name.

(** ** The server *)

(** A failed statement: a server error with its code and constraint, or anything else. *)
Inductive pg_error :=
  | PgError (code constraint_name : string)
  | PgOther (msg : string).

Class OrdersDB (P : Type) := {
  select_by_idem : string -> string -> P -> P * (option Order + pg_error);
  (** the generated id and creation time *)
  insert_order : Order -> P -> P * ((Z * time) + pg_error)
}.

Definition stored (o : Order) (id : Z) (t : time) : Order :=
  MkOrder id (EventID o) (TokenID o) (AccountID o) (EntryJTI o) (IdemKey o) (SKU o) (Qty o) t.

Class OrdersLaws (P : Type) `{OrdersDB P} := {
  rows : P -> list Order;
  select_rows ev k p : rows (select_by_idem ev k p).1 = rows p;
  select_sound ev k p o : (select_by_idem ev k p).2 = inl (Some o) -> o ∈ rows p /\ EventID o = ev /\ IdemKey o = k;
  select_complete ev k p : (select_by_idem ev k p).2 = inl None -> forall o, o ∈ rows p -> EventID o = ev -> IdemKey o <> k;
  insert_ok o p id t : (insert_order o p).2 = inl (id, t) ->
    rows (insert_order o p).1 = stored o id t :: rows p /\ conflict_free o (rows p);
  insert_violation o p name : (insert_order o p).2 = inr (PgError pgUniqueViolation name) ->
    rows (insert_order o p).1 = rows p /\ violated o (rows p) name;
  (** after any other failure the row may or may not be there *)
  insert_other o p e : (insert_order o p).2 = inr e ->
    rows (insert_order o p).1 = rows p \/
    exists id t, rows (insert_order o p).1 = stored o id t :: rows p /\ conflict_free o (rows p)
}.

(** ** The methods of [Orders] *)

Section Methods.
Context {P : Type} {D : OrdersDB P}.

Definition pg_text (e : pg_error) : string :=
  match e with PgError code name => code +:+ " " +:+ name | PgOther m => m end.

(** [None] is the pair of two nils. *)
Definition FindByIdempotencyKey (ev k : string) (p : P) : P * result (option Order) :=
  let r := select_by_idem ev k p in
  (r.1, match r.2 with
        | inl o => Ok o
        | inr e => Err (ErrWrap "pg: find order" (ErrNew (pg_text e)))
        end).

Definition Create (ord : Order) (p : P) : P * result (option Order) :=
  let r := insert_order ord p in
  (r.1, match r.2 with
        | inl (id, t) => Ok (Some (stored ord id t))
        | inr (PgError code name) =>
            if decide (code = pgUniqueViolation) then
              if decide (name = "orders_event_id_entry_jti_key") then Err (ErrNew ErrEntryReused)
              else if decide (name = "orders_event_id_idempotency_key_key") then Ok None
              else Err (ErrNew ErrDuplicateOrder)
            else Err (ErrWrap "pg: create order" (ErrNew (pg_text (PgError code name))))
        | inr e => Err (ErrWrap "pg: create order" (ErrNew (pg_text e)))
        end).

End Methods.

(** ** Lemmas *)

Section Laws.
Context {P : Type} {D : OrdersDB P} {DL : OrdersLaws P}.

Lemma Create_rows ord p :
  let r := Create ord p in
  rows r.1 = rows p /\ (forall o, r.2 <> Ok (Some o)) \/
  exists id t, rows r.1 = stored ord id t :: rows p /\ conflict_free ord (rows p) /\
    (r.2 = Ok (Some (stored ord id t)) \/ exists e, r.2 = Err e).
Proof.
  cbv zeta. unfold Create. destruct (insert_order ord p).2 as [[id t]|e] eqn:E; cbn [fst snd].
  - destruct (insert_ok ord p id t E) as [Hr Hc]. right. exists id, t. split_and!; auto.
  - assert (Herr : forall r', (forall o, r' <> Ok (Some o)) -> (exists e', r' = Err e') \/ r' = Ok None ->
      rows (insert_order ord p).1 = rows p /\ (forall o, r' <> Ok (Some o)) \/
      exists id t, rows (insert_order ord p).1 = stored ord id t :: rows p /\ conflict_free ord (rows p) /\
        (r' = Ok (Some (stored ord id t)) \/ exists e0, r' = Err e0) \/ r' = Ok None).
    { intros r' Hn Hd. destruct (insert_other ord p e E) as [Hr|(id & t & Hr & Hc)]; [by left|right].
      exists id, t. destruct Hd; [left|by right]. split_and!; auto. }
    destruct e as [code name|m].
    + destruct (decide (code = pgUniqueViolation)) as [->|Hne].
      * left. split; [by apply (insert_violation ord p name)|]. intros o. by repeat case_decide.
      * destruct (Herr (Err (ErrWrap "pg: create order" (ErrNew (pg_text (PgError code name)))))) as [?|(id & t & [?|?])]; eauto; done.
    + destruct (Herr (Err (ErrWrap "pg: create order" (ErrNew (pg_text (PgOther m)))))) as [?|(id & t & [?|?])]; eauto; done.
Qed.

(** No two rows clash. *)
Definition consistent (rs : list Order) : Prop :=
  forall i j a b, rs !! i = Some a -> rs !! j = Some b -> i <> j ->
    EventID a = EventID b ->
    IdemKey a <> IdemKey b /\ AccountID a <> AccountID b /\ TokenID a <> TokenID b /\ EntryJTI a <> EntryJTI b.

Lemma clash_free o row rs : conflict_free o rs -> row ∈ rs -> EventID o = EventID row ->
  IdemKey o <> IdemKey row /\ AccountID o <> AccountID row /\ TokenID o <> TokenID row /\ EntryJTI o <> EntryJTI row.
Proof.
  intros Hc Hin He.
  assert (Hno : forall name clash, (name, clash) ∈ constraints -> clash o row = false).
  { intros name clash Hcl. destruct (clash o row) eqn:E; [|done]. exfalso. apply (Hc name). by exists clash, row. }
  unfold constraints in Hno. setoid_rewrite elem_of_cons in Hno.
  assert (Hse : same_event o row = true) by (by apply bool_decide_eq_true_2).
  split_and!; intros Heq.
  - specialize (Hno _ _ (or_introl eq_refl)). cbn in Hno. rewrite Hse, bool_decide_eq_true_2 in Hno; done.
  - specialize (Hno _ _ (or_intror (list_elem_of_here _ _))). cbn in Hno. rewrite Hse, bool_decide_eq_true_2 in Hno; done.
  - specialize (Hno _ _ (or_intror (list_elem_of_further _ _ _ (list_elem_of_here _ _)))). cbn in Hno. rewrite Hse, bool_decide_eq_true_2 in Hno; done.
  - specialize (Hno _ _ (or_intror (list_elem_of_further _ _ _ (list_elem_of_further _ _ _ (list_elem_of_here _ _))))).
    cbn in Hno. rewrite Hse, bool_decide_eq_true_2 in Hno; done.
Qed.

Lemma consistent_cons o id t rs : consistent rs -> conflict_free o rs -> consistent (stored o id t :: rs).
Proof.
  intros Hrs Hc i j a b Hi Hj Hij He.
  destruct i as [|i], j as [|j]; cbn in Hi, Hj; [done| | |eapply (Hrs i j); eauto].
  - injection Hi as <-. apply list_elem_of_lookup_2 in Hj. by apply (clash_free o b rs).
  - injection Hj as <-. apply list_elem_of_lookup_2 in Hi. destruct (clash_free o a rs Hc Hi (eq_sym He)) as (? & ? & ? & ?).
    split_and!; by apply not_eq_sym.
Qed.

End Laws.

(** ** One table that satisfies the laws *)

Module MemTable.

Definition clash_name (o : Order) (rs : list Order) : option string :=
  fst <$> List.find (fun c => existsb (c.2 o) rs) constraints.

#[export] Instance mem_orders : OrdersDB (list Order) := {
  select_by_idem ev k rs :=
    (rs, inl (List.find (fun o => bool_decide (EventID o = ev) && bool_decide (IdemKey o = k)) rs));
  insert_order o rs :=
    match clash_name o rs with
    | Some name => (rs, inr (PgError pgUniqueViolation name))
    | None => (stored o (Z.of_nat (length rs)) 0 :: rs, inl (Z.of_nat (length rs), 0))
    end
}.

#[local] Arguments clash_name : simpl never.

Lemma clash_name_some o rs name : clash_name o rs = Some name -> violated o rs name.
Proof.
  unfold clash_name. destruct (List.find _ constraints) as [[n cl]|] eqn:E; [|done]. intros [= <-].
  apply List.find_some in E as [Hin Hex]. apply existsb_exists in Hex as (row & Hrow & Hcl).
  exists cl, row. split_and!; [by apply list_elem_of_In|by apply list_elem_of_In|done].
Qed.

Lemma clash_name_none o rs : clash_name o rs = None -> conflict_free o rs.
Proof.
  unfold clash_name. destruct (List.find _ constraints) as [?|] eqn:E; [done|]. intros _ name (cl & row & Hin & Hrow & Hcl).
  apply list_elem_of_In in Hin. pose proof (List.find_none _ _ E _ Hin) as Hn. cbn in Hn.
  enough (existsb (cl o) rs = true) by congruence. apply existsb_exists. exists row. by rewrite <- list_elem_of_In.
Qed.

#[export] Instance mem_orders_laws : OrdersLaws (list Order).
Proof.
  refine {| rows := fun rs => rs |}; cbn.
  - done.
  - intros ev k rs o [= Hf]. apply List.find_some in Hf as [Hin Hb]. bool_to_prop. by rewrite list_elem_of_In.
  - intros ev k rs [= Hf] o Hin He Hk. apply list_elem_of_In in Hin. pose proof (List.find_none _ _ Hf _ Hin) as Hn. cbn in Hn.
    rewrite !bool_decide_eq_true_2 in Hn by done. done.
  - intros o rs id t. destruct (clash_name o rs) eqn:E; cbn; [done|]. intros [= <- <-]. split; [done|by apply clash_name_none].
  - intros o rs name. destruct (clash_name o rs) eqn:E; cbn; [|done]. intros [= <-]. split; [done|by apply clash_name_some].
  - intros o rs e. destruct (clash_name o rs) eqn:E; cbn; [|done]. by left.
Defined.

End MemTable.
End Orders.
