(* ===== verification/Shop.v ===== *)
(** * The shop: one order per entry ticket

    [internal/api/shop.go]: the entry token, the idempotency key, the burn of the ticket in
    Redis and the insert into PostgreSQL, in the order of the code. *)

From S2P Require Import Prelude.
From S2P Require Import Go.
From S2P Require Import Redis.
From S2P Require Import Keys.
From S2P Require Import Shard.
From S2P Require Import Scripts.
From S2P Require Import Config.
From S2P Require Import Conn.
From S2P Require Import Admission.
From S2P Require Import Window.
From S2P Require Import Token.
From S2P Require Import Http.
From S2P Require Import Api.
From S2P Require Import Orders.
Import Httpx Api.
Local Open Scope string_scope.
Local Open Scope Z_scope.
Local Open Scope list_scope.

(** The shop talks to Redis and to PostgreSQL. *)
Record shop_world (S P : Type) := ShopWorld { redis_side : world S; pg_side : P }.
Arguments ShopWorld {S P} _ _.
Arguments redis_side {S P} _.
Arguments pg_side {S P} _.

#[export] Instance shop_redis {S P} : HasRedis (shop_world S P) S :=
  {| conn := redis_side; set_conn w sw := ShopWorld w (pg_side sw) |}.

Definition call_pg {S P A} (m : P -> P * result A) : H (shop_world S P) (result A) := fun w =>
  let r := m (pg_side w) in Served (ShopWorld (redis_side w) r.1) [] (inl r.2).

Module Shop.

Definition maxQty : Z := 1.

Record ShopAPI := MkShopAPI { auth : authenticator; admission : Admission.Config; sku : string }.

Definition NewShopAPI (store : Admission.Config) (i : Token.Issuer) (cfg : Cfg.Config) : ShopAPI :=
  MkShopAPI (auth_of i cfg) store (Cfg.Event.ID (Cfg.event cfg)).

Record OrderRequest := MkOrderRequest { AccountID : string; oSKU : string; oQty : Z }.

Record OrderResponse := MkOrderResponse {
  OrderID : Z; rEventID : string; rAccountID : string; rSKU : string; rQty : Z; rCreatedAt : time; Replayed : bool }.

Definition toResponse (o : Orders.Order) (replayed : bool) : OrderResponse :=
  MkOrderResponse (Orders.ID o) (Orders.EventID o) (Orders.AccountID o) (Orders.SKU o) (Orders.Qty o) (Orders.CreatedAt o) replayed.

Definition entryToken (r : Request) : string :=
  let t := Get_ r EntryHeader in if decide (t <> emp) then t else bearer r.

Section Handlers.
Context {S P : Type} `{Redis S} `{Lua S} `{Netip} `{Token.Jwt} `{Orders.OrdersDB P}.
Context (s : ShopAPI).

Definition unavailable {A} : H (shop_world S P) A := api_error 503 "unavailable" "order service is temporarily unavailable".

(** The quantity and the article, defaults filled in. *)
Definition qty_of (b : OrderRequest) : Z := if oQty b =? 0 then 1 else oQty b.
Definition sku_of (b : OrderRequest) : string := if decide (oSKU b = emp) then sku s else oSKU b.

Definition order_of (c : Token.Claims) (idem : string) (b : OrderRequest) : Orders.Order :=
  Orders.MkOrder 0 (Token.EventID c) (Token.TokenID c) (AccountID b) (Token.JTI c) idem (sku_of b) (qty_of b) zero_time.

Definition replay (o : Orders.Order) : H (shop_world S P) (answer OrderResponse) := WriteJSON 200 (toResponse o true).

(** The insert and its outcomes. *)
Definition place (c : Token.Claims) (idem : string) (b : OrderRequest) : H (shop_world S P) (answer OrderResponse) :=
  ord ← call_pg (Orders.Create (order_of c idem b));
  match ord with
  | Err e =>
      if errors_Is e Orders.ErrDuplicateOrder
      then api_error 409 "already_purchased" "this account already purchased in this event"
      else if errors_Is e Orders.ErrEntryReused then api_error 409 "entry_reused" "entry token was already used"
      else unavailable
  | Ok None =>
      prev ← call_pg (Orders.FindByIdempotencyKey (Token.EventID c) idem);
      match prev with
      | Ok (Some o) => replay o
      | _ => api_error 409 "idempotency_conflict" "concurrent request with the same Idempotency-Key"
      end
  | Ok (Some o) => WriteJSON 201 (toResponse o false)
  end.

(** The burn and its outcomes. *)
Definition purchase (c : Token.Claims) (idem : string) (b : OrderRequest) : H (shop_world S P) (answer OrderResponse) :=
  burn ← call (Admission.Burn (admission s) (Token.Shard c) (Token.JTI c) (Token.TokenID c));
  match burn with
  | Err _ => unavailable
  | Ok st =>
      if decide (st = Admission.BurnOK) then place c idem b
      else if decide (st = Admission.BurnMissing)
      then api_error 409 "entry_spent" "entry token was already used or has expired"
      else api_error 403 "entry_mismatch" "entry token does not belong to this queue token"
  end.

Definition create `{Json OrderRequest} (r : Request) : H (shop_world S P) (answer OrderResponse) :=
  claims ← verify (auth s) r (entryToken r) Token.KindEntry;
  let idem := Get_ r IdempotencyHeader in
  if decide (idem = emp) then api_error 400 "idempotency_key_required" "Idempotency-Key header is required"
  else
    body ← decoded r;
    if decide (AccountID body = emp) then api_error 400 "account_required" "account_id is required"
    else if (qty_of body <? 1) || (maxQty <? qty_of body) then api_error 400 "qty_invalid" "qty must be 1"
    else
      prev ← call_pg (Orders.FindByIdempotencyKey (Token.EventID claims) idem);
      match prev with
      | Err _ => unavailable
      | Ok (Some o) => replay o
      | Ok None => purchase claims idem body
      end.

End Handlers.
End Shop.
