(* ===== verification/Process.v ===== *)
(** * The life of a process

    What a [run] function of [cmd/*/main.go] does besides computing: it opens resources,
    defers their closing, starts loops in the background, and ends by a value (and then
    serves), an error or a panic; the deferred closings run on every path, last first.  A
    small monad keeps the account, so that [Assembly] reads like the source. *)

From S2P Require Import Prelude.
Local Open Scope string_scope.
Local Open Scope Z_scope.
Local Open Scope list_scope.

Inductive resource := RedisClient | Context | Producer | Pool | AuditWriter | Consumer.

#[export] Instance resource_eq_dec : EqDecision resource.
Proof. solve_decision. Defined.

Inductive loop := Growing | Sweeping | Distributing | Scoring | Consuming.

Inductive event := Opened (r : resource) | Started (l : loop) | Serving | Closed (r : resource).

Inductive ending (A : Type) := Value (a : A) | Fails (e : error) | Panics.
Arguments Value {A} a.
Arguments Fails {A} e.
Arguments Panics {A}.

(** How it ended, what happened so far, and the closings deferred, the next to run first. *)
Record proc (A : Type) := Proc { ended : ending A; happened : list event; deferred : list resource }.
Arguments Proc {A} ended happened deferred.
Arguments ended {A} _.
Arguments happened {A} _.
Arguments deferred {A} _.

#[export] Instance proc_ret : MRet proc := fun A a => Proc (Value a) [] [].

#[export] Instance proc_bind : MBind proc := fun A B f m =>
  match ended m with
  | Value a => let n := f a in Proc (ended n) (happened m ++ happened n) (deferred n ++ deferred m)
  | Fails e => Proc (Fails e) (happened m) (deferred m)
  | Panics => Proc Panics (happened m) (deferred m)
  end.

(** [if err != nil { return err }]. *)
Definition lift {A} (r : result A) : proc A := Proc (match r with Ok a => Value a | Err e => Fails e end) [] [].

(** A call that may panic. *)
Definition must {A} (o : option A) : proc A := Proc (match o with Some a => Value a | None => Panics end) [] [].

Definition opening (r : resource) : proc unit := Proc (Value tt) [Opened r] [].

(** [defer r.Close()]. *)
Definition defer (r : resource) : proc unit := Proc (Value tt) [] [r].

(** [go l.Run(ctx)]. *)
Definition start (l : loop) : proc unit := Proc (Value tt) [Started l] [].

(** The whole life: with a value the process serves, and then the deferred closings run. *)
Definition life {A} (m : proc A) : list event :=
  happened m ++ (match ended m with Value _ => [Serving] | _ => [] end) ++ (Closed <$> deferred m).

Definition opened (l : list event) : list resource := omap (fun e => match e with Opened r => Some r | _ => None end) l.

(** Whatever was opened is to be closed, in reverse order, and nothing else is. *)
Definition tidy {A} (m : proc A) : Prop := deferred m = rev (opened (happened m)).

Lemma bind_lift_ok {A B} (a : A) (f : A -> proc B) : (lift (Ok a) ≫= f) = f a.
Proof. unfold mbind, proc_bind. cbn. rewrite app_nil_r. by destruct (f a). Qed.

Lemma bind_lift_err {A B} e (f : A -> proc B) : (lift (Err e) ≫= f) = Proc (Fails e) [] [].
Proof. done. Qed.

Lemma bind_must_some {A B} (a : A) (f : A -> proc B) : (must (Some a) ≫= f) = f a.
Proof. unfold mbind, proc_bind. cbn. rewrite app_nil_r. by destruct (f a). Qed.

Lemma bind_must_none {A B} (f : A -> proc B) : (must None ≫= f) = Proc Panics [] [].
Proof. done. Qed.

Lemma bind_proc {A B} (a : A) h d (f : A -> proc B) :
  (Proc (Value a) h d ≫= f) = Proc (ended (f a)) (h ++ happened (f a)) (deferred (f a) ++ d).
Proof. done. Qed.

Lemma bind_opening {B} r (f : unit -> proc B) : (opening r ≫= f) = Proc (ended (f tt)) (Opened r :: happened (f tt)) (deferred (f tt)).
Proof. unfold mbind, proc_bind. cbn. by rewrite app_nil_r. Qed.

Lemma bind_defer {B} r (f : unit -> proc B) : (defer r ≫= f) = Proc (ended (f tt)) (happened (f tt)) (deferred (f tt) ++ [r]).
Proof. done. Qed.

Lemma bind_start {B} l (f : unit -> proc B) : (start l ≫= f) = Proc (ended (f tt)) (Started l :: happened (f tt)) (deferred (f tt)).
Proof. unfold mbind, proc_bind. cbn. by rewrite app_nil_r. Qed.

Lemma opened_app l1 l2 : opened (l1 ++ l2) = opened l1 ++ opened l2.
Proof. apply omap_app. Qed.

Lemma tidy_lift {A} (r : result A) : tidy (lift r).
Proof. done. Qed.

Lemma tidy_must {A} (o : option A) : tidy (must o).
Proof. done. Qed.

Lemma tidy_ret {A} (a : A) : tidy (mret a).
Proof. done. Qed.

Lemma tidy_start l : tidy (start l).
Proof. done. Qed.

Lemma tidy_bind {A B} (m : proc A) (f : A -> proc B) : tidy m -> (forall a, tidy (f a)) -> tidy (m ≫= f).
Proof.
  unfold tidy, mbind, proc_bind. intros Hm Hf. destruct (ended m) as [a|e|]; cbn; [|done..].
  by rewrite Hf, Hm, opened_app, rev_app_distr.
Qed.

(** A resource is opened and its closing deferred at once. *)
Lemma tidy_acquire {A} r (k : proc A) : tidy k -> tidy (opening r ≫= fun _ => defer r ≫= fun _ => k).
Proof. unfold tidy. cbn. intros ->. by rewrite app_nil_r. Qed.

(** Along the text of a [run] function. *)
Ltac tidy :=
  repeat (cbv beta zeta; match goal with
  | |- tidy (mbind _ (opening _)) => apply tidy_acquire
  | |- tidy (mbind _ _) => apply tidy_bind; [|intros ?]
  | |- tidy (if ?b then _ else _) => destruct b
  | |- tidy _ => first [apply tidy_lift | apply tidy_must | apply tidy_ret | apply tidy_start]
  end).

(** Running a [run] function step by step. *)
Ltac running := repeat (rewrite ?bind_lift_ok, ?bind_lift_err, ?bind_must_some, ?bind_must_none, ?bind_proc, ?bind_opening, ?bind_defer, ?bind_start; cbv beta iota zeta;
  cbn [ended happened deferred app]).
