(* ===== verification/Assembly.v ===== *)
(** * The five processes

    [internal/app/bootstrap.go] and the [run] function of every [cmd/*/main.go]: which
    configuration a process needs, which components it builds of it, in order, with the first
    error ending the process, the routes it registers ([Routes]), the loops it starts and what
    it closes ([Process]).  The connections ([redis.Ping], [pg.Open]) are outcomes given as
    arguments; serving is one event, and logging is left out.

    [validated_processes_start] shows that the checks of the loader make the errors of the
    constructors unreachable but for the form of the event's identifier, and every period of
    a background loop positive but for the scorer's. *)

From S2P Require Import Prelude.
From S2P Require Import Go.
From S2P Require Import Redis.
From S2P Require Import Scripts.
From S2P Require Import Shard.
From S2P Require Import Conn.
From S2P Require Import Config.
From S2P Require Import Load.
From S2P Require Import QueueStore.
From S2P Require Import Admission.
From S2P Require Import Window.
From S2P Require Import Scorer.
From S2P Require Import Actuator.
From S2P Require Import Challenge.
From S2P Require Import Token.
From S2P Require Import Http.
From S2P Require Import Routes.
From S2P Require Import Process.
From S2P Require Import Api.
From S2P Require Import Gate.
From S2P Require Import Orders.
From S2P Require Import Shop.
Local Open Scope string_scope.
Local Open Scope Z_scope.
Local Open Scope list_scope.

(** ** What the stores take of the configuration *)

Definition queue_FromConfig (c : Cfg.Config) : Queue.Config :=
  Queue.MkConfig (Cfg.Event.ID (Cfg.event c)) (Cfg.Event.OpenAt (Cfg.event c)) (Cfg.Event.LotteryWindow (Cfg.event c))
    (Cfg.Token.QueueTTL (Cfg.token c)) (Cfg.Queue.HeartbeatInterval (Cfg.queue c)) (Cfg.Queue.MissedHeartbeats (Cfg.queue c))
    (Cfg.Queue.EvictGrace (Cfg.queue c)) (Cfg.Queue.EvictedRetain (Cfg.queue c)) (Cfg.Queue.SweepBatch (Cfg.queue c)).

Definition admission_FromConfig (c : Cfg.Config) : Admission.Config :=
  let a := Cfg.admission c in
  Admission.MkConfig (Cfg.Event.ID (Cfg.event c)) (Cfg.Admission.RatePerMin a) (Cfg.Admission.Interval a)
    (Cfg.Admission.AfterLottery a) (Cfg.Event.OpenAt (Cfg.event c)) (Cfg.Event.LotteryWindow (Cfg.event c))
    (Cfg.Admission.MinDwell a) (Cfg.Admission.MinBeats a) (Cfg.Admission.MaxBudgetPerShard a)
    (Cfg.Admission.BackpressureMin a) (Cfg.Admission.BreakerFailures a) (Cfg.Admission.BreakerCooldown a)
    (Cfg.Token.EntryTTL (Cfg.token c)) (Cfg.Token.QueueTTL (Cfg.token c)).

Definition NewHTTPHealth (url : string) (timeout : Z) : Controller.HealthChecker :=
  if decide (url = emp) then Controller.NoopHealth else Controller.HTTPHealth timeout.

(** [time.NewTicker]: it panics unless the period is positive. *)
Definition NewTicker (d : Z) : option Z := if d <=? 0 then None else Some d.

(** ** The background loops

    Each loop makes a ticker and runs one round per tick until its context ends: after any
    number of ticks.  [None] is a panic. *)

Definition ticking {W T} (every : Z) (round : T -> W -> option W) (ticks : list T) (w : W) : option W :=
  match NewTicker every with
  | None => None
  | Some _ => foldl (fun w t => w ≫= round t) (Some w) ticks
  end.

(** [queue.Sweeper]: the cursors of the shards live in it. *)
Record Sweeper := MkSweeper { sw_store : Queue.Config; sw_every : Z; sw_cursor : gmap string Z }.

Definition NewSweeper (store : Queue.Config) (cfg : Cfg.Queue.t) : Sweeper :=
  MkSweeper store (Cfg.Queue.HeartbeatInterval cfg) ∅.

Definition Sweeper_Run {S} `{Redis S} `{Lua S} (s : Sweeper) (ticks : list unit) (w : world S) : option (world S * Sweeper) :=
  ticking (sw_every s) (fun _ '(w, s) =>
    let '(w', r) := Queue.once (sw_store s) (sw_cursor s) w in
    Some (w', MkSweeper (sw_store s) (sw_every s) (match r with Ok cursor' => cursor' | Err _ => sw_cursor s end))) ticks (w, s).

(** [shard.Grower]: the counter is the queue's store. *)
Record Grower := MkGrower { gr_assigner : Assign.Assigner; gr_counter : Queue.Config; gr_shardSize : Z; gr_every : Z }.

Definition NewGrower (a : Assign.Assigner) (c : Queue.Config) (shardSize every : Z) : Grower := MkGrower a c shardSize every.

Definition Grower_Run {S} `{Redis S} `{Lua S} (g : Grower) (ticks : list unit) (w : world S) : option (world S * Grower) :=
  ticking (gr_every g) (fun _ '(w, g) =>
    let '(w', r) := Queue.TotalWaiting (gr_counter g) w in
    Some (w', MkGrower (Assign.grower_once (gr_assigner g) r (gr_shardSize g)) (gr_counter g) (gr_shardSize g) (gr_every g))) ticks (w, g).

(** [admission.Controller]: its shards are those of the queue's store; without a health check
    it has the one that does nothing. *)
Record Controller := MkController {
  ct_store : Admission.Config; ct_shards : Queue.Config; ct_health : Controller.HealthChecker; ct_brk : Breaker.Breaker }.

Definition NewController (store : Admission.Config) (shards : Queue.Config) (health : option Controller.HealthChecker) : Controller :=
  MkController store shards (default Controller.NoopHealth health)
    (Breaker.NewBreaker (Admission.BreakerFailures store) (Admission.BreakerCooldown store)).

(** A cycle that fails is tried again at the next tick; each tick comes with what the health
    check finds. *)
Definition Controller_Run {S} `{Redis S} `{Lua S} (c : Controller) (ticks : list Controller.probe) (w : world S)
    : option (world S * Controller) :=
  ticking (Admission.Interval (ct_store c)) (fun p '(w, c) =>
    let '(w', r) := Controller.Cycle (ct_store c) (ct_shards c) (ct_health c) p (ct_brk c) w in
    Some (w', MkController (ct_store c) (ct_shards c) (ct_health c) (match r with Ok (b', _, _) => b' | Err _ => ct_brk c end))) ticks (w, c).

(** [Scorer.Run] with [Actuator.Apply], and between two ticks what the consumer observes. *)
Inductive scorer_tick := Heard (e : Telemetry.Event) | Flush_at (t : time).

Definition Scorer_Run {S} `{Redis S} `{Lua S} `{Ranging} (a : Actuator.Actuator) (every : Z) (ticks : list scorer_tick)
    : world S * Scorer.Scorer * list Actuator.sink_call -> option (world S * Scorer.Scorer * list Actuator.sink_call) :=
  ticking every (fun k '(w, s, calls) =>
    match k with
    | Heard e => Some (w, Scorer.Observe e s, calls)
    | Flush_at t =>
        '(s', ds) ← Scorer.Flush t s;
        if (0 <? Z.of_nat (length ds)) then
          let '(w', r) := Actuator.Apply a ds w in
          Some (w', s', calls ++ match r with Ok c => c | Err _ => [] end)
        else Some (w, s', calls)
    end) ticks.

Module App.

(** The configuration [app.New] starts from, with the secrets the process needs. *)
Definition configure `{Texts} (service defaultAddr : string) (requiredSecrets : list string) (lookup : string -> option string)
    : result Cfg.Config :=
  cfg ← Load.LoadFrom lookup service defaultAddr;
  match Cfg.RequireSecrets cfg requiredSecrets with
  | Err err => Err (ErrWrap "config" err)
  | Ok _ => Ok cfg
  end.

(** [app.New]: then the Redis client and the server with its first routes. *)
Definition New `{Texts} (service defaultAddr : string) (requiredSecrets : list string) (lookup : string -> option string)
    : proc (Cfg.Config * Mux.ServeMux Routes.route) :=
  cfg ← lift (configure service defaultAddr requiredSecrets lookup);
  _ ← opening RedisClient;
  mux ← must (Routes.NewServer (Cfg.Service.MetricsPath (Cfg.service cfg)));
  mret (cfg, mux).

(** The readiness check of [app.New]. *)
Definition ready (ping : result unit) : result unit :=
  match ping with Err err => Err (ErrWrap "redis" err) | Ok _ => Ok tt end.

(** [app.Main]: the exit code; [served] is how serving ends.  A panic exits with 2. *)
Definition Main {A} (m : proc A) (served : result unit) : Z :=
  match ended m with
  | Value _ => match served with Ok _ => 0 | Err _ => 1 end
  | Fails _ => 1
  | Panics => 2
  end.

End App.

(** ** [cmd/gate] *)

Record gate_process (S : Type) := MkGate { g_api : Gate.GateAPI S; g_mux : Mux.ServeMux Routes.route; g_grower : Grower }.
Arguments g_api {S} _.
Arguments g_mux {S} _.
Arguments g_grower {S} _.

Definition gate_run {S} `{Redis S} `{Lua S} `{Texts} (lookup : string -> option string) : proc (gate_process S) :=
  '(cfg, mux) ← App.New "gate" ":8080" ["event_salt"; "token_signing_key"; "challenge_hmac_key"] lookup;
  _ ← defer RedisClient;
  assigner ← lift (Assign.NewAssigner (Cfg.Bytes (Cfg.Event.Salt (Cfg.event cfg))) (Cfg.Event.ShardCount (Cfg.event cfg))
               (Cfg.Event.MaxShardCount (Cfg.event cfg)));
  store ← lift (Queue.New (queue_FromConfig cfg));
  tokens ← lift (Token.NewIssuer (Cfg.token cfg));
  let difficulty := Difficulty.NewDifficulty (Cfg.Event.ID (Cfg.event cfg)) (Cfg.challenge cfg) (Cfg.botscore cfg) in
  chal ← lift (Challenge.NewIssuer (Cfg.Event.ID (Cfg.event cfg)) (Cfg.challenge cfg) (Some (Difficulty.Difficulty_ difficulty)));
  _ ← opening Producer; _ ← defer Producer;
  mux ← must (Routes.Register Routes.Gate mux);
  _ ← opening Context; _ ← defer Context;
  _ ← start Growing;
  mret (MkGate S (Gate.NewGateAPI chal assigner store tokens cfg) mux
          (NewGrower assigner store (Cfg.Event.ShardSize (Cfg.event cfg)) (Cfg.Admission.Interval (Cfg.admission cfg)))).

(** ** [cmd/queue] *)

Record queue_process := MkQueue { q_api : QueueApi.QueueAPI; q_mux : Mux.ServeMux Routes.route; q_sweeper : Sweeper }.

Definition queue_run `{Texts} (lookup : string -> option string) : proc queue_process :=
  '(cfg, mux) ← App.New "queue" ":8081" ["event_salt"; "token_signing_key"] lookup;
  _ ← defer RedisClient;
  store ← lift (Queue.New (queue_FromConfig cfg));
  issuer ← lift (Token.NewIssuer (Cfg.token cfg));
  _ ← opening Producer; _ ← defer Producer;
  mux ← must (Routes.Register Routes.Queue mux);
  _ ← opening Context; _ ← defer Context;
  _ ← start Sweeping;
  mret (MkQueue (QueueApi.NewQueueAPI store issuer cfg) mux (NewSweeper store (Cfg.queue cfg))).

(** ** [cmd/admission] *)

Record admission_process := MkAdmission {
  a_api : AdmissionApi.AdmissionAPI; a_mux : Mux.ServeMux Routes.route; a_controller : Controller }.

Definition admission_run `{Texts} (lookup : string -> option string) : proc admission_process :=
  '(cfg, mux) ← App.New "admission" ":8082" ["token_signing_key"] lookup;
  _ ← defer RedisClient;
  store ← lift (Admission.NewStore (admission_FromConfig cfg));
  qstore ← lift (Queue.New (queue_FromConfig cfg));
  issuer ← lift (Token.NewIssuer (Cfg.token cfg));
  _ ← opening Producer; _ ← defer Producer;
  mux ← must (Routes.Register Routes.Admission mux);
  let health := NewHTTPHealth (Cfg.Admission.ShopHealthURL (Cfg.admission cfg)) (Cfg.Admission.ShopHealthTimeout (Cfg.admission cfg)) in
  let controller := NewController store qstore (Some health) in
  _ ← opening Context; _ ← defer Context;
  _ ← start Distributing;
  mret (MkAdmission (AdmissionApi.NewAdmissionAPI store issuer cfg) mux controller).

(** ** [cmd/scorer] *)

Record scorer_process := MkScorerProcess {
  s_scorer : Scorer.Scorer; s_actuator : Actuator.Actuator; s_mux : Mux.ServeMux Routes.route; s_every : Z }.

Definition wants_audit (cfg : Cfg.Config) : bool :=
  Cfg.Postgres.Enabled (Cfg.postgres cfg) && negb (Cfg.Secret_IsZero (Cfg.Postgres.DSN (Cfg.postgres cfg))).

(** [open]: the outcome of [pg.Open]. *)
Definition scorer_run `{Texts} (open : result unit) (lookup : string -> option string) : proc scorer_process :=
  '(cfg, mux) ← App.New "scorer" ":8083" ["event_salt"] lookup;
  _ ← defer RedisClient;
  _ ← opening Context; _ ← defer Context;
  sink ← (if wants_audit cfg then
            _ ← lift open;
            _ ← opening Pool; _ ← defer Pool;
            _ ← opening AuditWriter; _ ← defer AuditWriter;
            mret true
          else mret false);
  let scorer := Scorer.NewScorer (Cfg.botscore cfg) in
  let actuator := Actuator.NewActuator (Cfg.Event.ID (Cfg.event cfg)) (Cfg.botscore cfg) (Cfg.Token.QueueTTL (Cfg.token cfg)) sink in
  _ ← start Scoring;
  _ ← (if Cfg.Kafka.Enabled (Cfg.kafka cfg) then
         _ ← opening Consumer; _ ← defer Consumer; start Consuming
       else mret tt);
  mret (MkScorerProcess scorer actuator mux (Cfg.BotScore.FlushEvery (Cfg.botscore cfg))).

(** ** [cmd/shop] *)

Record shop_process := MkShopProcess { p_api : Shop.ShopAPI; p_mux : Mux.ServeMux Routes.route }.

Definition shop_run `{Texts} (open : result unit) (lookup : string -> option string) : proc shop_process :=
  '(cfg, mux) ← App.New "shop" ":8084" ["token_signing_key"; "postgres_dsn"] lookup;
  _ ← defer RedisClient;
  _ ← opening Context; _ ← defer Context;
  if negb (Cfg.Postgres.Enabled (Cfg.postgres cfg)) then lift (Err (ErrNew "shop: postgres is required for orders"))
  else
    _ ← lift open;
    _ ← opening Pool; _ ← defer Pool;
    store ← lift (Admission.NewStore (admission_FromConfig cfg));
    issuer ← lift (Token.NewIssuer (Cfg.token cfg));
    mux ← must (Routes.Register Routes.Shop mux);
    mret (MkShopProcess (Shop.NewShopAPI store issuer cfg) mux).

(** The readiness of the shop: Redis, then PostgreSQL. *)
Definition shop_ready (ping pool_ping : result unit) : result unit :=
  match ping with Err err => Err (ErrWrap "redis" err) | Ok _ => pool_ping end.

(** ** Lemmas *)

#[local] Arguments Routes.NewServer : simpl never.
#[local] Arguments Routes.Register : simpl never.

Lemma configure_ok `{Texts} service addr secrets lookup cfg : App.configure service addr secrets lookup = Ok cfg ->
  Cfg.Validate cfg = Ok tt /\ Cfg.RequireSecrets cfg secrets = Ok tt.
Proof.
  unfold App.configure. rewrite Load.LoadFrom_eq. destruct (Cfg.errors_Join _) as [u|e]; [|done].
  destruct (Cfg.Validate _) as [[]|e] eqn:Hv; [|done]. cbn [mbind result_bind].
  destruct (Cfg.RequireSecrets _ _) as [[]|e] eqn:Hr; [|done]. intros [= <-]. split; done.
Qed.

(** What the checks of the loader give the constructors. *)
Lemma Validate_assembly c : Cfg.Validate c = Ok tt ->
  Cfg.Event.ID (Cfg.event c) <> emp /\ 0 < Cfg.Event.ShardCount (Cfg.event c) /\
  Cfg.Event.ShardCount (Cfg.event c) <= Cfg.Event.MaxShardCount (Cfg.event c) /\ 0 < Cfg.Event.ShardSize (Cfg.event c) /\
  0 < Cfg.Queue.HeartbeatInterval (Cfg.queue c) /\ 0 < Cfg.Queue.SweepBatch (Cfg.queue c) /\
  0 < Cfg.Admission.Interval (Cfg.admission c) /\
  0 < Cfg.Token.QueueTTL (Cfg.token c) /\ 0 < Cfg.Token.EntryTTL (Cfg.token c).
Proof.
  intros Hv%Cfg.Validate_ok. unfold Cfg.checks in Hv. cbn [forallb fst] in Hv. bool_to_prop. split_and!; assumption.
Qed.

Lemma required c names n : Cfg.RequireSecrets c names = Ok tt -> n ∈ names -> Cfg.requirement c n = [].
Proof.
  unfold Cfg.RequireSecrets. rewrite Cfg.Join_ok. intros Hc Hn. apply list_elem_of_split in Hn as (l1 & l2 & ->).
  rewrite fmap_app, fmap_cons, concat_app in Hc. apply app_nil in Hc as [_ Hc]. cbn in Hc. by apply app_nil in Hc as [Hc _].
Qed.

Lemma salt_required c names : Cfg.RequireSecrets c names = Ok tt -> "event_salt" ∈ names ->
  Cfg.Bytes (Cfg.Event.Salt (Cfg.event c)) <> [].
Proof.
  intros Hr Hn He. pose proof (required _ _ _ Hr Hn) as Hq. cbn in Hq. apply Cfg.check_nil in Hq.
  unfold Cfg.Secret_IsZero, Cfg.Len in Hq. unfold Cfg.Bytes in He. by rewrite He in Hq.
Qed.

Lemma key_required c names : Cfg.RequireSecrets c names = Ok tt -> "token_signing_key" ∈ names ->
  Cfg.Secret_IsZero (Cfg.Token.SigningKey (Cfg.token c)) = false.
Proof. intros Hr Hn. pose proof (required _ _ _ Hr Hn) as Hq. cbn in Hq. apply Cfg.check_nil in Hq. by bool_to_prop. Qed.

Lemma hmac_required c names : Cfg.RequireSecrets c names = Ok tt -> "challenge_hmac_key" ∈ names ->
  Cfg.Secret_IsZero (Cfg.Challenge.HMACKey (Cfg.challenge c)) = false.
Proof. intros Hr Hn. pose proof (required _ _ _ Hr Hn) as Hq. cbn in Hq. apply Cfg.check_nil in Hq. by bool_to_prop. Qed.

(** The constructors, of a configuration that passed. *)
Section Constructors.

Context (c : Cfg.Config) (Hv : Cfg.Validate c = Ok tt).

Lemma tokens_start : Cfg.Secret_IsZero (Cfg.Token.SigningKey (Cfg.token c)) = false -> exists i, Token.NewIssuer (Cfg.token c) = Ok i.
Proof.
  intros Hk. destruct (Validate_assembly c Hv) as (_ & _ & _ & _ & _ & _ & _ & Hq & He). unfold Token.NewIssuer.
  rewrite Hk, (proj2 (Z.leb_gt _ _) Hq), (proj2 (Z.leb_gt _ _) He). cbn. eauto.
Qed.

Lemma queue_starts : Queue.New (queue_FromConfig c) =
  if Queue.validID (Cfg.Event.ID (Cfg.event c)) then Ok (queue_FromConfig c) else Err (ErrNew Queue.ErrInvalidEvent).
Proof.
  destruct (Validate_assembly c Hv) as (_ & _ & _ & _ & _ & Hb & _). unfold Queue.New. cbn [queue_FromConfig Queue.EventID Queue.SweepBatch].
  rewrite (proj2 (Z.leb_gt _ _) Hb). by destruct (Queue.validID _).
Qed.

Lemma admission_starts : Admission.NewStore (admission_FromConfig c) = Ok (admission_FromConfig c).
Proof. destruct (Validate_assembly c Hv) as (Hid & _). unfold Admission.NewStore. by rewrite decide_False by done. Qed.

Lemma assigner_starts : Cfg.Bytes (Cfg.Event.Salt (Cfg.event c)) <> [] -> exists a,
  Assign.NewAssigner (Cfg.Bytes (Cfg.Event.Salt (Cfg.event c))) (Cfg.Event.ShardCount (Cfg.event c)) (Cfg.Event.MaxShardCount (Cfg.event c)) = Ok a.
Proof.
  intros Hs. destruct (Validate_assembly c Hv) as (_ & H0 & H1 & _). unfold Assign.NewAssigner.
  destruct (Cfg.Bytes _) as [|x l]; [done|]. cbn [length Nat.eqb].
  rewrite (proj2 (Z.leb_gt _ _) H0), (proj2 (Z.ltb_ge _ _) H1), (proj2 (Z.leb_gt (Cfg.Event.MaxShardCount _) 0)) by lia. cbn. eauto.
Qed.

Lemma puzzles_start {S} `{Redis S} `{Lua S} p : Cfg.Secret_IsZero (Cfg.Challenge.HMACKey (Cfg.challenge c)) = false -> exists i : Challenge.Issuer S,
  Challenge.NewIssuer (Cfg.Event.ID (Cfg.event c)) (Cfg.challenge c) p = Ok i.
Proof.
  intros Hk. destruct (Validate_assembly c Hv) as (Hid & _). unfold Challenge.NewIssuer. rewrite Hk, bool_decide_eq_false_2 by done. eauto.
Qed.

(** With a positive period a loop goes on as long as its rounds do, and keeps what they keep. *)
Lemma ticking_goes_on {W T} (P : W -> Prop) every (round : T -> W -> option W) ticks w :
  0 < every -> P w -> (forall t w, P w -> exists w', round t w = Some w' /\ P w') ->
  exists w', ticking every round ticks w = Some w' /\ P w'.
Proof.
  intros He Hw Hr. unfold ticking, NewTicker. rewrite (proj2 (Z.leb_gt _ _) He). revert w Hw.
  induction ticks as [|t ticks IH]; intros w Hw; [by exists w|]. cbn [foldl]. destruct (Hr t w Hw) as (w' & Hw' & HP). cbn [mbind option_bind].
  rewrite Hw'. by apply IH.
Qed.

Lemma ticking_total {W T} every (round : T -> W -> option W) ticks w :
  0 < every -> (forall t w, exists w', round t w = Some w') -> exists w', ticking every round ticks w = Some w'.
Proof.
  intros He Hr. destruct (ticking_goes_on (fun _ => True) every round ticks w He I) as (w' & Hw & _); [|by exists w'].
  intros t w1 _. destruct (Hr t w1) as [w2 E]. by exists w2.
Qed.

End Constructors.

(** The loops: the growth keeps the assigner well formed. *)
Section Loops.
Context {S : Type} `{Redis S} `{Lua S}.

Lemma Grower_Run_wf g ticks (w : world S) : 0 < gr_every g -> Assign.wf (gr_assigner g) ->
  exists w' g', Grower_Run g ticks w = Some (w', g') /\ Assign.wf (gr_assigner g').
Proof.
  intros He Hg. destruct (ticking_goes_on (fun x : world S * Grower => Assign.wf (gr_assigner x.2)) (gr_every g)
    (fun _ '(w, g) => let '(w', r) := Queue.TotalWaiting (gr_counter g) w in
       Some (w', MkGrower (Assign.grower_once (gr_assigner g) r (gr_shardSize g)) (gr_counter g) (gr_shardSize g) (gr_every g)))
    ticks (w, g) He Hg) as ([w' g'] & Hr & Hwf); [|by exists w', g'].
  intros t [w1 g1] Hwf. destruct (Queue.TotalWaiting _ _) as [w2 r]. eexists. split; [done|]. by apply Assign.grower_once_wf.
Qed.

Lemma Sweeper_Run_goes_on s ticks (w : world S) : 0 < sw_every s -> exists w', Sweeper_Run s ticks w = Some w'.
Proof.
  intros He. apply ticking_total; [done|]. intros t [w1 s1]. destruct (Queue.once _ _ _) as [w2 r]. eauto.
Qed.

Lemma Controller_Run_goes_on c ticks (w : world S) : 0 < Admission.Interval (ct_store c) -> exists w', Controller_Run c ticks w = Some w'.
Proof.
  intros He. apply ticking_total; [done|]. intros t [w1 c1]. destruct (Controller.Cycle _ _ _ _ _ _) as [w2 r]. eauto.
Qed.

End Loops.

(** Whatever happens, what a process opened it closes, last first; only a panic in [app.New]
    comes before the first closing is deferred. *)
Definition cleans_up {A} (m : proc A) : Prop := tidy m \/ ended m = Panics /\ deferred m = [].

Lemma New_cleans_up `{Texts} {A} service addr secrets lookup (rest : Cfg.Config * Mux.ServeMux Routes.route -> proc A) :
  (forall cfg mux, exists k : proc A, rest (cfg, mux) = (defer RedisClient ≫= fun _ => k) /\ tidy k) ->
  cleans_up (App.New service addr secrets lookup ≫= rest).
Proof.
  intros Hr. unfold cleans_up, tidy, App.New. destruct (App.configure _ _ _ _) as [cfg|e]; [|by left]. cbn.
  destruct (Routes.NewServer _) as [mux|]; [left|by right]. cbn. destruct (Hr cfg mux) as (k & -> & Hk). cbn. rewrite Hk. by rewrite app_nil_r.
Qed.

Lemma runs_clean_up {S} `{Redis S} `{Lua S} `{Texts} open lookup :
  cleans_up (gate_run (S := S) lookup) /\ cleans_up (queue_run lookup) /\ cleans_up (admission_run lookup) /\
  cleans_up (scorer_run open lookup) /\ cleans_up (shop_run open lookup).
Proof. split_and!; refine (New_cleans_up _ _ _ _ _ _); intros cfg mux; eexists; (split; [reflexivity|]); tidy. Qed.

(** What becomes of a process whose configuration loaded: the server may refuse the path of
    the metrics, a component the configuration, the multiplexer the routes; each ends it. *)
Definition comes_up {A} (svc : Routes.service) (cfg : Cfg.Config) (refusal : option error)
    (P : A -> Mux.ServeMux Routes.route -> Prop) (m : proc A) : Prop :=
  match Routes.NewServer (Cfg.Service.MetricsPath (Cfg.service cfg)) with
  | None => ended m = Panics
  | Some mux0 =>
      match refusal with
      | Some e => ended m = Fails e
      | None =>
          match Routes.Register svc mux0 with
          | None => ended m = Panics
          | Some mux => exists p, ended m = Value p /\ P p mux
          end
      end
  end.

Definition refused_id (cfg : Cfg.Config) : option error :=
  if Queue.validID (Cfg.Event.ID (Cfg.event cfg)) then None else Some (ErrNew Queue.ErrInvalidEvent).

(** What the processes open and start, in order, up to serving. *)
Definition gate_life : list event := [Opened RedisClient; Opened Producer; Opened Context; Started Growing; Serving].
Definition queue_life : list event := [Opened RedisClient; Opened Producer; Opened Context; Started Sweeping; Serving].
Definition admission_life : list event := [Opened RedisClient; Opened Producer; Opened Context; Started Distributing; Serving].
Definition scorer_life (cfg : Cfg.Config) : list event :=
  [Opened RedisClient; Opened Context] ++ (if wants_audit cfg then [Opened Pool; Opened AuditWriter] else []) ++
  [Started Scoring] ++ (if Cfg.Kafka.Enabled (Cfg.kafka cfg) then [Opened Consumer; Started Consuming] else []) ++ [Serving].
Definition shop_life : list event := [Opened RedisClient; Opened Context; Opened Pool; Serving].

(** The life of a process that served: then everything it opened is closed, last first. *)
Definition lives {A} (m : proc A) (l : list event) : Prop := life m = l ++ (Closed <$> rev (opened l)).

(** Process by process. *)
Section Processes.
Context {S : Type} `{Redis S} `{Lua S} `{Texts} (lookup : string -> option string) (cfg : Cfg.Config).

Lemma New_eq service addr secrets : App.configure service addr secrets lookup = Ok cfg ->
  App.New service addr secrets lookup =
    Proc (match Routes.NewServer (Cfg.Service.MetricsPath (Cfg.service cfg)) with Some mux => Value (cfg, mux) | None => Panics end)
      [Opened RedisClient] [].
Proof. intros Hn. unfold App.New. rewrite Hn. running. by destruct (Routes.NewServer _). Qed.

Lemma gate_comes_up : App.configure "gate" ":8080" ["event_salt"; "token_signing_key"; "challenge_hmac_key"] lookup = Ok cfg ->
  comes_up Routes.Gate cfg (refused_id cfg) (fun p mux => g_mux p = mux /\ lives (gate_run (S := S) lookup) gate_life /\
    gr_counter (g_grower p) = Gate.queue (g_api p) /\ Assign.wf (gr_assigner (g_grower p)) /\
    forall ticks (w : world S), exists w' g, Grower_Run (g_grower p) ticks w = Some (w', g) /\ Assign.wf (gr_assigner g))
    (gate_run lookup).
Proof.
  intros Hn. destruct (configure_ok _ _ _ _ _ Hn) as [Hv Hr]. destruct (Validate_assembly cfg Hv) as (_ & _ & _ & _ & _ & _ & Hi & _).
  destruct (assigner_starts cfg Hv (salt_required _ _ Hr ltac:(set_solver))) as [a Ha].
  destruct (tokens_start cfg Hv (key_required _ _ Hr ltac:(set_solver))) as [i Hi'].
  set (d := Difficulty.NewDifficulty (Cfg.Event.ID (Cfg.event cfg)) (Cfg.challenge cfg) (Cfg.botscore cfg)).
  destruct (puzzles_start (S := S) cfg Hv (Some (Difficulty.Difficulty_ d)) (hmac_required _ _ Hr ltac:(set_solver))) as [ch Hch].
  unfold comes_up, lives, gate_run. rewrite (New_eq _ _ _ Hn). destruct (Routes.NewServer _) as [mux0|]; [|done].
  running. rewrite Ha, (queue_starts cfg Hv). running. unfold refused_id. destruct (Queue.validID _); [|by running].
  rewrite Hi'. fold d. running. rewrite Hch. running. destruct (Routes.Register _ mux0) as [mux|]; running; [|done].
  pose proof (Assign.NewAssigner_wf _ _ _ _ Ha) as Hwf. eexists. split_and!; [done..|].
  intros ticks w. by apply Grower_Run_wf.
Qed.

Lemma queue_comes_up : App.configure "queue" ":8081" ["event_salt"; "token_signing_key"] lookup = Ok cfg ->
  comes_up Routes.Queue cfg (refused_id cfg) (fun p mux => q_mux p = mux /\ lives (queue_run lookup) queue_life /\
    sw_store (q_sweeper p) = queue_FromConfig cfg /\
    forall ticks (w : world S), exists w', Sweeper_Run (q_sweeper p) ticks w = Some w') (queue_run lookup).
Proof.
  intros Hn. destruct (configure_ok _ _ _ _ _ Hn) as [Hv Hr]. destruct (Validate_assembly cfg Hv) as (_ & _ & _ & _ & Hh & _).
  destruct (tokens_start cfg Hv (key_required _ _ Hr ltac:(set_solver))) as [i Hi'].
  unfold comes_up, lives, queue_run. rewrite (New_eq _ _ _ Hn). destruct (Routes.NewServer _) as [mux0|]; [|done].
  running. rewrite (queue_starts cfg Hv). unfold refused_id. destruct (Queue.validID _); running; [|done].
  rewrite Hi'. running. destruct (Routes.Register _ mux0) as [mux|]; running; [|done].
  eexists. split_and!; [done..|]. intros ticks w. by apply Sweeper_Run_goes_on.
Qed.

Lemma admission_comes_up : App.configure "admission" ":8082" ["token_signing_key"] lookup = Ok cfg ->
  comes_up Routes.Admission cfg (refused_id cfg) (fun p mux => a_mux p = mux /\ lives (admission_run lookup) admission_life /\
    ct_store (a_controller p) = admission_FromConfig cfg /\ ct_shards (a_controller p) = queue_FromConfig cfg /\
    forall ticks (w : world S), exists w', Controller_Run (a_controller p) ticks w = Some w') (admission_run lookup).
Proof.
  intros Hn. destruct (configure_ok _ _ _ _ _ Hn) as [Hv Hr]. destruct (Validate_assembly cfg Hv) as (_ & _ & _ & _ & _ & _ & Hi & _).
  destruct (tokens_start cfg Hv (key_required _ _ Hr ltac:(set_solver))) as [i Hi'].
  unfold comes_up, lives, admission_run. rewrite (New_eq _ _ _ Hn). destruct (Routes.NewServer _) as [mux0|]; [|done].
  running. rewrite (admission_starts cfg Hv), (queue_starts cfg Hv). running. unfold refused_id. destruct (Queue.validID _); running; [|done].
  rewrite Hi'. running. destruct (Routes.Register _ mux0) as [mux|]; running; [|done].
  eexists. split_and!; [done..|]. intros ticks w. by apply Controller_Run_goes_on.
Qed.

Lemma scorer_comes_up open : App.configure "scorer" ":8083" ["event_salt"] lookup = Ok cfg ->
  comes_up Routes.Scorer cfg (if wants_audit cfg then match open with Err e => Some e | Ok _ => None end else None)
    (fun p mux => s_mux p = mux /\ lives (scorer_run open lookup) (scorer_life cfg)) (scorer_run open lookup).
Proof.
  intros Hn. unfold comes_up, lives, scorer_life, scorer_run. rewrite (New_eq _ _ _ Hn). destruct (Routes.NewServer _) as [mux0|]; [|done].
  running. destruct (wants_audit cfg), open as [[]|e], (Cfg.Kafka.Enabled _); running; (done || by eexists).
Qed.

Lemma shop_comes_up open : App.configure "shop" ":8084" ["token_signing_key"; "postgres_dsn"] lookup = Ok cfg ->
  comes_up Routes.Shop cfg
    (if Cfg.Postgres.Enabled (Cfg.postgres cfg) then match open with Err e => Some e | Ok _ => None end
     else Some (ErrNew "shop: postgres is required for orders"))
    (fun p mux => p_mux p = mux /\ lives (shop_run open lookup) shop_life) (shop_run open lookup).
Proof.
  intros Hn. destruct (configure_ok _ _ _ _ _ Hn) as [Hv Hr].
  destruct (tokens_start cfg Hv (key_required _ _ Hr ltac:(set_solver))) as [i Hi'].
  unfold comes_up, lives, shop_run. rewrite (New_eq _ _ _ Hn). destruct (Routes.NewServer _) as [mux0|]; [|done]. running.
  destruct (Cfg.Postgres.Enabled _); [|done]. cbn [negb]. destruct open as [[]|e]; running; [|done]. rewrite (admission_starts cfg Hv).
  running. rewrite Hi'. running. destruct (Routes.Register _ mux0) as [mux|]; running; [|done]. by eexists.
Qed.

End Processes.

(** C40: a configuration that loads builds its process.  For every environment: when loading
    and the required secrets pass, a process is built with its routes unless the multiplexer
    refuses the path of the metrics (a panic), the gate, the queue and the admission service
    the form of the event's identifier, or, for the shop, PostgreSQL is off or not reached,
    or, for the scorer, on with a DSN and not reached; no other constructor fails.  A process
    that is built opens its parts and starts its loops in the given order, serves, and closes
    what it opened, last first; on every other path it closes what it had opened, unless the
    server's constructor panicked.  The growth, sweep and distribution loops never panic, for
    any number of ticks and whatever Redis answers, and the assigner of the gate is well
    formed at every tick. *)
Theorem validated_processes_start {S} `{Redis S} `{Lua S} `{Texts} (open : result unit) lookup :
  (forall cfg, App.configure "gate" ":8080" ["event_salt"; "token_signing_key"; "challenge_hmac_key"] lookup = Ok cfg ->
     comes_up Routes.Gate cfg (refused_id cfg) (fun p mux => g_mux p = mux /\ lives (gate_run (S := S) lookup) gate_life /\
       gr_counter (g_grower p) = Gate.queue (g_api p) /\ Assign.wf (gr_assigner (g_grower p)) /\
       forall ticks (w : world S), exists w' g, Grower_Run (g_grower p) ticks w = Some (w', g) /\ Assign.wf (gr_assigner g))
       (gate_run lookup)) /\
  (forall cfg, App.configure "queue" ":8081" ["event_salt"; "token_signing_key"] lookup = Ok cfg ->
     comes_up Routes.Queue cfg (refused_id cfg) (fun p mux => q_mux p = mux /\ lives (queue_run lookup) queue_life /\
       sw_store (q_sweeper p) = queue_FromConfig cfg /\
       forall ticks (w : world S), exists w', Sweeper_Run (q_sweeper p) ticks w = Some w') (queue_run lookup)) /\
  (forall cfg, App.configure "admission" ":8082" ["token_signing_key"] lookup = Ok cfg ->
     comes_up Routes.Admission cfg (refused_id cfg) (fun p mux => a_mux p = mux /\ lives (admission_run lookup) admission_life /\
       ct_store (a_controller p) = admission_FromConfig cfg /\ ct_shards (a_controller p) = queue_FromConfig cfg /\
       forall ticks (w : world S), exists w', Controller_Run (a_controller p) ticks w = Some w') (admission_run lookup)) /\
  (forall cfg, App.configure "scorer" ":8083" ["event_salt"] lookup = Ok cfg ->
     comes_up Routes.Scorer cfg (if wants_audit cfg then match open with Err e => Some e | Ok _ => None end else None)
       (fun p mux => s_mux p = mux /\ lives (scorer_run open lookup) (scorer_life cfg)) (scorer_run open lookup)) /\
  (forall cfg, App.configure "shop" ":8084" ["token_signing_key"; "postgres_dsn"] lookup = Ok cfg ->
     comes_up Routes.Shop cfg
       (if Cfg.Postgres.Enabled (Cfg.postgres cfg) then match open with Err e => Some e | Ok _ => None end
        else Some (ErrNew "shop: postgres is required for orders"))
       (fun p mux => p_mux p = mux /\ lives (shop_run open lookup) shop_life) (shop_run open lookup)) /\
  cleans_up (gate_run (S := S) lookup) /\ cleans_up (queue_run lookup) /\ cleans_up (admission_run lookup) /\
  cleans_up (scorer_run open lookup) /\ cleans_up (shop_run open lookup).
Proof.
  split_and!; [| | | | |apply (runs_clean_up (S := S) open lookup)..].
  - intros cfg. exact (gate_comes_up (S := S) lookup cfg).
  - intros cfg. exact (queue_comes_up (S := S) lookup cfg).
  - intros cfg. exact (admission_comes_up (S := S) lookup cfg).
  - intros cfg. exact (scorer_comes_up lookup cfg open).
  - intros cfg. exact (shop_comes_up lookup cfg open).
Qed.

(** ** Concrete environments *)

Definition secrets_env : gmap string string :=
  {["SG_EVENT_SALT" := "00ff"; "SG_TOKEN_SIGNING_KEY" := "0a0b"; "SG_CHALLENGE_HMAC_KEY" := "0c"; "SG_POSTGRES_DSN" := "postgres://db"]}.

Definition starts {A} (m : proc A) : bool := match ended m with Value _ => true | _ => false end.

(** With its secrets set and nothing else, every process starts. *)
Example defaults_start {S : Type} `{Redis S} `{Lua S} :
  let env := Load.env_of secrets_env in let _ := Load.plain_texts in
  (starts (gate_run (S := S) env), starts (queue_run env), starts (admission_run env), starts (scorer_run (Ok tt) env),
   starts (shop_run (Ok tt) env)) = (true, true, true, true, true).
Proof. vm_compute. reflexivity. Qed.

(** Three periods pass validation unchecked: with [SG_SCORE_FLUSH_EVERY=0s] the scorer starts
    and its flush loop panics on its ticker; with [SG_STATUS_POLL_HINT=0s] or
    [SG_SSE_KEEPALIVE=0s] the queue starts and every event stream does. *)
Example unchecked_periods :
  let _ := Load.plain_texts in
  (exists p, ended (scorer_run (Ok tt) (Load.env_of (<["SG_SCORE_FLUSH_EVERY" := "0s"]> secrets_env))) = Value p /\ NewTicker (s_every p) = None) /\
  (exists p, ended (queue_run (Load.env_of (<["SG_STATUS_POLL_HINT" := "0s"]> secrets_env))) = Value p /\ NewTicker (QueueApi.pollHint (q_api p)) = None) /\
  (exists p, ended (queue_run (Load.env_of (<["SG_SSE_KEEPALIVE" := "0s"]> secrets_env))) = Value p /\ NewTicker (QueueApi.keepalive (q_api p)) = None).
Proof. split_and!; (eexists; split; [vm_compute; reflexivity|vm_compute; reflexivity]). Qed.

(** When the scorer ends with an audit store, the store is closed while the scoring loop, which
    sends to it, still runs: its context is cancelled later. *)
Example audit_closed_under_the_scorer :
  let env := Load.env_of (<["SG_POSTGRES_ENABLED" := "true"]> secrets_env) in let _ := Load.plain_texts in
  life (scorer_run (Ok tt) env) =
    [Opened RedisClient; Opened Context; Opened Pool; Opened AuditWriter; Started Scoring; Opened Consumer; Started Consuming;
     Serving; Closed Consumer; Closed AuditWriter; Closed Pool; Closed Context; Closed RedisClient].
Proof. vm_compute. reflexivity. Qed.

(** A path of the metrics that is a route already: the process panics, after closing what it
    opened if the panic is in [Register], before if it is in [app.New]. *)
Example metrics_path_panics :
  let with_path p := Load.env_of (<["SG_METRICS_PATH" := p]> secrets_env) in let _ := Load.plain_texts in
  (App.Main (queue_run (with_path "/healthz")) (Ok tt), life (queue_run (with_path "/healthz"))) = (2, [Opened RedisClient]) /\
  (App.Main (queue_run (with_path "/api/v1/queue/status")) (Ok tt), life (queue_run (with_path "/api/v1/queue/status"))) =
    (2, [Opened RedisClient; Opened Producer; Closed Producer; Closed RedisClient]).
Proof. vm_compute. split; reflexivity. Qed.

(** The scorer and the shop accept an identifier of the event that the gate and the queue refuse. *)
Example event_id_accepted_and_refused :
  let env := Load.env_of (<["SG_EVENT_ID" := "a b"]> secrets_env) in let _ := Load.plain_texts in
  (starts (queue_run env), starts (scorer_run (Ok tt) env), starts (shop_run (Ok tt) env)) = (false, true, true).
Proof. vm_compute. reflexivity. Qed.
