(* ===== verification/Surface.v ===== *)
(** * What the HTTP surface lets a request do

    Properties of the handlers of [Gate], [Api] and [Shop] over any behaviour of the wire:
    nothing is written without a valid token or a solved puzzle, and one entry ticket makes
    at most one order. *)

From S2P Require Import Prelude.
From S2P Require Import Go.
From S2P Require Import Redis.
From S2P Require Import Keys.
From S2P Require Import Shard.
From S2P Require Import Scripts.
From S2P Require Import Config.
From S2P Require Import Conn.
From S2P Require Import QueueStore.
From S2P Require Import Admission.
From S2P Require Import Window.
From S2P Require Import Actuator.
From S2P Require Import Crypto.
From S2P Require Import Challenge.
From S2P Require Import Token.
From S2P Require Import Http.
From S2P Require Import Api.
From S2P Require Import Gate.
From S2P Require Import Orders.
From S2P Require Import Shop.
From S2P Require Import Guarantees.
From S2P Require Import Clients.
Import Httpx.
Local Open Scope string_scope.
Local Open Scope Z_scope.
Local Open Scope list_scope.

(** ** Authentication only reads *)

Section Auth.
Context {W S : Type} {HR : HasRedis W S} {N : Netip} {J : Token.Jwt}.

(** The claims a request proves. *)
Definition authentic (a : Api.authenticator) (r : Request) (raw kind : string) (w : W) : option Token.Claims :=
  if decide (raw = emp) then None
  else match (Token.VerifyBound (Api.issuer a) raw kind (Api.aEventID a) (Api.binding r (Api.v4bits a) (Api.v6bits a)) (conn w)).2 with
       | Ok c => Some c
       | Err _ => None
       end.

Lemma VerifyBound_ticks i raw kind ev b (w : world S) : (Token.VerifyBound i raw kind ev b w).1 = ticked w.
Proof.
  unfold Token.VerifyBound, Token.Verify, mbind, M_bind. rewrite now_eq.
  destruct (Token.jwt_parse _ _ _) as [rc|e]; unfold fail, mret, M_ret; repeat (case_match; simplify_eq/=); done.
Qed.

Lemma verify_eq a r raw kind (w : W) :
  match authentic a r raw kind w with
  | Some c => Api.verify a r raw kind w = Served (set_conn (ticked (conn w)) w) [] (inl c)
  | None => exists w' e, Api.verify a r raw kind w = Served w' [] (inr (API e)) /\ Status e = 401 /\
              (w' = w \/ w' = set_conn (ticked (conn w)) w)
  end.
Proof.
  unfold authentic, Api.verify. case_decide; [eexists _, _; split; [reflexivity|]; eauto|].
  unfold mbind, H_bind. rewrite call_eq, VerifyBound_ticks.
  destruct (Token.VerifyBound _ _ _ _ _ _).2 as [c|e]; [done|]. eexists _, _. split; [reflexivity|]. eauto.
Qed.

(** A handler that starts with [verify] does nothing for a request that proves nothing. *)
Lemma unauthentic_stops {B} a r raw kind (f : Token.Claims -> H W (answer B)) w :
  authentic a r raw kind w = None ->
  let o := (claims ← Api.verify a r raw kind; f claims) w in
  status_of o = 401 /\ published o = [] /\ (after o = w \/ after o = set_conn (ticked (conn w)) w).
Proof.
  intros Ha. cbv zeta. pose proof (verify_eq a r raw kind w) as Hv. rewrite Ha in Hv.
  destruct Hv as (w' & e & Hv & He & Hw). rewrite (H_bind_err _ _ _ _ _ _ Hv). cbn. done.
Qed.

End Auth.

(** ** Writes need a token or a solved puzzle *)

Section Writes.
Context {S : Type} {R : Redis S} {RL : RedisLaws S} {L : Lua S} {N : Netip} {J : Token.Jwt}.

(** A handler left no trace: the store is as it was and nothing was published. *)
Definition no_trace {B} (w : world S) (o : served (world S) (answer B)) : Prop :=
  db (after o) = db w /\ published o = [].

Lemma enter_leaves_no_trace `{Json Gate.EnterRequest} (g : Gate.GateAPI S) r w :
  Challenge.reads_only (Challenge.provider (Gate.chal g)) -> no_trace w (Gate.enter g r w).
Proof.
  intros Hp. unfold Gate.enter, no_trace.
  set (k := fun body : Gate.EnterRequest => _).
  assert (Hk : forall body, db (after (k body w)) = db w /\ published (k body w) = []).
  { intros body. unfold k. set (subj := Difficulty.MkSubject _ _ _).
    destruct (Challenge.Issue_spec (Gate.chal g) subj w Hp) as [Hdb _].
    rewrite (H_bind_ok _ _ _ _ _ (call_eq _ _)). cbn [set_conn conn whole_world].
    by destruct (Challenge.Issue _ _ _).2. }
  destruct (0 <? ContentLength r); [|apply (Hk (Gate.MkEnterRequest emp))].
  destruct (decoded_eq (T := Gate.EnterRequest) r w) as [Hd _]. destruct (DecodeJSON r) as [e|body].
  - by rewrite (H_bind_err _ _ _ _ _ _ Hd).
  - rewrite (H_bind_ok _ _ _ _ _ Hd). apply Hk.
Qed.

(** [verify] of the gate: a trace, or status 200, takes a genuine puzzle with an unused nonce. *)
Lemma gate_verify_needs_puzzle `{Json Gate.VerifyRequest} (g : Gate.GateAPI S) r w :
  let o := Gate.verify g r w in
  status_of o = 200 \/ published o <> [] \/ (exists k, cell_of (db (after o)) k <> cell_of (db w) k) ->
  exists body, DecodeJSON r = inr body /\
    Challenge.genuine (Gate.chal g) (Gate.vChallenge body) (Gate.vSolution body) (reading w) = true /\
    cell_live (cell_of (db w) (Challenge.nonce_key (Gate.chal g) (Gate.vChallenge body))) = false.
Proof.
  cbv zeta. unfold Gate.verify. destruct (decoded_eq (T := Gate.VerifyRequest) r w) as [Hd He].
  destruct (DecodeJSON r) as [e|body].
  { rewrite (H_bind_err _ _ _ _ _ _ Hd). cbn. rewrite (He e eq_refl). intros [?|[?|[k ?]]]; done. }
  rewrite (H_bind_ok _ _ _ _ _ Hd). intros Ht. exists body. split; [done|].
  destruct (Challenge.Verify_effect (Gate.chal g) (Gate.vChallenge body) (Gate.vSolution body) w) as (HE & _).
  apply HE. clear HE. rewrite (H_bind_ok _ _ _ _ _ (call_eq _ _)) in Ht. cbn [set_conn conn whole_world] in Ht.
  destruct (Challenge.Verify _ _ _ w) as [w1 [[]|e]]; cbn [fst snd] in *; [by left|]. right.
  unfold Gate.challenge_refused in Ht. destruct (errors_Is e _); cbn in Ht; destruct Ht as [?|[?|?]]; done.
Qed.

(** C34: nothing is written without a token or a solved puzzle.  Asking to enter, which
    anyone may do and which is answered with a puzzle, leaves no trace.  Handing in a puzzle leaves one, or is answered with 200, only if the body carries
    a puzzle signed here, unexpired, of an allowed difficulty, solved, and with an unused
    nonce.  Every other handler (position, heartbeat, redemption, re-challenge, order)
    answers 401 to a request that does not prove the claims of a token of its kind and
    event, and leaves no trace in Redis, in the order table or in the event stream. *)
Theorem no_write_without_proof {P : Type} `{Orders.OrdersDB P}
    `{Json Gate.EnterRequest} `{Json Gate.VerifyRequest} `{Json Gate.ReverifyRequest} `{Json QueueApi.HeartbeatRequest}
    `{Json Shop.OrderRequest} (g : Gate.GateAPI S) (q : QueueApi.QueueAPI) (a : AdmissionApi.AdmissionAPI)
    (s : Shop.ShopAPI) (r : Request) (rw : QueueApi.writer) (ticks : list QueueApi.tick) (w : world S) (sw : shop_world S P) :
  Challenge.reads_only (Challenge.provider (Gate.chal g)) ->
  no_trace w (Gate.enter g r w) /\
  (let o := Gate.verify g r w in
   status_of o = 200 \/ published o <> [] \/ (exists k, cell_of (db (after o)) k <> cell_of (db w) k) ->
   exists body, DecodeJSON r = inr body /\
     Challenge.genuine (Gate.chal g) (Gate.vChallenge body) (Gate.vSolution body) (reading w) = true /\
     cell_live (cell_of (db w) (Challenge.nonce_key (Gate.chal g) (Gate.vChallenge body))) = false) /\
  (let denied {B} auth (o : served (world S) (answer B)) :=
     authentic auth r (Api.queueToken r) Token.KindQueue w = None -> status_of o = 401 /\ no_trace w o in
   denied (Gate.auth g) (Gate.reissue g r w) /\ denied (Gate.auth g) (Gate.reverify g r w) /\
   denied (QueueApi.auth q) (QueueApi.status q r rw ticks w) /\ denied (QueueApi.auth q) (QueueApi.heartbeat q r w) /\
   denied (AdmissionApi.auth a) (AdmissionApi.redeem a r w)) /\
  (let o := Shop.create s r sw in
   authentic (Shop.auth s) r (Shop.entryToken r) Token.KindEntry sw = None ->
   status_of o = 401 /\ published o = [] /\ db (redis_side (after o)) = db (redis_side sw) /\ pg_side (after o) = pg_side sw).
Proof.
  intros Hp. split; [by apply enter_leaves_no_trace|]. split; [apply gate_verify_needs_puzzle|].
  assert (Hden : forall B auth (f : Token.Claims -> H (world S) (answer B)),
    authentic auth r (Api.queueToken r) Token.KindQueue w = None ->
    status_of ((claims ← Api.verify auth r (Api.queueToken r) Token.KindQueue; f claims) w) = 401 /\
    no_trace w ((claims ← Api.verify auth r (Api.queueToken r) Token.KindQueue; f claims) w)).
  { intros B auth f Ha. destruct (unauthentic_stops _ _ _ _ f w Ha) as (Hst & Hpub & Hw). split; [done|]. split; [|done].
    destruct Hw as [->| ->]; [done|apply ticked_same]. }
  split; [split_and!; intros Ha; by apply Hden|].
  cbv zeta. intros Ha. unfold Shop.create.
  match goal with |- context [mbind ?f (Api.verify _ _ _ _) sw] => destruct (unauthentic_stops _ _ _ _ f sw Ha) as (Hst & Hpub & Hw) end.
  split_and!; [exact Hst|exact Hpub|destruct Hw as [->| ->]; [done|apply ticked_same]|by destruct Hw as [->| ->]].
Qed.

End Writes.

(** ** One ticket, one order *)

Section Orders_.
Context {S P : Type} {R : Redis S} {RL : RedisLaws S} {L : Lua S} {LL : LuaLaws S} {N : Netip} {J : Token.Jwt}
        {D : Orders.OrdersDB P} {DL : Orders.OrdersLaws P}.

Lemma entry_not_user ev sh jti tok : Keys.Entry ev sh jti <> Keys.User ev sh tok.
Proof. unfold Keys.Entry, Keys.User. by intros H. Qed.

Lemma redeem_length K A s : K <> [] -> length K = 2%nat -> length A = 2%nat -> length (redeem_lua K A s).2 = 2%nat.
Proof.
  intros _ HK HA. destruct K as [|e [|u [|]]], A as [|t [|n [|]]]; try done. cbn [redeem_lua]. unfold redeem.
  destruct (GET e s); [|done]. by case_decide.
Qed.

(** What a burn may do to the store: nothing, or one redemption on a valid shard. *)
Definition burned (ev sh jti tok : string) (d d' : S) : Prop :=
  d' = d \/ Ids.Validate sh = Ok tt /\ exists t, d' = (redeem (Keys.Entry ev sh jti) (Keys.User ev sh tok) tok t d).1.

(** A redemption that is executed again finds no ticket to burn. *)
Lemma redeem_again e u tok t (s : S) : e <> u ->
  let s' := (redeem e u tok t s).1 in
  redeem e u tok t s' = (s', (redeem e u tok t s').2) /\
  (redeem e u tok t s').2 !! 0%nat <> Some (RStr "burned").
Proof.
  intros Hne. cbv zeta. unfold redeem. rewrite !GET_v. destruct (str_of s e) as [o|] eqn:E; cbn [fst snd]; [|by rewrite ?GET_v, E].
  case_decide as Ho; cbn [fst snd]; rewrite ?GET_v; [rewrite E, decide_True by done; done|].
  assert (str_of (HSET u [("redeemed_at", itoa t)] (DEL e s)) e = None) as ->; [|done].
  rewrite str_HSET, str_DEL by done. by rewrite decide_True.
Qed.

Lemma redeem_repeats e u tok t k (s : S) : e <> u ->
  again (redeem e u tok t) (Datatypes.S k) s = (redeem e u tok t s).1.
Proof.
  intros Hne. unfold again. induction k as [|k IH]; [done|]. rewrite Nat.iter_succ, IH.
  by rewrite (proj1 (redeem_again e u tok t s Hne)).
Qed.

(** A ticket that burned was the caller's, and is gone. *)
Lemma Burn_spec cfg sh jti tok (w : world S) : ready w ->
  let m := Admission.Burn cfg sh jti tok w in let k := Keys.Entry (Admission.EventID cfg) sh jti in
  burned (Admission.EventID cfg) sh jti tok (db w) (db m.1) /\
  (m.2 = Ok Admission.BurnOK -> str_of (db w) k = Some tok /\ str_of (db m.1) k = None).
Proof.
  intros Hr. cbv zeta. unfold burned, Admission.Burn. cbv zeta. case_decide; [split; [by left|done]|].
  destruct (Ids.Validate_unit sh) as [Hv|Hv].
  2: { unfold mbind at 1 3 5, M_bind at 1 3 5, lift. rewrite Hv. split; [by left|done]. }
  rewrite (bind_lift _ _ _ tt Hv).
  match goal with |- context [mbind ?k now w] => destruct (bind_now k w) as (t & w' & Heq & Hdb & Hc & Hwi & _) end.
  rewrite Heq. set (ev := Admission.EventID cfg). set (K := [Keys.Entry ev sh jti; Keys.User ev sh tok]). set (A := [tok; itoa (UnixMilli t)]).
  destruct (Run_decode "redeem.lua" K A Admission.ErrUnexpectedReply 2 (fun v => Admission.asString (at_ v 0)) w'
    (ready_same w w' Hr Hc Hwi)) as (_ & _ & _ & (k & _ & Hk & Hans) & _).
  { intros s. rewrite eval_redeem. by apply redeem_length. }
  rewrite Hdb in Hk, Hans. pose proof (entry_not_user ev sh jti tok) as Hne.
  set (run := redeem (Keys.Entry ev sh jti) (Keys.User ev sh tok) tok (arg (itoa (UnixMilli t)))).
  assert (Hag : forall j s, again (fun s => ((lua_eval (lua_read "redeem.lua") K A s).1, Admission.asString (at_ (lua_eval (lua_read "redeem.lua") K A s).2 0))) j s = again run j s)
    by (rewrite eval_redeem; done).
  rewrite Hag in Hk. unfold Admission.reply_ in *. split.
  { rewrite Hk. destruct k as [|k]; [by left|right]. split; [done|]. eexists. by apply redeem_repeats. }
  intros Hok. destruct (Hans _ Hok) as (j & -> & Hres). rewrite Hag, eval_redeem in Hres. cbn [snd] in Hres.
  change (redeem_lua K A) with run in Hres. destruct j as [|j].
  2: { exfalso. unfold run in Hres. rewrite (redeem_repeats _ _ _ _ _ _ Hne) in Hres. fold run in Hres.
       destruct (redeem_again (Keys.Entry ev sh jti) (Keys.User ev sh tok) tok (arg (itoa (UnixMilli t))) (db w) Hne) as [_ Hno]. fold run in Hno.
       apply Hno. revert Hres. unfold Admission.BurnOK, at_. destruct (_ !! 0%nat) as [[z|x]|]; cbn; [done|by intros <-|done]. }
  rewrite Hk. change (again run 1 (db w)) with (run (db w)).1. change (again run 0 (db w)) with (db w) in Hres. revert Hres. unfold run, redeem.
  rewrite !GET_v. destruct (str_of (db w) (Keys.Entry ev sh jti)) as [o|]; [|intros Hm; discriminate Hm].
  case_decide as Ho; [intros Hm; discriminate Hm|].
  intros _. subst o. split; [done|]. cbn [fst].
  rewrite str_HSET, str_DEL by done. by rewrite decide_True.
Qed.

Lemma call_pg_eq {A} (m : P -> P * result A) (w : shop_world S P) :
  call_pg m w = Served (ShopWorld (redis_side w) (m (pg_side w)).1) [] (inl (m (pg_side w)).2).
Proof. reflexivity. Qed.

Lemma Find_spec ev k p :
  let r := Orders.FindByIdempotencyKey ev k p in
  Orders.rows r.1 = Orders.rows p /\
  (r.2 = Ok None -> forall o, o ∈ Orders.rows p -> Orders.EventID o = ev -> Orders.IdemKey o <> k) /\
  (forall o, r.2 = Ok (Some o) -> o ∈ Orders.rows p /\ Orders.EventID o = ev /\ Orders.IdemKey o = k).
Proof.
  cbv zeta. unfold Orders.FindByIdempotencyKey. cbn [fst snd]. split; [apply Orders.select_rows|].
  destruct (Orders.select_by_idem ev k p).2 as [[o|]|e] eqn:E; split; try done.
  - intros o' [= <-]. by apply (Orders.select_sound ev k p).
  - intros _. by apply (Orders.select_complete ev k p).
Qed.

(** The rows grew by the order [ord] at most, and only that order is announced as created. *)
Definition placed (ord : Orders.Order) (sw : shop_world S P) (o : served (shop_world S P) (answer Shop.OrderResponse)) : Prop :=
  exists id t, Orders.rows (pg_side (after o)) = Orders.stored ord id t :: Orders.rows (pg_side sw) /\
    Orders.conflict_free ord (Orders.rows (pg_side sw)) /\
    (status_of o = 201 -> outcome o = inl (Answer 201 (Shop.toResponse (Orders.stored ord id t) false) [])).

Definition not_placed (sw : shop_world S P) (o : served (shop_world S P) (answer Shop.OrderResponse)) : Prop :=
  Orders.rows (pg_side (after o)) = Orders.rows (pg_side sw) /\ status_of o <> 201.

Lemma place_spec s c idem b (sw : shop_world S P) :
  let o := Shop.place s c idem b sw in
  published o = [] /\ redis_side (after o) = redis_side sw /\ (not_placed sw o \/ placed (Shop.order_of s c idem b) sw o).
Proof.
  cbv zeta. unfold Shop.place, not_placed, placed. rewrite (H_bind_ok _ _ _ _ _ (call_pg_eq _ _)). cbn [redis_side pg_side].
  pose proof (Orders.Create_rows (Shop.order_of s c idem b) (pg_side sw)) as Hc. cbv zeta in Hc.
  destruct (Orders.Create _ _) as [p [[ord|]|e]]; cbn [fst snd] in *.
  - split_and!; [done..|]. right. destruct Hc as [[_ Hn]|(id & t & Hr & Hcf & [[= ->]|[? ?]])]; [by destruct (Hn ord)| |done].
    exists id, t. done.
  - rewrite (H_bind_ok _ _ _ _ _ (call_pg_eq _ _)). cbn [redis_side pg_side].
    destruct (Find_spec (Token.EventID c) idem p) as [Hf _]. destruct (Orders.FindByIdempotencyKey _ _ p) as [p' [[o|]|e]];
      cbn [fst snd] in *; (split_and!; [done..|]); left; destruct Hc as [[Hr _]|(id & t & _ & _ & [?|[? ?]])]; try done;
      cbn; by rewrite Hf, Hr.
  - assert (Hst : forall f : failure, status_of (Served (ShopWorld (redis_side sw) p) [] (inr f) : served _ (answer Shop.OrderResponse)) <> 201 ->
      published (Served (ShopWorld (redis_side sw) p) [] (inr f) : served _ (answer Shop.OrderResponse)) = [] /\ redis_side (ShopWorld (redis_side sw) p) = redis_side sw /\
      (not_placed sw (Served (ShopWorld (redis_side sw) p) [] (inr f)) \/ placed (Shop.order_of s c idem b) sw (Served (ShopWorld (redis_side sw) p) [] (inr f)))).
    { intros f Hf. split_and!; [done..|]. destruct Hc as [[Hr _]|(id & t & Hr & Hcf & _)]; [by left|right].
      exists id, t. split_and!; [done..|]. by intros ?. }
    destruct (errors_Is e Orders.ErrDuplicateOrder); [by apply Hst|].
    destruct (errors_Is e Orders.ErrEntryReused); by apply Hst.
Qed.

Definition ticket_key (s : Shop.ShopAPI) (c : Token.Claims) : string :=
  Keys.Entry (Admission.EventID (Shop.admission s)) (Token.Shard c) (Token.JTI c).

(** The ticket of the claims is what the handler burns. *)
Definition ticket_burned (s : Shop.ShopAPI) (c : Token.Claims) : S -> S -> Prop :=
  burned (Admission.EventID (Shop.admission s)) (Token.Shard c) (Token.JTI c) (Token.TokenID c).

Lemma purchase_spec s c idem b (sw : shop_world S P) : ready (redis_side sw) ->
  let o := Shop.purchase s c idem b sw in
  published o = [] /\ ticket_burned s c (db (redis_side sw)) (db (redis_side (after o))) /\
  (not_placed sw o \/
   placed (Shop.order_of s c idem b) sw o /\
   str_of (db (redis_side sw)) (ticket_key s c) = Some (Token.TokenID c) /\
   str_of (db (redis_side (after o))) (ticket_key s c) = None).
Proof.
  intros Hr. cbv zeta. unfold Shop.purchase. rewrite (H_bind_ok _ _ _ _ _ (call_eq _ _)). cbn [conn shop_redis].
  pose proof (Burn_spec (Shop.admission s) (Token.Shard c) (Token.JTI c) (Token.TokenID c) (redis_side sw) Hr) as Hb. cbv zeta in Hb.
  destruct Hb as [He Hb]. fold (ticket_burned s c) in He.
  destruct (Admission.Burn _ _ _ _ _) as [w1 [st|e]]; cbn [fst snd set_conn shop_redis] in *.
  2: { split_and!; [done..|]. left. by split. }
  case_decide as Hst; [|case_decide; (split_and!; [done..|left; by split])].
  subst st. destruct (Hb eq_refl) as [Ht Hg].
  destruct (place_spec s c idem b (ShopWorld w1 (pg_side sw))) as (Hp & Hred & Hrows).
  rewrite Hred. split_and!; [done..|]. destruct Hrows as [Hn|Hpl]; [by left|right]. done.
Qed.

(** A request with valid claims is refused before it touches anything, or goes on to the
    lookup of its key. *)
Lemma create_cases `{Json Shop.OrderRequest} (s : Shop.ShopAPI) r (sw : shop_world S P) c :
  authentic (Shop.auth s) r (Shop.entryToken r) Token.KindEntry sw = Some c ->
  let w1 := ticked (redis_side sw) in let idem := Get_ r Api.IdempotencyHeader in
  (exists f, Shop.create s r sw = Served (ShopWorld w1 (pg_side sw)) [] (inr f) /\ (WriteError f).1 <> 201) \/
  (exists b, DecodeJSON r = inr b /\ idem <> emp /\ Shop.AccountID b <> emp /\ Shop.qty_of b = 1 /\
     let q := Orders.FindByIdempotencyKey (Token.EventID c) idem (pg_side sw) in
     Shop.create s r sw = match q.2 with
                          | Err _ => Shop.unavailable
                          | Ok (Some o) => Shop.replay o
                          | Ok None => Shop.purchase s c idem b
                          end (ShopWorld w1 q.1)).
Proof.
  intros Ha. cbv zeta. pose proof (verify_eq (Shop.auth s) r (Shop.entryToken r) Token.KindEntry sw) as Hv.
  rewrite Ha in Hv. unfold Shop.create. rewrite (H_bind_ok _ _ _ _ _ Hv).
  change (set_conn (ticked (conn sw)) sw) with (ShopWorld (ticked (redis_side sw)) (pg_side sw)).
  set (sw1 := ShopWorld (ticked (redis_side sw)) (pg_side sw)).
  case_decide as Hid; [left; eexists; by split|].
  destruct (decoded_eq (T := Shop.OrderRequest) r sw1) as [Hd He]. destruct (DecodeJSON r) as [e|b].
  { rewrite (H_bind_err _ _ _ _ _ _ Hd). left. exists (API e). split; [done|]. cbn. by rewrite (He e eq_refl). }
  rewrite (H_bind_ok _ _ _ _ _ Hd). clear Hd He. case_decide as Hacc; [left; eexists; by split|].
  destruct ((Shop.qty_of b <? 1) || (Shop.maxQty <? Shop.qty_of b)) eqn:Hq; [left; eexists; by split|].
  right. exists b. rewrite (H_bind_ok _ _ _ _ _ (call_pg_eq _ _)). bool_to_prop. unfold Shop.maxQty in *.
  split_and!; try done. lia.
Qed.

(** What a request may do to the order table and to Redis. *)
Lemma create_spec `{Json Shop.OrderRequest} (s : Shop.ShopAPI) r (sw : shop_world S P) :
  ready (redis_side sw) ->
  let o := Shop.create s r sw in let idem := Get_ r Api.IdempotencyHeader in
  published o = [] /\
  (not_placed sw o \/
   exists c b, authentic (Shop.auth s) r (Shop.entryToken r) Token.KindEntry sw = Some c /\ DecodeJSON r = inr b /\
     idem <> emp /\ Shop.AccountID b <> emp /\ Shop.qty_of b = 1 /\ placed (Shop.order_of s c idem b) sw o /\
     str_of (db (redis_side sw)) (ticket_key s c) = Some (Token.TokenID c) /\
     str_of (db (redis_side (after o))) (ticket_key s c) = None) /\
  (db (redis_side (after o)) = db (redis_side sw) \/
   exists c, authentic (Shop.auth s) r (Shop.entryToken r) Token.KindEntry sw = Some c /\
     (forall row, row ∈ Orders.rows (pg_side sw) -> Orders.EventID row = Token.EventID c -> Orders.IdemKey row <> idem) /\
     ticket_burned s c (db (redis_side sw)) (db (redis_side (after o)))).
Proof.
  intros Hr. cbv zeta. set (idem := Get_ r Api.IdempotencyHeader).
  destruct (authentic (Shop.auth s) r (Shop.entryToken r) Token.KindEntry sw) as [c|] eqn:Ha.
  2: { unfold Shop.create.
       match goal with |- context [mbind ?f (Api.verify _ _ _ _) sw] => destruct (unauthentic_stops _ _ _ _ f sw Ha) as (Hst & Hpub & Hw) end.
       split_and!; [exact Hpub| |]; left; [split; [|by rewrite Hst]|]; destruct Hw as [->| ->]; try done. apply ticked_same. }
  destruct (create_cases s r sw c Ha) as [(f & -> & Hf)|(b & Hb & Hid & Hacc & Hq & ->)].
  { split_and!; [done|by left|left; apply ticked_same]. }
  fold idem. destruct (Find_spec (Token.EventID c) idem (pg_side sw)) as (Hrows & Hnone & _).
  destruct (Orders.FindByIdempotencyKey _ _ _) as [p [[row|]|e]]; cbn [fst snd] in *.
  1, 3: split_and!; [done|by left|left; apply ticked_same].
  set (sw1 := ShopWorld (ticked (redis_side sw)) p).
  assert (Hr1 : ready (redis_side sw1)) by (apply (ready_same (redis_side sw)); [done|apply ticked_same..]).
  destruct (purchase_spec s c idem b sw1 Hr1) as (Hpub & He & Hpur).
  assert (Hn : forall o, not_placed sw1 o <-> not_placed sw o) by (intros o; unfold not_placed, sw1; cbn; by rewrite Hrows).
  assert (Hp : forall ord o, placed ord sw1 o <-> placed ord sw o) by (intros ord o; unfold placed, sw1; cbn; by rewrite Hrows).
  assert (Hdb : db (redis_side sw1) = db (redis_side sw)) by apply ticked_same. rewrite Hn, Hp, Hdb in *.
  split_and!; [done| |right; exists c; auto].
  destruct Hpur as [?|(? & ? & ?)]; [by left|right]. by exists c, b.
Qed.

(** C35: one entry ticket, one order.  Whatever Redis's wire and the database do, a request
    to the shop adds at most one row, and only this way: it proves the claims of an entry
    token of the event, names an idempotency key and an account, asks for one piece; no row
    shares its event with the new one and its key, account, queue token or ticket; and the
    ticket recorded for that very queue token was taken out of Redis by this request.  Only
    then is 201 answered, with that row.  The rows stay pairwise distinct in all four, and a
    request whose key already has a row costs no ticket. *)
Theorem one_order_per_ticket `{Json Shop.OrderRequest} (s : Shop.ShopAPI) r (sw : shop_world S P) :
  ready (redis_side sw) ->
  let o := Shop.create s r sw in let idem := Get_ r Api.IdempotencyHeader in
  published o = [] /\
  (not_placed sw o \/
   exists c b, authentic (Shop.auth s) r (Shop.entryToken r) Token.KindEntry sw = Some c /\ DecodeJSON r = inr b /\
     idem <> emp /\ Shop.AccountID b <> emp /\ Shop.qty_of b = 1 /\ placed (Shop.order_of s c idem b) sw o /\
     str_of (db (redis_side sw)) (ticket_key s c) = Some (Token.TokenID c) /\
     str_of (db (redis_side (after o))) (ticket_key s c) = None) /\
  (Orders.consistent (Orders.rows (pg_side sw)) -> Orders.consistent (Orders.rows (pg_side (after o)))) /\
  (forall row c, authentic (Shop.auth s) r (Shop.entryToken r) Token.KindEntry sw = Some c ->
     row ∈ Orders.rows (pg_side sw) -> Orders.EventID row = Token.EventID c -> Orders.IdemKey row = idem ->
     db (redis_side (after o)) = db (redis_side sw)).
Proof.
  intros Hr. cbv zeta. destruct (create_spec s r sw Hr) as (Hpub & Hrows & Hdb). split_and!; [done..| |].
  - intros Hc. destruct Hrows as [[-> _]|(c & b & _ & _ & _ & _ & _ & (id & t & -> & Hcf & _) & _)]; [done|by apply Orders.consistent_cons].
  - intros row c Ha Hin Hev Hk. destruct Hdb as [?|(c' & Ha' & Hn & _)]; [done|]. rewrite Ha in Ha'. injection Ha' as <-.
    by destruct (Hn row).
Qed.

End Orders_.

(** ** Concrete requests *)

Import MemStore MemLua Token.TestJwt Orders.MemTable.

Definition store_ := gmap string cell.

#[local] Instance demo_netip : Netip :=
  {| Addr := string; ParseAddr s := if decide (s = emp) then None else Some s; Unmap a := a; Is6 _ := false;
     Prefix a n := Some (a +:+ "/" +:+ itoa n); SplitHostPort _ := None |}.

(** A decoder that knows one text. *)
Definition json_const {T} (v : T) : Json T := fun s => if decide (s = "{}") then Some (v, emp) else None.

#[local] Instance demo_enter : Json Gate.EnterRequest := json_const (Gate.MkEnterRequest "fp1").
#[local] Instance demo_verify : Json Gate.VerifyRequest :=
  json_const (Gate.MkVerifyRequest Challenge.demo_puzzle Challenge.demo_solution "fp1" 0).
#[local] Instance demo_reverify : Json Gate.ReverifyRequest :=
  json_const (Gate.MkReverifyRequest Challenge.demo_puzzle Challenge.demo_solution 0).
#[local] Instance demo_beat : Json QueueApi.HeartbeatRequest := json_const (QueueApi.MkHeartbeatRequest Float.f64_0 true []).
#[local] Instance demo_order : Json Shop.OrderRequest := json_const (Shop.MkOrderRequest "acct" emp 0).

Definition demo_auth : Api.authenticator := Api.MkAuth Token.demo_tokens "show" 24 48.

Definition demo_gate : Gate.GateAPI (gmap string cell) :=
  Gate.MkGateAPI _ Challenge.demo_issuer (Assign.mkAssigner [1; 2; 3] 8 4) demo_queue Token.demo_tokens demo_auth "show" 24 48
    Second true 2 35 70.

Definition demo_queue_api : QueueApi.QueueAPI :=
  QueueApi.MkQueueAPI demo_auth demo_queue Second (15 * Second) Float.f64_1 (Queue.MkGates zero_time 0).

Definition demo_admission_api : AdmissionApi.AdmissionAPI :=
  AdmissionApi.MkAdmissionAPI demo_auth demo_admission Token.demo_tokens 0 Second.

Definition demo_shop : Shop.ShopAPI := Shop.MkShopAPI demo_auth demo_admission "show".

(** A request with the given headers and the body the decoders know. *)
Definition request (hs : list (string * string)) : Request :=
  MkRequest (fun n => snd <$> List.filter (fun h => bool_decide (h.1 = n)) hs) (fun _ => None) "10.0.0.7:4711" 2 "{}".

Definition at_time (s : gmap string cell) (t : time) : world (gmap string cell) :=
  World s [] [] [t] [Some [1; 2; 3; 4; 5; 6; 7; 8]; Some [9; 8; 7; 6; 5; 4; 3; 2]] ∅.

Lemma at_time_ready s t : ready (at_time s t).
Proof. split; [|done]. intros src n Hin. by apply elem_of_nil in Hin. Qed.

Lemma no_write_without_proof_witness :
  no_trace (at_time ∅ Minute) (Gate.enter demo_gate (request []) (at_time ∅ Minute)) /\
  status_of (AdmissionApi.redeem demo_admission_api (request []) (at_time demo_store Minute)) = 401 /\
  no_trace (at_time demo_store Minute) (AdmissionApi.redeem demo_admission_api (request []) (at_time demo_store Minute)).
Proof.
  assert (Hp : Challenge.reads_only (Challenge.provider (Gate.chal demo_gate))) by (intros s w; reflexivity).
  split.
  - exact (proj1 (no_write_without_proof demo_gate demo_queue_api demo_admission_api demo_shop (request []) (QueueApi.MkWriter true []) []
      (at_time ∅ Minute) (ShopWorld (at_time ∅ Minute) []) Hp)).
  - destruct (no_write_without_proof demo_gate demo_queue_api demo_admission_api demo_shop (request []) (QueueApi.MkWriter true []) []
      (at_time demo_store Minute) (ShopWorld (at_time demo_store Minute) []) Hp) as (_ & _ & H & _).
    cbv beta zeta in H. destruct H as (_ & _ & _ & _ & H).
    assert (Ha : authentic (AdmissionApi.auth demo_admission_api) (request []) (Api.queueToken (request [])) Token.KindQueue
                   (at_time demo_store Minute) = None) by (vm_compute; reflexivity).
    exact (H Ha).
Defined.

(** An entry token for the ticket [j1] of [ann], and the ticket in the store. *)
Definition entry_claims : Token.Claims := Token.MkClaims Token.KindEntry "show" "ann" "j1" "s0001" emp emp 0 0.

Definition entry_token : string := Eval vm_compute in
  match (Token.Issue Token.demo_tokens entry_claims (Token.demo_process Hour)).2 with Ok r => r.1 | Err _ => emp end.

Definition ticket_store : gmap string cell := SET_PX (Keys.Entry "show" "s0001" "j1") "ann" 300000 ∅.

Definition buying : Request := request [("X-Entry-Token", entry_token); ("Idempotency-Key", "k1")].

Definition shop_before : shop_world (gmap string cell) (list Orders.Order) :=
  ShopWorld (at_time ticket_store (Hour + Minute)) [].

Definition bought := Shop.create demo_shop buying shop_before.

Lemma one_order_per_ticket_witness :
  status_of bought = 201 /\ Orders.consistent (Orders.rows (pg_side (after bought))) /\
  status_of (Shop.create demo_shop buying (after bought)) = 200 /\
  db (redis_side (after (Shop.create demo_shop buying (after bought)))) = db (redis_side (after bought)).
Proof.
  split; [vm_compute; reflexivity|]. split.
  - destruct (one_order_per_ticket (P := list Orders.Order) demo_shop buying shop_before (at_time_ready _ _)) as (_ & _ & Hc & _).
    assert (H0 : Orders.consistent (Orders.rows (pg_side shop_before))) by (intros i j a b Hi; by destruct i).
    exact (Hc H0).
  - split; [vm_compute; reflexivity|].
    assert (Hr : ready (redis_side (after bought))).
    { split; [|vm_compute; reflexivity]. intros src n Hin. vm_compute in Hin. intros Hs. exact Hs. }
    destruct (one_order_per_ticket (P := list Orders.Order) demo_shop buying (after bought) Hr) as (_ & _ & _ & H).
    set (o := Orders.MkOrder 0 "show" "ann" "acct" "j1" "k1" "show" 1 0).
    assert (Ho : Orders.rows (pg_side (after bought)) = [o]) by (vm_compute; reflexivity).
    set (c := Token.with_times entry_claims Hour (Hour + 5 * Minute)).
    assert (Ha : authentic (Shop.auth demo_shop) buying (Shop.entryToken buying) Token.KindEntry (after bought) = Some c)
      by (vm_compute; reflexivity).
    assert (Hin : o ∈ Orders.rows (pg_side (after bought))) by (rewrite Ho; left).
    assert (Hk : Orders.IdemKey o = Get_ buying Api.IdempotencyHeader) by (vm_compute; reflexivity).
    exact (H o c Ha Hin eq_refl Hk).
Defined.

(** ** Three things the handlers do that their comments do not promise *)

(** The lookup by idempotency key asks neither for the token nor for the account: another
    buyer that sends the same key is answered with the first buyer's order, keeps its own
    ticket, and has no order. *)
Definition other_claims : Token.Claims := Token.MkClaims Token.KindEntry "show" "bob" "j2" "s0002" emp emp 0 0.

Definition other_token : string := Eval vm_compute in
  match (Token.Issue Token.demo_tokens other_claims (Token.demo_process Hour)).2 with Ok r => r.1 | Err _ => emp end.

Example replay_crosses_accounts :
  let o := Shop.create demo_shop (request [("X-Entry-Token", other_token); ("Idempotency-Key", "k1")]) (after bought) in
  outcome o = inl (Answer 200 (Shop.MkOrderResponse 0 "show" "acct" "show" 1 0 true) []) /\
  pg_side (after o) = pg_side (after bought).
Proof. vm_compute. done. Qed.

(** The ticket is burned before the insert: when the insert fails the buyer is told to come
    back, and on coming back is told that the ticket is spent. *)
#[local] Instance flaky_orders : Orders.OrdersDB (bool * list Orders.Order) := {
  select_by_idem ev k p := let r := Orders.select_by_idem ev k p.2 in ((p.1, r.1), r.2);
  insert_order o p :=
    if p.1 then ((false, p.2), inr (Orders.PgOther "timeout"))
    else let r := Orders.insert_order o p.2 in ((false, r.1), r.2)
}.

Example ticket_lost_when_the_insert_fails :
  let before := ShopWorld (at_time ticket_store (Hour + Minute)) (true, []) in
  let first := Shop.create demo_shop buying before in
  let again := Shop.create demo_shop buying (after first) in
  status_of first = 503 /\ outcome again = inr (API (NewAPIError 409 "entry_spent" "entry token was already used or has expired")) /\
  pg_side (after again) = (false, []).
Proof. vm_compute. done. Qed.

(** [reissue] asks at most for the difficulty of attempt [max + 1]; [reverify] demands that
    of the recorded count plus one.  A token greylisted again after its attempts ran out is
    handed puzzles that are then always refused as too easy. *)
Definition adaptive_gate : Gate.GateAPI (gmap string cell) :=
  Gate.MkGateAPI _
    (Challenge.MkIssuer (bytes_of "a demo key") "show" (2 * Minute) 4 2 20
       (Difficulty.Difficulty_ (Difficulty.MkDifficulty "show" 2 1)))
    (Assign.mkAssigner [1; 2; 3] 8 4) demo_queue Token.demo_tokens demo_auth "show" 24 48 Second true 2 35 70.

Definition tired_store : gmap string cell :=
  HSET (Keys.User "show" "s0001" "ann") [("state", "greylist"); ("orig_rank", "5"); ("rc_count", "3"); ("shard", "s0001")] ∅.

Definition waiting_claims : Token.Claims := Token.MkClaims Token.KindQueue "show" "ann" "ann" "s0001" emp emp 0 0.

Definition waiting_token : string := Eval vm_compute in
  match (Token.Issue Token.demo_tokens waiting_claims (Token.demo_process Hour)).2 with Ok r => r.1 | Err _ => emp end.

Definition returning : Request := request [("Authorization", "Bearer " +:+ waiting_token)].

Definition reissue_ : served (world (gmap string cell)) (answer Gate.ReissueResponse) :=
  Gate.reissue adaptive_gate returning (at_time tired_store (Hour + Minute)).

Definition puzzle_of (o : answer Gate.ReissueResponse + failure) : Challenge.Challenge :=
  match o with inl a => Gate.iChallenge (body a) | inr _ => Challenge.demo_puzzle end.

Definition reissued : Challenge.Challenge := Eval vm_compute in puzzle_of (outcome reissue_).

Example reissued_puzzle_is_always_stale :
  status_of reissue_ = 200 /\
  Challenge.cDifficulty reissued = 5 /\
  outcome (@Gate.reverify _ _ _ _ _ adaptive_gate (json_const (Gate.MkReverifyRequest reissued "0" 0)) returning
    (at_time tired_store (Hour + Minute))) =
  inr (API (NewAPIError 409 "challenge_stale" "this challenge is below the required difficulty, request a new one")).
Proof. split; [vm_compute; reflexivity|]. split; vm_compute; reflexivity. Qed.
