(* ===== verification/Stream.v ===== *)
(** * The event stream of the waiting room

    [internal/api/sse.go] and the writing side of [QueueAPI.stream]: the text of a frame, the
    headers, and the calls on the response writer.  [read_stream] is the event-stream reader
    of the HTML standard, which [web/app.js] uses through [EventSource]: what the server
    writes, cut anywhere into chunks, is read back as the snapshots it was made of. *)

From S2P Require Import Prelude.
From S2P Require Import Go.
From S2P Require Import Redis.
From S2P Require Import Conn.
From S2P Require Import Token.
From S2P Require Import Http.
From S2P Require Import Encode.
From S2P Require Import Server.
From S2P Require Import Api.
From S2P Require Import Guarantees.
From S2P Require Import Clients.
From S2P Require Import Surface.
Import Httpx.
Local Open Scope string_scope.
Local Open Scope Z_scope.
Local Open Scope list_scope.

Module Sse.

Definition nl : string := String Encode.newline emp.

(** [writeSSE]: one event of the given name, its data one line of JSON. *)
Definition writeSSE (event : string) (payload : string) : string :=
  "event: " +:+ event +:+ nl +:+ "data: " +:+ payload +:+ nl +:+ nl.

Definition frame_text (f : QueueApi.frame) : string :=
  match f with
  | QueueApi.Status_ s => writeSSE "status" (Encode.Marshal (QueueApi.status_members s))
  | QueueApi.Comment => ": keepalive" +:+ nl +:+ nl
  end.

(** The calls of [stream] on its response writer: the headers, then each frame and a flush. *)
Definition stream_calls (frames : list QueueApi.frame) : list Server.wcall :=
  [Server.SetHeader "Content-Type" "text/event-stream"; Server.SetHeader "Cache-Control" "no-cache, no-transform";
   Server.SetHeader "Connection" "keep-alive"; Server.SetHeader "X-Accel-Buffering" "no"; Server.WriteHeader 200] ++
  flat_map (fun f => [Server.Write (Server.Bytes (frame_text f)); Server.Flush]) frames.

(** ** The reader of the standard *)

(** Lines ended by a line feed; a last line without one is not complete. *)
Fixpoint lines (s : string) : list string :=
  match s with
  | EmptyString => []
  | String c s' =>
      if decide (c = Encode.newline) then emp :: lines s'
      else match lines s' with l :: ls => String c l :: ls | [] => [] end
  end.

Record reader := Reader { r_event : string; r_data : string; r_seen : list (string * string) }.

(** The value of a field: one blank after the colon is dropped. *)
Definition field_value (s : string) : string := match s with String " " s' => s' | _ => s end.

Definition read_line (r : reader) (line : string) : reader :=
  if decide (line = emp) then
    if decide (r_data r = emp) then Reader emp emp (r_seen r)
    else Reader emp emp (r_seen r ++
           [(if decide (r_event r = emp) then "message" else r_event r,
             String.substring 0 (String.length (r_data r) - 1) (r_data r))])
  else if decide (head_char line = Some ":"%char) then r
  else
    let name := cut_before ":" line in
    let value := field_value (String.substring (String.length name + 1) (String.length line) line) in
    if decide (name = "event") then Reader value (r_data r) (r_seen r)
    else if decide (name = "data") then Reader (r_event r) (r_data r +:+ value +:+ nl) (r_seen r)
    else r.

Definition read_stream (s : string) : list (string * string) := r_seen (foldl read_line (Reader emp emp []) (lines s)).

(** The snapshots among the frames. *)
Definition snapshots (fs : list QueueApi.frame) : list QueueApi.StatusResponse :=
  omap (fun f => match f with QueueApi.Status_ s => Some s | QueueApi.Comment => None end) fs.

Definition all_text (fs : list QueueApi.frame) : string := foldr (fun f acc => frame_text f +:+ acc) emp fs.

(** ** Lemmas *)

Definition no_newline (s : string) : bool := forall_chars (fun c => negb (bool_decide (c = Encode.newline))) s.

Lemma one_line_no_newline s : Encode.one_line s = true -> no_newline s = true.
Proof. apply forall_chars_impl. intros c Hc. apply negb_true_iff, bool_decide_eq_false. intros ->. by vm_compute in Hc. Qed.

Lemma lines_cut a b : no_newline a = true -> lines (a +:+ String Encode.newline b) = a :: lines b.
Proof.
  induction a as [|c a IH]; [rewrite str_nil_app; cbn [lines]; by rewrite decide_True|]. unfold no_newline. cbn [forall_chars].
  intros [Hc Ha]%andb_true_iff. apply negb_true_iff, bool_decide_eq_false in Hc.
  rewrite str_app_cons. cbn [lines]. by rewrite decide_False, IH.
Qed.

Lemma substring_drop n s : String.substring n (String.length s) s = Encode.skip n s.
Proof.
  assert (Hall : forall t m, (String.length t <= m)%nat -> String.substring 0 m t = t).
  { induction t as [|c t IH]; intros [|m] Hm; cbn in *; try done; [lia|]. by rewrite IH by lia. }
  assert (Hge : forall t m k, (String.length t <= k)%nat -> String.substring m k t = Encode.skip m t).
  { induction t as [|c t IH]; intros [|m] k Hk; cbn in *; try done; [by destruct k|destruct k; [lia|]; by rewrite Hall by lia|by apply IH; lia]. }
  by apply Hge.
Qed.

Lemma substring_init a c : String.substring 0 (String.length (a +:+ String c emp) - 1) (a +:+ String c emp) = a.
Proof.
  assert (String.length (a +:+ String c emp) - 1 = String.length a)%nat as -> by (rewrite str_length_app; cbn; lia).
  induction a as [|x a IH]; [done|]. rewrite str_app_cons. cbn [String.length String.substring]. by rewrite IH.
Qed.

(** An event line and a data line, then a blank one: one event seen. *)
Lemma read_event r l : r_event r = emp -> r_data r = emp -> l <> emp ->
  foldl read_line r ["event: status"; "data: " +:+ l; emp] = Reader emp emp (r_seen r ++ [("status", l)]).
Proof.
  intros He Hd Hl. cbn [foldl]. assert (read_line r "event: status" = Reader "status" (r_data r) (r_seen r)) as ->.
  { unfold read_line. by rewrite decide_False, decide_False. }
  assert (read_line (Reader "status" (r_data r) (r_seen r)) ("data: " +:+ l) = Reader "status" (l +:+ nl) (r_seen r)) as ->.
  { unfold read_line. rewrite decide_False, decide_False by done. rewrite substring_drop. cbn [cut_before Encode.skip]. 
    cbn. by rewrite Hd. }
  unfold read_line. rewrite decide_True by done. cbn [r_data r_event r_seen].
  rewrite decide_False by (by destruct l). unfold nl. by rewrite substring_init.
Qed.

Lemma read_comment r : r_event r = emp -> r_data r = emp -> foldl read_line r [": keepalive"; emp] = r.
Proof.
  intros He Hd. cbn [foldl]. assert (read_line r ": keepalive" = r) as ->.
  { unfold read_line. by rewrite decide_False, decide_True. }
  unfold read_line. rewrite decide_True, decide_True by done. destruct r. cbn in *. by subst.
Qed.

Lemma frame_lines f rest :
  lines (frame_text f +:+ rest) =
  match f with
  | QueueApi.Status_ s => ["event: status"; "data: " +:+ Encode.Marshal (QueueApi.status_members s); emp]
  | QueueApi.Comment => [": keepalive"; emp]
  end ++ lines rest.
Proof.
  assert (Hb : forall t, lines (String Encode.newline t) = emp :: lines t) by (intros t; cbn [lines]; by rewrite decide_True).
  assert (Hl : forall a t, no_newline a = true -> lines ((a +:+ nl +:+ nl) +:+ t) = a :: emp :: lines t).
  { intros a t Ha. unfold nl. rewrite <- !str_app_assoc, !str_app_cons, !str_nil_app. rewrite lines_cut by done. by rewrite Hb. }
  destruct f as [s|]; [|by apply Hl]. unfold frame_text, writeSSE.
  set (m := Encode.Marshal _). assert (Hm : no_newline m = true) by (apply one_line_no_newline, Encode.Marshal_line).
  clearbody m.
  replace (("event: " +:+ "status" +:+ nl +:+ "data: " +:+ m +:+ nl +:+ nl) +:+ rest)
    with ("event: status" +:+ String Encode.newline ((("data: " +:+ m) +:+ nl +:+ nl) +:+ rest))
    by (unfold nl; autorewrite with str_rw; reflexivity).
  rewrite lines_cut, Hl; [done|by cbn|done].
Qed.

(** The whole text of a stream is read as its snapshots, in order. *)
Lemma read_frames fs seen : 
  foldl read_line (Reader emp emp seen) (lines (all_text fs)) =
  Reader emp emp (seen ++ ((fun s => ("status", Encode.Marshal (QueueApi.status_members s))) <$> snapshots fs)).
Proof.
  revert seen. induction fs as [|f fs IH]; intros seen; [cbn; by rewrite app_nil_r|].
  cbn [all_text foldr]. fold (all_text fs). rewrite frame_lines, foldl_app. destruct f as [s|].
  - rewrite read_event; [|done..|]. 2: { unfold Encode.Marshal. by destruct (Encode.present _). }
    rewrite IH. cbn [snapshots omap list_omap r_seen]. rewrite <- app_assoc. reflexivity.
  - rewrite read_comment by done. apply IH.
Qed.

(** The bytes of the calls. *)
Definition bytes (cs : list Server.chunk) : string :=
  foldr (fun c acc => match c with Server.Bytes s => s +:+ acc | _ => acc end) emp cs.

Lemma stream_wire fs :
  let res := Server.wire (stream_calls fs) in
  (exists hs, Server.sent res = Some (200, hs) /\ hs !! "Content-Type" = Some "text/event-stream" /\
     hs !! "Cache-Control" = Some "no-cache, no-transform" /\ hs !! "X-Accel-Buffering" = Some "no") /\
  bytes (Server.sent_body res) = all_text fs.
Proof.
  cbv zeta. split.
  - unfold Server.wire, stream_calls. rewrite foldl_app. set (w := foldl Server.net_call _ [_; _; _; _; _]).
    assert (Hs : forall cs w', Server.sent w' <> None -> Server.sent (foldl Server.net_call w' cs) = Server.sent w').
    { induction cs as [|c cs IH]; intros w' Hw; [done|]. cbn [foldl].
      assert (Server.sent (Server.net_call w' c) = Server.sent w') as Hc
        by (destruct c; cbn; unfold Server.send_header; destruct (Server.sent w') eqn:E; cbn; rewrite ?E; done).
      rewrite IH; [done|congruence]. }
    assert (Hw : exists hs, Server.sent w = Some (200, hs) /\ hs !! "Content-Type" = Some "text/event-stream" /\
      hs !! "Cache-Control" = Some "no-cache, no-transform" /\ hs !! "X-Accel-Buffering" = Some "no").
    { eexists. split; [reflexivity|]. done. }
    destruct Hw as (hs & Hw & Hh). exists hs. split; [|done]. unfold Server.send_header.
    rewrite !Hs by (rewrite Hw; done). rewrite Hw. rewrite Hs by (rewrite Hw; done). done.
  - rewrite Server.wire_body_eq. unfold stream_calls. rewrite omap_app. cbn [omap list_omap Server.written app].
    induction fs as [|f fs IH]; [done|]. cbn [flat_map]. rewrite omap_app. cbn [omap list_omap Server.written app].
    cbn [bytes foldr]. fold (bytes (omap Server.written (flat_map (fun f => [Server.Write (Server.Bytes (frame_text f)); Server.Flush]) fs))).
    by rewrite IH.
Qed.

(** ** What the handler streams *)

(** Every snapshot but the last lets the stream go on. *)
Definition ends_once (fs : list QueueApi.frame) : Prop :=
  forall i s, snapshots fs !! i = Some s -> (Datatypes.S i < length (snapshots fs))%nat -> QueueApi.goes_on s = true.

Lemma ends_once_cons s fs : QueueApi.goes_on s = true -> ends_once fs -> ends_once (QueueApi.Status_ s :: fs).
Proof.
  intros Hs Hfs i s'. change (snapshots (QueueApi.Status_ s :: fs)) with (s :: snapshots fs).
  destruct i as [|i]; cbn [lookup list_lookup length]; [by intros [= <-]|]. intros Hi Hl. apply (Hfs i s'); [done|lia].
Qed.

Definition is_tick (t : QueueApi.tick) : bool := match t with QueueApi.Tick => true | _ => false end.

Section Handler.
Context {S : Type} `{Redis S} `{Lua S} `{Netip} `{Token.Jwt}.
Context (q : QueueApi.QueueAPI) (c : Token.Claims).

Lemma send_cases ws (w : world S) :
  exists w1 es ws1 fs on, QueueApi.send q c ws w = Served w1 es (inl (fs, on, ws1)) /\
    (fs = [] /\ on = false \/ exists s, fs = [QueueApi.Status_ s] /\ on = QueueApi.goes_on s).
Proof.
  unfold QueueApi.send. destruct (outcome (QueueApi.snapshot q c w)) as [s|f]; [|eexists _, _, _, _, _; split; [done|by left]].
  destruct (QueueApi.next_write ws) as [[] ws1]; eexists _, _, _, _, _; (split; [done|]); [right; by exists s|by left].
Qed.

Lemma bind_inl {A B} (m : H (world S) A) (f : A -> H (world S) B) w b :
  outcome (mbind f m w) = inl b -> exists w1 es a, m w = Served w1 es (inl a) /\ outcome (f a w1) = inl b.
Proof. unfold mbind, H_bind. destruct (m w) as [w1 es [a|e]]; [|done]. intros Ho. by exists w1, es, a. Qed.

(** A snapshot, then, if it lets the stream go on, more frames. *)
Lemma send_then (k : list bool -> H (world S) (list QueueApi.frame)) ws w fs n :
  (forall ws w fs, outcome (k ws w) = inl fs -> ends_once fs /\ (length (snapshots fs) <= n)%nat) ->
  outcome ((x ← QueueApi.send q c ws; if negb x.1.2 then mret x.1.1 else fs ← k x.2; mret (x.1.1 ++ fs)) w) = inl fs ->
  ends_once fs /\ (length (snapshots fs) <= Datatypes.S n)%nat.
Proof.
  intros Hk. destruct (send_cases ws w) as (w1 & es & ws1 & fs1 & on & Hs & Hcase). unfold mbind at 1, H_bind at 1. rewrite Hs. cbn [fst snd outcome].
  destruct Hcase as [[-> ->]|(s & -> & ->)]; cbn [negb].
  - intros [= <-]. split; [by intros i s Hi|cbn; lia].
  - destruct (QueueApi.goes_on s) eqn:Hg; cbn [negb].
    + intros Ho. apply bind_inl in Ho as (w2 & es2 & fs2 & Hk2 & [= <-]). 
      destruct (Hk ws1 w1 fs2) as [He Hl]; [by rewrite Hk2|]. split; [by apply ends_once_cons|]. cbn [app].
      change (snapshots (QueueApi.Status_ s :: fs2)) with (s :: snapshots fs2). cbn [length]. lia.
    + intros [= <-]. split; [|cbn; lia]. intros [|i] s'; cbn; intros ??; [lia|done].
Qed.

Lemma stream_loop_ends ticks ws w fs : outcome (QueueApi.stream_loop q c ticks ws w) = inl fs ->
  ends_once fs /\ (length (snapshots fs) <= length (List.filter is_tick ticks))%nat.
Proof.
  assert (Hnil : ends_once [] /\ (length (snapshots []) <= 0)%nat) by (split; [by intros i s Hi|cbn; lia]).
  revert ws w fs. induction ticks as [|[] ticks IH]; intros ws w fs; cbn [QueueApi.stream_loop List.filter is_tick length].
  - intros [= <-]. apply Hnil.
  - intros Ho. by eapply (send_then (QueueApi.stream_loop q c ticks)).
  - destruct (QueueApi.next_write ws) as [[] ws1]; cbn [negb].
    + intros Ho. apply bind_inl in Ho as (w1 & es & fs1 & Hs & [= <-]). apply (IH ws1 w fs1). by rewrite Hs.
    + intros [= <-]. split; [apply Hnil|cbn; lia].
  - intros [= <-]. split; [apply Hnil|cbn; lia].
Qed.

End Handler.

(** C38: what the waiting room streams is what the client reads.  When [status] answers, it
    answers with one snapshot, or, if an event stream was asked for and the writer can be
    flushed, with frames: sent under status 200 as an event stream, their bytes are read by
    the standard's reader as one "status" event per snapshot, in order and whatever the
    strings in them, and the JSON of a snapshot whose strings are ASCII is read back as its
    members.  Every snapshot but the last is of a token that still waits, and there is at
    most one more than ticks.  A writer that cannot be flushed is refused. *)
Theorem stream_is_read_back {S} `{Redis S} `{Lua S} `{Netip} `{Token.Jwt} (q : QueueApi.QueueAPI) (r : Request)
    (rw : QueueApi.writer) (ticks : list QueueApi.tick) (w : world S) a :
  outcome (QueueApi.status q r rw ticks w) = inl a ->
  match body a with
  | QueueApi.Once s => QueueApi.wantsSSE r = false
  | QueueApi.Stream fs =>
      let res := Server.wire (stream_calls fs) in
      QueueApi.wantsSSE r = true /\ QueueApi.flusher rw = true /\
      (exists hs, Server.sent res = Some (200, hs) /\ hs !! "Content-Type" = Some "text/event-stream" /\
         hs !! "Cache-Control" = Some "no-cache, no-transform" /\ hs !! "X-Accel-Buffering" = Some "no") /\
      read_stream (bytes (Server.sent_body res)) =
        (fun s => ("status", Encode.Marshal (QueueApi.status_members s))) <$> snapshots fs /\
      (forall s, Encode.ascii_members (Encode.present (QueueApi.status_members s)) ->
         Encode.read_object (Encode.Marshal (QueueApi.status_members s)) = Some (Encode.present (QueueApi.status_members s))) /\
      (forall i s, snapshots fs !! i = Some s -> (Datatypes.S i < length (snapshots fs))%nat -> QueueApi.goes_on s = true) /\
      (length (snapshots fs) <= Datatypes.S (length (List.filter is_tick ticks)))%nat
  end.
Proof.
  unfold QueueApi.status. intros Ho. apply bind_inl in Ho as (w1 & es & c & _ & Ho).
  destruct (QueueApi.wantsSSE r); cbn [negb] in Ho; apply bind_inl in Ho as (w2 & es2 & x & Hx & [= <-]); cbn [body]; [|done].
  destruct (stream_wire x) as [Hh Hb]. unfold QueueApi.stream in Hx. destruct (QueueApi.flusher rw); cbn [negb] in Hx; [|done].
  pose proof (send_then q c (QueueApi.stream_loop q c ticks) (QueueApi.writes rw) w1 x _ (stream_loop_ends q c ticks)) as Hends.
  rewrite Hx in Hends. destruct (Hends eq_refl) as [He Hl]. cbv zeta. split_and!; try done.
  - rewrite Hb. unfold read_stream. by rewrite read_frames.
  - intros s. apply Encode.Marshal_reads_back.
Qed.

(** ** A stream of two snapshots *)

Import MemStore MemLua.
#[local] Existing Instance demo_netip.

(** A token library that knows one token. *)
#[local] Instance one_token : Token.Jwt := {|
  Token.jwt_sign _ _ := Err (ErrNew "not used");
  Token.jwt_parse _ _ raw :=
    if decide (raw = "ann's") then Ok (Token.registered_of Token.demo_tokens waiting_claims) else Err (ErrNew "token is malformed") |}.

Definition watching : Request :=
  request [("Authorization", "Bearer ann's"); ("Accept", "text/event-stream")].

Definition watched : served (world (gmap string cell)) (answer QueueApi.status_answer) :=
  QueueApi.status demo_queue_api watching (QueueApi.MkWriter true [true; true; true; false])
    [QueueApi.Keepalive; QueueApi.Tick; QueueApi.Tick] (at_time demo_store (Hour + Minute)).

Definition streamed : list QueueApi.frame := Eval vm_compute in
  match outcome watched with inl a => match body a with QueueApi.Stream fs => fs | _ => [] end | inr _ => [] end.

Definition read_rank (e : string * string) : option (option Encode.value) :=
  kvs ← Encode.read_object e.2; Some (snd <$> List.find (fun kv => bool_decide (kv.1 = "rank")) kvs).

Lemma stream_is_read_back_witness :
  read_rank <$> read_stream (bytes (Server.sent_body (Server.wire (stream_calls streamed)))) =
    [Some (Some (Encode.JInt 1)); Some (Some (Encode.JInt 1))] /\
  (length (snapshots streamed) <= 3)%nat.
Proof.
  split; [vm_compute; reflexivity|].
  assert (Ho : outcome watched = inl (Answer 200 (QueueApi.Stream streamed) [])) by (vm_compute; reflexivity).
  exact (proj2 (proj2 (proj2 (proj2 (proj2 (proj2 (stream_is_read_back demo_queue_api watching
    (QueueApi.MkWriter true [true; true; true; false]) [QueueApi.Keepalive; QueueApi.Tick; QueueApi.Tick]
    (at_time demo_store (Hour + Minute)) _ Ho))))))).
Defined.

End Sse.
