(* ===== verification/Sales.v ===== *)
(** * Sales: no more orders than seats, over every history of the whole system

    The shards of one event, the order table, and any interleaving of queue operations on any
    shard, cycles of any controllers and order requests handled by any process, both over any
    wire, and writes to other keys.  Every order that is placed uses up one seat that an
    admission gave to that very token, so the orders are at most the seats, and the seats are
    at most what refills granted and the rate of the cycles allowed, once per execution of
    their commands. *)

From S2P Require Import Prelude.
From S2P Require Import Go.
From S2P Require Import Redis.
From S2P Require Import Keys.
From S2P Require Import Shard.
From S2P Require Import Scripts.
From S2P Require Import Slot.
From S2P Require Import Ladder.
From S2P Require Import Runs.
From S2P Require Import Frame.
From S2P Require Import Conn.
From S2P Require Import Again.
From S2P Require Import Admission.
From S2P Require Import Refine.
From S2P Require Import Token.
From S2P Require Import Http.
From S2P Require Import Orders.
From S2P Require Import Shop.
From S2P Require Import Guarantees.
From S2P Require Import Turns.
From S2P Require Import Float.
From S2P Require Import QueueStore.
From S2P Require Import Clients.
From S2P Require Import Cycles.
From S2P Require Import Surface.
Import Httpx.
Local Open Scope string_scope.
Local Open Scope Z_scope.
Local Open Scope list_scope.

(** ** The system *)

Section Sales.
Context (ev : string) (He : plain ev = true) (shop : Shop.ShopAPI) (Hshop : Admission.EventID (Shop.admission shop) = ev).
Context {S P : Type} {R : Redis S} {RL : RedisLaws S} {L : Lua S} {LL : LuaLaws S} {N : Netip} {J : Token.Jwt}
        {D : Orders.OrdersDB P} {DL : Orders.OrdersLaws P} {JS : Json Shop.OrderRequest}.
Context (cfg : Admission.Config) (qcfg : Queue.Config) (h : Controller.HealthChecker)
        (Hcfg : Admission.EventID cfg = ev) (Httl : 0 < budget_ttl cfg).

#[local] Abbreviation at_shard := (slot_of ev He).

#[local] Abbreviation happened := (happen1 ev He cfg qcfg h).
#[local] Abbreviation cycle := (round cfg qcfg h).

Inductive sale_event :=
  | Happens (e : @happening S)       (** in the queue *)
  | Buy (r : Request) (w : world S). (** handled by a process with this connection and clock *)

Definition bought (r : Request) (w : world S) (x : S * P) : served (shop_world S P) (answer Shop.OrderResponse) :=
  Shop.create shop r (ShopWorld (with_db w x.1) x.2).

Definition sale_step (e : sale_event) (x : S * P) : S * P :=
  match e with
  | Happens e => (happened e x.1, x.2)
  | Buy r w => let sw := after (bought r w x) in (db (redis_side sw), pg_side sw)
  end.

Definition sale_ok (e : sale_event) (x : S * P) : Prop :=
  match e with
  | Happens e => happen_ok1 ev He cfg qcfg h e x.1
  | Buy _ w => ready w
  end.

(** The seats given: the ticket's id and the token that holds it. *)
Definition seat_of (e : sale_event) (s : S) : list (string * string) :=
  match e with
  | Happens (Script sh (OAdmit t jti now ettl uttl dwell beats)) =>
      if seat_given (@run_op S _ (at_shard sh) (OAdmit t jti now ettl uttl dwell beats) s).2 then [(jti, t)] else []
  | _ => []
  end.

(** The seats granted: by a refill of its own, or by a cycle, whose rate, interval and reported
    factor allow that many, for each time a command of the cycle may be executed: once when
    the wire loses no answer, and otherwise once for each attempt of the client library. *)
Definition granted_by (e : sale_event) (s : S) : Z :=
  match e with
  | Happens (Script _ o) => granted o
  | Happens (Round p b w) => match (cycle p b w s).2 with Ok (_, rep, _) => Z.of_nat (times w) * cycle_total cfg rep | Err _ => 0 end
  | _ => 0
  end.

Fixpoint sales (evs : list sale_event) (x : S * P) : S * P :=
  match evs with
  | [] => x
  | e :: rest => sales rest (sale_step e x)
  end.

Fixpoint sales_ok (evs : list sale_event) (x : S * P) : Prop :=
  match evs with
  | [] => True
  | e :: rest => sale_ok e x /\ sales_ok rest (sale_step e x)
  end.

Fixpoint seat_log (evs : list sale_event) (x : S * P) : list (string * string) :=
  match evs with
  | [] => []
  | e :: rest => seat_of e x.1 ++ seat_log rest (sale_step e x)
  end.

Fixpoint all_granted (evs : list sale_event) (x : S * P) : Z :=
  match evs with
  | [] => 0
  | e :: rest => granted_by e x.1 + all_granted rest (sale_step e x)
  end.

(** ** What a request does to the slots: nothing, or one redemption *)

Lemma burned_op sh jti tok d d' : burned ev sh jti tok d d' ->
  d' = d \/ exists a t, Keys.Entry ev sh jti = @skey (at_shard a) (KEntry jti) /\
    d' = (@run_op S _ (at_shard a) (ORedeem tok jti t) d).1.
Proof.
  intros [->|(Hv & t & ->)]; [by left|right]. exists (MkShard _ (Validate_slotOf sh Hv)), t.
  assert (Hsh : forall rest, Keys.ShardTag ev (Keys.slotOf sh) = Keys.ShardTag ev sh) by (intros; unfold Keys.ShardTag; by rewrite slotOf_idem).
  split; cbn; unfold Keys.Entry, Keys.User; by rewrite ?Hsh.
Qed.

Lemma bought_spec r w x : ready w ->
  let o := bought r w x in let sw := ShopWorld (with_db w x.1) x.2 in
  (x.1 = db (redis_side (after o)) \/ exists a tok jti t, db (redis_side (after o)) = (@run_op S _ (at_shard a) (ORedeem tok jti t) x.1).1) /\
  (Orders.rows (pg_side (after o)) = Orders.rows x.2 \/
   exists c row a, Orders.rows (pg_side (after o)) = row :: Orders.rows x.2 /\
     Orders.EntryJTI row = Token.JTI c /\ Orders.TokenID row = Token.TokenID c /\
     str_of x.1 (@skey (at_shard a) (KEntry (Token.JTI c))) = Some (Token.TokenID c) /\
     str_of (db (redis_side (after o))) (@skey (at_shard a) (KEntry (Token.JTI c))) = None) /\
  (Orders.consistent (Orders.rows x.2) -> Orders.consistent (Orders.rows (pg_side (after o)))).
Proof.
  intros Hw. cbv zeta. set (sw := ShopWorld (with_db w x.1) x.2).
  destruct (create_spec shop r sw Hw) as (_ & Hrows & Hdb). change (Shop.create shop r sw) with (bought r w x) in Hrows, Hdb.
  unfold ticket_burned in Hdb. rewrite Hshop in Hdb.
  change (db (redis_side sw)) with x.1 in *. change (pg_side sw) with x.2 in *.
  assert (Hdb' : x.1 = db (redis_side (after (bought r w x))) \/ exists c a t,
    authentic (Shop.auth shop) r (Shop.entryToken r) Token.KindEntry sw = Some c /\
    ticket_key shop c = @skey (at_shard a) (KEntry (Token.JTI c)) /\
    db (redis_side (after (bought r w x))) = (@run_op S _ (at_shard a) (ORedeem (Token.TokenID c) (Token.JTI c) t) x.1).1).
  { destruct Hdb as [->|(c & Ha & _ & Hb)]; [by left|].
    destruct (burned_op _ _ _ _ _ Hb) as [->|(a & t & Hk & Hd)]; [by left|right].
    exists c, a, t. split_and!; [done| |done]. unfold ticket_key. by rewrite Hshop. }
  split_and!.
  - destruct Hdb' as [?|(c & a & t & _ & _ & ?)]; [by left|right]. eauto 6.
  - destruct Hrows as [[? _]|(c & b & Ha & _ & _ & _ & _ & (id & t & Hr & _ & _) & Hlive & Hdead)]; [by left|right].
    destruct Hdb' as [Hsame|(c' & a & t' & Ha' & Hk & _)]; [rewrite Hsame in Hlive; congruence|].
    rewrite Ha in Ha'. injection Ha' as <-. rewrite Hk in Hlive, Hdead.
    eexists c, _, a. split; [exact Hr|]. by split_and!.
  - intros Hc. destruct Hrows as [[-> _]|(c & b & _ & _ & _ & _ & _ & (id & t & -> & Hcf & _) & _)]; [done|].
    by apply Orders.consistent_cons.
Qed.

(** ** Tickets *)

Abbreviation ticket sh jti := (@skey (at_shard sh) (KEntry jti)).

(** The ticket of a successful admission; every other ticket that lives lived before. *)
Lemma ticket_step (a b : shard) o s jti tok :
  all_wf ev He s -> @op_ok S _ _ (at_shard a) o s ->
  str_of (@run_op S _ (at_shard a) o s).1 (ticket b jti) = Some tok ->
  str_of s (ticket b jti) = Some tok \/ ticket b jti = ticket a jti /\ (jti, tok) ∈ seat_of (Happens (Script a o)) s.
Proof.
  intros Hwf Hok Ht. destruct (decide (name a = name b)) as [E|Hne].
  2: { left. rewrite <- Ht. unfold str_of. by rewrite (run_op_frame (SL := at_shard a) o s _ (Hwf a) Hok (slots_apart ev He a b _ Hne)). }
  rewrite <- (skey_name ev He a b _ E) in *. destruct (issues o jti) eqn:Hi.
  2: { left. destruct (entry_kept (SL := at_shard a) o s jti (Hwf a) Hok Hi) as [<-|Hn]; [done|congruence]. }
  destruct o; try discriminate Hi. cbn [issues] in Hi. bool_to_prop. subst jti0. destruct Hok as [Hettl Huttl].
  pose proof (nat_int_or_absent _ (wf_budget (SL := at_shard a) s (Hwf a))) as Hb. cbn [seat_of].
  destruct (admit_cases (SL := at_shard a) t jti now entryTTL userTTL dwell beats s Hb)
    as [(_ & k & w & Hk & Hr)|(_ & r & Hr & Hs)]; rewrite Hr in *; cbn [fst snd] in *; [right|by left].
  destruct (seated_effect (SL := at_shard a) t jti now entryTTL userTTL s Hb Hettl Huttl) as (_ & _ & _ & _ & E5 & _).
  apply zrank_Some in Hk as (_ & _ & Hk). rewrite E5 in Ht. injection Ht as ->.
  cbn [seat_given]. rewrite bool_decide_eq_true_2, (proj2 (Z.leb_le _ _) Hk) by done. split; [done|by left].
Qed.

(** ** The invariant: every ticket that lives, and every new order, has a seat of its own *)

Definition buyer (row : Orders.Order) : string * string := (Orders.EntryJTI row, Orders.TokenID row).

Definition covered (rows0 : list Orders.Order) (log : list (string * string)) (x : S * P) : Prop :=
  exists new live, Orders.rows x.2 = new ++ rows0 /\
    (forall sh jti tok, str_of x.1 (ticket sh jti) = Some tok -> (ticket sh jti, (jti, tok)) ∈ live) /\
    (buyer <$> new) ++ live.*2 ⊆+ log.

Lemma covered_op rows0 log s p a o : all_wf ev He s -> @op_ok S _ _ (at_shard a) o s -> covered rows0 log (s, p) ->
  covered rows0 (seat_of (Happens (Script a o)) s ++ log) ((@run_op S _ (at_shard a) o s).1, p).
Proof.
  intros Hwf Hok (new & live & Hr & Hl & Hsub). exists new, (((fun t => (ticket a t.1, t)) <$> seat_of (Happens (Script a o)) s) ++ live).
  split_and!; [done| |].
  - cbn [fst]. intros sh jti tok Ht. apply elem_of_app.
    destruct (ticket_step a sh o s jti tok Hwf Hok Ht) as [Hb|[Hk Hb]]; [right; by apply Hl|left].
    apply list_elem_of_fmap. exists (jti, tok). by rewrite Hk.
  - rewrite fmap_app, <- list_fmap_compose. rewrite (list_fmap_ext _ id) by done. rewrite list_fmap_id.
    rewrite (Permutation_app_comm (seat_of _ _)), (Permutation_app_comm (seat_of _ _)), app_assoc. by apply submseteq_app.
Qed.

Lemma covered_same rows0 log s s' p p' : covered rows0 log (s, p) -> Orders.rows p' = Orders.rows p ->
  (forall sh jti, str_of s' (ticket sh jti) = str_of s (ticket sh jti)) -> covered rows0 log (s', p').
Proof.
  intros (new & live & Hr & Hl & Hsub) Hp Hs. exists new, live. cbn [fst snd] in *. rewrite Hp. split_and!; [done| |done].
  intros sh jti tok. rewrite Hs. apply Hl.
Qed.

(** An order uses up the seat of its ticket. *)
Lemma covered_order rows0 log s s' p p' row a : covered rows0 log (s, p) -> Orders.rows p' = row :: Orders.rows p ->
  str_of s (ticket a (Orders.EntryJTI row)) = Some (Orders.TokenID row) ->
  str_of s' (ticket a (Orders.EntryJTI row)) = None ->
  (forall sh jti tok, str_of s' (ticket sh jti) = Some tok -> str_of s (ticket sh jti) = Some tok) ->
  covered rows0 log (s', p').
Proof.
  intros (new & live & Hr & Hl & Hsub) Hp Hlive Hdead Hkept. cbn [fst snd] in *.
  destruct (proj1 (elem_of_Permutation live _) (Hl _ _ _ Hlive)) as [rest Hrest].
  exists (row :: new), rest. cbn [fst snd]. split_and!.
  - by rewrite Hp, Hr.
  - intros sh jti tok Ht. specialize (Hl _ _ _ (Hkept _ _ _ Ht)). rewrite Hrest in Hl.
    apply elem_of_cons in Hl as [E%(f_equal fst)|?]; [|done]. cbn [fst] in E. congruence.
  - rewrite Hrest in Hsub. rewrite fmap_cons in *. cbn [snd app] in *. by rewrite Permutation_middle.
Qed.

(** ** One event *)

Definition sound (rows0 : list Orders.Order) (log : list (string * string)) (x : S * P) : Prop :=
  all_wf ev He x.1 /\ covered rows0 log x /\ (Orders.consistent rows0 -> Orders.consistent (Orders.rows x.2)).

Lemma bought_kept r w x sh jti tok : ready w -> all_wf ev He x.1 ->
  str_of (sale_step (Buy r w) x).1 (ticket sh jti) = Some tok -> str_of x.1 (ticket sh jti) = Some tok.
Proof.
  intros Hw Hwf. cbn [sale_step fst]. destruct (bought_spec r w x Hw) as ([<-|(a & t' & j & t & ->)] & _); [done|].
  intros Ht. by destruct (ticket_step a sh (ORedeem t' j t) x.1 jti tok Hwf I Ht) as [|[_ ?%elem_of_nil]].
Qed.

Lemma sound_aside rows0 log s s' p : slots_same ev He s s' -> sound rows0 log (s, p) -> sound rows0 log (s', p).
Proof.
  intros Hs (Hwf & Hc & Hcons). split_and!; [by eapply slots_same_wf|apply (covered_same rows0 log s s' p p); try done|done].
  intros sh jti. unfold str_of. by rewrite Hs.
Qed.

Lemma sound_op rows0 log s p a o : @op_ok S _ _ (at_shard a) o s -> sound rows0 log (s, p) ->
  sound rows0 (seat_of (Happens (Script a o)) s ++ log) ((@run_op S _ (at_shard a) o s).1, p).
Proof. intros Hok (Hwf & Hc & Hcons). split_and!; [by apply all_wf_op|by apply covered_op|done]. Qed.

(** A cycle is a run of refills, none of which gives a seat. *)
Lemma sound_refills rows0 log s l s' p : refills ev He cfg s l s' -> sound rows0 log (s, p) -> sound rows0 log (s', p).
Proof.
  induction 1 as [s|s s1 l s' Hs _ IH|s a g l s' _ IH]; intros Hw; [done|by apply IH, (sound_aside _ _ s)|].
  apply IH. exact (sound_op rows0 log s p a (refill_op cfg g) Httl Hw).
Qed.

Lemma cycle_report p b w s : ready w -> exists b' rep err l,
  (cycle p b w s).2 = Ok (b', rep, err) /\ refills ev He cfg s l (db (cycle p b w s).1) /\
  repeats (times w) (named <$> l) (due_shards cfg qcfg rep s).
Proof.
  intros Hw. assert (Hw' : ready (with_db w s)) by (by eapply ready_same).
  destruct (cycle_refills ev He cfg qcfg h Hcfg Httl p b (with_db w s) Hw') as (b' & rep & err & E & (l & H1 & H2 & _) & _).
  by exists b', rep, err, l.
Qed.

Lemma sound_step rows0 log e x : sale_ok e x -> sound rows0 log x -> sound rows0 (seat_of e x.1 ++ log) (sale_step e x).
Proof.
  destruct x as [s p]. intros Hok Hs. destruct e as [[a o|s'|pr b w]|r w]; cbn [sale_ok happen_ok1 fst] in Hok.
  - by apply sound_op.
  - by apply (sound_aside _ _ s).
  - destruct Hok as [Hw _]. destruct (cycle_report pr b w s Hw) as (_ & _ & _ & l & _ & Hl & _). by apply (sound_refills _ _ s l).
  - pose proof (bought_kept r w (s, p)) as Hkept. destruct Hs as (Hwf & Hc & Hcons). cbn [sale_step seat_of fst snd app] in *. cbv zeta in *.
    destruct (bought_spec r w (s, p) Hok) as (Hdb & Hrows & Hcs). cbn [fst snd] in *. split_and!; [| |auto].
    + destruct Hdb as [<-|(a & t' & j & t & ->)]; [done|by apply all_wf_op].
    + destruct Hrows as [Hr|(c & row & a & Hr & Hj & Ht & Hlive & Hdead)].
      * destruct Hc as (new & live & Hn & Hl & Hsub). exists new, live. cbn [fst snd] in *. rewrite Hr. eauto 8.
      * rewrite <- Hj, <- Ht in *. eapply covered_order; eauto.
Qed.

Lemma sound_sales rows0 evs log x : sales_ok evs x -> sound rows0 log x ->
  exists log', log' ≡ₚ seat_log evs x ++ log /\ sound rows0 log' (sales evs x).
Proof.
  revert log x. induction evs as [|e evs IH]; intros log x; [by exists log|]. intros [Hok Hrest] Hs. cbn [seat_log sales].
  destruct (IH _ _ Hrest (sound_step rows0 log e x Hok Hs)) as (log' & Hp & Hs'). exists log'. split; [|done].
  rewrite Hp, !app_assoc. by rewrite (Permutation_app_comm (seat_log _ _)).
Qed.

(** ** The seats are at most what was granted *)

#[local] Abbreviation budgets := (budgets ev He).

Definition shards_of (evs : list sale_event) : list shard :=
  omap (fun e => match e with Happens (Script sh _) => Some sh | _ => None end) evs.

Lemma seat_count a o s : Z.of_nat (length (seat_of (Happens (Script a o)) s)) = @seats S _ (at_shard a) o s.
Proof. destruct o; try done. cbn [seat_of seats]. by case_match. Qed.

Lemma budgets_step shs e x : NoDup (name <$> shs) -> (forall a o, e = Happens (Script a o) -> name a ∈ name <$> shs) ->
  all_wf ev He x.1 -> sale_ok e x ->
  budgets shs (sale_step e x).1 + Z.of_nat (length (seat_of e x.1)) <= budgets shs x.1 + granted_by e x.1.
Proof.
  intros Hnd Ha Hwf Hok. destruct e as [[a o|s'|p b w]|r w]; cbn [sale_ok happen_ok1 granted_by sale_step happen1 fst] in *.
  - rewrite seat_count. apply (budgets_op ev He); [done..|reflexivity|left]. by eapply Ha.
  - rewrite (budgets_same ev He shs x.1 s' Hok). cbn. lia.
  - destruct Hok as [Hw Hlt]. destruct (cycle_report p b w x.1 Hw) as (b' & rep & err & l & E & Hl & Hs). unfold reports in Hlt. rewrite E in *.
    pose proof (budgets_refills ev He cfg Httl shs _ l _ Hnd Hl (refilled_nonneg cfg qcfg _ x.1 rep l Hlt Hs) Hwf).
    pose proof (refilled_total cfg qcfg _ x.1 rep l Hlt Hs). cbn. lia.
  - destruct (bought_spec r w x Hok) as ([Hs|(a & t & j & t' & Hs)] & _); cbn in Hs |- *.
    + rewrite <- Hs. lia.
    + rewrite Hs. apply (budgets_op ev He shs a (ORedeem t j t') x.1 0); [done..|by right].
Qed.

Lemma budgets_sales rows0 shs evs log x : NoDup (name <$> shs) -> (name <$> shards_of evs) ⊆ (name <$> shs) ->
  sales_ok evs x -> sound rows0 log x ->
  budgets shs (sales evs x).1 + Z.of_nat (length (seat_log evs x)) <= budgets shs x.1 + all_granted evs x.
Proof.
  intros Hnd. revert log x. induction evs as [|e evs IH]; intros log x Hin; [intros; cbn; lia|]. intros [Hok Hrest] Hs.
  cbn [sales seat_log all_granted]. rewrite length_app, Nat2Z.inj_add.
  assert (Hin' : (name <$> shards_of evs) ⊆ (name <$> shs)).
  { etrans; [|exact Hin]. destruct e as [[]|]; cbn; set_solver. }
  specialize (IH _ _ Hin' Hrest (sound_step rows0 log e x Hok Hs)).
  assert (Ha : forall a o, e = Happens (Script a o) -> name a ∈ name <$> shs) by (intros a o ->; apply Hin; cbn; set_solver).
  pose proof (budgets_step shs e x Hnd Ha (proj1 Hs) Hok). lia.
Qed.

Lemma budgets_empty shs s : (forall sh, @empty_slot S _ _ (at_shard sh) s) -> budgets shs s = 0.
Proof.
  intros Hs. induction shs as [|sh shs IH]; [done|].
  change (@budget_of S _ _ (at_shard sh) s + budgets shs s = 0). rewrite IH. unfold budget_of, str_of. by rewrite (Hs sh).
Qed.

(** One shard of each name. *)
Lemma one_of_each (l : list shard) : exists l', NoDup (name <$> l') /\ (name <$> l) ⊆ (name <$> l').
Proof.
  induction l as [|sh l (l' & Hnd & Hin)]; [by exists []; split; [constructor|]|].
  destruct (decide (name sh ∈ name <$> l')) as [Hs|Hs].
  - exists l'. split; [done|]. cbn. set_solver.
  - exists (sh :: l'). split; [by constructor|]. cbn. set_solver.
Qed.

(** C3: no more orders than seats.  Start from slots that are empty, and let anything happen
    in any order: queue operations on any shard of the event, cycles of any controllers, order
    requests handled by any process, over any wire, writes to other keys.  Then every new
    order belongs to a seat of its own, given by an admission to the token that bought, under
    the ticket it used; so the orders are at most the seats, which are at most what the
    refills granted and what the rate, the interval and the factor of each cycle allowed: once
    if the wire of the cycle loses no answer, and otherwise as many times as the client library
    attempts a command, since a refill is executed again with every attempt.  The table stays
    free of clashes. *)
Theorem orders_within_seats evs s0 p0 :
  (forall sh, @empty_slot S _ _ (at_shard sh) s0) -> sales_ok evs (s0, p0) ->
  let x := sales evs (s0, p0) in let log := seat_log evs (s0, p0) in
  exists new, Orders.rows x.2 = new ++ Orders.rows p0 /\ buyer <$> new ⊆+ log /\
    (length new <= length log)%nat /\ Z.of_nat (length log) <= all_granted evs (s0, p0) /\
    (Orders.consistent (Orders.rows p0) -> Orders.consistent (Orders.rows x.2)).
Proof.
  intros Hempty Hok. cbv zeta.
  assert (Hs : sound (Orders.rows p0) [] (s0, p0)).
  { split_and!; [intros sh; by apply (empty_slot_wf (SL := at_shard sh))| |done]. exists [], []. split_and!; [done| |done].
    intros sh jti tok. cbn [fst]. unfold str_of. by rewrite (Hempty sh). }
  destruct (one_of_each (shards_of evs)) as (shs & Hnd & Hin).
  pose proof (budgets_sales _ shs evs [] (s0, p0) Hnd Hin Hok Hs) as Hbud.
  destruct (sound_sales _ evs [] (s0, p0) Hok Hs) as (log' & Hlog & Hwf & (new & live & Hr & _ & Hsub) & Hcons).
  rewrite app_nil_r in Hlog. rewrite Hlog in Hsub. exists new.
  assert (Hnew : buyer <$> new ⊆+ seat_log evs (s0, p0)) by (etrans; [|exact Hsub]; by apply submseteq_inserts_r).
  split_and!; [done..| | |done].
  - apply submseteq_length in Hnew. by rewrite length_fmap in Hnew.
  - pose proof (budgets_empty shs s0 Hempty).
    assert (0 <= budgets shs (sales evs (s0, p0)).1); [|cbn [fst] in *; lia].
    apply sumZ_nonneg, list.Forall_fmap, list.Forall_forall. intros sh _. apply (budget_nonneg (SL := at_shard sh)), Hwf.
Qed.

End Sales.

(** ** A concrete history: one seat, two requests for it *)

Import MemStore MemLua Token.TestJwt Orders.MemTable.
#[local] Existing Instances demo_netip demo_order.

(** "ann" joins, is indexed, and is given a seat by a cycle. *)
Definition first_in_line : gmap string cell :=
  (run_op (OEnqueue "ann" "s0001" 10 100 7 1000 "fp" "ip" 5000) (∅ : gmap string cell)).1.

Definition one_sale : list (@sale_event (gmap string cell)) :=
  [Happens (Script s0001 (OEnqueue "ann" "s0001" 10 100 7 1000 "fp" "ip" 5000)); Happens (Aside (SADD (Keys.Shards "show") "s0001" first_in_line));
   Happens a_cycle;
   Happens (Script s0001 (OAdmit "ann" "j1" 300 300000 500000 0 0));
   Buy buying (at_time ∅ (Hour + Minute)); Buy buying (at_time ∅ (Hour + Minute))].

Definition sold : gmap string cell * list Orders.Order := sales "show" eq_refl demo_shop slow_admission demo_queue Controller.NoopHealth one_sale (∅, []).

Lemma orders_within_seats_witness :
  (length sold.2, seat_log "show" eq_refl demo_shop slow_admission demo_queue Controller.NoopHealth one_sale (∅, []),
   all_granted "show" eq_refl demo_shop slow_admission demo_queue Controller.NoopHealth one_sale (∅, [])) = (1%nat, [("j1", "ann")], 1) /\
  Orders.consistent (Orders.rows sold.2).
Proof.
  split; [vm_compute; reflexivity|].
  assert (Hok : sales_ok "show" eq_refl demo_shop slow_admission demo_queue Controller.NoopHealth one_sale (∅, [])).
  { split; [vm_compute; intuition (congruence || done)|]. split; [|repeat (split; [vm_compute; intuition (congruence || done)|]); exact I].
    intros sh x. cbn [cell_of mem_redis_laws sale_step happen1 fst]. change (happen1 "show" eq_refl _ _ _ _ _) with first_in_line.
    cbn [SADD mem_redis]. rewrite look_modify. unfold upd. rewrite decide_False; [done|]. intros E. by apply (index_foreign "show" eq_refl sh x). }
  assert (Hempty : forall sh, @empty_slot _ _ _ (slot_of "show" eq_refl sh) (∅ : gmap string cell)) by (intros sh k; reflexivity).
  destruct (orders_within_seats "show" eq_refl demo_shop eq_refl slow_admission demo_queue Controller.NoopHealth eq_refl eq_refl one_sale ∅ [] Hempty Hok)
    as (new & _ & _ & _ & _ & Hc).
  unfold sold. apply Hc. intros i j a b Hi. by destruct i.
Defined.
